(* ===== verification/_CoqProject ===== *)
-Q . S2P
Prelude.v
Mem.v
Console.v
MemMgr.v
PageTable.v
VMem.v
TloadKif.v
TloadStdlib.v
CmdLine.v
TloadSegs.v
TloadElf.v
TloadImage.v
Boot.v
BootMap.v
KifBoot.v
Kmain.v
KmainBoots.v
UDivMod.v
Crc32.v
Guid.v
MkGpt.v
LibcString.v
EfiVMem.v
EfiElf.v
Printf.v
Strto.v
EfiHeap.v
EfiFile.v
EfiLoad.v
EwScreen.v
EwWindow.v
EwTree.v
EwCompose.v
EwText.v
EwFont.v
EwProgress.v
