(* ===== verification/Prelude.v ===== *)
(** * Tysos boot loaders and disk-image tools: a verification development

    Tysos is an operating system whose kernel is written in C#; the C code of
    the repository is what brings it up.  This library models that code,
    operation by operation, and proves what makes it correct.

    ** The program and its parts

    - [tload] (src/tload): the BIOS loader, 32-bit code entered by a multiboot
      loader.  main.c reads the multiboot header and tells the physical memory
      manager (memmgr.c, with the bump heap malloc.c) what is where; cmdline.c
      parses the command line; elf.c loads the 64-bit kernel through vmem.c,
      which builds page tables with pages from the memory manager; main.c then
      maps the loader to itself, has kif.c describe the machine in the layout
      of the managed kernel, and switches to long mode.  console.c is its
      text output, stdlib.c its C library.
    - The EFI loader (src/efiloader): load.c and modules.c read the kernel and
      its modules from files, elf.c loads the kernel's segments; they take pages
      from the firmware (pmem_alloc.c) and record virtual regions (vmem.c), from
      which vmem.c builds the page tables in one pass.
    - The C library under the EFI loader (src/tload/tloadefi/efilibc), and the
      window library of its boot menu (src/tload/tloadefi/efiwindow): windows
      in a tree, each with its own pixels, composed in a back buffer, with
      rectangles, text boxes and progress bars.
    - src/tloadkif.c: objects in the layout of the managed kernel, built by
      the loaders on their heaps.
    - mkgpt (src/tload/mkgpt): a host tool that puts partition files into a
      disk image with a GUID partition table.
    - src/grub-loader: 64-bit division for the 32-bit GRUB build.

    ** Files and what they model

    - Prelude, Mem: machine integers as [Z] with their wraps, the outcome and
      state monads ([Done], [Undef] for undefined behaviour, [Hang] for a
      loop out of fuel and for a failed assert of efilibc), weakest
      preconditions and their tactics; memory as a finite map of bytes with
      little-endian accesses.
    - Console: console.c; the state is the 80x25 text memory, the cursor and
      the cursor registers.
    - MemMgr: memmgr.c and malloc.c; the state [tload] holds the page bitmap,
      the doubly linked memory map as a heap of nodes (a [None] link is an
      uninitialised pointer), the heap bounds, the console and memory.
    - PageTable: what the processor does with page tables (walk, leaf,
      translate) and the tree of tables; VMem: vmem.c against the class
      [Pager], of which [tload] is an instance.
    - TloadKif: tloadkif.c against the class [Heap]; TloadStdlib: stdlib.c;
      CmdLine: cmdline.c over the same class.
    - TloadSegs, TloadElf: elf.c, with the ELF headers read from memory;
      TloadImage: an image in two memories that agree on it.
    - Boot, BootMap: [setup_mm] and [identity_map_tload] of main.c; KifBoot:
      kif.c; Kmain: [kmain] of main.c and decompress.c, the whole loader as one
      run over the states of its parts; KmainBoots: the theorems on it.
    - UDivMod: udivmoddi4.c, udivdi3.c, umoddi3.c.
    - Crc32, Guid, MkGpt: crc32.c, guid.c with fstypes.c, and mkgpt.c.
    - LibcString, Printf, Strto: string.c, printf.c and the integer
      conversions (strtol.c, strtoll.c, strtoull.c, atoi.c) of efilibc.
    - EfiVMem: vmem.c and pmem_alloc.c of the EFI loader against the class of
      a firmware with AllocatePages; EfiElf: its elf.c.
    - EfiHeap: malloc.c of efilibc against the class [Pool] of the firmware's
      allocator, with the class [CHeap] for its clients; EfiFile: file.c of
      efilibc over that heap and the class [EfiFileOps] of the firmware's file
      protocol, its state [io] the streams and the table of descriptors; EfiLoad:
      modules.c and load.c of the EFI loader over both, with [BootServices] for
      a firmware whose pool and pages share one memory; EwScreen: blending and
      the frame buffer of screen.c; EwWindow: windowlist.c, efiwindow.c and
      ewrect.c; EwTree: the window tree; EwCompose: what is on the screen;
      EwText: textbox.c and the glyphs of psffont.c, with a text box next to
      the windows and the memory it lives in, so that writing to it redraws
      through [ew_invalidate_rect]; EwFont: the font files of psffont.c;
      EwProgress: the rectangles and the caption of progress.c.

    Definitions carry the names of the C functions; a definition that stands
    for a part of a function (a loop, a branch) says so.

    ** What the theorems show

    - Booting (KmainBoots): from a multiboot header to the jump, [kmain]
      always enters the kernel, with the address space and the description of
      the machine the kernel needs; where it does not boot, it says why and
      leaves what was reserved (the endless loop after the message about the
      processor is the result [Halted]).  The proof composes the
      specifications of the parts below; each part's invariant carries the
      spare frames and heap the later parts need.
    - Loading (TloadElf, TloadSegs, EfiElf): afterwards every byte of every
      loadable segment, read through the page tables or the region list, is
      the byte of the file or 0, and nothing else in use was touched; symbol
      lookup with its cache equals a search of the table.
    - Files (EfiFile, EfiLoad): the streams implement a table of open files,
      and only the assert of [fopen] on a lack of memory stops them; modules reach
      memory whole, in the region that is reported; the kind of the kernel
      file is told by its first bytes.
    - Paging (VMem, EfiVMem, BootMap): the tables built refine the abstract
      mapping they were asked for, and every other address translates as
      before; regions never overlap; identity mapping covers the loader.
    - Memory (MemMgr, Boot): the bitmap says exactly what was told to it, the
      first fit is found, the linked map is well formed and describes exactly
      the regions recorded; setup from a multiboot header gives that state.
    - mkgpt (Crc32, Guid, MkGpt): the checksum is CRC-32; GUIDs round-trip
      through text; the layout is valid, and the image is a GPT disk: protective
      MBR, both headers, entry arrays byte for byte, and the partitions.
    - Libraries (LibcString, Printf, Strto, TloadStdlib, UDivMod, TloadKif,
      CmdLine, Console): each routine equals its reference definition; the
      format interpreter terminates; numbers saturate; the console refines a
      scrolling terminal and tells the CRT controller where its cursor is.
    - Boot menu (EfiHeap, EwScreen, EwTree, EwCompose): the heap refines a map
      of blocks; the windows stay a tree; redrawing a rectangle shows the
      visible windows one over the other; blending is exact at the ends.  Text
      boxes (EwText) stay well formed, give back their text, and change no pixel
      outside their area; fonts (EwFont) are loaded as the file has
      them; the progress bar (EwProgress) is the percentage it shows.
    - Defects: some theorems state what the code does where it differs from
      what it means (glyphs are drawn with a negative shift, division without
      the endianness macro, the top page that is never marked, [sprintf]
      without a terminator, unaligned regions that block the page tables,
      a blank after the [=] of the command line that loses the value, text box
      alignments that leave the buffer, and others).

    ** Bounds and fuel

    Loops whose length the data decide take [fuel] and give [Hang] without
    it; every theorem about such code proves that it returns, with a bound on
    the fuel stated in terms of the data (the length of a string, the number
    of headers or of pages) or computed by the definition itself where the
    code's own bound is known.  Integers are wrapped at the width of their C
    type: 32-bit pointers and [long] in [tload], 64-bit pointers and 32-bit
    [long] in the EFI code, which is compiled for mingw.

    ** Parameters

    What the code calls outside the repository is a parameter with the
    documented behaviour as hypotheses or class laws: AllocatePages,
    AllocatePool, FreePool and the file protocol under UEFI, the host's files
    and random numbers in mkgpt, the mouse cursor of the boot menu (its source
    is not in the repository), the processor test [detect64], the decompressor of bzip2, and
    the functions of the tloadkif.c that the build generates for [tload]
    ([kif_laws]).  The assembly [go64] ends a run of [kmain].
    Every class has an instance and every hypothesis a witness.

    ** Not modelled

    - The EFI build of [tload] (firmware calls), its assembly and [profile];
      a compressed kernel is modelled, but the theorem on [kmain] is about one
      that is not compressed.
    - main.c, cfg.c and kif.c of the EFI loader, the first EFI loader in
      src/tload/tloadefi, and src/grub-loader apart from the division: sequences of calls into firmware, GRUB or libconfuse.
    - In efilibc: console and serial port (wrappers of firmware protocols),
      scanf, and the conversion of floating point numbers.
    - In efiwindow: the start-up and mode switches (firmware), bitmaps (libpng),
      and the windows that text boxes and progress bars are made of.
    - The managed kernel, compiler and processes (C#), and vendored code
      (bzip2, FatFs, libpng, zlib, msun, libconfuse).
    - [_DEBUG] traces and the text of messages, except what [tload] prints
      through its console model. *)

From stdpp Require Import base numbers list gmap strings.
From Stdlib Require Import Lia Sorting.Sorted.
Open Scope Z_scope.

(** ** Machine integers

    A [w]-bit C integer is a [Z]; every operation that can leave the range
    is followed by the wrap of its type. *)
Definition u8 (x : Z) : Z := x mod 256.
Definition u16 (x : Z) : Z := x mod 65536.
Definition u32 (x : Z) : Z := x mod 4294967296.
Definition u64 (x : Z) : Z := x mod 18446744073709551616.

(** Two's complement readings of the low bits. *)
Definition s8 (x : Z) : Z := (x + 128) mod 256 - 128.
Definition s16 (x : Z) : Z := (x + 32768) mod 65536 - 32768.
Definition s32 (x : Z) : Z := (x + 2147483648) mod 4294967296 - 2147483648.
Definition s64 (x : Z) : Z :=
  (x + 9223372036854775808) mod 18446744073709551616 - 9223372036854775808.

(** The C truth value of an [int]. *)
Definition truth (x : Z) : bool := negb (x =? 0).

Ltac wraps := unfold u8, u16, u32, u64, s8, s16, s32, s64 in *.
(** Linear arithmetic with [/] and [mod] by constants. *)
Ltac dlia := Z.div_mod_to_equations; lia.
Ltac mlia := wraps; dlia.

(** Turn every boolean comparison in sight into the proposition it decides. *)
Ltac bdestr_step :=
  match goal with
  | H : context [?a =? ?b] |- _ => destruct (Z.eqb_spec a b)
  | H : context [?a <? ?b] |- _ => destruct (Z.ltb_spec a b)
  | H : context [?a <=? ?b] |- _ => destruct (Z.leb_spec a b)
  | |- context [?a =? ?b] => destruct (Z.eqb_spec a b)
  | |- context [?a <? ?b] => destruct (Z.ltb_spec a b)
  | |- context [?a <=? ?b] => destruct (Z.leb_spec a b)
  end.
Ltac bdestr := repeat (bdestr_step; try done).

Create HintDb widths.
Create Rewrite HintDb widths.

Lemma u8_range x : 0 <= u8 x < 256.
Proof. mlia. Qed.
Lemma u16_range x : 0 <= u16 x < 65536.
Proof. mlia. Qed.
Lemma u32_range x : 0 <= u32 x < 4294967296.
Proof. mlia. Qed.
Lemma u64_range x : 0 <= u64 x < 18446744073709551616.
Proof. mlia. Qed.
Lemma s32_range x : -2147483648 <= s32 x < 2147483648.
Proof. mlia. Qed.
#[export] Hint Resolve u8_range u16_range u32_range u64_range s32_range : widths.

Lemma u8_small x : 0 <= x < 256 → u8 x = x.
Proof. apply Z.mod_small. Qed.
Lemma u16_small x : 0 <= x < 65536 → u16 x = x.
Proof. apply Z.mod_small. Qed.
Lemma u32_small x : 0 <= x < 4294967296 → u32 x = x.
Proof. apply Z.mod_small. Qed.
Lemma u64_small x : 0 <= x < 18446744073709551616 → u64 x = x.
Proof. apply Z.mod_small. Qed.
Lemma s32_small x : -2147483648 <= x < 2147483648 → s32 x = x.
Proof. mlia. Qed.
Lemma s64_small x : -9223372036854775808 <= x < 9223372036854775808 → s64 x = x.
Proof. mlia. Qed.
#[export] Hint Rewrite -> u8_small u16_small u32_small u64_small s32_small s64_small
  using lia : widths.

Lemma u8_idemp x : u8 (u8 x) = u8 x.
Proof. apply u8_small, u8_range. Qed.

(** ** Outcomes of C code

    [Hang] is a loop that never ends (or a deliberate [while(1);]); [Undef]
    is an access the C standard leaves undefined, such as following an
    uninitialised pointer. *)
Inductive outcome (A : Type) : Type :=
| Done (a : A)
| Hang
| Undef.
Arguments Done {A} a.
Arguments Hang {A}.
Arguments Undef {A}.

Definition obind {A B : Type} (c : outcome A) (k : A → outcome B) : outcome B :=
  match c with Done a => k a | Hang => Hang | Undef => Undef end.

Declare Scope outcome_scope.
Notation "x ⇐ c ; k" := (obind c (λ x, k))
  (at level 20, c at level 100, k at level 200, right associativity) : outcome_scope.

(** A C function over the state [S]. *)
Definition M (S A : Type) : Type := S → outcome (A * S).
Definition ret {S A} (a : A) : M S A := λ s, Done (a, s).
Definition bind {S A B} (c : M S A) (k : A → M S B) : M S B :=
  λ s, obind (c s) (λ p, k p.1 p.2).
Definition get {S} : M S S := λ s, Done (s, s).
Definition modify {S} (f : S → S) : M S unit := λ s, Done (tt, f s).
Definition hang {S A} : M S A := λ _, Hang.
Definition undef {S A} : M S A := λ _, Undef.
Definition lift {S A} (c : outcome A) : M S A := λ s, obind c (λ a, Done (a, s)).

#[export] Instance M_ret S : MRet (M S) := λ A, ret.
#[export] Instance M_bind S : MBind (M S) := λ A B k c, bind c k.

(** Total correctness: [c] terminates from [s] without undefined behaviour,
    in a result and state satisfying [Q]. *)
Definition wp {S A} (c : M S A) (Q : A → S → Prop) (s : S) : Prop :=
  match c s with Done (a, s') => Q a s' | _ => False end.

Create HintDb wp.

Section wp_rules.
Context {S A B : Type}.
Implicit Types (s : S).

Lemma wp_ret (a : A) (Q : A → S → Prop) s : Q a s → wp (ret a) Q s.
Proof. done. Qed.

Lemma wp_bind (c : M S A) (k : A → M S B) Q s :
  wp c (λ a s', wp (k a) Q s') s → wp (c ≫= k) Q s.
Proof.
  unfold wp, mbind, M_bind, bind, obind. by destruct (c s) as [[a s']| |].
Qed.

Lemma wp_get (Q : S → S → Prop) s : Q s s → wp get Q s.
Proof. done. Qed.

Lemma wp_modify (f : S → S) (Q : unit → S → Prop) s : Q tt (f s) → wp (modify f) Q s.
Proof. done. Qed.

Lemma wp_lift (a : A) c (Q : A → S → Prop) s :
  c = Done a → Q a s → wp (lift c) Q s.
Proof. intros ->. done. Qed.

Lemma wp_mono (c : M S A) (P Q : A → S → Prop) s :
  wp c P s → (∀ a s', P a s' → Q a s') → wp c Q s.
Proof. unfold wp. destruct (c s) as [[a s']| |]; auto. Qed.

Lemma wp_elim (c : M S A) Q s : wp c Q s → ∃ a s', c s = Done (a, s') ∧ Q a s'.
Proof. unfold wp. destruct (c s) as [[a s']| |]; [eauto|done|done]. Qed.

Lemma wp_intro (c : M S A) Q s a s' : c s = Done (a, s') → Q a s' → wp c Q s.
Proof. unfold wp. by intros ->. Qed.
End wp_rules.
#[export] Hint Resolve wp_ret wp_get wp_modify : wp.

(** Step through the next primitive of a program under [wp]. *)
Ltac wp_step :=
  match goal with
  | |- wp (mbind _ _) _ _ => apply wp_bind
  | |- wp (ret _) _ _ => apply wp_ret
  | |- wp (mret _) _ _ => apply wp_ret
  | |- wp get _ _ => apply wp_get
  | |- wp (modify _) _ _ => apply wp_modify
  end; cbn beta.
Ltac wp_steps := repeat wp_step.

(** [while (cond) body], the loop variables threaded through. *)
Fixpoint while {S A} (fuel : nat) (cond : A → M S bool) (body : A → M S A) (a : A) : M S A :=
  match fuel with
  | O => hang
  | Datatypes.S fuel =>
      b ← cond a;
      if b : bool then a' ← body a; while fuel cond body a' else mret a
  end.

(** Invariant and measure: enough fuel makes the loop end. *)
Lemma wp_while {S A} (I : A → S → Prop) (V : A → nat) (Q : A → S → Prop)
    (cond : A → M S bool) (body : A → M S A) fuel a s :
  (∀ a s, I a s → wp (cond a) (λ b s1,
     if b then wp (body a) (λ a' s', I a' s' ∧ (V a' < V a)%nat) s1 else Q a s1) s) →
  I a s → (V a < fuel)%nat → wp (while fuel cond body a) Q s.
Proof.
  intros Hstep. revert a s. induction fuel as [|fuel IH]; intros a s HI Hf; [lia|].
  cbn [while]. apply wp_bind. eapply wp_mono; [by apply Hstep|]. intros [] s1 H1; [|by apply wp_ret].
  apply wp_bind. eapply wp_mono; [exact H1|]. cbv beta. intros a' s' [HI' HV]. apply IH; [done|lia].
Qed.

(** The state and result of a call that returns. *)
Definition run {S A} (c : M S A) (d : A) (s : S) : A * S :=
  match c s with Done p => p | _ => (d, s) end.

Lemma wp_run {S A} (c : M S A) d Q s : wp c Q s → Q (run c d s).1 (run c d s).2.
Proof. unfold wp, run. by destruct (c s) as [[a s']| |]. Qed.

(** ** Bits *)
Lemma testbit_shiftl_1 n i : 0 <= n → 0 <= i → Z.testbit (Z.shiftl 1 n) i = (i =? n).
Proof.
  intros Hn Hi. rewrite Z.shiftl_1_l.
  destruct (Z.eqb_spec i n) as [->|Hne].
  - by apply Z.pow2_bits_true.
  - apply Z.pow2_bits_false. lia.
Qed.

Lemma testbit_u32 x i : 0 <= i < 32 → Z.testbit (u32 x) i = Z.testbit x i.
Proof.
  intros Hi. unfold u32. change 4294967296 with (2 ^ 32).
  apply Z.mod_pow2_bits_low. lia.
Qed.

(** Clearing the low [n] bits: [x & ~(2^n - 1)] is [x] rounded down. *)
Lemma land_lnot_mask x n : 0 <= n → Z.land x (Z.lnot (2 ^ n - 1)) = x - x mod 2 ^ n.
Proof.
  intros Hn.
  replace (2 ^ n - 1) with (Z.ones n) by (rewrite Z.ones_equiv; lia).
  rewrite <- Z.ldiff_land, <- (Z.land_ones x n) by done.
  apply Z.add_move_r. rewrite Z.add_nocarry_lxor.
  - apply Z.bits_inj'. intros i Hi.
    rewrite Z.lxor_spec, Z.ldiff_spec, Z.land_spec.
    by destruct (Z.testbit x i), (Z.testbit (Z.ones n) i).
  - apply Z.bits_inj'. intros i Hi.
    rewrite Z.land_spec, Z.ldiff_spec, Z.land_spec, Z.bits_0.
    by destruct (Z.testbit x i), (Z.testbit (Z.ones n) i).
Qed.

(** [x & ~0xfff] on 64 bits. *)
Lemma page_mask x : 0 <= x < 2 ^ 64 → Z.land x (u64 (Z.lnot 0xfff)) = x - x mod 4096.
Proof.
  intros Hx. change (u64 (Z.lnot 0xfff)) with (Z.land (Z.ones 64) (Z.lnot (2 ^ 12 - 1))).
  by rewrite Z.land_assoc, Z.land_ones, (Z.mod_small _ (2 ^ 64)), land_lnot_mask by lia.
Qed.

(** ** Counted loops

    [for (k = i; n iterations; k++) s = f k s]. *)
Fixpoint for_up {S : Type} (n : nat) (i : Z) (f : Z → S → S) (s : S) : S :=
  match n with
  | O => s
  | Datatypes.S n => for_up n (i + 1) f (f i s)
  end.

Lemma for_up_ind {S : Type} (P : Z → S → Prop) (f : Z → S → S) n i s :
  P i s →
  (∀ k s, i <= k < i + Z.of_nat n → P k s → P (k + 1) (f k s)) →
  P (i + Z.of_nat n) (for_up n i f s).
Proof.
  revert i s. induction n as [|n IH]; intros i s H0 Hstep; cbn [for_up].
  - by rewrite Z.add_0_r.
  - replace (i + Z.of_nat (Datatypes.S n)) with (i + 1 + Z.of_nat n) by lia.
    apply IH.
    + apply Hstep; [lia|done].
    + intros k s' Hk. apply Hstep. lia.
Qed.

(** The characters of a string literal, as the bytes the compiler stores
    (without the terminator). *)
Definition cstr (s : string) : list Z :=
  (λ c, Z.of_nat (Ascii.nat_of_ascii c)) <$> String.list_ascii_of_string s.

Lemma testbit_high b n i : 0 <= b < 2 ^ n → 0 <= n <= i → Z.testbit b i = false.
Proof.
  intros Hb Hi. rewrite <- (Z.mod_small b (2 ^ n)) by done.
  apply Z.mod_pow2_bits_high. lia.
Qed.

Lemma land_shiftl_small a b n :
  0 <= n → 0 <= b < 2 ^ n → Z.land (Z.shiftl a n) b = 0.
Proof.
  intros Hn Hb. apply Z.bits_inj'. intros i Hi.
  rewrite Z.land_spec, Z.bits_0. destruct (Z.ltb_spec i n) as [H|H].
  - by rewrite Z.shiftl_spec_low by lia.
  - rewrite (testbit_high b n) by lia. apply andb_false_r.
Qed.

(** Or-ing in bits below the shift is an addition. *)
Lemma lor_shiftl_small a b n :
  0 <= n → 0 <= b < 2 ^ n → Z.lor (Z.shiftl a n) b = a * 2 ^ n + b.
Proof.
  intros Hn Hb. rewrite <- Z.shiftl_mul_pow2 by done.
  pose proof (Z.add_lor_land (Z.shiftl a n) b) as E.
  rewrite land_shiftl_small in E by done. lia.
Qed.

(** ** Sorted lists *)
Lemma strongly_sorted_snoc {A} (R : A → A → Prop) l x :
  StronglySorted R l → Forall (λ y, R y x) l → StronglySorted R (l ++ [x]).
Proof.
  induction 1 as [|y l Hl IH Hy]; intros HF; simpl.
  - constructor; constructor.
  - apply Forall_cons in HF as [H1 H2]. constructor; [by apply IH|].
    apply Forall_app. auto.
Qed.

Lemma strongly_sorted_elem {A} (R : A → A → Prop) l x y :
  StronglySorted R l → x ∈ l → y ∈ l → x = y ∨ R x y ∨ R y x.
Proof.
  induction 1 as [|z l Hl IH Hz]; intros Hx Hy; [by apply elem_of_nil in Hx|].
  rewrite Forall_forall in Hz.
  apply elem_of_cons in Hx as [->|Hx], Hy as [->|Hy]; auto.
Qed.

(** ** Decimal output *)

(** [%i] and [%d] for 32-bit numbers. *)
Fixpoint dec_digits (fuel : nat) (v : Z) : list Z :=
  match fuel with
  | O => []
  | S fuel => if v <? 10 then [48 + v] else dec_digits fuel (v / 10) ++ [48 + v mod 10]
  end.
Definition print_dec (v : Z) : list Z :=
  if v <? 0 then 45 :: dec_digits 10 (- v) else dec_digits 10 v.
