(* ===== verification/Mem.v ===== *)
(** * Byte-addressed memory

    The flat physical memory the loaders run in (paging is off in [tload],
    identity-mapped under UEFI), little-endian loads and stores of any width,
    and the frame lemmas the components share. *)

From stdpp Require Import base numbers list gmap.
From Stdlib Require Import Lia.
From S2P Require Import Prelude.
Open Scope Z_scope.

(** Absent addresses hold 0; a theorem that quantifies over every [m]
    therefore speaks of every initial content. *)
Abbreviation mem := (gmap Z Z).

Definition rd8 (m : mem) (a : Z) : Z := u8 (default 0 (m !! a)).
Definition wr8 (m : mem) (a v : Z) : mem := <[a := u8 v]> m.

(** [n]-byte little-endian load and store. *)
Fixpoint rd (n : nat) (m : mem) (a : Z) : Z :=
  match n with
  | O => 0
  | S n => rd8 m a + 256 * rd n m (a + 1)
  end.

Fixpoint wr (n : nat) (m : mem) (a v : Z) : mem :=
  match n with
  | O => m
  | S n => wr n (wr8 m a v) (a + 1) (v / 256)
  end.

Definition rd16 := rd 2.
Definition rd32 := rd 4.
Definition rd64 := rd 8.
Definition wr16 := wr 2.
Definition wr32 := wr 4.
Definition wr64 := wr 8.

(** [n] bytes from [a] on. *)
Fixpoint rdbytes (n : nat) (m : mem) (a : Z) : list Z :=
  match n with
  | O => []
  | S n => rd8 m a :: rdbytes n m (a + 1)
  end.

(** Store the byte [c] at [a, a + n). *)
Fixpoint fill (n : nat) (m : mem) (a c : Z) : mem :=
  match n with
  | O => m
  | S n => fill n (wr8 m a c) (a + 1) c
  end.

(** [m1] and [m2] agree outside [a, a + n). *)
Definition same_outside (a n : Z) (m1 m2 : mem) : Prop :=
  ∀ k, k < a ∨ a + n <= k → rd8 m2 k = rd8 m1 k.

Lemma rd8_range m a : 0 <= rd8 m a < 256.
Proof. apply u8_range. Qed.

Lemma rd8_wr8 m a b v : rd8 (wr8 m a v) b = if decide (a = b) then u8 v else rd8 m b.
Proof.
  unfold rd8, wr8. rewrite lookup_insert.
  case_decide; simpl; [by rewrite u8_idemp|done].
Qed.

Lemma rd_range n m a : 0 <= rd n m a < 256 ^ Z.of_nat n.
Proof.
  revert a. induction n as [|n IH]; intros a; [done|].
  cbn [rd]. specialize (IH (a + 1)). pose proof (rd8_range m a).
  rewrite Nat2Z.inj_succ, Z.pow_succ_r by lia. lia.
Qed.

Lemma rd64_range m a : 0 <= rd64 m a < 18446744073709551616.
Proof. apply (rd_range 8). Qed.
Lemma rd32_range m a : 0 <= rd32 m a < 4294967296.
Proof. apply (rd_range 4). Qed.

Lemma rd_ext n m1 m2 a :
  (∀ k, a <= k < a + Z.of_nat n → rd8 m1 k = rd8 m2 k) → rd n m1 a = rd n m2 a.
Proof.
  revert a. induction n as [|n IH]; intros a H; [done|].
  cbn [rd]. rewrite (H a) by lia. f_equal. f_equal. apply IH.
  intros k Hk. apply H. lia.
Qed.

Lemma rd8_wr_outside n m a v k :
  k < a ∨ a + Z.of_nat n <= k → rd8 (wr n m a v) k = rd8 m k.
Proof.
  revert m a v. induction n as [|n IH]; intros m a v H; [done|].
  cbn [wr]. rewrite IH by lia. rewrite rd8_wr8. case_decide; [lia|done].
Qed.

Lemma wr_same_outside n m a v : same_outside a (Z.of_nat n) m (wr n m a v).
Proof. intros k Hk. by apply rd8_wr_outside. Qed.

Lemma rd_wr_eq n m a v : rd n (wr n m a v) a = v mod 256 ^ Z.of_nat n.
Proof.
  revert m a v. induction n as [|n IH]; intros m a v.
  - simpl. by rewrite Z.mod_1_r.
  - cbn [rd wr]. rewrite IH, rd8_wr_outside by lia.
    rewrite rd8_wr8, decide_True by done. unfold u8.
    rewrite Nat2Z.inj_succ, Z.pow_succ_r by lia.
    rewrite Z.rem_mul_r by lia. lia.
Qed.

Lemma rd64_wr64_eq m a v : rd64 (wr64 m a v) a = u64 v.
Proof. apply (rd_wr_eq 8). Qed.

Lemma rd_same_outside n m1 m2 a b k :
  same_outside b k m1 m2 → a + Z.of_nat n <= b ∨ b + k <= a → rd n m2 a = rd n m1 a.
Proof. intros H Hd. apply rd_ext. intros j Hj. apply H. lia. Qed.

Lemma rd_wr_ne n k m a b v :
  a + Z.of_nat n <= b ∨ b + Z.of_nat k <= a → rd n (wr k m b v) a = rd n m a.
Proof. intros. eapply rd_same_outside; [apply wr_same_outside|done]. Qed.

Lemma rd64_wr64_ne m a b v : a + 8 <= b ∨ b + 8 <= a → rd64 (wr64 m b v) a = rd64 m a.
Proof. apply (rd_wr_ne 8 8). Qed.

Lemma rd8_fill n m a c k :
  rd8 (fill n m a c) k =
  if decide (a <= k < a + Z.of_nat n) then u8 c else rd8 m k.
Proof.
  revert m a. induction n as [|n IH]; intros m a; cbn [fill].
  - rewrite decide_False by lia. done.
  - rewrite IH, rd8_wr8. repeat case_decide; try done; lia.
Qed.

Lemma fill_same_outside n m a c : same_outside a (Z.of_nat n) m (fill n m a c).
Proof. intros k Hk. rewrite rd8_fill. case_decide; [lia|done]. Qed.

(** Nothing was stored at [b] or above. *)
Lemma rd8_above m b a : forallb (λ kv, kv.1 <? b) (map_to_list m) = true → b <= a → rd8 m a = 0.
Proof.
  intros Hall Ha. unfold rd8. destruct (m !! a) as [x|] eqn:E; [|done]. exfalso.
  apply elem_of_map_to_list, list_elem_of_In in E. rewrite forallb_forall in Hall.
  specialize (Hall _ E). apply Z.ltb_lt in Hall. cbn in Hall. lia.
Qed.

Lemma rd_zero n m a : (∀ k, a <= k < a + Z.of_nat n → rd8 m k = 0) → rd n m a = 0.
Proof.
  revert a. induction n as [|n IH]; intros a H; [done|].
  cbn [rd]. rewrite H by lia. rewrite IH; [done|]. intros k Hk. apply H. lia.
Qed.

Lemma rd_fill_0 n k m a b :
  b <= a → a + Z.of_nat n <= b + Z.of_nat k → rd n (fill k m b 0) a = 0.
Proof.
  intros H1 H2. apply rd_zero. intros j Hj. rewrite rd8_fill.
  rewrite decide_True by lia. done.
Qed.

Lemma same_outside_refl a n m : same_outside a n m m.
Proof. done. Qed.

Lemma same_outside_trans a n m1 m2 m3 :
  same_outside a n m1 m2 → same_outside a n m2 m3 → same_outside a n m1 m3.
Proof. intros H1 H2 k Hk. rewrite H2 by done. by apply H1. Qed.

Lemma same_outside_weaken a n b k m1 m2 :
  same_outside a n m1 m2 → b <= a → a + n <= b + k → same_outside b k m1 m2.
Proof. intros H Hb Hk j Hj. apply H. lia. Qed.

(** ** Strings of bytes *)
Fixpoint put_bytes (m : mem) (a : Z) (l : list Z) : mem :=
  match l with
  | [] => m
  | b :: l => put_bytes (wr8 m a b) (a + 1) l
  end.

Lemma rd8_put_bytes m a l k :
  rd8 (put_bytes m a l) k =
  if decide (a <= k < a + Z.of_nat (length l)) then u8 (nth (Z.to_nat (k - a)) l 0) else rd8 m k.
Proof.
  revert m a. induction l as [|b l IH]; intros m a; cbn [put_bytes length].
  - rewrite decide_False by lia. done.
  - rewrite IH, rd8_wr8. repeat case_decide; try lia; try done.
    + replace (Z.to_nat (k - a)) with (S (Z.to_nat (k - (a + 1)))) by lia. done.
    + subst. by rewrite Z.sub_diag.
Qed.

(** [v] as [n] little-endian bytes. *)
Fixpoint le_bytes (n : nat) (v : Z) : list Z :=
  match n with O => [] | S n => v mod 256 :: le_bytes n (v / 256) end.

(** ** Strings in memory *)
Fixpoint cstring (m : mem) (a : Z) (l : list Z) : Prop :=
  match l with
  | [] => rd8 m a = 0
  | c :: l => rd8 m a = c ∧ 0 < c < 256 ∧ cstring m (a + 1) l
  end.

(** [m1] and [m2] agree on [a, a + n). *)
Definition agree (a n : Z) (m1 m2 : mem) : Prop := ∀ k, a <= k < a + n → rd8 m1 k = rd8 m2 k.

Lemma cstring_agree m1 m2 a l :
  agree a (Z.of_nat (length l) + 1) m1 m2 → cstring m1 a l → cstring m2 a l.
Proof.
  revert a. induction l as [|c l IH]; intros a Ha; cbn [cstring length] in *.
  - rewrite <- (Ha a) by lia. done.
  - intros (<- & Hc & Hl). split_and!; [symmetry; apply Ha; lia|lia|lia|].
    apply IH; [|done]. intros k Hk. apply Ha. lia.
Qed.

Lemma cstring_app m a l1 l2 :
  cstring m a (l1 ++ l2) ↔
  (∀ i c, l1 !! i = Some c → rd8 m (a + Z.of_nat i) = c ∧ 0 < c < 256) ∧
  cstring m (a + Z.of_nat (length l1)) l2.
Proof.
  revert a. induction l1 as [|c l1 IH]; intros a.
  - cbn [app length]. rewrite Z.add_0_r. split; [|tauto]. intros H. split; [|done].
    intros i c Hi. by rewrite lookup_nil in Hi.
  - cbn [app cstring length]. rewrite IH.
    replace (a + 1 + Z.of_nat (length l1)) with (a + Z.of_nat (S (length l1))) by lia.
    split.
    + intros (Hc & Hr & H1 & H2). split; [|done]. intros [|i] d Hi; simpl in Hi.
      * injection Hi as <-. rewrite Z.add_0_r. done.
      * replace (a + Z.of_nat (S i)) with (a + 1 + Z.of_nat i) by lia. by apply H1.
    + intros [H1 H2]. destruct (H1 0%nat c eq_refl) as [H3 H4]. rewrite Z.add_0_r in H3.
      split_and!; try done; try lia. intros i d Hi. specialize (H1 (S i) d Hi).
      by replace (a + 1 + Z.of_nat i) with (a + Z.of_nat (S i)) by lia.
Qed.
