(* ===== verification/Console.v ===== *)
(** * The VGA text console of [tload] (src/tload/console.c)

    Cursor, text memory at 0xb8000 and the writes to the CRT controller, and
    a refinement of the scrolling terminal they implement. *)

From stdpp Require Import base numbers list gmap strings.
From Stdlib Require Import Lia.
From S2P Require Import Prelude.
Open Scope Z_scope.

Definition DEF_FMT : Z := 0x07.
Definition MAX_X : Z := 80.
Definition MAX_Y : Z := 25.

(** [x], [y], the 16-bit cells of [vmem] and the trace of [outb] calls. *)
Record console := Console {
  cx : Z;
  cy : Z;
  vmem : gmap Z Z;
  ports : list (Z * Z)
}.

Definition hex_digits : list Z := cstr "0123456789ABCDEF".

Definition cell (c : console) (k : Z) : Z := default 0 (vmem c !! k).
Definition set_cell (k v : Z) (c : console) : console :=
  Console (cx c) (cy c) (<[k := u16 v]> (vmem c)) (ports c).
Definition set_xy (x y : Z) (c : console) : console :=
  Console x y (vmem c) (ports c).
Definition outb (port val : Z) (c : console) : console :=
  Console (cx c) (cy c) (vmem c) (ports c ++ [(port, val)]).

Definition clear (c : console) : console :=
  for_up (Z.to_nat (MAX_X * MAX_Y)) 0
    (λ i c, set_cell i (Z.shiftl DEF_FMT 8) c) c.

Definition _scrup (lines : Z) (c : console) : console :=
  for_up (Z.to_nat MAX_Y) 0 (λ i c,
    for_up (Z.to_nat MAX_X) 0 (λ j c,
      if i <? MAX_Y - lines
      then set_cell (j + MAX_X * i) (cell c (j + MAX_X * (lines + i))) c
      else set_cell (j + MAX_X * i) (Z.shiftl DEF_FMT 8) c) c) c.

Definition _updatecursor (c : console) : console :=
  let position := u16 (cy c * MAX_X + cx c) in
  outb 0x3D5 (u8 (Z.land (Z.shiftr position 8) 0xFF))
    (outb 0x3D4 0x0E
      (outb 0x3D5 (u8 (Z.land position 0xFF))
        (outb 0x3D4 0x0F c))).

Definition _putcf (ch fmt : Z) (c : console) : console :=
  let c := set_cell (cx c + MAX_X * cy c) (Z.lor (Z.shiftl fmt 8) ch) c in
  let c := set_xy (cx c + 1) (cy c) c in
  let c := if MAX_X <=? cx c then set_xy 0 (cy c + 1) c else c in
  if MAX_Y <=? cy c then set_xy (cx (_scrup 1 c)) (MAX_Y - 1) (_scrup 1 c) else c.

Definition _putc (ch : Z) (c : console) : console := _putcf ch DEF_FMT c.

Definition putchar (ch : Z) (c : console) : console := _updatecursor (_putc (u8 ch) c).

(** The string is the characters before the terminator. *)
Definition _puts (s : list Z) (newline : Z) (c : console) : console :=
  let c := foldl (λ c ch, _putc (u8 ch) c) c s in
  if truth newline then
    let c := set_xy 0 (cy c + 1) c in
    let c := if MAX_Y <=? cy c
             then set_xy (cx (_scrup 1 c)) (MAX_Y - 1) (_scrup 1 c) else c in
    _updatecursor c
  else c.

Definition puts (s : list Z) (c : console) : console := _puts s 1 c.

(** [for(digit = 7; digit >= 0; digit--)] over a 32-bit value. *)
Definition hex_of (val : Z) (digit : Z) : Z :=
  default 0 (hex_digits !! Z.to_nat (Z.land (Z.shiftr val (digit * 4)) 0xf)).

Definition _puthex (val : Z) (c : console) : console :=
  _updatecursor
    (for_up 8 0 (λ k c, _putc (u8 (hex_of (u32 val) (7 - k))) c) c).

Definition puthex (val : Z) (c : console) : console :=
  _puthex val (_putc 120 (_putc 48 c)).

(** ** The terminal the console implements *)
Module Term.
Record term := T { screen : list Z; pos : Z }.

Definition blank : Z := 0x0700.

(** Reaching the end of the screen drops the top row. *)
Definition scroll (t : term) : term :=
  if pos t <? 2000 then t
  else T (drop 80 (screen t) ++ replicate 80 blank) 1920.

Definition putc (ch : Z) (t : term) : term :=
  scroll (T (<[Z.to_nat (pos t) := 0x700 + ch]> (screen t)) (pos t + 1)).

Definition newline (t : term) : term :=
  let t := scroll (T (screen t) (80 * (pos t / 80) + 80)) in
  T (screen t) (80 * (pos t / 80)).

Definition puts (s : list Z) (nl : bool) (t : term) : term :=
  let t := foldl (λ t ch, putc ch t) t s in
  if nl then newline t else t.
End Term.

Definition screen_of (c : console) : list Z := cell c <$> seqZ 0 2000.

Definition abs (c : console) : Term.term :=
  Term.T (screen_of c) (cx c + 80 * cy c).

(** The cursor is on the screen and text memory was only written there. *)
Definition console_ok (c : console) : Prop :=
  0 <= cx c < MAX_X ∧ 0 <= cy c < MAX_Y ∧
  ∀ k, is_Some (vmem c !! k) → 0 <= k < MAX_X * MAX_Y.

Ltac con_unfold := unfold MAX_X, MAX_Y, DEF_FMT in *.

Lemma cell_set_cell k j v c :
  cell (set_cell k v c) j = if decide (k = j) then u16 v else cell c j.
Proof. unfold cell, set_cell. simpl. rewrite lookup_insert. by case_decide. Qed.

(** A store that stays on the screen. *)
Definition on_screen (c : console) : Prop :=
  ∀ k, is_Some (vmem c !! k) → 0 <= k < 2000.

Lemma on_screen_set k v c : 0 <= k < 2000 → on_screen c → on_screen (set_cell k v c).
Proof.
  intros Hk Hc j. simpl. rewrite lookup_insert_is_Some. intros [<-|[_ Hj]]; [lia|].
  by apply Hc.
Qed.

(** One row of the scroll: columns [0, 80) of row [i]. *)
Lemma scrup_row i c0 :
  0 <= i < 25 → on_screen c0 →
  let c := for_up 80 0 (λ j c,
      if i <? 25 - 1
      then set_cell (j + 80 * i) (cell c (j + 80 * (1 + i))) c
      else set_cell (j + 80 * i) (Z.shiftl 7 8) c) c0 in
  cx c = cx c0 ∧ cy c = cy c0 ∧ ports c = ports c0 ∧ on_screen c ∧
  ∀ k, cell c k = if decide (80 * i <= k < 80 * i + 80)
                  then u16 (if i <? 24 then cell c0 (k + 80) else 0x700)
                  else cell c0 k.
Proof.
  intros Hi Hc0.
  pose (P := λ (j : Z) (c : console),
    cx c = cx c0 ∧ cy c = cy c0 ∧ ports c = ports c0 ∧ on_screen c ∧
    ∀ k, cell c k = if decide (80 * i <= k < 80 * i + j)
                    then u16 (if i <? 24 then cell c0 (k + 80) else 0x700)
                    else cell c0 k).
  apply (for_up_ind P _ 80 0 c0).
  - split_and!; try done. intros k. rewrite decide_False by lia. done.
  - intros j c Hj (H1 & H2 & H3 & H4 & H5). cbn beta. change (25 - 1) with 24.
    destruct (Z.ltb_spec i 24) as [Hlt|Hge].
    + split_and!; try done; [apply on_screen_set; [lia|done]|].
      intros k. rewrite cell_set_cell, !H5.
      rewrite (decide_False (P := 80 * i <= j + 80 * (1 + i) < 80 * i + j)) by lia.
      repeat case_decide; try lia; subst; try done; do 2 f_equal; lia.
    + split_and!; try done; [apply on_screen_set; [lia|done]|].
      intros k. rewrite cell_set_cell, H5.
      repeat case_decide; try lia; done.
Qed.

Lemma scrup_cells c0 :
  on_screen c0 →
  cx (_scrup 1 c0) = cx c0 ∧ cy (_scrup 1 c0) = cy c0 ∧
  ports (_scrup 1 c0) = ports c0 ∧ on_screen (_scrup 1 c0) ∧
  ∀ k, 0 <= k < 2000 →
    cell (_scrup 1 c0) k = u16 (if k <? 1920 then cell c0 (k + 80) else 0x700).
Proof.
  intros Hc0.
  pose (P := λ (i : Z) (c : console),
    cx c = cx c0 ∧ cy c = cy c0 ∧ ports c = ports c0 ∧ on_screen c ∧
    ∀ k, cell c k = if decide (0 <= k < 80 * i)
                    then u16 (if k <? 1920 then cell c0 (k + 80) else 0x700)
                    else cell c0 k).
  assert (P (0 + Z.of_nat (Z.to_nat MAX_Y)) (_scrup 1 c0)) as H.
  { unfold _scrup. apply for_up_ind.
    - split_and!; try done. intros k. rewrite decide_False by lia. done.
    - intros i c Hi (H1 & H2 & H3 & H4 & H5). cbn beta.
      destruct (scrup_row i c) as (R1 & R2 & R3 & R4 & R5); [con_unfold; lia|done|].
      unfold P. con_unfold. change (Z.to_nat 80) with 80%nat.
      split_and!; [congruence|congruence|congruence|done|].
      intros k. rewrite R5.
      repeat case_decide; try lia.
      + rewrite H5, decide_False by lia.
        destruct (Z.ltb_spec i 24), (Z.ltb_spec k 1920); try lia; done.
      + rewrite H5, decide_True by lia. done.
      + rewrite H5, decide_False by lia. done. }
  destruct H as (H1 & H2 & H3 & H4 & H5).
  refine (conj H1 (conj H2 (conj H3 (conj H4 _)))).
  intros k Hk. rewrite H5, decide_True; [done|]. con_unfold. lia.
Qed.

#[local] Opaque _scrup seqZ.

Lemma screen_of_lookup c (i : nat) :
  screen_of c !! i = if decide (i < 2000)%nat then Some (cell c (Z.of_nat i)) else None.
Proof.
  unfold screen_of. rewrite list_lookup_fmap. case_decide as Hi.
  - rewrite lookup_seqZ_lt by lia. cbn [fmap option_fmap option_map]. done.
  - by rewrite lookup_seqZ_ge by lia.
Qed.

(** Cells always fit in 16 bits. *)
Definition cells16 (c : console) : Prop := ∀ k, 0 <= cell c k < 65536.

Lemma cells16_set k v c : cells16 c → cells16 (set_cell k v c).
Proof. intros H j. rewrite cell_set_cell. case_decide; [apply u16_range|apply H]. Qed.

(** The invariant of the component. *)
Definition console_inv (c : console) : Prop := console_ok c ∧ cells16 c.

Lemma console_on_screen c : console_ok c → on_screen c.
Proof. intros (_ & _ & H). exact H. Qed.

(** The tail shared by [_putcf] and [_puts]: scroll when the row is 25. *)
Definition wrap_row (c : console) : console :=
  if MAX_Y <=? cy c then set_xy (cx (_scrup 1 c)) (MAX_Y - 1) (_scrup 1 c) else c.

Lemma cells16_scrup c : on_screen c → cells16 c → cells16 (_scrup 1 c).
Proof.
  intros Hs H k. destruct (scrup_cells c Hs) as (_ & _ & _ & Hs' & Hc).
  destruct (decide (0 <= k < 2000)) as [Hk|Hk].
  - rewrite Hc by done. apply u16_range.
  - unfold cell. destruct (vmem (_scrup 1 c) !! k) eqn:E; [|simpl; lia].
    destruct Hk. apply Hs'. by rewrite E.
Qed.

(** Moving the cursor leaves the text memory alone. *)
Lemma cells16_set_xy x y c : cells16 c → cells16 (set_xy x y c).
Proof. done. Qed.
Lemma on_screen_set_xy x y c : on_screen c → on_screen (set_xy x y c).
Proof. done. Qed.
Lemma screen_of_set_xy x y c : screen_of (set_xy x y c) = screen_of c.
Proof. done. Qed.

Lemma console_ok_intro x y c :
  0 <= x < 80 → 0 <= y < 25 → on_screen c → console_ok (set_xy x y c).
Proof. intros Hx Hy Hs. split; [exact Hx|]. split; [exact Hy|exact Hs]. Qed.

Lemma length_screen_of c : length (screen_of c) = Z.to_nat 2000.
Proof. unfold screen_of. by rewrite length_fmap, length_seqZ. Qed.

Lemma screen_of_scrup c :
  on_screen c → cells16 c →
  screen_of (_scrup 1 c) = drop 80 (screen_of c) ++ replicate 80 Term.blank.
Proof.
  intros Hs Hc. destruct (scrup_cells c Hs) as (_ & _ & _ & _ & Hcells).
  apply list_eq. intros i. rewrite screen_of_lookup. case_decide as Hi.
  - rewrite Hcells by lia. destruct (Z.ltb_spec (Z.of_nat i) 1920) as [Hi'|Hi'].
    + rewrite lookup_app_l by (rewrite length_drop, length_screen_of; lia).
      rewrite lookup_drop, screen_of_lookup, decide_True by lia.
      rewrite u16_small by apply Hc. do 2 f_equal. lia.
    + rewrite lookup_app_r by (rewrite length_drop, length_screen_of; lia).
      rewrite lookup_replicate_2; [done|].
      rewrite length_drop, length_screen_of. lia.
  - rewrite lookup_ge_None_2; [done|].
    rewrite length_app, length_drop, length_screen_of, length_replicate. lia.
Qed.

Lemma wrap_row_refines c :
  0 <= cx c < 80 → 0 <= cy c <= 25 → (cy c = 25 → cx c = 0) → on_screen c → cells16 c →
  console_inv (wrap_row c) ∧ abs (wrap_row c) = Term.scroll (abs c).
Proof.
  intros Hx Hy H25 Hs Hc. unfold wrap_row, Term.scroll, abs. cbn [Term.pos Term.screen].
  con_unfold. destruct (Z.leb_spec 25 (cy c)) as [Hle|Hlt].
  - destruct (scrup_cells c Hs) as (E1 & E2 & E3 & Hs' & _).
    pose proof (cells16_scrup c Hs Hc) as Hc16.
    rewrite E1, (H25 ltac:(lia)). split.
    + split; [|by apply cells16_set_xy].
      apply console_ok_intro; [lia|lia|done].
    + rewrite (proj2 (Z.ltb_ge _ _)) by lia.
      rewrite screen_of_set_xy, screen_of_scrup by done. reflexivity.
  - rewrite (proj2 (Z.ltb_lt _ _)) by lia.
    split; [|reflexivity]. split; [|exact Hc].
    unfold console_ok. con_unfold. split; [lia|]. split; [lia|]. exact Hs.
Qed.

Lemma screen_of_set_cell k v c :
  0 <= k < 2000 → screen_of (set_cell k v c) = <[Z.to_nat k := u16 v]> (screen_of c).
Proof.
  intros Hk. apply list_eq. intros i.
  rewrite screen_of_lookup, list_lookup_insert, length_screen_of, screen_of_lookup.
  rewrite cell_set_cell.
  repeat case_decide; try done; try (f_equal; done); exfalso; lia.
Qed.

Lemma fmt_cell ch : 0 <= ch < 256 → u16 (Z.lor (Z.shiftl DEF_FMT 8) ch) = 0x700 + ch.
Proof.
  intros Hch. unfold DEF_FMT. rewrite lor_shiftl_small by lia. rewrite u16_small; lia.
Qed.

Lemma putc_refines ch c :
  0 <= ch < 256 → console_inv c →
  console_inv (_putc ch c) ∧ abs (_putc ch c) = Term.putc ch (abs c).
Proof.
  intros Hch [(Hx & Hy & Hs) Hc]. change (on_screen c) in Hs. con_unfold.
  set (c1 := set_cell (cx c + 80 * cy c) (Z.lor (Z.shiftl 7 8) ch) c).
  pose (c2 := if 80 <=? cx c + 1 then set_xy 0 (cy c + 1) c1
              else set_xy (cx c + 1) (cy c) c1).
  assert (_putc ch c = wrap_row c2) as ->.
  { unfold _putc, _putcf, wrap_row, c2, c1. con_unfold.
    cbn [cx cy set_cell set_xy vmem ports]. by destruct (80 <=? cx c + 1). }
  assert (on_screen c1) as Hs1 by (apply on_screen_set; [lia|done]).
  assert (cells16 c1) as Hc1 by by apply cells16_set.
  assert (cx c2 + 80 * cy c2 = cx c + 80 * cy c + 1) as Hp
    by (unfold c2; destruct (Z.leb_spec 80 (cx c + 1)); simpl; lia).
  assert (0 <= cx c2 < 80) as Hx2
    by (unfold c2; destruct (Z.leb_spec 80 (cx c + 1)); simpl; lia).
  assert (screen_of c2 = screen_of c1) as Esc
    by (unfold c2; by destruct (80 <=? cx c + 1)).
  destruct (wrap_row_refines c2) as [Hinv Habs]; [lia|lia|lia|..].
  - unfold c2. by destruct (80 <=? cx c + 1).
  - unfold c2. by destruct (80 <=? cx c + 1).
  - split; [exact Hinv|]. rewrite Habs. unfold Term.putc, abs.
    cbn [Term.pos Term.screen]. rewrite Esc, Hp. unfold c1.
    rewrite screen_of_set_cell by lia.
    pose proof (fmt_cell ch Hch) as E. unfold DEF_FMT in E. rewrite E. reflexivity.
Qed.

Lemma putcs_refine s c :
  console_inv c →
  console_inv (foldl (λ c ch, _putc (u8 ch) c) c s) ∧
  abs (foldl (λ c ch, _putc (u8 ch) c) c s) =
  foldl (λ t ch, Term.putc (u8 ch) t) (abs c) s.
Proof.
  revert c. induction s as [|ch s IH]; intros c Hc; [done|].
  cbn [foldl]. destruct (putc_refines (u8 ch) c) as [Hi <-]; [apply u8_range|done|].
  by apply IH.
Qed.

Lemma updatecursor_inv c : console_inv c → console_inv (_updatecursor c).
Proof. done. Qed.
Lemma updatecursor_abs c : abs (_updatecursor c) = abs c.
Proof. done. Qed.

Lemma newline_refines c :
  console_inv c →
  console_inv (wrap_row (set_xy 0 (cy c + 1) c)) ∧
  abs (wrap_row (set_xy 0 (cy c + 1) c)) = Term.newline (abs c).
Proof.
  intros [(Hx & Hy & Hs) Hc]. con_unfold.
  destruct (wrap_row_refines (set_xy 0 (cy c + 1) c)) as [Hi Ha];
    [simpl; lia..|by intros|done|done|].
  split; [done|]. rewrite Ha. unfold Term.newline, abs.
  cbn [Term.pos Term.screen cx cy set_xy]. rewrite screen_of_set_xy.
  replace (80 * ((cx c + 80 * cy c) / 80) + 80) with (0 + 80 * (cy c + 1)) by dlia.
  unfold Term.scroll. cbn [Term.pos Term.screen].
  destruct (Z.ltb_spec (0 + 80 * (cy c + 1)) 2000); [|reflexivity].
  cbn [Term.pos Term.screen]. f_equal. dlia.
Qed.


(** Scrolling and printing leave the CRT controller alone. *)
Lemma ports_set_xy x y c : ports (set_xy x y c) = ports c.
Proof. done. Qed.

Lemma wrap_row_ports c : on_screen c → ports (wrap_row c) = ports c.
Proof.
  intros Hs. unfold wrap_row. destruct (MAX_Y <=? cy c); [|done].
  destruct (scrup_cells c Hs) as (_ & _ & E & _). by rewrite ports_set_xy.
Qed.

Lemma putc_ports ch c : console_inv c → ports (_putc ch c) = ports c.
Proof.
  intros [(Hx & Hy & Hs) _]. change (on_screen c) in Hs. con_unfold.
  set (c1 := set_cell (cx c + 80 * cy c) (Z.lor (Z.shiftl 7 8) ch) c).
  assert (on_screen c1) as Hs1 by (apply on_screen_set; [lia|done]).
  assert (_putc ch c = wrap_row (if 80 <=? cx c + 1 then set_xy 0 (cy c + 1) c1
                                 else set_xy (cx c + 1) (cy c) c1)) as ->.
  { unfold _putc, _putcf, wrap_row, c1. con_unfold.
    cbn [cx cy set_cell set_xy vmem ports]. by destruct (80 <=? cx c + 1). }
  by rewrite wrap_row_ports; destruct (80 <=? cx c + 1).
Qed.

Lemma putcs_ports s c :
  console_inv c → ports (foldl (λ c ch, _putc (u8 ch) c) c s) = ports c.
Proof.
  revert c. induction s as [|ch s IH]; intros c Hc; [done|].
  cbn [foldl]. rewrite IH, putc_ports; [done|done|].
  exact (proj1 (putc_refines (u8 ch) c (u8_range ch) Hc)).
Qed.

(** Placing the hardware cursor at [pos]: the low byte of the position goes to
    register 15 of the CRT controller, the high byte to register 14. *)
Definition crtc_cursor (pos : Z) : list (Z * Z) :=
  [(0x3D4, 15); (0x3D5, pos mod 256); (0x3D4, 14); (0x3D5, pos / 256)].

Lemma updatecursor_ports c :
  console_inv c → ports (_updatecursor c) = ports c ++ crtc_cursor (Term.pos (abs c)).
Proof.
  intros [(Hx & Hy & _) _]. con_unfold. unfold _updatecursor, crtc_cursor, outb, abs.
  cbn [ports Term.pos]. rewrite <- !app_assoc. cbn [app]. con_unfold.
  replace (cx c + 80 * cy c) with (cy c * 80 + cx c) by lia.
  set (p := cy c * 80 + cx c). assert (0 <= p < 2000) as Hp by (unfold p; lia).
  rewrite u16_small by lia. change 0xFF with (Z.ones 8).
  rewrite !Z.land_ones, Z.shiftr_div_pow2 by lia. change (2 ^ 8) with 256.
  rewrite (Z.mod_small (p / 256)) by dlia. by rewrite !u8_small by dlia.
Qed.

Lemma puts_eq s nl c :
  _puts s nl c =
  let c := foldl (λ c ch, _putc (u8 ch) c) c s in
  if truth nl then _updatecursor (wrap_row (set_xy 0 (cy c + 1) c)) else c.
Proof. done. Qed.

(** C23. The console implements the scrolling terminal: from any state with the
    cursor on the 80x25 screen, [_puts] writes text memory only inside the
    screen, leaves the cursor on the screen and produces exactly the
    terminal's picture and cursor, row by row, scrolling included.  With a
    newline it then moves the hardware cursor there: the output to the CRT
    controller grows by exactly the four writes that put the low and the high
    byte of the terminal's cursor position into registers 15 and 14.  Without
    one nothing is output, and the hardware cursor stays where it was. *)
Theorem puts_refines_terminal s nl c :
  console_inv c →
  let t := Term.puts (u8 <$> s) (truth nl) (abs c) in
  console_inv (_puts s nl c) ∧
  abs (_puts s nl c) = t ∧
  ports (_puts s nl c) = ports c ++ (if truth nl then crtc_cursor (Term.pos t) else []).
Proof.
  intros Hc t. destruct (putcs_refine s c Hc) as [Hi Ha]. pose proof (putcs_ports s c Hc) as Hp.
  unfold t, Term.puts. rewrite foldl_fmap, <- Ha, puts_eq. cbv zeta.
  set (c1 := foldl (λ c ch, _putc (u8 ch) c) c s) in *. clearbody c1.
  destruct (truth nl); [|split_and!; [done|done|by rewrite Hp, app_nil_r]].
  destruct (newline_refines _ Hi) as [Hi' Ha']. rewrite updatecursor_abs, updatecursor_ports by done.
  rewrite <- Ha', wrap_row_ports, ports_set_xy by apply (console_on_screen _ (proj1 Hi)).
  split_and!; [by apply updatecursor_inv|done|by rewrite <- Hp].
Qed.

Definition console0 : console := Console 78 24 ∅ [].

Lemma console0_inv : console_inv console0.
Proof.
  split; [|intros k; unfold cell; simpl; rewrite lookup_empty; simpl; lia].
  split; [done|]. split; [done|]. intros k [v Hv]. simpl in Hv.
  by rewrite lookup_empty in Hv.
Qed.

Lemma puts_refines_terminal_witness :
  let t := Term.puts (u8 <$> cstr "Error!") (truth 1) (abs console0) in
  console_inv (_puts (cstr "Error!") 1 console0) ∧
  abs (_puts (cstr "Error!") 1 console0) = t ∧
  ports (_puts (cstr "Error!") 1 console0) = [] ++ crtc_cursor (Term.pos t) ∧
  crtc_cursor (Term.pos t) = [(0x3D4, 15); (0x3D5, 0x80); (0x3D4, 14); (0x3D5, 0x07)].
Proof.
  destruct (puts_refines_terminal (cstr "Error!") 1 console0 console0_inv) as (H1 & H2 & H3).
  split_and!; [exact H1|exact H2|exact H3|by vm_compute].
Defined.

(** Reading a number back from its hexadecimal digits. *)
Definition hex_digit_val (ch : Z) : Z := if ch <? 58 then ch - 48 else ch - 55.
Definition hex_val (ds : list Z) : Z :=
  foldl (λ acc ch, 16 * acc + hex_digit_val ch) 0 ds.

Lemma hex_of_val v d :
  0 <= v → 0 <= d → hex_digit_val (u8 (hex_of v d)) = v / 2 ^ (4 * d) mod 16.
Proof.
  intros Hv Hd. unfold hex_of.
  rewrite Z.shiftr_div_pow2 by lia. change 0xf with (Z.ones 4).
  rewrite Z.land_ones by lia. change (2 ^ 4) with 16.
  rewrite (Z.mul_comm d 4). set (q := v / 2 ^ (4 * d)).
  pose proof (Z.mod_pos_bound q 16 ltac:(lia)) as Hb.
  revert Hb. generalize (q mod 16). clear. intros r Hr.
  assert (∃ n, r = Z.of_nat n ∧ (n < 16)%nat) as (n & -> & Hn)
    by (exists (Z.to_nat r); lia).
  rewrite Nat2Z.id. do 16 (destruct n as [|n]; [done|]). lia.
Qed.

Definition hex8 (v : Z) : list Z := (λ k, u8 (hex_of (u32 v) (7 - k))) <$> seqZ 0 8.

Lemma hex8_val v : hex_val (hex8 v) = u32 v.
Proof.
  pose proof (u32_range v) as Hv. unfold hex8. cbn [seqZ seq fmap list_fmap].
  change (seqZ 0 8) with [0; 1; 2; 3; 4; 5; 6; 7].
  cbn [fmap list_fmap hex_val foldl]. unfold hex_val. cbn [foldl].
  rewrite !hex_of_val by lia. revert Hv. generalize (u32 v). clear. intros x Hx.
  change (2 ^ (4 * (7 - 0))) with 268435456. change (2 ^ (4 * (7 - 1))) with 16777216.
  change (2 ^ (4 * (7 - 2))) with 1048576. change (2 ^ (4 * (7 - 3))) with 65536.
  change (2 ^ (4 * (7 - 4))) with 4096. change (2 ^ (4 * (7 - 5))) with 256.
  change (2 ^ (4 * (7 - 6))) with 16. change (2 ^ (4 * (7 - 7))) with 1.
  dlia.
Qed.

(** [puthex] prints "0x" and eight hexadecimal digits from which the
    32-bit value can be read back, and nothing else changes on the screen. *)
Lemma puthex_prints_value val c :
  console_inv c →
  hex_val (hex8 val) = u32 val ∧
  console_inv (puthex val c) ∧
  abs (puthex val c) = Term.puts ([48; 120] ++ hex8 val) false (abs c).
Proof.
  intros Hc. split; [apply hex8_val|].
  destruct (putcs_refine ([48; 120] ++ hex8 val) c Hc) as [Hi Ha].
  assert (puthex val c =
    _updatecursor (foldl (λ c ch, _putc (u8 ch) c) c ([48; 120] ++ hex8 val))) as ->.
  { unfold puthex, _puthex, hex8. change (seqZ 0 8) with [0; 1; 2; 3; 4; 5; 6; 7].
    cbn [for_up fmap list_fmap app foldl]. rewrite !u8_idemp. reflexivity. }
  rewrite updatecursor_abs, Ha. split; [by apply updatecursor_inv|].
  unfold Term.puts, hex8. change (seqZ 0 8) with [0; 1; 2; 3; 4; 5; 6; 7].
  cbn [fmap list_fmap app foldl]. rewrite !u8_idemp. reflexivity.
Qed.

Lemma puthex_prints_value_witness :
  hex_val (hex8 0xDEADBEEF) = u32 0xDEADBEEF ∧
  console_inv (puthex 0xDEADBEEF console0) ∧
  abs (puthex 0xDEADBEEF console0) =
  Term.puts ([48; 120] ++ hex8 0xDEADBEEF) false (abs console0).
Proof. apply (puthex_prints_value 0xDEADBEEF console0). apply console0_inv. Defined.
