(* ===== verification/MemMgr.v ===== *)
(** * The physical memory manager of [tload]

    src/tload/memmgr.c (page bitmap and the memory map passed to the kernel)
    and src/tload/malloc.c (the bump heap).  The two call each other: a list
    node is allocated with [malloc], whose first call allocates the heap and
    records it in the list. *)

From stdpp Require Import base numbers list gmap strings.
From Stdlib Require Import Lia Sorting.Sorted.
From S2P Require Import Prelude Mem Console.
Open Scope Z_scope.

Definition PAGESIZE : Z := 0x1000.
Definition HEAP_SIZE : Z := 0x700000.
Definition HEAP_ALIGN : Z := 0x100000.

(** enum Multiboot_MemoryMapType *)
Definition Available : Z := 1.
Definition TLoad : Z := 1002.
Definition Tysos : Z := 1003.
Definition PagingStructure : Z := 1004.
Definition Module_ : Z := 1005.
Definition VideoHardware : Z := 1006.
Definition BiosDataArea : Z := 1007.

(** struct linked_mmap.  The heap is not cleared, so [prev] holds [None]
    (an indeterminate value) until it is assigned. *)
Record linked_mmap := Node {
  lm_next : Z;
  lm_prev : option Z;
  lm_base : Z;
  lm_length : Z;
  lm_type : Z
}.
Definition sizeof_linked_mmap : Z := 56.

(** The statics of memmgr.c and malloc.c, the console and the memory. *)
Record tload := TLoadState {
  bitmap : gmap Z Z;
  mm_first : Z;
  mm_last : Z;
  nodes : gmap Z linked_mmap;
  cur_end : Z;
  heap_start : Z;
  heap_end : Z;
  con : console;
  ram : mem
}.

Definition with_bitmap (f : gmap Z Z → gmap Z Z) (s : tload) : tload :=
  TLoadState (f (bitmap s)) (mm_first s) (mm_last s) (nodes s)
    (cur_end s) (heap_start s) (heap_end s) (con s) (ram s).
Definition with_list (fi la : Z) (f : gmap Z linked_mmap → gmap Z linked_mmap)
    (s : tload) : tload :=
  TLoadState (bitmap s) fi la (f (nodes s))
    (cur_end s) (heap_start s) (heap_end s) (con s) (ram s).
Definition with_heap (ce hs he : Z) (s : tload) : tload :=
  TLoadState (bitmap s) (mm_first s) (mm_last s) (nodes s) ce hs he (con s) (ram s).
Definition with_con (f : console → console) (s : tload) : tload :=
  TLoadState (bitmap s) (mm_first s) (mm_last s) (nodes s)
    (cur_end s) (heap_start s) (heap_end s) (f (con s)) (ram s).
Definition with_ram (f : mem → mem) (s : tload) : tload :=
  TLoadState (bitmap s) (mm_first s) (mm_last s) (nodes s)
    (cur_end s) (heap_start s) (heap_end s) (con s) (f (ram s)).

Definition say (msg : string) : M tload unit := modify (with_con (puts (cstr msg))).

(** ** The page bitmap *)
Definition PAGE_INDEX (x : Z) : Z := Z.shiftr x 12.
Definition DWORD_INDEX (x : Z) : Z := Z.shiftr (PAGE_INDEX x) 5.
Definition BIT_INDEX (x : Z) : Z := Z.land (PAGE_INDEX x) 0x1f.

Definition dword (bm : gmap Z Z) (i : Z) : Z := default 0 (bm !! i).

Definition _set (bm : gmap Z Z) (addr : Z) : gmap Z Z :=
  let setval := u32 (Z.shiftl 1 (BIT_INDEX addr)) in
  <[DWORD_INDEX addr := Z.lor (dword bm (DWORD_INDEX addr)) setval]> bm.

Definition _unset (bm : gmap Z Z) (addr : Z) : gmap Z Z :=
  let setval := u32 (Z.shiftl 1 (BIT_INDEX addr)) in
  <[DWORD_INDEX addr := Z.land (dword bm (DWORD_INDEX addr)) (u32 (Z.lnot setval))]> bm.

Definition _isset (bm : gmap Z Z) (addr : Z) : Z :=
  Z.land (Z.shiftr (dword bm (DWORD_INDEX addr)) (BIT_INDEX addr)) 0x1.

(** The offset is an [unsigned long]: past 0xfffff000 it wraps and the loop
    starts over. *)
Fixpoint is_free_loop (fuel : nat) (bm : gmap Z Z) (addr length block_offset : Z)
    : outcome bool :=
  match fuel with
  | O => Hang
  | S fuel =>
      if block_offset <? length then
        if truth (_isset bm (u32 (addr + block_offset))) then Done false
        else is_free_loop fuel bm addr length (u32 (block_offset + PAGESIZE))
      else Done true
  end.

Definition is_free (bm : gmap Z Z) (addr length : Z) : outcome bool :=
  is_free_loop (Z.to_nat (length / PAGESIZE + 2)) bm addr length 0.

(** The marking loops: [for(cur = a; cur < stop; cur += PAGESIZE) f(cur)],
    with [cur] of [wrap]'s width. *)
Fixpoint page_loop (fuel : nat) (wrap : Z → Z) (f : gmap Z Z → Z → gmap Z Z)
    (bm : gmap Z Z) (cur stop : Z) : outcome (gmap Z Z) :=
  match fuel with
  | O => Hang
  | S fuel =>
      if cur <? stop
      then page_loop fuel wrap f (f bm cur) (wrap (cur + PAGESIZE)) stop
      else Done bm
  end.

Definition page_fuel (cur stop : Z) : nat := S (Z.to_nat ((stop - cur) / PAGESIZE + 1)).

Definition mark_used (start length : Z) : M tload Z :=
  s ← get;
  bm ← lift (page_loop (page_fuel start (u64 (start + length))) u64
               (λ bm cur, _set bm (u32 cur)) (bitmap s) start (u64 (start + length)));
  modify (with_bitmap (λ _, bm)) ;;
  mret start.

Definition mark_free (start length : Z) : M tload Z :=
  s ← get;
  bm ← lift (page_loop (page_fuel start (u64 (start + length))) u64
               (λ bm cur, _unset bm (u32 cur)) (bitmap s) start (u64 (start + length)));
  modify (with_bitmap (λ _, bm)) ;;
  mret start.

Definition freepage (p : Z) : M tload unit := modify (with_bitmap (λ bm, _unset bm p)).

(** ** Allocation

    [add] is the [add_linked_list] the allocation reports to. *)
Definition _malloc_fixed_with (add : Z → Z → Z → M tload unit)
    (addr length type add_list : Z) : M tload Z :=
  s ← get;
  bm ← lift (page_loop (page_fuel addr (u32 (addr + length))) u32
               _set (bitmap s) addr (u32 (addr + length)));
  modify (with_bitmap (λ _, bm)) ;;
  (if truth add_list then add addr length type else mret tt) ;;
  mret addr.

Definition malloc_fixed_with (add : Z → Z → Z → M tload unit)
    (addr length type add_list : Z) : M tload Z :=
  s ← get;
  free ← lift (is_free (bitmap s) addr length);
  if (free : bool) then _malloc_fixed_with add addr length type add_list else mret 0.

(** The search of [malloc_align]: the first multiple of [align] that is free. *)
Fixpoint align_loop (fuel : nat) (bm : gmap Z Z) (length align test : Z)
    : outcome (option Z) :=
  match fuel with
  | O => Hang
  | S fuel =>
      obind (is_free bm test length) (λ free : bool,
        if free then Done (Some test)
        else if u32 (- align) <=? test then Done None
        else align_loop fuel bm length align (u32 (test + align)))
  end.

Definition align_fuel (align : Z) : nat :=
  if align =? 0 then 1%nat else Z.to_nat (0x100000000 / align + 1).

Definition malloc_align_with (add : Z → Z → Z → M tload unit)
    (length align type add_list : Z) : M tload Z :=
  if truth (length mod PAGESIZE) || truth (align mod PAGESIZE) then
    say "Error: can only process multiple of page sized and aligned requests" ;;
    mret 0
  else
    s ← get;
    found ← lift (align_loop (align_fuel align) (bitmap s) length align 0);
    match found : option Z with
    | Some test => _malloc_fixed_with add test length type add_list
    | None => mret 0
    end.

(** malloc.c *)
Definition malloc_with (add : Z → Z → Z → M tload unit) (n : Z) : M tload Z :=
  s ← get;
  ok ← (if cur_end s =? 0 then
          p ← malloc_align_with add HEAP_SIZE HEAP_ALIGN TLoad 0;
          modify (with_heap p p (u32 (p + HEAP_SIZE))) ;;
          if p =? 0 then
            say "Error: unable to allocate heap" ;; mret false
          else add p HEAP_SIZE TLoad ;; mret true
        else mret true : M tload bool);
  if (ok : bool) then
    s ← get;
    if u32 (heap_end s - cur_end s) <? u32 n then
      say "Error: out of heap space" ;; mret 0
    else
      modify (λ s, with_heap (u32 (cur_end s + n)) (heap_start s) (heap_end s) s) ;;
      s ← get;
      mret (u32 (cur_end s - n))
  else mret 0.

(** The do/while of [add_linked_list] that walks the list from [last] looking
    for an entry to grow; [true] when one was grown. *)
Fixpoint coalesce (fuel : nat) (cur addr length type : Z) : M tload bool :=
  match fuel with
  | O => hang
  | S fuel =>
      s ← get;
      match nodes s !! cur with
      | None => undef
      | Some n =>
          if (lm_type n =? type) && (lm_base n =? u64 (addr + length)) then
            modify (with_list (mm_first s) (mm_last s)
              (insert cur (Node (lm_next n) (lm_prev n) addr
                             (u64 (lm_length n + length)) (lm_type n)))) ;;
            mret true
          else if (lm_type n =? type) && (u64 (lm_base n + lm_length n) =? addr) then
            modify (with_list (mm_first s) (mm_last s)
              (insert cur (Node (lm_next n) (lm_prev n) (lm_base n)
                             (u64 (lm_length n + length)) (lm_type n)))) ;;
            mret true
          else
            match lm_prev n with
            | None => undef
            | Some prev =>
                if prev =? mm_first s then mret false
                else coalesce fuel prev addr length type
            end
      end
  end.

Definition set_next (nx : Z) (n : linked_mmap) : linked_mmap :=
  Node nx (lm_prev n) (lm_base n) (lm_length n) (lm_type n).
Definition set_prev (pv : Z) (n : linked_mmap) : linked_mmap :=
  Node (lm_next n) (Some pv) (lm_base n) (lm_length n) (lm_type n).

(** The new node goes to the end of the list. *)
Definition append_node (new : Z) (s : tload) : tload :=
  let fi := if mm_first s =? 0 then new else mm_first s in
  if mm_last s =? 0 then with_list fi new id s
  else with_list fi new
         (λ ns, alter (set_prev (mm_last s)) new (alter (set_next new) (mm_last s) ns)) s.

Definition add_linked_list_with (mal : Z → M tload Z) (addr length type : Z)
    : M tload unit :=
  s ← get;
  grown ← (if mm_last s =? 0 then mret false
           else coalesce (S (size (nodes s))) (mm_last s) addr length type : M tload bool);
  if (grown : bool) then mret tt
  else
    new ← mal sizeof_linked_mmap;
    modify (λ s, with_list (mm_first s) (mm_last s)
                   (insert new (Node 0 None addr length type)) s) ;;
    modify (append_node new).

(** The recursion between [malloc] and [add_linked_list] is two calls deep. *)
Fixpoint malloc_depth (d : nat) (n : Z) : M tload Z :=
  match d with
  | O => hang
  | S d => malloc_with (add_linked_list_with (malloc_depth d)) n
  end.

Definition malloc (n : Z) : M tload Z := malloc_depth 2 n.
Definition add_linked_list (addr length type : Z) : M tload unit :=
  add_linked_list_with malloc addr length type.
Definition malloc_align := malloc_align_with add_linked_list.
Definition malloc_fixed := malloc_fixed_with add_linked_list.

Fixpoint count_loop (fuel : nat) (ns : gmap Z linked_mmap) (cur i : Z) : outcome Z :=
  match fuel with
  | O => Hang
  | S fuel =>
      if cur =? 0 then Done i
      else match ns !! cur with
           | Some n => count_loop fuel ns (lm_next n) (s32 (i + 1))
           | None => Undef
           end
  end.

Definition count_linked_list (s : tload) : outcome Z :=
  count_loop (S (size (nodes s))) (nodes s) (mm_first s) 0.

(** ** What the bitmap means: the set of used page frames *)
Definition used (bm : gmap Z Z) (frame : Z) : bool :=
  Z.testbit (dword bm (frame / 32)) (frame mod 32).

(** Every page of [addr, addr + length), page offsets as the code steps. *)
Definition range_free (bm : gmap Z Z) (addr length : Z) : Prop :=
  ∀ k, 0 <= k → k * 4096 < length → used bm (u32 (addr + k * 4096) / 4096) = false.

(** Frame [f] is one the loop from [addr] over [length] bytes steps on. *)
Definition in_pages (addr length f : Z) : Prop :=
  addr / 4096 <= f ∧ (f - addr / 4096) * 4096 < length.

Lemma page_index_div x : PAGE_INDEX x = x / 4096.
Proof. unfold PAGE_INDEX. by rewrite Z.shiftr_div_pow2. Qed.
Lemma dword_index_div x : DWORD_INDEX x = x / 4096 / 32.
Proof. unfold DWORD_INDEX. rewrite page_index_div. by rewrite Z.shiftr_div_pow2. Qed.
Lemma bit_index_mod x : BIT_INDEX x = x / 4096 mod 32.
Proof.
  unfold BIT_INDEX. rewrite page_index_div. change 0x1f with (Z.ones 5).
  by rewrite Z.land_ones.
Qed.

Lemma dword_insert bm i j v : dword (<[i := v]> bm) j = if decide (i = j) then v else dword bm j.
Proof. unfold dword. rewrite lookup_insert. by case_decide. Qed.

Lemma frame_split f g : f / 32 = g / 32 → f mod 32 = g mod 32 → f = g.
Proof. intros H1 H2. rewrite (Z.div_mod f 32), (Z.div_mod g 32) by lia. lia. Qed.

Lemma used_set bm addr f :
  used (_set bm addr) f = used bm f || (f =? addr / 4096).
Proof.
  unfold used, _set. rewrite dword_insert, dword_index_div, bit_index_mod.
  pose proof (Z.mod_pos_bound (addr / 4096) 32 ltac:(lia)).
  pose proof (Z.mod_pos_bound f 32 ltac:(lia)).
  case_decide as E.
  - rewrite Z.lor_spec, E, testbit_u32, testbit_shiftl_1 by lia. f_equal.
    destruct (Z.eqb_spec f (addr / 4096)) as [->|Hne]; [by rewrite Z.eqb_refl|].
    apply Z.eqb_neq. intros Em. apply Hne. by apply frame_split.
  - destruct (Z.eqb_spec f (addr / 4096)) as [->|]; [done|]. by rewrite orb_false_r.
Qed.

Lemma used_unset bm addr f :
  used (_unset bm addr) f = used bm f && negb (f =? addr / 4096).
Proof.
  unfold used, _unset. rewrite dword_insert, dword_index_div, bit_index_mod.
  pose proof (Z.mod_pos_bound (addr / 4096) 32 ltac:(lia)).
  pose proof (Z.mod_pos_bound f 32 ltac:(lia)).
  case_decide as E.
  - rewrite Z.land_spec, E, testbit_u32, Z.lnot_spec, testbit_u32, testbit_shiftl_1 by lia.
    f_equal. f_equal.
    destruct (Z.eqb_spec f (addr / 4096)) as [->|Hne]; [by rewrite Z.eqb_refl|].
    apply Z.eqb_neq. intros Em. apply Hne. by apply frame_split.
  - destruct (Z.eqb_spec f (addr / 4096)) as [->|]; [done|]. by rewrite andb_true_r.
Qed.

Lemma isset_used bm addr : truth (_isset bm addr) = used bm (addr / 4096).
Proof.
  unfold _isset, used, truth. rewrite dword_index_div, bit_index_mod.
  pose proof (Z.mod_pos_bound (addr / 4096) 32 ltac:(lia)).
  set (w := dword bm (addr / 4096 / 32)).
  change 1 with (Z.ones 1). rewrite Z.land_ones by lia. change (2 ^ 1) with 2.
  rewrite <- Z.bit0_mod, Z.shiftr_spec, Z.add_0_l by lia.
  by destruct (Z.testbit w (addr / 4096 mod 32)).
Qed.

(** ** [is_free] *)
Lemma is_free_loop_spec fuel bm addr length k :
  0 <= k → 0 <= length <= 0xfffff000 → (k - 1) * 4096 < length →
  (Z.to_nat (length / 4096 + 2 - k) <= fuel)%nat →
  ∃ b, is_free_loop fuel bm addr length (k * 4096) = Done b ∧
    (b = true ↔ ∀ j, k <= j → j * 4096 < length →
                  used bm (u32 (addr + j * 4096) / 4096) = false).
Proof.
  revert k. induction fuel as [|fuel IH]; intros k Hk Hl Hkl Hf; [exfalso; dlia|].
  cbn [is_free_loop]. destruct (Z.ltb_spec (k * 4096) length) as [Hlt|Hge].
  - rewrite isset_used. destruct (used bm (u32 (addr + k * 4096) / 4096)) eqn:Hu.
    + exists false. split; [done|]. split; [done|]. intros H.
      rewrite H in Hu by lia. done.
    + assert (u32 (k * 4096 + PAGESIZE) = (k + 1) * 4096) as ->
        by (unfold PAGESIZE; rewrite u32_small; lia).
      destruct (IH (k + 1)) as (b & -> & Hb); [lia|lia|lia|lia|].
      exists b. split; [done|]. rewrite Hb. split; intros H j Hj Hjl.
      * destruct (decide (j = k)) as [->|]; [done|]. apply H; lia.
      * apply H; lia.
  - exists true. split; [done|]. split; [|done]. intros _ j Hj Hjl. lia.
Qed.

(** [is_free] terminates for lengths up to 0xfffff000 and tests exactly the
    pages of the range. *)
Lemma is_free_spec bm addr length :
  0 <= length <= 0xfffff000 →
  ∃ b, is_free bm addr length = Done b ∧ (b = true ↔ range_free bm addr length).
Proof.
  intros Hl. unfold is_free, PAGESIZE.
  destruct (is_free_loop_spec (Z.to_nat (length / 4096 + 2)) bm addr length 0)
    as (b & E & Hb); [lia|lia|lia|lia|].
  exists b. split; [exact E|]. rewrite Hb. unfold range_free. done.
Qed.

(** ** The marking loops *)
#[export] Instance in_pages_dec addr length f : Decision (in_pages addr length f).
Proof. apply _. Defined.

Lemma in_pages_step cur n x :
  0 < n → in_pages cur n x ↔ x = cur / 4096 ∨ in_pages (cur + 4096) (n - 4096) x.
Proof.
  intros Hn. unfold in_pages.
  replace ((cur + 4096) / 4096) with (cur / 4096 + 1); [lia|].
  replace (cur + 4096) with (cur + 1 * 4096) by lia. by rewrite Z.div_add.
Qed.

(** A loop whose body gives the frame of [cur] the status [val]. *)
Lemma page_loop_spec fuel wrap f (val : bool) bm cur stop top :
  (∀ bm a x, 0 <= a < stop → used (f bm a) x = if x =? a / 4096 then val else used bm x) →
  (∀ x, 0 <= x < top → wrap x = x) →
  0 <= cur → stop <= top →
  (∀ j, 0 <= j → cur + j * 4096 < stop → cur + (j + 1) * 4096 < top) →
  (page_fuel cur stop <= fuel)%nat →
  ∃ bm', page_loop fuel wrap f bm cur stop = Done bm' ∧
    ∀ x, (in_pages cur (stop - cur) x → used bm' x = val) ∧
         (¬ in_pages cur (stop - cur) x → used bm' x = used bm x).
Proof.
  intros Hf Hw. revert bm cur.
  induction fuel as [|fuel IH]; intros bm cur Hc Hs Hstep Hfuel.
  { unfold page_fuel in Hfuel. lia. }
  cbn [page_loop]. destruct (Z.ltb_spec cur stop) as [Hlt|Hge].
  - assert (cur + 4096 < top) as Htop by (specialize (Hstep 0); lia).
    rewrite Hw by (unfold PAGESIZE; lia).
    destruct (IH (f bm cur) (cur + 4096)) as (bm' & E & Hbm'); [lia|done| |..].
    + intros j Hj Hjs. specialize (Hstep (j + 1)). lia.
    + unfold page_fuel, PAGESIZE in *.
      replace (stop - cur) with (stop - (cur + 4096) + 1 * 4096) in Hfuel by lia.
      rewrite Z.div_add in Hfuel by lia.
      assert (0 <= (stop - (cur + 4096)) / 4096 + 1) by dlia. lia.
    + exists bm'. split; [exact E|]. intros x. specialize (Hbm' x).
      rewrite in_pages_step by lia.
      replace (stop - cur - 4096) with (stop - (cur + 4096)) by lia.
      rewrite Hf in Hbm' by lia. revert Hbm'.
      destruct (Z.eqb_spec x (cur / 4096)) as [->|Hne]; [|tauto].
      intros [H1 H2]. split; [|tauto].
      destruct (decide (in_pages (cur + 4096) (stop - (cur + 4096)) (cur / 4096))); auto.
  - exists bm. split; [done|]. intros x. split; [|done].
    intros [Hx Hxl]. dlia.
Qed.

(** [bm'] is [bm] with the pages of [addr, addr + length) taken. *)
Definition taken (bm bm' : gmap Z Z) (addr length : Z) : Prop :=
  ∀ x, used bm' x = used bm x || bool_decide (in_pages addr length x).

Lemma page_loop_set bm addr length :
  0 <= addr → addr mod 4096 = 0 → length mod 4096 = 0 → 0 <= length →
  addr + length < 0x100000000 →
  ∃ bm', page_loop (page_fuel addr (u32 (addr + length))) u32 _set bm addr (u32 (addr + length))
         = Done bm' ∧ taken bm bm' addr length.
Proof.
  intros Ha Ham Hlm Hl Htop. rewrite u32_small by lia.
  edestruct (page_loop_spec (page_fuel addr (addr + length)) u32 _set true bm
    addr (addr + length) 0x100000000) as (bm' & E & Hbm').
  - intros b a x Hx. rewrite used_set. by destruct (x =? a / 4096), (used b x).
  - intros x Hx. by apply u32_small.
  - lia.
  - lia.
  - intros j Hj Hjs. dlia.
  - done.
  - exists bm'. split; [exact E|]. intros x.
    replace (addr + length - addr) with length in Hbm' by lia.
    destruct (Hbm' x) as [H1 H2]. case_bool_decide; [rewrite H1 by done|rewrite H2 by done].
    + by rewrite orb_true_r.
    + by rewrite orb_false_r.
Qed.

Definition fits (bm : gmap Z Z) (length align t : Z) : Prop :=
  0 <= t < 0x100000000 ∧ t mod align = 0 ∧ range_free bm t length.

Lemma align_loop_spec fuel bm length align i :
  0 < align <= 0xffffffff → 0 <= length <= 0xfffff000 → 0 <= i → i * align < 0x100000000 →
  (∀ t, t < i * align → ¬ fits bm length align t) →
  (Z.to_nat (0x100000000 / align + 1 - i) <= fuel)%nat →
  ∃ r, align_loop fuel bm length align (i * align) = Done r ∧
    match r with
    | Some t => fits bm length align t ∧ ∀ t', t' < t → ¬ fits bm length align t'
    | None => ∀ t, ¬ fits bm length align t
    end.
Proof.
  intros Hal Hl. revert i. induction fuel as [|fuel IH]; intros i Hi Hit Hprev Hf.
  { exfalso. assert (i <= 0x100000000 / align) by (apply Z.div_le_lower_bound; lia). lia. }
  cbn [align_loop].
  destruct (is_free_spec bm (i * align) length Hl) as (b & -> & Hb). simpl.
  assert (i * align mod align = 0) as Hm by (apply Z.mod_mul; lia).
  destruct b.
  - exists (Some (i * align)). split; [done|]. split; [|exact Hprev].
    split_and!; [nia|lia|done|]. by apply Hb.
  - assert (∀ t, t < (i + 1) * align → ¬ fits bm length align t) as Hprev'.
    { intros t Ht Hfit. destruct (decide (t = i * align)) as [->|].
      - destruct Hfit as (_ & _ & Hr). apply Hb in Hr. done.
      - apply (Hprev t); [|done]. destruct Hfit as (Ht0 & Htm & _).
        apply Z.mod_divide in Htm; [|lia]. destruct Htm as [q ->].
        assert (q < i + 1) by nia. assert (q ≠ i) by (intros ->; done). nia. }
    assert (u32 (- align) = 0x100000000 - align) as Eneg by (unfold u32; dlia).
    rewrite Eneg. destruct (Z.leb_spec (0x100000000 - align) (i * align)).
    + exists None. split; [done|]. intros t Hfit. apply (Hprev' t); [|done].
      destruct Hfit as (Ht & _). lia.
    + rewrite u32_small by lia. replace (i * align + align) with ((i + 1) * align) by lia.
      apply IH; [lia|lia|exact Hprev'|lia].
Qed.

Lemma align_search bm length align :
  0 < align <= 0xffffffff → 0 <= length <= 0xfffff000 →
  ∃ r, align_loop (align_fuel align) bm length align 0 = Done r ∧
    match r with
    | Some t => fits bm length align t ∧ ∀ t', t' < t → ¬ fits bm length align t'
    | None => ∀ t, ¬ fits bm length align t
    end.
Proof.
  intros Ha Hl. apply (align_loop_spec (align_fuel align) bm length align 0);
    [done|done|lia|lia|intros t Ht (Ht0 & _); lia|].
  unfold align_fuel. destruct (Z.eqb_spec align 0); lia.
Qed.

(** The top frame is in use (a PC's reset vector lives there).  Without it
    the end address of the last page wraps to 0 and marking does nothing. *)
Definition top_used (bm : gmap Z Z) : Prop := used bm 0xfffff = true.

Lemma fits_below_top bm length align t :
  top_used bm → align mod 4096 = 0 → 0 < align → length mod 4096 = 0 →
  fits bm length align t → t mod 4096 = 0 ∧ (0 < length → t + length <= 0xfffff000).
Proof.
  intros Htop Ham Ha Hlm (Ht & Htm & Hfree).
  assert (t mod 4096 = 0) as Htp.
  { apply Z.mod_divide in Htm; [|lia]. apply Z.mod_divide in Ham; [|lia].
    apply Z.mod_divide; [lia|]. by etransitivity. }
  split; [done|]. intros Hl. destruct (decide (t + length <= 0xfffff000)); [done|].
  exfalso. specialize (Hfree (0xfffff - t / 4096)).
  assert (t + (0xfffff - t / 4096) * 4096 = 0xfffff000) as E by dlia.
  rewrite E in Hfree. change (u32 0xfffff000 / 4096) with 0xfffff in Hfree.
  rewrite Htop in Hfree. discriminate Hfree; dlia.
Qed.

(** C. First fit. *)
Lemma malloc_align_with_spec add length align type s :
  0 < align <= 0xffffffff → align mod 4096 = 0 →
  0 < length <= 0xfffff000 → length mod 4096 = 0 →
  top_used (bitmap s) → used (bitmap s) 0 = true →
  wp (malloc_align_with add length align type 0) (λ p s',
    (p = 0 ∧ s' = s ∧ ∀ t, ¬ fits (bitmap s) length align t) ∨
    (0 < p ∧ p + length <= 0xfffff000 ∧ p mod align = 0 ∧
     range_free (bitmap s) p length ∧ (∀ t, t < p → ¬ fits (bitmap s) length align t) ∧
     ∃ bm', s' = with_bitmap (λ _, bm') s ∧ taken (bitmap s) bm' p length)) s.
Proof.
  intros Ha Ham Hl Hlm Htop H0. unfold malloc_align_with, PAGESIZE.
  rewrite Hlm, Ham. simpl. wp_steps.
  destruct (align_search (bitmap s) length align) as (r & E & Hr); [done|lia|].
  eapply wp_lift; [exact E|]. destruct r as [t|].
  - destruct Hr as [Hfit Hfirst]. pose proof Hfit as (Ht & Htm & Hfree).
    destruct (fits_below_top (bitmap s) length align t) as [Htp Hend]; [done|done|lia|done|done|].
    assert (t ≠ 0) as Hne.
    { intros ->. specialize (Hfree 0). change (u32 (0 + 0 * 4096) / 4096) with 0 in Hfree.
      rewrite H0 in Hfree. discriminate Hfree; lia. }
    unfold _malloc_fixed_with. wp_steps.
    destruct (page_loop_set (bitmap s) t length) as (bm' & E' & Hbm'); [lia|done|done|lia|lia|].
    eapply wp_lift; [exact E'|]. wp_steps. cbn. right. split_and!; [lia|lia|done|done|done|].
    exists bm'. done.
  - wp_steps. left. done.
Qed.

(** ** The memory map *)
Definition node_in (n : linked_mmap) (a : Z) : Prop :=
  lm_base n <= a < lm_base n + lm_length n.
Definition node_wf (n : linked_mmap) : Prop :=
  0 <= lm_base n ∧ 0 <= lm_length n ∧ lm_base n + lm_length n < 2 ^ 64.
Definition region_wf (addr length : Z) : Prop :=
  0 <= addr ∧ 0 <= length ∧ addr + length < 2 ^ 64.

(** What the map tells the kernel: byte [a] belongs to a region of type [ty]. *)
Definition covers (s : tload) (a ty : Z) : Prop :=
  ∃ p n, nodes s !! p = Some n ∧ lm_type n = ty ∧ node_in n a.

(** The nodes form the doubly linked list [l]; the first [prev] was never
    assigned. *)
Record map_ok (s : tload) (l : list Z) : Prop := MapOk {
  mo_first : mm_first s = default 0 (head l);
  mo_last : mm_last s = default 0 (last l);
  mo_nodup : NoDup l;
  mo_dom : dom (nodes s) = list_to_set l;
  mo_addr : Forall (λ a, heap_start s <= a ∧ a + 56 <= cur_end s) l;
  mo_links : ∀ i a, l !! i = Some a → ∃ n, nodes s !! a = Some n ∧
      lm_next n = default 0 (l !! S i) ∧
      lm_prev n = match i with O => None | S j => l !! j end;
  mo_wf : map_Forall (λ _, node_wf) (nodes s);
  mo_apart : StronglySorted (λ a b, a + 56 <= b) l
}.

Definition heap_ok (s : tload) : Prop :=
  0 < heap_start s <= cur_end s ∧ cur_end s <= heap_end s ∧
  heap_end s <= 0xfffff000 ∧ heap_end s <= heap_start s + 0x700000.

Lemma map_ok_size s l : map_ok s l → size (nodes s) = length l.
Proof.
  intros H. rewrite <- size_dom, (mo_dom _ _ H). apply size_list_to_set, H.
Qed.

Lemma map_ok_nonzero s l a : heap_ok s → map_ok s l → a ∈ l → 0 < a ∧ a < cur_end s.
Proof.
  intros (Hh & _) H Ha. pose proof (mo_addr _ _ H) as Hf.
  rewrite Forall_forall in Hf. specialize (Hf a Ha). lia.
Qed.

Lemma map_ok_first s l i a :
  map_ok s l → l !! i = Some a → a = mm_first s → i = 0%nat.
Proof.
  intros H Hi ->. rewrite (mo_first _ _ H) in Hi.
  destruct l as [|b l]; [done|]. simpl in Hi.
  eapply NoDup_lookup; [apply H|exact Hi|done].
Qed.

(** Growing an entry keeps the list. *)
Lemma map_ok_update s l c n n' :
  map_ok s l → nodes s !! c = Some n → lm_next n' = lm_next n → lm_prev n' = lm_prev n →
  node_wf n' →
  map_ok (with_list (mm_first s) (mm_last s) (insert c n') s) l.
Proof.
  intros H Hc Hn Hp Hw. destruct H as [Hf Hl Hnd Hdom Had Hlk Hwf Hap]. split; try done.
  - simpl. rewrite dom_insert_L, <- Hdom.
    by apply subseteq_union_1_L, singleton_subseteq_l, elem_of_dom_2 with n.
  - intros i a Hi. simpl. destruct (Hlk i a Hi) as (m & Hm & Hmn & Hmp).
    destruct (decide (c = a)) as [->|Hne].
    + exists n'. rewrite lookup_insert_eq. split_and!; congruence.
    + exists m. by rewrite lookup_insert_ne.
  - simpl. apply map_Forall_insert_2; done.
Qed.

(** One entry was grown by the region [addr, addr + length). *)
Definition grown_by (s s' : tload) (l : list Z) (addr length type : Z) : Prop :=
  ∃ i c n n', (1 <= i)%nat ∧ l !! i = Some c ∧ nodes s !! c = Some n ∧
    lm_type n = type ∧ lm_type n' = type ∧
    lm_next n' = lm_next n ∧ lm_prev n' = lm_prev n ∧ node_wf n' ∧
    (∀ a, node_in n' a ↔ node_in n a ∨ addr <= a < addr + length) ∧
    s' = with_list (mm_first s) (mm_last s) (insert c n') s.

Lemma grown_intro s l i c n addr length type base' :
  let n' := Node (lm_next n) (lm_prev n) base' (lm_length n + length) (lm_type n) in
  (1 <= i)%nat → l !! i = Some c → nodes s !! c = Some n → lm_type n = type → node_wf n' →
  (∀ a, node_in n' a ↔ node_in n a ∨ addr <= a < addr + length) →
  grown_by s (with_list (mm_first s) (mm_last s) (insert c n') s) l addr length type.
Proof. intros n' **. exists i, c, n, n'. split_and!; done. Qed.

(** The walk from entry [i] back to (excluding) the first follows assigned
    pointers only, ends, and either grows one entry or changes nothing. *)
Lemma coalesce_spec fuel s l i c addr length type :
  map_ok s l → region_wf addr length → (1 <= i)%nat → l !! i = Some c → (i <= fuel)%nat →
  wp (coalesce fuel c addr length type) (λ grown s',
    if grown then grown_by s s' l addr length type else s' = s) s.
Proof.
  intros H Hr. revert i c. induction fuel as [|fuel IH]; intros i c Hi Hc Hf; [lia|].
  destruct (mo_links _ _ H i c Hc) as (n & Hn & Hnext & Hprev).
  assert (node_wf n) as Hwf by (eapply (mo_wf _ _ H); done).
  destruct Hr as (Ha0 & Hl0 & Hal). destruct Hwf as (Hb0 & Hbl & Hbb).
  assert (wp (match lm_prev n with
              | None => undef
              | Some prev => if prev =? mm_first s then mret false
                             else coalesce fuel prev addr length type
              end) (λ grown s', if (grown : bool) then grown_by s s' l addr length type
                                else s' = s) s) as Hback.
  { destruct i as [|j]; [lia|]. rewrite Hprev.
    destruct (l !! j) as [pv|] eqn:Ej; [|apply lookup_ge_None_1 in Ej;
      apply lookup_lt_Some in Hc; lia].
    destruct (Z.eqb_spec pv (mm_first s)) as [Ef|Hnf]; [by apply wp_ret|].
    apply (IH j pv); [|done|lia]. destruct j; [|lia].
    rewrite (mo_first _ _ H) in Hnf. destruct l; simplify_eq/=. }
  cbn [coalesce]. wp_steps. rewrite Hn.
  rewrite (u64_small (addr + length)), (u64_small (lm_base n + lm_length n)) by lia.
  destruct (Z.eqb_spec (lm_type n) type) as [Ety|_]; cbn [andb]; [|exact Hback].
  destruct (Z.eqb_spec (lm_base n) (addr + length)) as [Eb|_];
    [|destruct (Z.eqb_spec (lm_base n + lm_length n) addr) as [Eb|_]; [|exact Hback]];
    rewrite u64_small by lia; wp_steps; apply (grown_intro _ _ i c n);
    try done; unfold node_wf, node_in; simpl; intros; lia.
Qed.

(** ** The heap: once set up, [malloc] bumps a pointer *)
Lemma malloc_bump add n s :
  heap_ok s → 0 <= n → cur_end s + n <= heap_end s →
  malloc_with add n s =
  Done (cur_end s, with_heap (cur_end s + n) (heap_start s) (heap_end s) s).
Proof.
  intros (Hh1 & Hh2 & Hh3) Hn Hr. unfold malloc_with, get, mbind, M_bind, bind, obind.
  cbn [fst snd]. destruct (Z.eqb_spec (cur_end s) 0) as [|_]; [lia|].
  cbn. rewrite (u32_small (heap_end s - cur_end s)), (u32_small n) by lia.
  destruct (Z.ltb_spec (heap_end s - cur_end s) n); [lia|]. cbn.
  rewrite (u32_small (cur_end s + n)), u32_small by lia.
  by replace (cur_end s + n - n) with (cur_end s) by lia.
Qed.

(** A node at [new], linked in at the end of [l]. *)
Lemma map_ok_append_nil s new addr length type :
  map_ok s [] → heap_start s <= new → new + 56 <= cur_end s → region_wf addr length →
  map_ok (append_node new (with_list (mm_first s) (mm_last s)
            (insert new (Node 0 None addr length type)) s)) [new].
Proof.
  intros [Hf Hl Hnd Hdom Had Hlk Hwf Hap] Hlo Hhi Hr. unfold append_node. simpl in *.
  rewrite Hf, Hl. split; simpl; try done.
  - apply NoDup_singleton.
  - by rewrite dom_insert_L, Hdom.
  - repeat constructor; done.
  - intros [|i] a; simpl; intros; simplify_eq.
    exists (Node 0 None addr length type). by rewrite lookup_insert_eq.
  - by apply map_Forall_insert_2.
  - by repeat constructor.
Qed.

Section append.
Context (s : tload) (l : list Z) (new la addr length type : Z).
Hypothesis Hh : heap_ok s.
Hypothesis H : map_ok s l.
Hypothesis Hlo : heap_start s <= new.
Hypothesis Hhi : new + 56 <= cur_end s.
Hypothesis Hnew : new ∉ l.
Hypothesis Hr : region_wf addr length.
Hypothesis Hla : last l = Some la.

Let s' := append_node new (with_list (mm_first s) (mm_last s)
            (insert new (Node 0 None addr length type)) s).

Lemma append_la_in : la ∈ l.
Proof. by apply last_Some_elem_of. Qed.

Lemma append_unfold :
  s' = with_list (mm_first s) new
         (λ ns, alter (set_prev la) new (alter (set_next new) la
                  (<[new := Node 0 None addr length type]> ns))) s.
Proof.
  destruct (map_ok_nonzero s l la) as [Hz _]; [done..|apply append_la_in|].
  assert (mm_last s = la) as El by by rewrite (mo_last _ _ H), Hla.
  assert (mm_first s ≠ 0) as Ef.
  { rewrite (mo_first _ _ H). destruct l as [|b l']; [done|]. simpl.
    destruct (map_ok_nonzero s (b :: l') b); [done..|apply elem_of_cons; by left|lia]. }
  unfold s', append_node. simpl. rewrite El.
  destruct (Z.eqb_spec la 0); [lia|]. destruct (Z.eqb_spec (mm_first s) 0); [done|].
  done.
Qed.

Lemma append_lookup a :
  nodes s' !! a =
    if decide (a = new) then Some (Node 0 (Some la) addr length type)
    else if decide (a = la) then set_next new <$> nodes s !! la else nodes s !! a.
Proof.
  rewrite append_unfold. simpl.
  assert (la ≠ new) as Hne
    by (intros E; apply Hnew; rewrite <- E; apply append_la_in).
  rewrite lookup_alter. case_decide as E1; [subst a|].
  - rewrite decide_True by done. rewrite lookup_alter_ne, lookup_insert_eq by done. done.
  - rewrite decide_False by congruence. rewrite lookup_alter. case_decide as E2.
    + subst a. by rewrite decide_True, lookup_insert_ne by done.
    + by rewrite decide_False, lookup_insert_ne by congruence.
Qed.

Lemma map_ok_append_cons : Forall (λ a, a + 56 <= new) l → map_ok s' (l ++ [new]).
Proof.
  intros Hbelow. pose proof H as [Hf Hl Hnd Hdom Had Hlk Hwf Hap]. pose proof append_lookup as Hlook.
  assert (l ≠ []) as Hne by (intros ->; done).
  split.
  - rewrite append_unfold. simpl. rewrite Hf. by destruct l.
  - rewrite append_unfold, last_snoc. done.
  - apply NoDup_app. split_and!; [done| |apply NoDup_singleton].
    intros x Hx. rewrite list_elem_of_singleton. by intros ->.
  - rewrite append_unfold. simpl. rewrite !dom_alter_L, dom_insert_L, Hdom.
    rewrite list_to_set_app_L. simpl. rewrite union_empty_r_L. apply union_comm_L.
  - rewrite append_unfold. apply Forall_app. split; [done|]. by repeat constructor.
  - intros i a Hi. rewrite Hlook. apply lookup_app_Some in Hi as [Hi|[Hge Hi]].
    + assert (a ≠ new) as Han.
      { intros ->. apply Hnew. by eapply list_elem_of_lookup_2. }
      rewrite decide_False by done. destruct (Hlk i a Hi) as (n & Hn & Hnx & Hpv).
      pose proof (lookup_lt_Some _ _ _ Hi) as Hlt.
      assert (match i with O => None | S j => (l ++ [new]) !! j end =
              match i with O => None | S j => l !! j end) as Epv
        by (destruct i; [done|]; rewrite lookup_app_l by lia; done).
      rewrite Epv. pose proof (last_lookup l) as Elast. rewrite Hla in Elast.
      case_decide as Ela.
      * subst a. rewrite Hn. exists (set_next new n). split_and!; [done| |done].
        assert (i = pred (List.length l)) as ->
          by (eapply NoDup_lookup; [done|exact Hi|by rewrite <- Elast]).
        rewrite lookup_app_r by lia.
        by replace (S (pred (List.length l)) - List.length l)%nat with 0%nat by lia.
      * exists n. split_and!; [done| |done]. rewrite Hnx. f_equal.
        destruct (decide (S i < List.length l)%nat); [by rewrite lookup_app_l|].
        exfalso. apply Ela. replace i with (pred (List.length l)) in Hi by lia. congruence.
    + apply list_lookup_singleton_Some in Hi as [Hi ->].
      rewrite decide_True by done. eexists. split_and!; [done| |].
      * rewrite lookup_app_r by lia.
        by replace (S i - List.length l)%nat with 1%nat by lia.
      * assert (i = List.length l) as -> by lia.
        pose proof (last_lookup l) as Elast. rewrite Hla in Elast.
        destruct l as [|b l']; [done|].
        cbn [List.length lm_prev] in *.
        rewrite lookup_app_l by (simpl; lia). done.
  - intros a n. rewrite Hlook. repeat case_decide; intros Hn.
    + simplify_eq. done.
    + destruct (nodes s !! la) as [m|] eqn:Em; simplify_eq/=.
      apply (Hwf la m Em).
    + by apply (Hwf a n).
  - by apply strongly_sorted_snoc.
Qed.
End append.

Lemma covers_grown s s' l addr length type a ty :
  grown_by s s' l addr length type →
  covers s' a ty ↔ covers s a ty ∨ (ty = type ∧ addr <= a < addr + length).
Proof.
  intros (i & c & n & n' & _ & _ & Hn & Ht & Ht' & _ & _ & _ & Hin & ->).
  unfold covers. simpl. split.
  - intros (p & m & Hm & <- & Hma). apply lookup_insert_Some in Hm as [[-> <-]|[Hne Hm]].
    + apply Hin in Hma as [Hma|Hma]; [|by right]. left. exists p, n. by rewrite Ht, Ht'.
    + left. by exists p, m.
  - intros [(p & m & Hm & <- & Hma)|[-> Ha]].
    + destruct (decide (c = p)) as [->|Hne].
      * exists p, n'. rewrite lookup_insert_eq. simplify_eq.
        split_and!; [done|congruence|]. apply Hin. by left.
      * exists p, m. by rewrite lookup_insert_ne.
    + exists c, n'. rewrite lookup_insert_eq. split_and!; [done..|]. apply Hin. by right.
Qed.

Lemma covers_append s l new la addr length type a ty :
  heap_ok s → map_ok s l → new ∉ l → last l = Some la →
  covers (append_node new (with_list (mm_first s) (mm_last s)
            (insert new (Node 0 None addr length type)) s)) a ty ↔
  covers s a ty ∨ (ty = type ∧ addr <= a < addr + length).
Proof.
  intros Hh H Hnew Hla. unfold covers.
  assert (nodes s !! new = None) as Hfresh.
  { apply not_elem_of_dom. by rewrite (mo_dom _ _ H), elem_of_list_to_set. }
  pose proof (append_lookup s l new la addr length type Hh H Hnew Hla) as Hlook.
  split.
  - intros (p & m & Hm & <- & Hma). rewrite Hlook in Hm. repeat case_decide; simplify_eq.
    + by right.
    + destruct (nodes s !! la) as [k|] eqn:Ek; simplify_eq/=. left. by exists la, k.
    + left. by exists p, m.
  - intros [(p & m & Hm & <- & Hma)|[-> Ha]].
    + assert (p ≠ new) by congruence. destruct (decide (p = la)) as [->|Hne].
      * exists la, (set_next new m). by rewrite Hlook, decide_False, decide_True, Hm by done.
      * exists p, m. by rewrite Hlook, !decide_False by done.
    + eexists new, _. rewrite Hlook, decide_True by done. done.
Qed.

(** The parts of the state a list operation does not touch. *)
Definition same_rest (s s' : tload) : Prop :=
  bitmap s' = bitmap s ∧ con s' = con s ∧ ram s' = ram s ∧
  heap_start s' = heap_start s ∧ heap_end s' = heap_end s.

(** A usable map describing [R], with heap room for [room] more entries. *)
Definition map_state (room : Z) (R : Z → Z → Prop) (s : tload) : Prop :=
  ∃ l, map_ok s l ∧ (2 <= length l)%nat ∧ heap_ok s ∧
    cur_end s + 56 * room <= heap_end s ∧ ∀ a ty, covers s a ty ↔ R a ty.

Definition plus_region (R : Z → Z → Prop) (addr length type : Z) : Z → Z → Prop :=
  λ a ty, R a ty ∨ (ty = type ∧ addr <= a < addr + length).

(** Allocating the node and linking it in. *)
Lemma add_node_spec d addr length type s l :
  heap_ok s → map_ok s l → cur_end s + 56 <= heap_end s → region_wf addr length →
  wp (new ← malloc_depth (S d) sizeof_linked_mmap;
      modify (λ s, with_list (mm_first s) (mm_last s)
                     (insert new (Node 0 None addr length type)) s) ;;
      modify (append_node new)) (λ _ s',
    map_ok s' (l ++ [cur_end s]) ∧ same_rest s s' ∧ heap_ok s' ∧
    cur_end s' = cur_end s + 56 ∧
    ∀ a ty, covers s' a ty ↔ plus_region (covers s) addr length type a ty) s.
Proof.
  intros Hh H Hroom Hr. unfold sizeof_linked_mmap. wp_steps.
  eapply wp_intro; [cbn [malloc_depth]; apply malloc_bump; [done|lia|lia]|]. wp_steps.
  set (s1 := with_heap (cur_end s + 56) (heap_start s) (heap_end s) s).
  assert (heap_ok s1) as Hh1 by (unfold heap_ok in *; simpl; lia).
  assert (map_ok s1 l) as H1.
  { destruct H as [Hf Hl Hnd Hdom Had Hlk Hwf Hap]. split; try done.
    eapply Forall_impl; [exact Had|]. simpl. intros; lia. }
  assert (cur_end s ∉ l) as Hnew.
  { intros Hin. destruct (map_ok_nonzero s l (cur_end s)); [done..|lia]. }
  destruct (last l) as [la|] eqn:Hla.
  - assert (∃ ns, append_node (cur_end s) (with_list (mm_first s1) (mm_last s1)
       (insert (cur_end s) (Node 0 None addr length type)) s1) =
       with_list (mm_first s1) (cur_end s) ns s1) as [ns Ens].
    { eexists. apply (append_unfold s1 l _ la _ _ _ Hh1 H1 Hnew Hla). }
    split_and!.
    + eapply map_ok_append_cons; [exact Hh1|exact H1|..|exact Hla|]; simpl;
        [unfold heap_ok in *; lia|lia|done|done|].
      eapply Forall_impl; [apply (mo_addr _ _ H)|]. simpl. intros; lia.
    + by rewrite Ens.
    + by rewrite Ens.
    + by rewrite Ens.
    + intros a ty. by eapply (covers_append s1 l _ la).
  - apply last_None in Hla as ->. rewrite app_nil_l.
    pose proof (mo_last _ _ H) as El. pose proof (mo_first _ _ H) as Ef. simpl in El, Ef.
    assert (nodes s = ∅) as Ens.
    { apply dom_empty_inv_L. by rewrite (mo_dom _ _ H). }
    split_and!.
    + apply map_ok_append_nil; [done|simpl; unfold heap_ok in *; lia|simpl; lia|done].
    + unfold append_node. simpl. rewrite El. done.
    + unfold append_node. simpl. rewrite El. done.
    + unfold append_node. simpl. rewrite El. done.
    + intros a ty. unfold append_node, covers, plus_region. simpl. rewrite El. simpl.
      rewrite Ens. split.
      * intros (p & m & Hm & <- & Hma). apply lookup_insert_Some in Hm as [[_ <-]|[_ Hm]];
          [by right|by rewrite lookup_empty in Hm].
      * intros [(p & m & Hm & _)|[-> Ha]]; [by rewrite lookup_empty in Hm|].
        eexists (cur_end s), _. rewrite lookup_insert_eq. done.
Qed.

Lemma map_state_rest room R s s' :
  map_state room R s → nodes s' = nodes s → mm_first s' = mm_first s →
  mm_last s' = mm_last s → cur_end s' = cur_end s → heap_start s' = heap_start s →
  heap_end s' = heap_end s → map_state room R s'.
Proof.
  intros (l & [Hf Hl Hnd Hdom Had Hlk Hwf Hap] & Hlen & Hh & Hroom & Hcov) E1 E2 E3 E4 E5 E6.
  exists l. unfold heap_ok, covers in *. rewrite E1, E4, E5, E6.
  split_and!; try done; try tauto.
  split; rewrite ?E1, ?E2, ?E3, ?E4, ?E5; done.
Qed.

Lemma add_linked_list_depth d room R addr length type s :
  0 <= room → map_state (room + 1) R s → region_wf addr length →
  wp (add_linked_list_with (malloc_depth (S d)) addr length type) (λ _ s',
    map_state room (plus_region R addr length type) s' ∧ same_rest s s') s.
Proof.
  intros Hroom0 (l & H & Hlen & Hh & Hroom & Hcov) Hr.
  unfold add_linked_list_with. wp_steps.
  assert (∃ la, last l = Some la) as [la Hla].
  { destruct (last l) eqn:E; [by eexists|]. apply last_None in E as ->. simpl in Hlen. lia. }
  assert (mm_last s = la) as El by by rewrite (mo_last _ _ H), Hla.
  destruct (map_ok_nonzero s l la) as [Hz _]; [done..|by apply last_Some_elem_of|].
  rewrite El. destruct (Z.eqb_spec la 0); [lia|].
  eapply wp_mono; [apply (coalesce_spec _ s l (pred (List.length l))); [done|done|lia| |]|].
  - by rewrite <- last_lookup.
  - rewrite (map_ok_size s l H). lia.
  - intros [|] s'; cbn beta iota.
    + intros Hg. wp_steps. split.
      * exists l. pose proof Hg as (i & c & n0 & n' & Hi & Hc & Hn & Ht & Ht' & Hnx & Hpv & Hwf & _ & ->).
        split_and!; [by eapply map_ok_update|done|done|simpl; lia|].
        intros a ty. rewrite (covers_grown _ _ _ _ _ _ a ty Hg). unfold plus_region.
        by rewrite Hcov.
      * destruct Hg as (i0 & c0 & n0 & n' & Hg). by destruct_and! Hg; subst s'.
    + intros ->. eapply wp_mono; [apply (add_node_spec d _ _ _ s l); [done|done|lia|done]|].
      intros [] s' (H' & Hrest & Hh' & Hce & Hcov'). split; [|done].
      exists (l ++ [cur_end s]). pose proof Hrest as (_ & _ & _ & Ehs & Ehe). split_and!.
      * done.
      * rewrite length_app. simpl. lia.
      * done.
      * rewrite Hce, Ehe. lia.
      * intros a ty. rewrite Hcov'. unfold plus_region. by rewrite Hcov.
Qed.

(** State before anything was recorded: the statics of both files. *)
Definition map_empty (s : tload) : Prop :=
  mm_first s = 0 ∧ mm_last s = 0 ∧ nodes s = ∅ ∧ cur_end s = 0.

Lemma map_empty_ok s : map_empty s → map_ok s [].
Proof.
  intros (E1 & E2 & E3 & E4). split; try done.
  - constructor.
  - by rewrite E3.
  - by rewrite E3.
  - constructor.
Qed.

(** The first [malloc] sets up the heap and records it as the first entry. *)
Lemma malloc_first_spec d s :
  map_empty s → top_used (bitmap s) → used (bitmap s) 0 = true →
  (∃ t, fits (bitmap s) HEAP_SIZE HEAP_ALIGN t) →
  wp (malloc_depth (S (S d)) 56) (λ p s',
    ∃ hp bm', 0 < hp ∧ hp + HEAP_SIZE <= 0xfffff000 ∧
      fits (bitmap s) HEAP_SIZE HEAP_ALIGN hp ∧
      (∀ t, fits (bitmap s) HEAP_SIZE HEAP_ALIGN t → hp <= t) ∧
      p = hp + 56 ∧ heap_ok s' ∧ map_ok s' [hp] ∧ cur_end s' = hp + 112 ∧
      heap_start s' = hp ∧ heap_end s' = hp + HEAP_SIZE ∧
      bitmap s' = bm' ∧ taken (bitmap s) bm' hp HEAP_SIZE ∧
      con s' = con s ∧ ram s' = ram s ∧
      ∀ a ty, covers s' a ty ↔ ty = TLoad ∧ hp <= a < hp + HEAP_SIZE) s.
Proof.
  intros Hemp Htop H0 [t0 Ht0].
  pose proof Hemp as (E1 & E2 & E3 & E4).
  cbn [malloc_depth]. unfold malloc_with at 1. wp_steps. rewrite E4. simpl (0 =? 0).
  cbn iota. wp_steps.
  eapply wp_mono; [apply malloc_align_with_spec; try done; unfold HEAP_SIZE, HEAP_ALIGN; lia|].
  intros p s1 [(-> & -> & Hno)|(Hp & Hpt & Hpa & Hfree & Hmin & bm' & -> & Htk)];
    [by destruct (Hno t0)|].
  wp_steps. destruct (Z.eqb_spec p 0); [lia|].
  set (s2 := with_heap p p (u32 (p + HEAP_SIZE)) (with_bitmap (λ _, bm') s)).
  unfold HEAP_SIZE in *.
  assert (u32 (p + 0x700000) = p + 0x700000) as Eu by (apply u32_small; lia).
  assert (map_ok s2 []) as Hok.
  { destruct (map_empty_ok s Hemp). by split. }
  assert (heap_ok s2) as Hh2 by (unfold heap_ok, s2; simpl; rewrite Eu; lia).
  wp_steps. unfold add_linked_list_with. wp_steps.
  replace (mm_last s2) with 0 by (symmetry; exact E2). simpl (0 =? 0). cbn iota.
  apply wp_ret. cbn iota.
  eapply wp_mono.
  { apply (add_node_spec d p 0x700000 TLoad s2 []); [done|done|unfold s2; simpl; rewrite Eu; lia|].
    unfold region_wf. lia. }
  intros [] s3 (H3 & (Eb & Ec & Er & Ehs & Ehe) & Hh3 & Hce & Hcov). wp_steps.
  cbn [app] in H3. unfold s2 in Eb, Ec, Er, Ehs, Ehe, Hce, H3. simpl in Eb, Ec, Er, Ehs, Ehe, Hce, H3.
  rewrite Eu in Ehe. rewrite Hce, Ehe.
  rewrite (u32_small (p + 0x700000 - (p + 56))), (u32_small 56) by lia.
  destruct (Z.ltb_spec (p + 0x700000 - (p + 56)) 56); [lia|].
  wp_steps. simpl. rewrite Hce, (u32_small (p + 56 + 56)), u32_small by lia.
  exists p, bm'. split_and!; try done; try (simpl; lia).
  - split_and!; [lia|lia|done|done].
  - intros t Ht. apply Z.nlt_ge. intros Hlt. by apply (Hmin t).
  - unfold heap_ok. simpl. rewrite Ehs, Ehe. lia.
  - destruct H3 as [Hf Hl Hnd Hdom Had Hlk Hwf Hap]. split; try done.
    simpl. rewrite Ehs. repeat constructor; lia.
  - intros a ty. change (covers (with_heap (p + 56 + 56) (heap_start s3) (heap_end s3) s3) a ty)
      with (covers s3 a ty).
    rewrite Hcov. unfold plus_region.
    assert (¬ covers s2 a ty) as Hn.
    { intros (q & m & Hq & _). simpl in Hq. by rewrite E3, lookup_empty in Hq. }
    tauto.
Qed.

(** The region of the heap, which the first call records by itself. *)
Definition heap_region (hp : Z) : Z → Z → Prop :=
  λ a ty, ty = TLoad ∧ hp <= a < hp + HEAP_SIZE.

(** A boot state: nothing recorded yet, the first and the last page frame of
    the 32-bit space in use, and room for the heap. *)
Definition boot_ready (s : tload) : Prop :=
  map_empty s ∧ top_used (bitmap s) ∧ used (bitmap s) 0 = true ∧
  ∃ t, fits (bitmap s) HEAP_SIZE HEAP_ALIGN t.

Definition heap_taken (s s' : tload) (hp : Z) : Prop :=
  fits (bitmap s) HEAP_SIZE HEAP_ALIGN hp ∧ 0 < hp ∧ hp + HEAP_SIZE <= 0xfffff000 ∧
  taken (bitmap s) (bitmap s') hp HEAP_SIZE ∧ con s' = con s ∧ ram s' = ram s ∧
  heap_start s' = hp ∧ heap_end s' = hp + HEAP_SIZE ∧
  ∀ t, fits (bitmap s) HEAP_SIZE HEAP_ALIGN t → hp <= t.

Lemma add_linked_list_first room addr length type s :
  boot_ready s → 112 + 56 * room <= HEAP_SIZE → region_wf addr length →
  wp (add_linked_list addr length type) (λ _ s', ∃ hp,
    heap_taken s s' hp ∧
    map_state room (plus_region (heap_region hp) addr length type) s') s.
Proof.
  intros (Hemp & Htop & H0 & Hfit) Hroom Hr. pose proof Hemp as (E1 & E2 & E3 & E4).
  unfold add_linked_list, add_linked_list_with. wp_steps. rewrite E2. simpl (0 =? 0).
  cbn iota. apply wp_ret. cbn iota. unfold sizeof_linked_mmap. wp_steps.
  eapply wp_mono; [by apply (malloc_first_spec 0)|].
  intros p s1 (hp & bm' & Hp & Hpt & Hf & Hmin & -> & Hh & Hok & Hce & Ehs & Ehe & Ebm & Htk & Ec & Er & Hcov).
  wp_steps. unfold HEAP_SIZE in Hpt, Ehe, Hroom.
  assert (hp + 56 ∉ [hp]) as Hnew by (rewrite list_elem_of_singleton; lia).
  pose proof (append_unfold s1 [hp] (hp + 56) hp addr length type Hh Hok Hnew eq_refl) as Eu.
  exists hp. split.
  - rewrite Eu. unfold heap_taken. simpl. rewrite Ebm. done.
  - exists ([hp] ++ [hp + 56]). split_and!.
    + apply (map_ok_append_cons s1 [hp] (hp + 56) hp); try (done || lia). repeat constructor; lia.
    + simpl. lia.
    + by rewrite Eu.
    + rewrite Eu. simpl. lia.
    + intros a ty. rewrite (covers_append s1 [hp] (hp + 56) hp) by done.
      unfold plus_region. by rewrite Hcov.
Qed.

(** The calls the boot path makes: one [add_linked_list] per region. *)
Fixpoint add_regions (rs : list (Z * Z * Z)) : M tload unit :=
  match rs with
  | [] => mret tt
  | (addr, length, type) :: rs => add_linked_list addr length type ;; add_regions rs
  end.

(** Byte [a] is in a region of type [ty] of the list. *)
Definition listed (rs : list (Z * Z * Z)) (a ty : Z) : Prop :=
  ∃ addr length, (addr, length, ty) ∈ rs ∧ addr <= a < addr + length.

Lemma listed_cons addr length type rs a ty :
  listed ((addr, length, type) :: rs) a ty ↔
  (ty = type ∧ addr <= a < addr + length) ∨ listed rs a ty.
Proof.
  unfold listed. split.
  - intros (b & n & Hin & Ha). apply elem_of_cons in Hin as [Heq|Hin].
    + simplify_eq. by left.
    + right. by exists b, n.
  - intros [[-> Ha]|(b & n & Hin & Ha)].
    + exists addr, length. split; [by apply elem_of_cons; left|done].
    + exists b, n. split; [by apply elem_of_cons; right|done].
Qed.

Lemma map_state_proper room R R' s :
  (∀ a ty, R a ty ↔ R' a ty) → map_state room R s → map_state room R' s.
Proof.
  intros HR (l & H & Hlen & Hh & Hroom & Hcov). exists l. split_and!; try done.
  intros a ty. by rewrite Hcov.
Qed.

Lemma add_regions_spec rs room R s :
  0 <= room → map_state (room + Z.of_nat (length rs)) R s →
  Forall (λ r, region_wf r.1.1 r.1.2) rs →
  wp (add_regions rs) (λ _ s',
    map_state room (λ a ty, R a ty ∨ listed rs a ty) s' ∧ same_rest s s') s.
Proof.
  revert R s. induction rs as [|[[addr len] ty] rs IH]; intros R s Hroom Hm Hwf.
  - cbn [add_regions]. wp_steps. rewrite Z.add_0_r in Hm. split; [|done].
    eapply map_state_proper; [|exact Hm]. intros a t. split; [by left|].
    intros [?|(b & n & Hin & _)]; [done|]. by apply not_elem_of_nil in Hin.
  - cbn [add_regions]. wp_steps. apply Forall_cons in Hwf as [Hwf Hwfs].
    unfold add_linked_list, malloc. cbn [List.length] in Hm.
    eapply wp_mono; [apply (add_linked_list_depth 1 (room + Z.of_nat (List.length rs)) R)|];
      [lia| |done|].
    { by replace (room + Z.of_nat (List.length rs) + 1)
        with (room + Z.of_nat (S (List.length rs))) by lia. }
    intros [] s1 [Hm1 Hr1]. eapply wp_mono; [by apply IH|].
    intros [] s2 [Hm2 Hr2]. split.
    + eapply map_state_proper; [|exact Hm2]. intros a t. rewrite listed_cons.
      unfold plus_region. tauto.
    + destruct Hr1 as (? & ? & ? & ? & ?), Hr2 as (? & ? & ? & ? & ?).
      split_and!; congruence.
Qed.

(** [count_linked_list] counts the entries. *)
Lemma count_loop_spec s l i fuel :
  heap_ok s → map_ok s l → (i <= length l)%nat → Z.of_nat (length l) < 2 ^ 31 →
  (length l - i < fuel)%nat →
  count_loop fuel (nodes s) (default 0 (l !! i)) (Z.of_nat i) = Done (Z.of_nat (length l)).
Proof.
  intros Hh H Hi Hmax. revert i Hi. induction fuel as [|fuel IH]; intros i Hi Hf; [lia|].
  cbn [count_loop]. destruct (l !! i) as [a|] eqn:Ea; simpl default.
  - destruct (map_ok_nonzero s l a) as [Hz _]; [done..|by eapply list_elem_of_lookup_2|].
    destruct (Z.eqb_spec a 0); [lia|].
    destruct (mo_links _ _ H i a Ea) as (m & -> & -> & _).
    pose proof (lookup_lt_Some _ _ _ Ea). rewrite s32_small by lia.
    replace (Z.of_nat i + 1) with (Z.of_nat (S i)) by lia. apply IH; lia.
  - apply lookup_ge_None_1 in Ea. simpl. f_equal. lia.
Qed.

Lemma count_linked_list_length s l :
  heap_ok s → map_ok s l → Z.of_nat (length l) < 2 ^ 31 →
  count_linked_list s = Done (Z.of_nat (length l)).
Proof.
  intros Hh H Hl. unfold count_linked_list.
  rewrite (map_ok_size s l H), (mo_first _ _ H).
  replace (head l) with (l !! 0%nat) by by destruct l.
  change 0 with (Z.of_nat 0) at 2. apply count_loop_spec; done || lia.
Qed.

Lemma apart_length (lo hi : Z) l :
  Forall (λ a, lo <= a ∧ a + 56 <= hi) l → StronglySorted (λ a b, a + 56 <= b) l → lo <= hi →
  56 * Z.of_nat (length l) <= hi - lo.
Proof.
  intros Hf Hs. revert lo Hf. induction Hs as [|a l Hs IH Ha]; intros lo Hf Hle; [simpl; lia|].
  apply Forall_cons in Hf as [[H1 H2] Hf]. cbn [length].
  enough (56 * Z.of_nat (length l) <= hi - (a + 56)) by lia. apply IH; [|lia].
  rewrite Forall_forall in *. intros b Hb. split; [by apply Ha|by apply Hf].
Qed.

Lemma map_ok_length s l :
  heap_ok s → map_ok s l → 56 * Z.of_nat (length l) <= cur_end s - heap_start s.
Proof. intros (Hh1 & _) H. apply apart_length; [apply H|apply H|lia]. Qed.

(** The first call, then the others, with room for more. *)
Lemma memory_map_room room addr length type rs s :
  boot_ready s → 0 <= room → 112 + 56 * (room + Z.of_nat (List.length rs)) <= HEAP_SIZE →
  region_wf addr length → Forall (λ r, region_wf r.1.1 r.1.2) rs →
  wp (add_regions ((addr, length, type) :: rs)) (λ _ s', ∃ hp,
    heap_taken s s' hp ∧
    map_state room (λ a ty, heap_region hp a ty ∨ listed ((addr, length, type) :: rs) a ty) s') s.
Proof.
  intros Hb H0 Hroom Hr Hrs. cbn [add_regions]. wp_steps.
  eapply wp_mono; [by apply (add_linked_list_first (room + Z.of_nat (List.length rs)))|].
  intros [] s1 (hp & Hhp & Hm). eapply wp_mono; [by apply (add_regions_spec rs room)|].
  intros [] s2 [Hm2 (Eb & Ec & Er & Ehs & Ehe)]. exists hp. split.
  - unfold heap_taken in *. by rewrite Eb, Ec, Er, Ehs, Ehe.
  - eapply map_state_proper; [|exact Hm2]. intros a ty. rewrite listed_cons. unfold plus_region. tauto.
Qed.

Lemma map_state_count room R s : map_state room R s →
  ∃ l, map_ok s l ∧ count_linked_list s = Done (Z.of_nat (List.length l)).
Proof.
  intros (l & Hok & _ & Hh & _ & _). exists l. split; [done|].
  apply count_linked_list_length; [done..|]. pose proof (map_ok_length s l Hh Hok). unfold heap_ok in Hh. lia.
Qed.

Lemma map_state_covers room R s a ty : map_state room R s → covers s a ty ↔ R a ty.
Proof. intros (l & _ & _ & _ & _ & H). apply H. Qed.

Lemma memory_map_spec addr length type rs s :
  boot_ready s → 112 + 56 * Z.of_nat (List.length rs) <= HEAP_SIZE →
  region_wf addr length → Forall (λ r, region_wf r.1.1 r.1.2) rs →
  wp (add_regions ((addr, length, type) :: rs)) (λ _ s', ∃ hp l,
    heap_taken s s' hp ∧ map_ok s' l ∧
    count_linked_list s' = Done (Z.of_nat (List.length l)) ∧
    ∀ a ty, covers s' a ty ↔ heap_region hp a ty ∨ listed ((addr, length, type) :: rs) a ty) s.
Proof.
  intros Hb Hroom Hr Hrs. eapply wp_mono; [apply (memory_map_room 0); (done || lia)|].
  intros [] s' (hp & Hhp & Hm). destruct (map_state_count _ _ _ Hm) as (l & Hok & Hc).
  exists hp, l. split_and!; [done|done|done|]. intros a ty. exact (map_state_covers _ _ _ a ty Hm).
Qed.

(** C6. The memory map handed to the kernel.  From a boot state, any sequence
    of [add_linked_list] calls that fits the heap terminates, follows no
    uninitialised pointer, and leaves a well-formed doubly linked list whose
    entries describe exactly the recorded regions together with the 7 MiB heap
    that the first call allocates for itself; [count_linked_list] returns the
    number of its entries. *)
Theorem memory_map_exact addr length type rs s :
  boot_ready s → 112 + 56 * Z.of_nat (List.length rs) <= HEAP_SIZE →
  region_wf addr length → Forall (λ r, region_wf r.1.1 r.1.2) rs →
  wp (add_regions ((addr, length, type) :: rs)) (λ _ s', ∃ hp l,
    heap_taken s s' hp ∧ map_ok s' l ∧
    count_linked_list s' = Done (Z.of_nat (List.length l)) ∧
    ∀ a ty, covers s' a ty ↔ heap_region hp a ty ∨ listed ((addr, length, type) :: rs) a ty) s.
Proof. exact (memory_map_spec addr length type rs s). Qed.

(** A boot state with the first megabyte and the top page in use. *)
Definition tload0 : tload :=
  TLoadState (list_to_map ([(0x7fff, 0x80000000)] ++ ((λ i, (i, 0xffffffff)) <$> seqZ 0 8)))
    0 0 ∅ 0 0 0 console0 ∅.

Lemma is_free_range bm addr length :
  0 <= length <= 0xfffff000 → is_free bm addr length = Done true → range_free bm addr length.
Proof.
  intros Hl E. destruct (is_free_spec bm addr length Hl) as (b & E' & Hb).
  apply Hb. congruence.
Qed.

Lemma tload0_fits length : 0 <= length <= 0xfffff000 →
  is_free (bitmap tload0) 0x100000 length = Done true →
  fits (bitmap tload0) length 0x100000 0x100000.
Proof. intros Hl E. split_and!; [lia|lia|done|]. by apply is_free_range. Qed.

Lemma tload0_ready : boot_ready tload0.
Proof.
  split; [split_and!; reflexivity|]. split; [by vm_compute|]. split; [by vm_compute|].
  exists 0x100000. apply tload0_fits; [unfold HEAP_SIZE; lia|by vm_compute].
Qed.

Lemma memory_map_exact_witness :
  wp (add_regions [(0x100000000, 0x1000, 1); (0x100001000, 0x3000, 1); (0x9000, 0x1000, 2)])
    (λ _ s', ∃ hp l, heap_taken tload0 s' hp ∧ map_ok s' l ∧
      count_linked_list s' = Done (Z.of_nat (List.length l)) ∧
      ∀ a ty, covers s' a ty ↔ heap_region hp a ty ∨
        listed [(0x100000000, 0x1000, 1); (0x100001000, 0x3000, 1); (0x9000, 0x1000, 2)] a ty)
    tload0.
Proof.
  apply (memory_map_exact 0x100000000 0x1000 1 [(0x100001000, 0x3000, 1); (0x9000, 0x1000, 2)]).
  - exact tload0_ready.
  - unfold HEAP_SIZE. simpl List.length. lia.
  - unfold region_wf. lia.
  - repeat constructor; unfold region_wf; simpl; lia.
Defined.

(** C15. [malloc_align] is first fit.  With page-multiple arguments and the
    first and last frame in use it terminates; it returns 0 and changes
    nothing exactly when no aligned free range exists, and otherwise returns
    the lowest one, whose pages (and no others) become used. *)
Theorem malloc_align_first_fit length align type s :
  0 < align <= 0xffffffff → align mod PAGESIZE = 0 →
  0 < length <= 0xfffff000 → length mod PAGESIZE = 0 →
  top_used (bitmap s) → used (bitmap s) 0 = true →
  wp (malloc_align length align type 0) (λ p s',
    (p = 0 ∧ s' = s ∧ ∀ t, ¬ fits (bitmap s) length align t) ∨
    (0 < p ∧ p + length <= 0xfffff000 ∧ p mod align = 0 ∧
     range_free (bitmap s) p length ∧ (∀ t, t < p → ¬ fits (bitmap s) length align t) ∧
     ∃ bm', s' = with_bitmap (λ _, bm') s ∧ taken (bitmap s) bm' p length)) s.
Proof. apply malloc_align_with_spec. Qed.

Lemma malloc_align_first_fit_witness :
  wp (malloc_align 0x2000 0x1000 PagingStructure 0) (λ p s',
    (p = 0 ∧ s' = tload0 ∧ ∀ t, ¬ fits (bitmap tload0) 0x2000 0x1000 t) ∨
    (0 < p ∧ p + 0x2000 <= 0xfffff000 ∧ p mod 0x1000 = 0 ∧
     range_free (bitmap tload0) p 0x2000 ∧
     (∀ t, t < p → ¬ fits (bitmap tload0) 0x2000 0x1000 t) ∧
     ∃ bm', s' = with_bitmap (λ _, bm') tload0 ∧ taken (bitmap tload0) bm' p 0x2000)) tload0.
Proof.
  apply (malloc_align_first_fit 0x2000 0x1000 PagingStructure tload0);
    [lia|by vm_compute|lia|by vm_compute|by vm_compute|by vm_compute].
Defined.

(** A marking loop on a region below 4 GiB. *)
Lemma mark_loop_spec f (val : bool) start length bm :
  (∀ bm a x, 0 <= a < 0x100000000 → used (f bm a) x = if x =? a / 4096 then val else used bm x) →
  0 <= start → 0 <= length → start + length <= 0x100000000 →
  ∃ bm', page_loop (page_fuel start (u64 (start + length))) u64 f bm start (u64 (start + length)) = Done bm' ∧
    ∀ x, used bm' x = if bool_decide (in_pages start length x) then val else used bm x.
Proof.
  intros Hf Hs Hl Htop. rewrite (u64_small (start + length)) by lia.
  destruct (page_loop_spec (page_fuel start (start + length)) u64 f val bm start (start + length) 0x100002000)
    as (bm' & E & Hbm'); [intros; apply Hf; lia|intros; apply u64_small; lia|lia|lia|intros; lia|done|].
  exists bm'. split; [exact E|]. intros x. replace (start + length - start) with length in Hbm' by lia.
  destruct (Hbm' x) as [H1 H2]. case_bool_decide; auto.
Qed.

Lemma mark_used_spec start length s :
  0 <= start → 0 <= length → start + length <= 0x100000000 →
  ∃ bm', mark_used start length s = Done (start, with_bitmap (λ _, bm') s) ∧
    ∀ x, used bm' x = if bool_decide (in_pages start length x) then true else used (bitmap s) x.
Proof.
  intros Hs Hl Htop.
  destruct (mark_loop_spec (λ bm cur, _set bm (u32 cur)) true start length (bitmap s)) as (bm' & E & Hb); [|done..|].
  - intros b a x Hx. rewrite u32_small, used_set by lia. by destruct (x =? a / 4096), (used b x).
  - exists bm'. split; [|done]. unfold mark_used, mbind, M_bind, bind, get, lift. cbn [obind fst snd]. by rewrite E.
Qed.

Lemma mark_free_spec start length s :
  0 <= start → 0 <= length → start + length <= 0x100000000 →
  ∃ bm', mark_free start length s = Done (start, with_bitmap (λ _, bm') s) ∧
    ∀ x, used bm' x = if bool_decide (in_pages start length x) then false else used (bitmap s) x.
Proof.
  intros Hs Hl Htop.
  destruct (mark_loop_spec (λ bm cur, _unset bm (u32 cur)) false start length (bitmap s)) as (bm' & E & Hb); [|done..|].
  - intros b a x Hx. rewrite u32_small, used_unset by lia. by destruct (x =? a / 4096), (used b x).
  - exists bm'. split; [|done]. unfold mark_free, mbind, M_bind, bind, get, lift. cbn [obind fst snd]. by rewrite E.
Qed.

(** [mark_used] and [mark_free] on a region below 4 GiB terminate, return
    the start, and give exactly the pages they step on the status used or
    free: the frames of [start], [start + 4096], ... below [start + length]. *)
Lemma mark_used_mark_free_pages start length s :
  0 <= start → 0 <= length → start + length <= 0x100000000 →
  wp (mark_used start length) (λ r s', r = start ∧ ∃ bm', s' = with_bitmap (λ _, bm') s ∧
    ∀ x, used bm' x = used (bitmap s) x || bool_decide (in_pages start length x)) s ∧
  wp (mark_free start length) (λ r s', r = start ∧ ∃ bm', s' = with_bitmap (λ _, bm') s ∧
    ∀ x, used bm' x = used (bitmap s) x && negb (bool_decide (in_pages start length x))) s.
Proof.
  intros Hs Hl Htop. destruct (mark_used_spec start length s Hs Hl Htop) as (bm1 & E1 & H1).
  destruct (mark_free_spec start length s Hs Hl Htop) as (bm2 & E2 & H2). split.
  - eapply wp_intro; [exact E1|]. split; [done|]. exists bm1. split; [done|]. intros x. rewrite H1.
    by case_bool_decide; destruct (used (bitmap s) x).
  - eapply wp_intro; [exact E2|]. split; [done|]. exists bm2. split; [done|]. intros x. rewrite H2.
    by case_bool_decide; destruct (used (bitmap s) x).
Qed.

Lemma mark_used_mark_free_pages_witness :
  wp (mark_used 0x9f000 0x1800) (λ r s', r = 0x9f000 ∧ ∃ bm', s' = with_bitmap (λ _, bm') tload0 ∧
    ∀ x, used bm' x = used (bitmap tload0) x || bool_decide (in_pages 0x9f000 0x1800 x)) tload0 ∧
  wp (mark_free 0x9f000 0x1800) (λ r s', r = 0x9f000 ∧ ∃ bm', s' = with_bitmap (λ _, bm') tload0 ∧
    ∀ x, used bm' x = used (bitmap tload0) x && negb (bool_decide (in_pages 0x9f000 0x1800 x)))
    tload0.
Proof. apply (mark_used_mark_free_pages 0x9f000 0x1800 tload0); lia. Defined.

(** The last page of the 32-bit space is handed out without being marked
    used: the end address [addr + length] wraps to 0, so the marking loop of
    [_malloc_fixed] has no iteration and the next call returns the page again. *)
Lemma malloc_fixed_top_page_not_marked type s :
  used (bitmap s) 0xfffff = false →
  malloc_fixed 0xfffff000 PAGESIZE type 0 s = Done (0xfffff000, s).
Proof.
  intros Hfree. unfold malloc_fixed, malloc_fixed_with, PAGESIZE.
  unfold get, mbind, M_bind, bind, obind. cbn [fst snd].
  destruct (is_free_spec (bitmap s) 0xfffff000 0x1000) as (b & -> & Hb); [lia|].
  assert (b = true) as ->.
  { apply Hb. intros k Hk Hkl. assert (k = 0) as -> by lia. exact Hfree. }
  unfold lift, obind. cbn [fst snd].
  unfold _malloc_fixed_with, get, mbind, M_bind, bind, obind. cbn [fst snd].
  change (u32 (0xfffff000 + 0x1000)) with 0. cbn. by destruct s.
Qed.

Lemma malloc_fixed_top_page_not_marked_witness :
  let s := with_bitmap (λ _, ∅) tload0 in
  malloc_fixed 0xfffff000 PAGESIZE PagingStructure 0 s = Done (0xfffff000, s).
Proof. intros s. apply malloc_fixed_top_page_not_marked. by vm_compute. Defined.
