(* ===== verification/PageTable.v ===== *)
(** * Four-level page tables in memory

    What the x86-64 processor does with the tables the loaders build: the
    walk from a root table to a page, and the tree of tables as a map from
    index paths to table addresses.  Shared by the loaders' mapping code. *)

From stdpp Require Import base numbers list gmap.
From Stdlib Require Import Lia.
From S2P Require Import Prelude Mem.
Open Scope Z_scope.

Definition P_PRESENT : Z := 0x1.
Definition P_WRITE : Z := 0x2.
Definition ADDR_MASK : Z := 0xFFFFFFFFFF000.

(** The fields of a virtual address. *)
Definition GET_PML4T_ENTRY_NO (x : Z) : Z := Z.land (Z.shiftr x 39) 0x1ff.
Definition GET_PDPT_ENTRY_NO (x : Z) : Z := Z.land (Z.shiftr x 30) 0x1ff.
Definition GET_PD_ENTRY_NO (x : Z) : Z := Z.land (Z.shiftr x 21) 0x1ff.
Definition GET_PT_ENTRY_NO (x : Z) : Z := Z.land (Z.shiftr x 12) 0x1ff.
Definition GET_PAGE_OFFSET (x : Z) : Z := Z.land x 0xfff.

(** The path to the page table of [v]. *)
Definition path (v : Z) : list Z :=
  [GET_PML4T_ENTRY_NO v; GET_PDPT_ENTRY_NO v; GET_PD_ENTRY_NO v].

Definition entry (m : mem) (t i : Z) : Z := rd64 m (t + 8 * i).
Definition present (e : Z) : bool := Z.testbit e 0.
Definition frame_of (e : Z) : Z := Z.land e ADDR_MASK.

(** ** The processor's walk *)
Fixpoint walk (m : mem) (t : Z) (ix : list Z) : option Z :=
  match ix with
  | [] => Some t
  | i :: ix => if present (entry m t i) then walk m (frame_of (entry m t i)) ix else None
  end.

(** The entry that maps the page of [v]. *)
Definition leaf (m : mem) (root v : Z) : option Z :=
  match walk m root (path v) with
  | Some t => let e := entry m t (GET_PT_ENTRY_NO v) in if present e then Some e else None
  | None => None
  end.

Definition translate (m : mem) (root v : Z) : option Z :=
  (λ e, frame_of e + GET_PAGE_OFFSET v) <$> leaf m root v.

(** ** Indices and pages *)
Lemma land_1ff x : Z.land x 0x1ff = x mod 512.
Proof. change 0x1ff with (Z.ones 9). by rewrite Z.land_ones. Qed.
Lemma land_fff x : Z.land x 0xfff = x mod 4096.
Proof. change 0xfff with (Z.ones 12). by rewrite Z.land_ones. Qed.

Definition index (i : Z) : Prop := 0 <= i < 512.

Lemma index_land x : index (Z.land x 0x1ff).
Proof. rewrite land_1ff. apply Z.mod_pos_bound. lia. Qed.

Lemma path_index v : Forall index (path v).
Proof. repeat constructor; apply index_land. Qed.

(** The page number the four indices spell: bits 12 to 47. *)
Definition vpn (v : Z) : Z := (v / 4096) mod 2 ^ 36.

Lemma path_inj v w :
  path v = path w → GET_PT_ENTRY_NO v = GET_PT_ENTRY_NO w → vpn v = vpn w.
Proof.
  intros Hp Hi. unfold path, GET_PML4T_ENTRY_NO, GET_PDPT_ENTRY_NO, GET_PD_ENTRY_NO,
    GET_PT_ENTRY_NO, vpn in *.
  rewrite !land_1ff, !Z.shiftr_div_pow2 in * by lia. injection Hp as E1 E2 E3. dlia.
Qed.

Lemma vpn_path v w :
  vpn v = vpn w → path v = path w ∧ GET_PT_ENTRY_NO v = GET_PT_ENTRY_NO w.
Proof.
  intros E. unfold path, GET_PML4T_ENTRY_NO, GET_PDPT_ENTRY_NO, GET_PD_ENTRY_NO,
    GET_PT_ENTRY_NO, vpn in *.
  rewrite !land_1ff, !Z.shiftr_div_pow2 by lia. split; [|dlia].
  f_equal; [dlia|]. f_equal; [dlia|]. f_equal. dlia.
Qed.

Lemma vpn_leaf m root v w : vpn v = vpn w → leaf m root v = leaf m root w.
Proof. intros E. unfold leaf. by destruct (vpn_path v w E) as [-> ->]. Qed.

(** ** The tree of tables *)
(** Physical addresses are at most 52 bits wide. *)
Definition table_ok (a : Z) : Prop := 0 < a ∧ a + 4096 <= 2 ^ 52 ∧ a mod 4096 = 0.

(** Entry 511 of the root is the recursive mapping. *)
Definition self_slot (p : list Z) (i : Z) : Prop := p = [] ∧ i = 511.

Record tree (m : mem) (root : Z) (T : gmap (list Z) Z) : Prop := Tree {
  tr_root : T !! [] = Some root;
  tr_table : ∀ p a, T !! p = Some a → (length p <= 3)%nat ∧ table_ok a;
  tr_inj : ∀ p q a, T !! p = Some a → T !! q = Some a → p = q;
  tr_entry : ∀ p a i, T !! p = Some a → (length p < 3)%nat → index i → ¬ self_slot p i →
    T !! (p ++ [i]) =
      if present (entry m a i) then Some (frame_of (entry m a i)) else None;
  tr_parent : ∀ p i a, T !! (p ++ [i]) = Some a → is_Some (T !! p) ∧ index i ∧ ¬ self_slot p i
}.

Lemma tree_walk m root T p a ix :
  tree m root T → T !! p = Some a → (length p + length ix <= 3)%nat → Forall index ix →
  (p = [] → head ix ≠ Some 511) → walk m a ix = T !! (p ++ ix).
Proof.
  intros HT. revert p a. induction ix as [|i ix IH]; intros p a Hp Hlen Hix Hself.
  - by rewrite app_nil_r.
  - apply Forall_cons in Hix as [Hi Hix]. cbn [walk length] in *.
    assert (¬ self_slot p i) as Hns by (intros [-> ->]; by apply Hself).
    pose proof (tr_entry _ _ _ HT p a i Hp ltac:(lia) Hi Hns) as He.
    replace (p ++ i :: ix) with ((p ++ [i]) ++ ix) by by rewrite <- app_assoc.
    destruct (present (entry m a i)).
    + apply (IH (p ++ [i])); [done|rewrite length_app; simpl; lia|done|].
      intros E. by destruct p.
    + symmetry. revert He. clear -HT. revert p i. induction ix as [|j ix IHs] using rev_ind;
        intros p i He; [by rewrite app_nil_r|].
      rewrite app_assoc. destruct (T !! (((p ++ [i]) ++ ix) ++ [j])) eqn:E; [|done].
      apply (tr_parent _ _ _ HT) in E as [[b Eb] _]. by rewrite (IHs p i He) in Eb.
Qed.

(** Not in the recursive slot. *)
Definition user_va (v : Z) : Prop := GET_PML4T_ENTRY_NO v ≠ 511.

Lemma tree_leaf m root T v :
  tree m root T → user_va v →
  leaf m root v =
    match T !! path v with
    | Some t => let e := entry m t (GET_PT_ENTRY_NO v) in if present e then Some e else None
    | None => None
    end.
Proof.
  intros HT Hv. unfold leaf. rewrite (tree_walk m root T [] root (path v) HT).
  - done.
  - apply (tr_root _ _ _ HT).
  - done.
  - apply path_index.
  - intros _ [=]. done.
Qed.

(** A table lies inside its page. *)
Lemma entry_same_outside m m' t i b n :
  same_outside b n m m' → index i → table_ok t → b mod 4096 = 0 → 0 <= n <= 4096 → t ≠ b →
  entry m' t i = entry m t i.
Proof.
  intros Hs Hi (H0 & H1 & H2) Hb Hn Hne. unfold entry, rd64, index in *.
  apply (rd_same_outside 8 m m' _ b n Hs). dlia.
Qed.

Lemma tables_disjoint m root T p q a b :
  tree m root T → T !! p = Some a → T !! q = Some b → p ≠ q → a ≠ b.
Proof. intros HT Ha Hb Hne ->. apply Hne. by apply (tr_inj _ _ _ HT _ _ b). Qed.

Lemma entry_store m a i e t j :
  table_ok a → table_ok t → index i → index j →
  entry (wr64 m (a + 8 * i) e) t j =
    if decide (t = a ∧ j = i) then u64 e else entry m t j.
Proof.
  intros (A0 & A1 & A2) (T0 & T1 & T2) Hi Hj. unfold entry, index in *. case_decide as E.
  - destruct E as [-> ->]. apply rd64_wr64_eq.
  - apply rd64_wr64_ne. destruct (decide (t = a)) as [->|Hne]; [lia|dlia].
Qed.

(** ** Changing a tree *)
Section update.
Context (m m' : mem) (root : Z) (T : gmap (list Z) Z) (p : list Z) (a i : Z).
Hypothesis HT : tree m root T.
Hypothesis Hp : T !! p = Some a.
Hypothesis Hi : index i.
(** Only entry [i] of table [a] changed, among the tables of the tree. *)
Hypothesis Hsame : ∀ q t j, T !! q = Some t → index j → ¬ (t = a ∧ j = i) →
  entry m' t j = entry m t j.

Lemma entry_other q t j :
  T !! q = Some t → index j → q ≠ p → entry m' t j = entry m t j.
Proof.
  intros Hq Hj Hne. apply (Hsame q); [done|done|]. intros [-> _].
  apply Hne. by apply (tr_inj _ _ _ HT _ _ a).
Qed.

(** An inner entry whose address and presence are kept. *)
Lemma tree_touch :
  (length p < 3)%nat → present (entry m' a i) = present (entry m a i) →
  frame_of (entry m' a i) = frame_of (entry m a i) →
  tree m' root T ∧ ∀ v, user_va v → leaf m' root v = leaf m root v.
Proof.
  intros Hlen Epr Efr.
  assert (tree m' root T) as HT'.
  { destruct HT as [H1 H2 H3 H4 H5]. split; try done. intros q t j Hq Hl Hj Hns.
    rewrite (H4 q t j) by done. destruct (decide (t = a ∧ j = i)) as [[-> ->]|Hne].
    - by rewrite Epr, Efr.
    - by rewrite (Hsame q). }
  split; [done|]. intros v Hv.
  rewrite (tree_leaf _ _ _ _ HT' Hv), (tree_leaf _ _ _ _ HT Hv).
  destruct (T !! path v) as [t|] eqn:Et; [|done].
  rewrite (entry_other (path v)); [done|done|apply index_land|].
  intros E. rewrite <- E in Hlen. simpl in Hlen. lia.
Qed.

(** A fresh, empty table hung under an absent inner entry. *)
Lemma tree_add new :
  (length p < 3)%nat → ¬ self_slot p i → present (entry m a i) = false →
  table_ok new → (∀ q, T !! q ≠ Some new) → (∀ j, index j → entry m' new j = 0) →
  present (entry m' a i) = true → frame_of (entry m' a i) = new →
  tree m' root (<[p ++ [i] := new]> T) ∧ ∀ v, user_va v → leaf m' root v = leaf m root v.
Proof.
  intros Hlen Hns Habs Hnew Hfresh Hzero Hpr Hfr.
  assert (T !! (p ++ [i]) = None) as Hnone
    by (rewrite (tr_entry _ _ _ HT p a i) by done; by rewrite Habs).
  assert (∀ q, T !! (p ++ i :: q) = None) as Hbelow.
  { intros q. induction q as [|j q IH] using rev_ind; [done|].
    replace (p ++ i :: q ++ [j]) with ((p ++ i :: q) ++ [j]) by by rewrite <- app_assoc.
    destruct (T !! ((p ++ i :: q) ++ [j])) eqn:E; [|done].
    apply (tr_parent _ _ _ HT) in E as [[b Eb] _]. congruence. }
  assert (tree m' root (<[p ++ [i] := new]> T)) as HT'.
  { destruct HT as [H1 H2 H3 H4 H5]. split.
    - rewrite lookup_insert_ne; [done|]. by destruct p.
    - intros q b Hq. apply lookup_insert_Some in Hq as [[<- <-]|[_ Hq]]; [|by apply H2].
      rewrite length_app. simpl. split; [lia|done].
    - intros q r b Hq Hr. apply lookup_insert_Some in Hq as [[<- <-]|[Hq0 Hq]],
        Hr as [[<- Hb]|[Hr0 Hr]].
      + done.
      + by destruct (Hfresh r).
      + subst b. by destruct (Hfresh q).
      + by apply (H3 q r b).
    - intros q t j Hq Hl Hj Hs. apply lookup_insert_Some in Hq as [[<- <-]|[Hq0 Hq]].
      + rewrite Hzero by done. cbn. rewrite lookup_insert_ne.
        * rewrite <- app_assoc. apply (Hbelow [j]).
        * intros E. apply (f_equal length) in E. rewrite !length_app in E. simpl in E. lia.
      + destruct (decide (t = a ∧ j = i)) as [[-> ->]|Hne].
        * assert (q = p) as -> by by apply (H3 q p a).
          rewrite lookup_insert_eq, Hpr, Hfr. done.
        * rewrite (Hsame q), <- (H4 q t j) by done. apply lookup_insert_ne.
          intros E. apply app_inj_tail in E as [E1 E2]. apply Hne. split; [|done].
          subst. congruence.
    - intros q j b Hq. apply lookup_insert_Some in Hq as [[E <-]|[Hq0 Hq]].
      + apply app_inj_tail in E as [-> ->]. split; [|done].
        rewrite lookup_insert_ne; [by eexists|]. intros E.
        apply (f_equal length) in E. rewrite length_app in E. simpl in E. lia.
      + destruct (H5 q j b Hq) as ([c Hc] & Hj & Hs). split; [|done].
        rewrite lookup_insert_ne; [by eexists|]. intros <-.
        pose proof (Hbelow [j]) as Hb. rewrite <- app_assoc in Hq. simpl in Hq. congruence. }
  split; [done|]. intros v Hv.
  rewrite (tree_leaf _ _ _ _ HT' Hv), (tree_leaf _ _ _ _ HT Hv).
  destruct (decide (p ++ [i] = path v)) as [E|Hne].
  - rewrite E, lookup_insert_eq, <- E, Hnone, Hzero by apply index_land. done.
  - rewrite lookup_insert_ne by done. destruct (T !! path v) as [t|] eqn:Et; [|done].
    rewrite (entry_other (path v)); [done|done|apply index_land|].
    intros E. rewrite <- E in Hlen. simpl in Hlen. lia.
Qed.

(** The entry of a page. *)
Lemma tree_leaf_set v :
  p = path v → i = GET_PT_ENTRY_NO v → user_va v → present (entry m' a i) = true →
  tree m' root T ∧ leaf m' root v = Some (entry m' a i) ∧
  ∀ w, user_va w → vpn w ≠ vpn v → leaf m' root w = leaf m root w.
Proof.
  intros Ep Ei Hv Hpr.
  assert (tree m' root T) as HT'.
  { destruct HT as [H1 H2 H3 H4 H5]. split; try done. intros q t j Hq Hl Hj Hns.
    rewrite (H4 q t j), (entry_other q) by
      (done || (intros ->; rewrite Ep in Hl; simpl in Hl; lia)). done. }
  split_and!; [done| |].
  - rewrite (tree_leaf _ _ _ _ HT' Hv), <- Ep, Hp, <- Ei. cbv zeta. by rewrite Hpr.
  - intros w Hw Hne.
    rewrite (tree_leaf _ _ _ _ HT' Hw), (tree_leaf _ _ _ _ HT Hw).
    destruct (T !! path w) as [t|] eqn:Et; [|done].
    rewrite (Hsame (path w)); [done|done|apply index_land|].
    intros [-> E]. apply Hne. apply path_inj; [|congruence].
    rewrite <- Ep. by apply (tr_inj _ _ _ HT _ _ a).
Qed.
End update.

(** Only the recursive slot of the root changed. *)
Lemma tree_self m m' root T :
  tree m root T →
  (∀ q t j, T !! q = Some t → index j → ¬ (t = root ∧ j = 511) → entry m' t j = entry m t j) →
  tree m' root T ∧ ∀ v, user_va v → leaf m' root v = leaf m root v.
Proof.
  intros HT Hsame.
  assert (tree m' root T) as HT'.
  { destruct HT as [H1 H2 H3 H4 H5]. split; try done. intros q t j Hq Hl Hj Hns.
    rewrite (H4 q t j), (Hsame q) by (done || (intros [-> ->]; apply Hns; split;
      [by apply (H3 q [] root)|done])). done. }
  split; [done|]. intros v Hv.
  rewrite (tree_leaf _ _ _ _ HT' Hv), (tree_leaf _ _ _ _ HT Hv).
  destruct (T !! path v) as [t|] eqn:Et; [|done].
  rewrite (Hsame (path v)); [done|done|apply index_land|]. intros [-> _].
  pose proof (tr_inj _ _ _ HT _ _ _ Et (tr_root _ _ _ HT)) as E. done.
Qed.

(** ** Entries the loaders store *)
Lemma frame_of_div e : 0 <= e < 2 ^ 64 → frame_of e = e mod 2 ^ 52 - e mod 4096.
Proof.
  intros He. unfold frame_of. change ADDR_MASK with (Z.land (Z.ones 52) (Z.lnot (2 ^ 12 - 1))).
  rewrite Z.land_assoc, Z.land_ones, land_lnot_mask by lia.
  change (2 ^ 12) with 4096. dlia.
Qed.

Lemma present_odd e : present e = Z.odd e.
Proof. apply Z.bit0_odd. Qed.

(** ** A fresh root table *)
Lemma tree_fresh m root :
  table_ok root → (∀ i, index i → i ≠ 511 → present (entry m root i) = false) →
  tree m root {[ [] := root ]}.
Proof.
  intros Hr Hi. split.
  - apply lookup_singleton_eq.
  - intros p a Hp. apply lookup_singleton_Some in Hp as [<- <-]. simpl. split; [lia|done].
  - intros p q a Hp Hq. apply lookup_singleton_Some in Hp as [<- _], Hq as [<- _]. done.
  - intros p a i Hp Hl Hx Hs. apply lookup_singleton_Some in Hp as [<- <-].
    rewrite Hi; [|done|intros ->; by apply Hs]. by apply lookup_singleton_None.
  - intros p i a Hp. apply lookup_singleton_Some in Hp as [E _]. by destruct p.
Qed.
