(* ===== verification/VMem.v ===== *)
(** * Virtual mappings of [tload]

    src/tload/vmem.c.  The code is written against an interface, what it asks
    of the memory manager: a page, a note in the memory map, a message.  Its
    theorems use the interface's laws only; MemMgr.v's theorems discharge them
    for the memory manager of [tload]. *)

From stdpp Require Import base numbers list gmap strings.
From Stdlib Require Import Lia.
From S2P Require Import Prelude Mem Console MemMgr PageTable.
Open Scope Z_scope.

Definition PF_X : Z := 1.
Definition PF_W : Z := 2.
Definition PF_R : Z := 4.
Definition ALL_FLAGS : Z := Z.lor (Z.lor PF_X PF_W) PF_R.

(** ** What the mapping code asks of the memory manager *)
Class PagerOps (S : Type) := {
  pg_ram : S → mem;
  pg_set_ram : mem → S → S;
  pg_alloc : Z → M S Z;
  pg_note : Z → Z → Z → M S unit;
  pg_say : string → M S unit
}.

(** A page the 32-bit loader can reach. *)
Definition low_page (a : Z) : Prop := table_ok a ∧ a + 4096 <= 2 ^ 32.

(** The page an address lies in. *)
Definition pageof (k : Z) : Z := k - k mod 4096.

(** [pg_inv n s]: the manager can record [n] more requests; [pg_used s a]: the
    page of [a] is taken; [pg_free n s]: at least [n] pages can be handed out. *)
Class Pager (S : Type) `{PagerOps S} := {
  pg_inv : nat → S → Prop;
  pg_used : S → Z → Prop;
  pg_free : nat → S → Prop;
  pg_ram_set m s : pg_ram (pg_set_ram m s) = m;
  pg_inv_set n m s : pg_inv n s → pg_inv n (pg_set_ram m s);
  pg_used_set m s a : pg_used (pg_set_ram m s) a ↔ pg_used s a;
  pg_free_set n m s : pg_free n s → pg_free n (pg_set_ram m s);
  pg_inv_weaken n s : pg_inv (Datatypes.S n) s → pg_inv n s;
  pg_free_weaken n s : pg_free (Datatypes.S n) s → pg_free n s;
  pg_alloc_spec n type s : pg_inv (Datatypes.S n) s →
    wp (pg_alloc type) (λ p s', pg_inv n s' ∧ pg_ram s' = pg_ram s ∧
      (∀ a, pg_used s a → pg_used s' a) ∧
      (p = 0 ∨ (low_page p ∧ ¬ pg_used s p ∧ pg_used s' p)) ∧
      (∀ k, pg_free (Datatypes.S k) s → p ≠ 0 ∧ pg_free k s')) s;
  pg_note_spec n addr length type s :
    pg_inv (Datatypes.S n) s → region_wf addr length →
    wp (pg_note addr length type) (λ _ s', pg_inv n s' ∧ pg_ram s' = pg_ram s ∧
      (∀ a, pg_used s a → pg_used s' a) ∧ (∀ k, pg_free k s → pg_free k s')) s;
  pg_say_spec n msg s : pg_inv n s →
    wp (pg_say msg) (λ _ s', pg_inv n s' ∧ pg_ram s' = pg_ram s ∧
      (∀ a, pg_used s a → pg_used s' a) ∧ (∀ k, pg_free k s → pg_free k s')) s
}.

(** ** The code *)
Definition EXTRACT_PSTRUCT_PADDR (x : Z) : Z := u32 (Z.land x ADDR_MASK).
Definition MAKE_PSTRUCT_ENTRY (x : Z) : Z := Z.lor (Z.land x ADDR_MASK) P_PRESENT.

Section vmem.
Context {S : Type} `{PagerOps S}.

(** [parent_table[entry_no]] as a value and as a place. *)
Definition read_entry (parent_table entry_no : Z) : M S Z :=
  s ← get; mret (entry (pg_ram s) parent_table entry_no).
Definition write_entry (parent_table entry_no v : Z) : M S unit :=
  modify (λ s, pg_set_ram (wr64 (pg_ram s) (parent_table + 8 * entry_no) v) s).
Definition memset_page (p : Z) : M S unit :=
  modify (λ s, pg_set_ram (fill 4096 (pg_ram s) p 0) s).

(** [if(p_flags & PF_W) parent_table[entry_no] |= P_WRITE; return pstruct;] *)
Definition finish (parent_table entry_no p_flags pstruct : Z) : M S Z :=
  (if truth (Z.land p_flags PF_W) then
     e ← read_entry parent_table entry_no;
     write_entry parent_table entry_no (Z.lor e P_WRITE)
   else mret tt) ;;
  mret pstruct.

Definition _get_paging_struct (parent_table entry_no p_flags overwrite page type : Z) : M S Z :=
  if parent_table =? 0 then
    pg_say "Error: passed a NULL as the parent table" ;; mret 0
  else if truth overwrite then
    write_entry parent_table entry_no (MAKE_PSTRUCT_ENTRY page) ;;
    pg_note page PAGESIZE type ;;
    finish parent_table entry_no p_flags page
  else
    e ← read_entry parent_table entry_no;
    if truth (Z.land e P_PRESENT) then
      finish parent_table entry_no p_flags (EXTRACT_PSTRUCT_PADDR e)
    else
      pstruct ← pg_alloc type;
      if pstruct =? 0 then
        pg_say "Error: unable to allocate a new page" ;; mret 0
      else
        memset_page pstruct ;;
        write_entry parent_table entry_no (MAKE_PSTRUCT_ENTRY pstruct) ;;
        finish parent_table entry_no p_flags pstruct.

Definition get_paging_struct (parent_table entry_no p_flags type : Z) : M S Z :=
  _get_paging_struct parent_table entry_no p_flags 0 0 type.

Definition create_virtual_mapping_from_page (virt_addr pml4t p_flags page_exists page type : Z)
    : M S Z :=
  pdpt ← get_paging_struct pml4t (GET_PML4T_ENTRY_NO virt_addr) ALL_FLAGS PagingStructure;
  pd ← get_paging_struct pdpt (GET_PDPT_ENTRY_NO virt_addr) ALL_FLAGS PagingStructure;
  pt ← get_paging_struct pd (GET_PD_ENTRY_NO virt_addr) ALL_FLAGS PagingStructure;
  page ← (if truth page_exists
          then _get_paging_struct pt (GET_PT_ENTRY_NO virt_addr) p_flags 1 page type
          else get_paging_struct pt (GET_PT_ENTRY_NO virt_addr) p_flags type);
  mret (u32 (page + GET_PAGE_OFFSET virt_addr)).

Definition create_virtual_mapping (virt_addr pml4t p_flags type : Z) : M S Z :=
  create_virtual_mapping_from_page virt_addr pml4t p_flags 0 0 type.
End vmem.

(** ** Entries *)
Lemma make_entry_value x : table_ok x ∨ x = 0 → MAKE_PSTRUCT_ENTRY x = x + 1.
Proof.
  intros Hx. assert (0 <= x < 2 ^ 52 ∧ x mod 4096 = 0) as [Hr Hm] by (unfold table_ok in Hx; dlia).
  unfold MAKE_PSTRUCT_ENTRY. assert (Z.land x ADDR_MASK = x) as ->.
  { change (Z.land x ADDR_MASK) with (frame_of x). rewrite frame_of_div by lia. dlia. }
  assert (x = Z.shiftl (x / 4096) 12) as E by (rewrite Z.shiftl_mul_pow2 by lia; dlia).
  rewrite E at 1. rewrite lor_shiftl_small by (unfold P_PRESENT; lia). unfold P_PRESENT. dlia.
Qed.

Lemma new_entry x : table_ok x ∨ x = 0 → present (x + 1) = true ∧ frame_of (x + 1) = x.
Proof.
  intros Hx. assert (0 <= x < 2 ^ 52 ∧ x mod 4096 = 0) as [Hr Hm] by (unfold table_ok in Hx; dlia).
  split.
  - rewrite present_odd, Z.odd_add. replace (Z.odd x) with false; [done|].
    symmetry. rewrite <- Z.negb_even, negb_false_iff, Z.even_spec. exists (x / 2). dlia.
  - rewrite frame_of_div by lia. dlia.
Qed.

Lemma frame_write e : frame_of (Z.lor e P_WRITE) = frame_of e.
Proof.
  unfold frame_of. rewrite Z.land_lor_distr_l. change (Z.land P_WRITE ADDR_MASK) with 0.
  apply Z.lor_0_r.
Qed.
Lemma present_write e : present (Z.lor e P_WRITE) = present e.
Proof. unfold present. rewrite Z.lor_spec. apply orb_false_r. Qed.
Lemma write_range e : 0 <= e < 2 ^ 64 → 0 <= Z.lor e P_WRITE < 2 ^ 64.
Proof.
  intros He. split; [apply Z.lor_nonneg; unfold P_WRITE; lia|].
  destruct (decide (e = 0)) as [->|]; [done|].
  apply Z.log2_lt_pow2; [|rewrite Z.log2_lor by (unfold P_WRITE; lia)].
  - assert (0 <= Z.lor e P_WRITE) by (apply Z.lor_nonneg; unfold P_WRITE; lia).
    assert (Z.lor e P_WRITE ≠ 0) by (rewrite Z.lor_eq_0_iff; unfold P_WRITE; lia). lia.
  - change (Z.log2 P_WRITE) with 1. assert (Z.log2 e < 64) by (apply Z.log2_lt_pow2; lia). lia.
Qed.

Lemma present_land e : truth (Z.land e P_PRESENT) = present e.
Proof.
  unfold truth, P_PRESENT. change 1 with (Z.ones 1). rewrite Z.land_ones by lia.
  rewrite <- Z.bit0_mod. unfold present. by destruct (Z.testbit e 0).
Qed.

(** ** Against the interface *)
Section proofs.
Context {S : Type} `{Pager S}.
Implicit Types (s : S).

(** Pages stay taken, and at most [f] new ones are. *)
Definition keeps (f : nat) (s s' : S) : Prop :=
  (∀ a, pg_used s a → pg_used s' a) ∧ (∀ k, pg_free (f + k) s → pg_free k s').
Definition tables_used (s : S) (T : gmap (list Z) Z) : Prop :=
  ∀ p a, T !! p = Some a → pg_used s a ∧ a + 4096 <= 2 ^ 32.

Lemma keeps_trans f g s s1 s2 : keeps f s s1 → keeps g s1 s2 → keeps (f + g) s s2.
Proof.
  intros [U1 F1] [U2 F2]. split; [auto|]. intros k Hk. apply F2, F1. by rewrite Nat.add_assoc.
Qed.
Lemma pg_free_le k n s : (k <= n)%nat → pg_free n s → pg_free k s.
Proof. induction 1 as [|n _ IH]; [done|]. intros Hn. by apply IH, pg_free_weaken. Qed.
Lemma keeps_refl s : keeps 0 s s.
Proof. split; [done|]. by intros k. Qed.
Lemma keeps_more f s s' : keeps f s s' → keeps (Datatypes.S f) s s'.
Proof. intros [U F]. split; [done|]. intros k Hk. by apply F, pg_free_weaken. Qed.
Lemma keeps_set m s : keeps 0 s (pg_set_ram m s).
Proof. split; [intros a; by apply pg_used_set|]. intros k. apply pg_free_set. Qed.

Lemma tables_used_keeps f s s' T : keeps f s s' → tables_used s T → tables_used s' T.
Proof. intros [Hk _] Hu p a Hp. destruct (Hu p a Hp). split; [by apply Hk|done]. Qed.

(** A byte in a page that is taken and is no table keeps its value. *)
Definition data (s : S) (T : gmap (list Z) Z) (k : Z) : Prop :=
  pg_used s (pageof k) ∧ ∀ q, T !! q ≠ Some (pageof k).
Definition data_kept (s : S) (T : gmap (list Z) Z) (s' : S) (T' : gmap (list Z) Z) : Prop :=
  ∀ k, data s T k → data s' T' k ∧ rd8 (pg_ram s') k = rd8 (pg_ram s) k.

Lemma data_kept_trans s T s1 T1 s2 T2 :
  data_kept s T s1 T1 → data_kept s1 T1 s2 T2 → data_kept s T s2 T2.
Proof. intros H1 H2 k Hk. destruct (H1 k Hk) as [D1 E1], (H2 k D1) as [D2 E2]. by rewrite E2. Qed.

Lemma outside_page a k : a mod 4096 = 0 → pageof k ≠ a → k < a ∨ a + 4096 <= k.
Proof. unfold pageof. intros. dlia. Qed.

Lemma data_kept_same f s s' T : keeps f s s' → pg_ram s' = pg_ram s → data_kept s T s' T.
Proof. intros [U _] E k [Hu Ht]. rewrite E. split; [|done]. split; [by apply U|done]. Qed.

Lemma data_kept_table f s s' T p a :
  keeps f s s' → T !! p = Some a → table_ok a → same_outside a 4096 (pg_ram s) (pg_ram s') →
  data_kept s T s' T.
Proof.
  intros [U _] Hp (_ & _ & Ha) Hs k [Hu Ht]. split; [split; [by apply U|done]|].
  apply Hs, outside_page; [done|]. intros E. apply (Ht p). by rewrite E.
Qed.

(** [m'] is [m] with entry [i] of table [a] set to [e]. *)
Definition entry_set (m m' : mem) (a i e : Z) : Prop :=
  ∀ t j, table_ok t → index j →
    entry m' t j = if decide (t = a ∧ j = i) then e else entry m t j.

Definition wflag (p_flags e : Z) : Z :=
  if truth (Z.land p_flags PF_W) then Z.lor e P_WRITE else e.

Lemma wflag_frame fl e : frame_of (wflag fl e) = frame_of e.
Proof. unfold wflag. destruct (truth _); [apply frame_write|done]. Qed.
Lemma wflag_present fl e : present (wflag fl e) = present e.
Proof. unfold wflag. destruct (truth _); [apply present_write|done]. Qed.

Lemma entry_range m t i : 0 <= entry m t i < 2 ^ 64.
Proof. apply rd64_range. Qed.

Lemma write_entry_spec a i v n s :
  table_ok a → index i → 0 <= v < 2 ^ 64 → pg_inv n s →
  wp (write_entry a i v) (λ _ s', entry_set (pg_ram s) (pg_ram s') a i v ∧
    pg_inv n s' ∧ keeps 0 s s' ∧ same_outside a 4096 (pg_ram s) (pg_ram s')) s.
Proof.
  intros Ha Hi Hv Hn. apply wp_modify. split_and!.
  - intros t j Ht Hj. rewrite pg_ram_set, entry_store by done. by rewrite u64_small.
  - by apply pg_inv_set.
  - apply keeps_set.
  - rewrite pg_ram_set. unfold index in Hi.
    eapply same_outside_weaken; [apply (wr_same_outside 8)|lia|lia].
Qed.

Lemma finish_spec a i fl r n s :
  table_ok a → index i → pg_inv n s →
  wp (finish a i fl r) (λ r' s', r' = r ∧ pg_inv n s' ∧ keeps 0 s s' ∧
    entry_set (pg_ram s) (pg_ram s') a i (wflag fl (entry (pg_ram s) a i)) ∧
    same_outside a 4096 (pg_ram s) (pg_ram s')) s.
Proof.
  intros Ha Hi Hn. unfold finish, wflag, read_entry.
  destruct (truth (Z.land fl PF_W)); wp_steps.
  - eapply wp_mono; [apply (write_entry_spec _ _ _ n); [done|done|apply write_range, entry_range|done]|].
    intros [] s' (He & Hn' & Hk & Hs). wp_steps. done.
  - split_and!; [done|done|apply keeps_refl| |done]. intros t j Ht Hj. case_decide as E; [|done].
    by destruct E as [-> ->].
Qed.

(** Conclusion of a request for the table below entry [i] of [p]. *)
Definition got_table (root : Z) (T : gmap (list Z) Z) (n : nat) (a : Z) (q : list Z) (s : S)
    (r : Z) (s' : S) : Prop :=
  pg_inv n s' ∧ keeps 1 s s' ∧
  (∀ v, user_va v → leaf (pg_ram s') root v = leaf (pg_ram s) root v) ∧
  ∃ T', tree (pg_ram s') root T' ∧ tables_used s' T' ∧ T ⊆ T' ∧ data_kept s T s' T' ∧
    (r = 0 ∨ T' !! q = Some r) ∧ (a ≠ 0 → pg_free 1 s → r ≠ 0).

(** A null parent is reported and passed on. *)
Lemma get_null root T n q i fl type s :
  pg_inv n s → tree (pg_ram s) root T → tables_used s T →
  wp (get_paging_struct 0 i fl type) (got_table root T n 0 q s) s.
Proof.
  intros Hn HT Hu. unfold get_paging_struct, _get_paging_struct. simpl (0 =? 0). cbn iota.
  wp_steps. eapply wp_mono; [by apply (pg_say_spec n)|]. intros [] s' (Hn' & Er & Hk).
  wp_steps. split_and!; [done|by apply keeps_more|by rewrite Er|]. exists T.
  split_and!; [by rewrite Er|by eapply (tables_used_keeps 0)|done|by eapply (data_kept_same 0)|by left|done].
Qed.

Lemma entry_set_trans m1 m2 m3 a i e1 e2 :
  entry_set m1 m2 a i e1 → entry_set m2 m3 a i e2 → entry_set m1 m3 a i e2.
Proof.
  intros H1 H2 t j Ht Hj. rewrite H2 by done. case_decide; [done|].
  rewrite H1 by done. by rewrite decide_False.
Qed.

Section level.
Context (root : Z) (T : gmap (list Z) Z) (p : list Z) (a i : Z) (n : nat) (s : S).
Hypothesis HT : tree (pg_ram s) root T.
Hypothesis Hu : tables_used s T.
Hypothesis Hp : T !! p = Some a.
Hypothesis Hlen : (length p < 3)%nat.
Hypothesis Hi : index i.
Hypothesis Hns : ¬ self_slot p i.
Hypothesis Hn : pg_inv (Datatypes.S n) s.

Lemma level_table : table_ok a.
Proof. apply (tr_table _ _ _ HT p a Hp). Qed.

Lemma level_nonzero : (a =? 0) = false.
Proof. destruct level_table. apply Z.eqb_neq. lia. Qed.

(** The table exists: at most the write flag changes. *)
Lemma level_present fl :
  present (entry (pg_ram s) a i) = true →
  wp (finish a i fl (EXTRACT_PSTRUCT_PADDR (entry (pg_ram s) a i)))
     (got_table root T n a (p ++ [i]) s) s.
Proof.
  intros Hpr. pose proof (tr_entry _ _ _ HT p a i Hp Hlen Hi Hns) as He. rewrite Hpr in He.
  destruct (tr_table _ _ _ HT _ _ He) as [_ Hch]. destruct (Hu _ _ He) as [_ Hch32].
  assert (EXTRACT_PSTRUCT_PADDR (entry (pg_ram s) a i) = frame_of (entry (pg_ram s) a i)) as ->.
  { unfold EXTRACT_PSTRUCT_PADDR. fold (frame_of (entry (pg_ram s) a i)).
    apply u32_small. unfold table_ok in Hch. lia. }
  eapply wp_mono; [apply (finish_spec _ _ _ _ (Datatypes.S n)); [apply level_table|done|done]|].
  intros r s' (-> & Hn' & Hk & Hset & Hsame).
  destruct (tree_touch (pg_ram s) (pg_ram s') root T p a i) as [HT' Hleaf]; try done.
  - intros q t j Hq Hj Hne. rewrite Hset by (done || apply (tr_table _ _ _ HT q t Hq)).
    by rewrite decide_False.
  - rewrite Hset by (done || apply level_table). rewrite decide_True by done. apply wflag_present.
  - rewrite Hset by (done || apply level_table). rewrite decide_True by done. apply wflag_frame.
  - split_and!; [by apply pg_inv_weaken|by apply keeps_more|done|]. exists T.
    split_and!; [done|by eapply tables_used_keeps|done| |by right|unfold table_ok in Hch; lia].
    apply (data_kept_table 0 s s' T p a); [done|done|apply level_table|done].
Qed.

(** A page is allocated, cleared and entered. *)
Lemma level_new fl new s1 :
  present (entry (pg_ram s) a i) = false → pg_inv n s1 → pg_ram s1 = pg_ram s → keeps 1 s s1 →
  low_page new → ¬ pg_used s new → pg_used s1 new →
  wp (memset_page new ;; write_entry a i (MAKE_PSTRUCT_ENTRY new) ;; finish a i fl new)
     (got_table root T n a (p ++ [i]) s) s1.
Proof.
  intros Hpr Hn1 Er Hk1 [Hnew Hnew32] Hfresh Hused. unfold memset_page. wp_steps.
  set (s2 := pg_set_ram (fill 4096 (pg_ram s1) new 0) s1).
  pose proof level_table as Hta.
  assert (pg_inv n s2) as Hn2 by by apply pg_inv_set.
  rewrite make_entry_value by by left.
  eapply wp_mono; [apply (write_entry_spec _ _ _ n); [done|done|unfold table_ok in Hnew; lia|done]|].
  intros [] s3 (Hset3 & Hn3 & Hk3 & Hsame3).
  eapply wp_mono; [apply (finish_spec _ _ _ _ n); done|].
  intros r s4 (-> & Hn4 & Hk4 & Hset4 & Hsame4).
  assert (∀ q, T !! q ≠ Some new) as Hnot by (intros q Hq; by apply Hfresh, (Hu q)).
  assert (a ≠ new) as Hane by (intros ->; by apply (Hnot p)).
  assert (entry (pg_ram s3) a i = new + 1) as E3
    by (rewrite Hset3 by done; by rewrite decide_True).
  assert (entry_set (pg_ram s2) (pg_ram s4) a i (wflag fl (new + 1))) as Hset.
  { rewrite E3 in Hset4. by eapply entry_set_trans. }
  assert (keeps 1 s2 s4) as Hk24 by (apply keeps_more; by eapply (keeps_trans 0 0)).
  assert (keeps 1 s s4) as Hk.
  { eapply (keeps_trans 1 0); [done|]. eapply (keeps_trans 0 0); [apply keeps_set|].
    by eapply (keeps_trans 0 0). }
  assert (∀ t j, table_ok t → index j → t ≠ new → entry (pg_ram s2) t j = entry (pg_ram s) t j) as H2.
  { intros t j Ht Hj Hne. unfold s2. rewrite pg_ram_set, Er.
    apply (entry_same_outside _ _ t j new 4096); [apply (fill_same_outside 4096)|done|done| |lia|done].
    apply Hnew. }
  destruct (new_entry new (or_introl Hnew)) as [Hp1 Hf1].
  destruct (tree_add (pg_ram s) (pg_ram s4) root T p a i HT Hp) with (new := new)
    as [HT' Hleaf]; try done.
  - intros q t j Hq Hj Hne. destruct (tr_table _ _ _ HT q t Hq) as [_ Ht].
    rewrite Hset, decide_False by done. apply H2; [done|done|]. intros ->. by apply (Hnot q).
  - intros j Hj. rewrite Hset, decide_False by (done || (intros [E _]; by apply Hane)).
    unfold s2, entry, rd64. rewrite pg_ram_set. apply (rd_fill_0 8); unfold index in Hj; lia.
  - rewrite Hset, decide_True by done. by rewrite wflag_present.
  - rewrite Hset, decide_True by done. by rewrite wflag_frame.
  - split_and!; [done|done|done|]. exists (<[p ++ [i] := new]> T).
    assert (T !! (p ++ [i]) = None) as Hnone.
    { rewrite (tr_entry _ _ _ HT p a i) by done. by rewrite Hpr. }
    split_and!; [done| |by apply insert_subseteq| |right; apply lookup_insert_eq|unfold table_ok in Hnew; lia].
    + intros q b Hq. apply lookup_insert_Some in Hq as [[_ <-]|[_ Hq]].
      * split; [|done]. apply Hk24. by apply pg_used_set.
      * destruct (Hu q b Hq). split; [by apply Hk|done].
    + intros k [Hku Hkt]. assert (pageof k ≠ new) as Hkn by (intros E; by rewrite E in Hku).
      split; [split; [by apply Hk|]|].
      * intros q Hq. apply lookup_insert_Some in Hq as [[_ E]|[_ Hq]]; [by apply Hkn|by apply (Hkt q)].
      * assert (pageof k ≠ a) as Hka by (intros E; apply (Hkt p); by rewrite E).
        apply outside_page in Hkn, Hka; [|apply Hta|apply Hnew].
        rewrite Hsame4, Hsame3 by done. unfold s2. rewrite pg_ram_set, Er.
        by apply (fill_same_outside 4096).
Qed.

Lemma get_level fl type :
  wp (get_paging_struct a i fl type) (got_table root T n a (p ++ [i]) s) s.
Proof.
  unfold get_paging_struct, _get_paging_struct, read_entry. rewrite level_nonzero.
  cbn [truth negb Z.eqb]. wp_steps. rewrite present_land.
  destruct (present (entry (pg_ram s) a i)) eqn:Hpr; [by apply level_present|].
  wp_steps. eapply wp_mono; [by apply pg_alloc_spec|].
  intros new s1 (Hn1 & Er & Hk & Hres & Hfree).
  assert (keeps 1 s s1) as Hk1 by (split; [done|intros k Hf; by apply Hfree]).
  destruct (Z.eqb_spec new 0) as [->|Hne].
  - wp_steps. eapply wp_mono; [by apply (pg_say_spec n)|]. intros [] s2 (Hn2 & Er2 & Hk2).
    wp_steps. assert (keeps 1 s s2) as Hk' by by eapply (keeps_trans 1 0).
    split_and!; [done|done|by rewrite Er2, Er|].
    exists T. split_and!; [by rewrite Er2, Er|by eapply tables_used_keeps|done| |by left|].
    + eapply data_kept_same; [done|congruence].
    + intros _ Hf. by destruct (Hfree 0%nat Hf).
  - destruct Hres as [->|(Ht & Hf & Hus)]; [done|]. by apply level_new.
Qed.
End level.

(** ** The page itself *)
Definition va_ok (v : Z) : Prop := 0 <= v < 2 ^ 48 ∧ user_va v.

(** Every other page keeps its entry. *)
Definition others_kept (root v : Z) (m m' : mem) : Prop :=
  ∀ w, va_ok w → w / 4096 ≠ v / 4096 → leaf m' root w = leaf m root w.

(** The page of [v] is mapped to the frame [r], writable if asked for. *)
Definition page_mapped (root v fl r : Z) (m' : mem) : Prop :=
  ∃ e, leaf m' root v = Some e ∧ frame_of e = r ∧
    (truth (Z.land fl PF_W) = true → Z.testbit e 1 = true).

Definition got_page (root : Z) (T : gmap (list Z) Z) (v fl : Z) (n : nat) (s : S)
    (r : Z) (s' : S) : Prop :=
  pg_inv n s' ∧ keeps 1 s s' ∧ tree (pg_ram s') root T ∧
  others_kept root v (pg_ram s) (pg_ram s') ∧ page_mapped root v fl r (pg_ram s') ∧
  data_kept s T s' T.

Lemma wflag_writable fl e : truth (Z.land fl PF_W) = true → Z.testbit (wflag fl e) 1 = true.
Proof. unfold wflag. intros ->. rewrite Z.lor_spec. apply orb_true_r. Qed.

Lemma frame_of_aligned e : 0 <= e < 2 ^ 64 → 0 <= frame_of e ∧ frame_of e mod 4096 = 0.
Proof. intros He. rewrite frame_of_div by done. dlia. Qed.

(** Where the page of [v] comes from: the mapping in place, or a page that
    was not taken before. *)
Definition page_source (root : Z) (T : gmap (list Z) Z) (v : Z) (s : S) (r : Z) (s' : S) : Prop :=
  match leaf (pg_ram s) root v with
  | Some e => r = frame_of e
  | None => low_page r ∧ ¬ pg_used s r ∧ pg_used s' r ∧ ∀ q, T !! q ≠ Some r
  end.

Section page.
Context (root : Z) (T : gmap (list Z) Z) (pt v fl : Z) (n : nat) (s : S).
Hypothesis HT : tree (pg_ram s) root T.
Hypothesis Hu : tables_used s T.
Hypothesis Hp : T !! path v = Some pt.
Hypothesis Hv : va_ok v.
Hypothesis Hn : pg_inv (Datatypes.S n) s.
Let i := GET_PT_ENTRY_NO v.

Lemma page_table : table_ok pt.
Proof. apply (tr_table _ _ _ HT _ _ Hp). Qed.

Lemma page_nonzero : (pt =? 0) = false.
Proof. destruct page_table. apply Z.eqb_neq. lia. Qed.

(** One entry of the page table was set, all other tables are unchanged. *)
Lemma page_set s' e r :
  pg_inv n s' → keeps 1 s s' → data_kept s T s' T → present e = true → frame_of e = r →
  (∀ q t j, T !! q = Some t → index j →
     entry (pg_ram s') t j = if decide (t = pt ∧ j = i) then wflag fl e else entry (pg_ram s) t j) →
  got_page root T v fl n s r s'.
Proof.
  intros Hn' Hk Hd Hpr Hfr Hset.
  assert (entry (pg_ram s') pt i = wflag fl e) as Ee.
  { rewrite (Hset (path v)) by (done || apply index_land). by rewrite decide_True. }
  destruct (tree_leaf_set (pg_ram s) (pg_ram s') root T (path v) pt i HT Hp) with (v := v)
    as (HT' & Hl & Hother); try done.
  - intros q t j Hq Hj Hne. rewrite (Hset q) by done. by rewrite decide_False.
  - apply Hv.
  - by rewrite Ee, wflag_present.
  - split_and!; [done|done|done| | |].
    + intros w [Hw1 Hw2] Hne. apply Hother; [done|]. unfold vpn. destruct Hv. dlia.
    + exists (wflag fl e). rewrite Ee in Hl. split_and!; [done|by rewrite wflag_frame|].
      apply wflag_writable.
    + done.
Qed.

Lemma page_overwrite page type :
  table_ok page ∨ page = 0 →
  wp (_get_paging_struct pt i fl 1 page type) (λ r s', r = page ∧ got_page root T v fl n s r s') s.
Proof.
  intros Hpage. unfold _get_paging_struct. rewrite page_nonzero. cbn [truth negb Z.eqb].
  wp_steps. rewrite make_entry_value by done. destruct (new_entry page Hpage) as [Hpr Hfr].
  pose proof page_table as Hpt.
  eapply wp_mono; [apply (write_entry_spec _ _ _ (Datatypes.S n));
    [done|apply index_land|unfold table_ok in *; lia|done]|].
  intros [] s1 (Hset1 & Hn1 & Hk1 & Hsame1). wp_steps.
  eapply wp_mono; [apply (pg_note_spec n); [done|]|].
  { unfold region_wf, PAGESIZE, table_ok in *. lia. }
  intros [] s2 (Hn2 & Er2 & Hk2).
  eapply wp_mono; [apply (finish_spec _ _ _ _ n); [done|apply index_land|done]|].
  intros r s3 (-> & Hn3 & Hk3 & Hset3 & Hsame3). split; [done|].
  assert (keeps 0 s s3) as Hk
    by (eapply (keeps_trans 0 0); [done|]; by eapply (keeps_trans 0 0)).
  apply (page_set s3 (page + 1)); [done|by apply keeps_more| |done|done|].
  { apply (data_kept_table 0 s s3 T (path v) pt); [done|done|done|].
    eapply same_outside_trans; [done|]. by rewrite <- Er2. }
  intros q t j Hq Hj. destruct (tr_table _ _ _ HT q t Hq) as [_ Ht].
  rewrite Hset3, Er2 by done. rewrite (Hset1 pt i) by (done || apply index_land).
  rewrite (decide_True (P := pt = pt ∧ i = i)) by done. case_decide; [done|].
  rewrite Hset1 by done. by rewrite decide_False.
Qed.

(** A fresh page is cleared and entered. *)
Lemma page_new new s1 :
  leaf (pg_ram s) root v = None → pg_inv n s1 → pg_ram s1 = pg_ram s → keeps 1 s s1 →
  table_ok new → new + 4096 <= 2 ^ 32 → ¬ pg_used s new → pg_used s1 new →
  wp (memset_page new ;; write_entry pt i (MAKE_PSTRUCT_ENTRY new) ;; finish pt i fl new) (λ r s',
    (got_page root T v fl n s r s' ∧ 0 <= r < 2 ^ 32 ∧ r mod 4096 = 0 ∧ page_source root T v s r s') ∨
    (r = 0 ∧ pg_inv n s' ∧ keeps 1 s s' ∧ pg_ram s' = pg_ram s ∧ ¬ pg_free 1 s)) s1.
Proof.
  intros Hleaf Hn1 Er Hk1 Ht Ht32 Hf Hus. unfold memset_page. wp_steps.
  set (s2 := pg_set_ram (fill 4096 (pg_ram s1) new 0) s1). pose proof page_table as Hpt.
  assert (pg_inv n s2) as Hn2 by by apply pg_inv_set.
  rewrite make_entry_value by by left. destruct (new_entry new (or_introl Ht)) as [Hp1 Hf1].
  eapply wp_mono; [apply (write_entry_spec _ _ _ n);
    [done|apply index_land|unfold table_ok in Ht; lia|done]|].
  intros [] s3 (Hset3 & Hn3 & Hk3 & Hsame3).
  eapply wp_mono; [apply (finish_spec _ _ _ _ n); [done|apply index_land|done]|].
  intros r s4 (-> & Hn4 & Hk4 & Hset4 & Hsame4). left.
  assert (keeps 0 s2 s4) as Hk24 by by eapply (keeps_trans 0 0).
  assert (keeps 1 s s4) as Hk.
  { eapply (keeps_trans 1 0); [done|]. eapply (keeps_trans 0 0); [apply keeps_set|done]. }
  assert (∀ q, T !! q ≠ Some new) as Hnot by (intros q Hq; by apply Hf, (Hu q)).
  split_and!; [|destruct Ht; lia|destruct Ht; lia|apply Ht|].
  - apply (page_set s4 (new + 1)); try done.
    + intros k [Hku Hkt]. assert (pageof k ≠ new) as Hkn by (intros E; by rewrite E in Hku).
      assert (pageof k ≠ pt) as Hka by (intros E; apply (Hkt (path v)); by rewrite E).
      split; [split; [by apply Hk|done]|]. apply outside_page in Hkn, Hka; [|apply Hpt|apply Ht].
      rewrite Hsame4, Hsame3 by done. unfold s2. rewrite pg_ram_set, Er.
      by apply (fill_same_outside 4096).
    + intros q t j Hq Hj. destruct (tr_table _ _ _ HT q t Hq) as [_ Htt].
      rewrite Hset4 by done. rewrite (Hset3 pt i) by (done || apply index_land).
      rewrite (decide_True (P := pt = pt ∧ i = i)) by done. case_decide; [done|].
      rewrite Hset3, decide_False by done. unfold s2. rewrite pg_ram_set, Er.
      apply (entry_same_outside _ _ t j new 4096);
        [apply (fill_same_outside 4096)|done|done|apply Ht|lia|].
      intros ->. by apply (Hnot q).
  - unfold page_source. rewrite Hleaf. split_and!; [done|done| |done]. apply Hk24. by apply pg_used_set.
Qed.

Lemma page_alloc type :
  (∀ e, leaf (pg_ram s) root v = Some e → frame_of e < 2 ^ 32) →
  wp (get_paging_struct pt i fl type) (λ r s',
    (got_page root T v fl n s r s' ∧ 0 <= r < 2 ^ 32 ∧ r mod 4096 = 0 ∧ page_source root T v s r s') ∨
    (r = 0 ∧ pg_inv n s' ∧ keeps 1 s s' ∧ pg_ram s' = pg_ram s ∧ ¬ pg_free 1 s)) s.
Proof.
  intros Hlow. unfold get_paging_struct, _get_paging_struct, read_entry. rewrite page_nonzero.
  cbn [truth negb Z.eqb]. pose proof page_table as Hpt. wp_steps. rewrite present_land.
  destruct (present (entry (pg_ram s) pt i)) eqn:Hpr.
  - set (e := entry (pg_ram s) pt i) in *.
    destruct (frame_of_aligned e (entry_range _ _ _)) as [Hf0 Hfm].
    assert (leaf (pg_ram s) root v = Some e) as Hleaf.
    { rewrite (tree_leaf _ _ _ _ HT) by apply Hv. rewrite Hp. fold i. fold e.
      cbv zeta. by rewrite Hpr. }
    assert (frame_of e < 2 ^ 32) as Hf32 by by apply Hlow.
    assert (EXTRACT_PSTRUCT_PADDR e = frame_of e) as -> by (apply u32_small; done).
    eapply wp_mono; [apply (finish_spec _ _ _ _ (Datatypes.S n)); [done|apply index_land|done]|].
    intros r s' (-> & Hn' & Hk & Hset & Hsame). left.
    split_and!; [|done|done|done|unfold page_source; by rewrite Hleaf].
    apply (page_set s' e); [by apply pg_inv_weaken|by apply keeps_more| |done|done|].
    { by apply (data_kept_table 0 s s' T (path v) pt). }
    intros q t j Hq Hj. apply Hset; [|done]. apply (tr_table _ _ _ HT q t Hq).
  - wp_steps. eapply wp_mono; [by apply pg_alloc_spec|].
    intros new s1 (Hn1 & Er & Hk & Hres & Hfree).
    assert (keeps 1 s s1) as Hk1 by (split; [done|intros k Hf; by apply Hfree]).
    assert (leaf (pg_ram s) root v = None) as Hleaf.
    { rewrite (tree_leaf _ _ _ _ HT) by apply Hv. rewrite Hp. fold i. cbv zeta. by rewrite Hpr. }
    destruct (Z.eqb_spec new 0) as [->|Hne].
    + wp_steps. eapply wp_mono; [by apply (pg_say_spec n)|]. intros [] s2 (Hn2 & Er2 & Hk2).
      wp_steps. right. split_and!; [done|done|by eapply (keeps_trans 1 0)|congruence|].
      intros Hf. by destruct (Hfree 0%nat Hf).
    + destruct Hres as [->|([Ht Ht32] & Hf & Hus)]; [done|]. by apply page_new.
Qed.
End page.

(** ** The whole mapping *)
Lemma get_next root T p a i n fl type s :
  tree (pg_ram s) root T → tables_used s T → (a = 0 ∨ T !! p = Some a) →
  (length p < 3)%nat → index i → ¬ self_slot p i → pg_inv (Datatypes.S n) s →
  wp (get_paging_struct a i fl type) (got_table root T n a (p ++ [i]) s) s.
Proof.
  intros HT Hu [->|Hp] Hlen Hi Hns Hn; [|by apply get_level].
  apply get_null; [by apply pg_inv_weaken|done|done].
Qed.

(** The outcome of [create_virtual_mapping_from_page]: the page is mapped and
    its address returned, or memory ran out and nothing was mapped. *)
Definition mapping_post (root : Z) (T : gmap (list Z) Z) (v fl page_exists page : Z) (n : nat)
    (s : S) (r : Z) (s' : S) : Prop :=
  pg_inv n s' ∧ keeps 4 s s' ∧ others_kept root v (pg_ram s) (pg_ram s') ∧
  ∃ T', tree (pg_ram s') root T' ∧ tables_used s' T' ∧ T ⊆ T' ∧ data_kept s T s' T' ∧
  ((translate (pg_ram s') root v = Some r ∧
    (∃ e, leaf (pg_ram s') root v = Some e ∧
       (truth (Z.land fl PF_W) = true → Z.testbit e 1 = true)) ∧
    (if truth page_exists then r = page + v mod 4096
     else page_source root T' v s (r - v mod 4096) s')) ∨
   (r = v mod 4096 ∧ leaf (pg_ram s') root v = leaf (pg_ram s) root v ∧ ¬ pg_free 4 s)).

Lemma offset_range v : 0 <= GET_PAGE_OFFSET v < 4096.
Proof. unfold GET_PAGE_OFFSET. rewrite land_fff. apply Z.mod_pos_bound. lia. Qed.

Lemma page_mapped_translate root v fl r m' :
  page_mapped root v fl r m' → 0 <= r < 2 ^ 32 → r mod 4096 = 0 →
  translate m' root v = Some (u32 (r + GET_PAGE_OFFSET v)) ∧
  (∃ e, leaf m' root v = Some e ∧ (truth (Z.land fl PF_W) = true → Z.testbit e 1 = true)).
Proof.
  intros (e & He & Hf & Hw) Hr Hm. pose proof (offset_range v) as Ho. split; [|by exists e].
  unfold translate. rewrite He. simpl. rewrite Hf. f_equal. symmetry. apply u32_small. dlia.
Qed.

Lemma leaf_range m root v e : leaf m root v = Some e → 0 <= e < 2 ^ 64.
Proof.
  unfold leaf. destruct (walk m root (path v)) as [t|]; [|done]. cbv zeta.
  destruct (present _); [|done]. intros [= <-]. apply entry_range.
Qed.

(** The tables are in place: the last step, from any address of the page table. *)
Section last_step.
Context (root : Z) (T T3 : gmap (list Z) Z) (v fl page_exists page type : Z) (n : nat) (s s3 : S).
Hypothesis Hv : va_ok v.
Hypothesis HTT : T ⊆ T3.
Hypothesis HT3 : tree (pg_ram s3) root T3.
Hypothesis Hu3 : tables_used s3 T3.
Hypothesis Hn3 : pg_inv (1 + n) s3.
Hypothesis Hk : keeps 3 s s3.
Hypothesis Hd : data_kept s T s3 T3.
Hypothesis Hl : ∀ w, user_va w → leaf (pg_ram s3) root w = leaf (pg_ram s) root w.

Lemma map_done s' r :
  got_page root T3 v fl n s3 r s' → 0 <= r < 2 ^ 32 → r mod 4096 = 0 →
  (if truth page_exists then r = page else page_source root T3 v s3 r s') →
  mapping_post root T v fl page_exists page n s (u32 (r + GET_PAGE_OFFSET v)) s'.
Proof.
  intros (G1 & G2 & G3 & G4 & G5 & G6) Hr Hm Hex. pose proof Hv as [_ Huser].
  destruct (page_mapped_translate _ _ _ _ _ G5 Hr Hm) as [Htr Hw].
  pose proof (offset_range v) as Hoff.
  assert (u32 (r + GET_PAGE_OFFSET v) = r + v mod 4096) as Eu.
  { rewrite u32_small by dlia. unfold GET_PAGE_OFFSET. by rewrite land_fff. }
  split_and!; [done|by eapply (keeps_trans 3 1)|intros w Hw' Hne; rewrite G4 by done; apply Hl, Hw'|].
  exists T3. split_and!; [done|by eapply tables_used_keeps|done|by eapply data_kept_trans|].
  left. split_and!; [done|done|]. rewrite Eu. destruct (truth page_exists); [by rewrite Hex|].
  replace (r + v mod 4096 - v mod 4096) with r by lia. unfold page_source in *.
  rewrite <- Hl by done. destruct (leaf (pg_ram s3) root v); [done|].
  destruct Hex as (E0 & E1 & E2 & E3). split_and!; [done| |done|done]. intros E. by apply E1, Hk.
Qed.

Lemma map_failed s' :
  pg_inv n s' → keeps 1 s3 s' → pg_ram s' = pg_ram s3 → ¬ pg_free 4 s →
  mapping_post root T v fl page_exists page n s (u32 (0 + GET_PAGE_OFFSET v)) s'.
Proof.
  intros G1 G2 G3 G4. pose proof (offset_range v). pose proof Hv as [_ Huser].
  split_and!; [done|by eapply (keeps_trans 3 1)|intros w Hw' Hne; rewrite G3; apply Hl, Hw'|].
  exists T3. rewrite G3. split_and!; [done|by eapply tables_used_keeps|done| |].
  - eapply data_kept_trans; [done|]. by eapply data_kept_same.
  - right. split_and!; [|by apply Hl|done]. rewrite u32_small by lia.
    unfold GET_PAGE_OFFSET. rewrite land_fff. lia.
Qed.

Lemma map_leaf pt :
  pt = 0 ∨ T3 !! path v = Some pt → (pt = 0 → ¬ pg_free 4 s) →
  (truth page_exists = true → low_page page ∨ page = 0) →
  (∀ e, leaf (pg_ram s) root v = Some e → frame_of e < 2 ^ 32) →
  wp (if truth page_exists
      then _get_paging_struct pt (GET_PT_ENTRY_NO v) fl 1 page type
      else get_paging_struct pt (GET_PT_ENTRY_NO v) fl type)
    (λ a s', wp (mret (u32 (a + GET_PAGE_OFFSET v)))
               (mapping_post root T v fl page_exists page n s) s') s3.
Proof.
  intros Hr3 Hz Hpage Hlow. pose proof Hv as [_ Huser]. destruct Hr3 as [->|Hpt].
  - assert (∀ ov pg, wp (_get_paging_struct 0 (GET_PT_ENTRY_NO v) fl ov pg type)
      (λ a s', wp (mret (u32 (a + GET_PAGE_OFFSET v)))
                 (mapping_post root T v fl page_exists page n s) s') s3) as Hnull.
    { intros ov pg. unfold _get_paging_struct. simpl (0 =? 0). cbn iota. wp_steps.
      eapply wp_mono; [apply (pg_say_spec n); by apply pg_inv_weaken|].
      intros [] s' (G1 & G2 & G3). wp_steps. apply map_failed; [done|by apply keeps_more|done|auto]. }
    destruct (truth page_exists); apply Hnull.
  - pose proof map_done as Hok. destruct (truth page_exists) eqn:Eex.
    + eapply wp_mono; [apply (page_overwrite root T3 pt v fl n s3); try done|].
      { destruct (Hpage eq_refl) as [[? ?]|?]; tauto. }
      intros r s' [-> Hg]. wp_steps. apply Hok; [done| |..|done].
      * destruct (Hpage eq_refl) as [[(? & ? & ?) ?]| ->]; lia.
      * destruct (Hpage eq_refl) as [[(? & ? & ?) ?]| ->]; done.
    + eapply wp_mono; [apply (page_alloc root T3 pt v fl n s3); try done|].
      { intros e He. apply Hlow. rewrite <- He. symmetry. by apply Hl. }
      intros r s' [(Hg & Hr & Hm & Hsrc)|(-> & G1 & G2 & G3 & G4)]; wp_steps; [by apply Hok|].
      apply map_failed; [done|done|done|]. intros Hf. by apply G4, Hk.
Qed.
End last_step.

Lemma create_mapping_spec root T v fl page_exists page type n s :
  tree (pg_ram s) root T → tables_used s T → va_ok v → pg_inv (4 + n) s →
  (truth page_exists = true → low_page page ∨ page = 0) →
  (∀ e, leaf (pg_ram s) root v = Some e → frame_of e < 2 ^ 32) →
  wp (create_virtual_mapping_from_page v root fl page_exists page type)
     (mapping_post root T v fl page_exists page n s) s.
Proof.
  intros HT Hu Hv Hn Hpage Hlow. pose proof Hv as [_ Huser].
  unfold create_virtual_mapping_from_page. wp_steps.
  eapply wp_mono; [apply (get_next root T [] root _ (3 + n)); try done|].
  { right. apply (tr_root _ _ _ HT). } { simpl. lia. } { apply index_land. } { by intros [_ E]. }
  intros pdpt s1 (Hn1 & Hk1 & Hl1 & T1 & HT1 & Hu1 & Hs1 & Hd1 & Hr1 & Hz1). wp_steps.
  eapply wp_mono; [apply (get_next root T1 [GET_PML4T_ENTRY_NO v] pdpt _ (2 + n)); try done|].
  { simpl. lia. } { apply index_land. } { by intros [E _]. }
  intros pd s2 (Hn2 & Hk2 & Hl2 & T2 & HT2 & Hu2 & Hs2 & Hd2 & Hr2 & Hz2). wp_steps.
  eapply wp_mono; [apply (get_next root T2 [GET_PML4T_ENTRY_NO v; GET_PDPT_ENTRY_NO v] pd _ (1 + n));
    try done|].
  { simpl. lia. } { apply index_land. } { by intros [E _]. }
  intros pt s3 (Hn3 & Hk3 & Hl3 & T3 & HT3 & Hu3 & Hs3 & Hd3 & Hr3 & Hz3). wp_steps.
  assert (T ⊆ T3) as HTT by (do 2 (etransitivity; [done|]); done).
  assert (keeps 3 s s3) as Hk
    by (eapply (keeps_trans 1 2); [done|]; by eapply (keeps_trans 1 1)).
  assert (∀ w, user_va w → leaf (pg_ram s3) root w = leaf (pg_ram s) root w) as Hl
    by (intros w Hw; by rewrite Hl3, Hl2, Hl1).
  assert (data_kept s T s3 T3) as Hd by (do 2 (eapply data_kept_trans; [done|]); done).
  assert (pt = 0 → ¬ pg_free 4 s) as Hz.
  { intros -> Hf. assert (pg_free 3 s1) as F1 by by apply Hk1.
    assert (pg_free 2 s2) as F2 by by apply Hk2.
    apply (pg_free_le 1 4) in Hf; [|lia]. apply (pg_free_le 1 3) in F1; [|lia].
    apply (pg_free_le 1 2) in F2; [|lia]. destruct (tr_table _ _ _ HT [] root (tr_root _ _ _ HT)) as [_ [R0 _]].
    apply Hz3; [apply Hz2; [apply Hz1; [lia|done]|done]|done|done]. }
  clear Hr1 Hr2 Hs1 Hs2 Hs3 HT1 HT2 Hu1 Hu2 Hl1 Hl2 Hl3 Hk1 Hk2 Hk3 Hn1 Hn2 Hd1 Hd2 Hd3 Hz1 Hz2 Hz3.
  by apply (map_leaf root T T3 v fl page_exists page type n s s3).
Qed.
End proofs.

(** ** The memory manager of [tload] provides the interface *)
#[export] Instance tload_pager_ops : PagerOps tload := {
  pg_ram := ram;
  pg_set_ram m := with_ram (λ _, m);
  pg_alloc type := malloc_align PAGESIZE PAGESIZE type 1;
  pg_note := add_linked_list;
  pg_say := say
}.

Lemma map_state_weaken room room' R s : room' <= room → map_state room R s → map_state room' R s.
Proof.
  intros Hle (l & H1 & H2 & H3 & H4 & H5). exists l. split_and!; try done. lia.
Qed.

Lemma taken_used bm bm' p length x : taken bm bm' p length → used bm x = true → used bm' x = true.
Proof. intros Ht Hx. by rewrite Ht, Hx. Qed.

Definition same_heap (s s' : tload) : Prop := heap_start s' = heap_start s ∧ heap_end s' = heap_end s.

Lemma malloc_align_page room R type s :
  0 <= room → map_state (room + 1) R s → top_used (bitmap s) → used (bitmap s) 0 = true →
  wp (malloc_align PAGESIZE PAGESIZE type 1) (λ p s',
    (p = 0 ∧ s' = s ∧ ∀ t, ¬ fits (bitmap s) PAGESIZE PAGESIZE t) ∨
    (0 < p ∧ p + 4096 <= 0xfffff000 ∧ p mod 4096 = 0 ∧ used (bitmap s) (p / 4096) = false ∧
     taken (bitmap s) (bitmap s') p 4096 ∧ ram s' = ram s ∧
     map_state room (plus_region R p 4096 type) s' ∧ same_heap s s')) s.
Proof.
  intros Hroom Hm Htop H0. unfold malloc_align, malloc_align_with, PAGESIZE.
  change (truth (0x1000 mod 0x1000) || truth (0x1000 mod 0x1000)) with false. cbn iota. wp_steps.
  destruct (align_search (bitmap s) 0x1000 0x1000) as (r & E & Hr); [lia|lia|].
  eapply wp_lift; [exact E|]. destruct r as [t|]; [|wp_steps; by left].
  destruct Hr as [Hfit _]. pose proof Hfit as (Ht & Htm & Hfree).
  destruct (fits_below_top (bitmap s) 0x1000 0x1000 t) as [Htp Hend]; try done.
  specialize (Hfree 0). rewrite Z.mul_0_l, Z.add_0_r, u32_small in Hfree by lia.
  specialize (Hfree ltac:(lia) ltac:(lia)).
  assert (t ≠ 0) as Hne by (intros ->; change (0 / 4096) with 0 in Hfree; congruence).
  unfold _malloc_fixed_with. wp_steps.
  destruct (page_loop_set (bitmap s) t 0x1000) as (bm' & E' & Hbm'); [lia|done|done|lia|lia|].
  eapply wp_lift; [exact E'|]. wp_steps.
  eapply wp_mono; [apply (add_linked_list_depth 1 room R)|].
  - done.
  - by eapply map_state_rest.
  - unfold region_wf. lia.
  - intros [] s' [Hm' (Eb & Ec & Er & Eh)]. wp_steps. right. split_and!; try done; try lia.
    by rewrite Eb.
Qed.

Definition tload_inv (n : nat) (s : tload) : Prop :=
  (∃ R, map_state (Z.of_nat n) R s) ∧ top_used (bitmap s) ∧ used (bitmap s) 0 = true.
Definition tload_used (s : tload) (a : Z) : Prop := used (bitmap s) (a / 4096) = true.
(** [n] different frames are free. *)
Definition tload_free (n : nat) (s : tload) : Prop :=
  ∃ l, NoDup l ∧ (n <= length l)%nat ∧ ∀ x, x ∈ l → 0 <= x < 0x100000 ∧ used (bitmap s) x = false.

Lemma tload_free_rest n s s' : bitmap s' = bitmap s → tload_free n s → tload_free n s'.
Proof. unfold tload_free. by intros ->. Qed.
Lemma tload_free_weaken n s : tload_free (S n) s → tload_free n s.
Proof. intros (l & H1 & H2 & H3). exists l. split_and!; [done|lia|done]. Qed.

Lemma tload_free_fits n s : tload_free (S n) s → ∃ t, fits (bitmap s) PAGESIZE PAGESIZE t.
Proof.
  intros ([|x l] & _ & Hl & H); [simpl in Hl; lia|]. destruct (H x) as [Hx Hu]; [by constructor|].
  exists (x * 4096). unfold fits, PAGESIZE. split_and!; [lia|lia|by apply Z.mod_mul|].
  intros k Hk Hlt. replace k with 0 by lia. rewrite Z.mul_0_l, Z.add_0_r, u32_small by lia.
  by rewrite Z.div_mul by lia.
Qed.

Lemma tload_free_taken n s s' p :
  taken (bitmap s) (bitmap s') p 4096 → p mod 4096 = 0 → tload_free (S n) s → tload_free n s'.
Proof.
  intros Ht Hp (l & H1 & H2 & H3). exists (filter (λ x, x ≠ p / 4096) l).
  split_and!; [by apply NoDup_filter| |].
  - assert (∀ l : list Z, p / 4096 ∉ l → filter (λ x, x ≠ p / 4096) l = l) as E.
    { clear. induction l as [|y l IH]; intros Hy; [done|]. apply not_elem_of_cons in Hy as [Hy1 Hy2].
      rewrite filter_cons_True by congruence. by rewrite IH. }
    destruct (decide (p / 4096 ∈ l)) as [Hin|Hn].
    + apply list_elem_of_split in Hin as (l1 & l2 & ->). apply NoDup_app in H1 as (D1 & D2 & D3).
      apply NoDup_cons in D3 as [D3 _].
      rewrite filter_app, filter_cons_False by tauto. rewrite length_app in *. cbn [length] in H2.
      rewrite !E; [lia|done|]. intros Hin. apply (D2 _ Hin). by constructor.
    + rewrite E by done. lia.
  - intros x Hx. apply list_elem_of_filter in Hx as [Hne Hx]. destruct (H3 x Hx) as [Hr Hu].
    split; [done|]. rewrite Ht, Hu. apply bool_decide_false. unfold in_pages. dlia.
Qed.

Lemma tload_inv_rest n s s' :
  tload_inv n s → nodes s' = nodes s → mm_first s' = mm_first s → mm_last s' = mm_last s →
  cur_end s' = cur_end s → heap_start s' = heap_start s → heap_end s' = heap_end s →
  bitmap s' = bitmap s → tload_inv n s'.
Proof.
  intros [[R Hm] Hb] E1 E2 E3 E4 E5 E6 E7. split; [|by rewrite E7].
  exists R. by eapply map_state_rest.
Qed.

Lemma tload_inv_weaken n s : tload_inv (S n) s → tload_inv n s.
Proof.
  intros [[R Hm] Hb]. split; [|exact Hb]. exists R. eapply map_state_weaken; [|exact Hm]. lia.
Qed.

Lemma tload_alloc_heap n type s :
  tload_inv (S n) s →
  wp (malloc_align PAGESIZE PAGESIZE type 1) (λ p s', same_heap s s' ∧ tload_inv n s' ∧ ram s' = ram s ∧
    (∀ a, tload_used s a → tload_used s' a) ∧
    (p = 0 ∨ (low_page p ∧ ¬ tload_used s p ∧ tload_used s' p)) ∧
    (∀ k, tload_free (S k) s → p ≠ 0 ∧ tload_free k s')) s.
Proof.
  intros Hinv. pose proof Hinv as [[R Hm] [Htop H0]].
  assert (map_state (Z.of_nat n + 1) R s) as Hm1
    by (eapply map_state_weaken; [|exact Hm]; lia).
  eapply wp_mono; [apply (malloc_align_page (Z.of_nat n) R type s); [lia|exact Hm1|exact Htop|exact H0]|].
  cbv beta. intros p s' [(-> & -> & Hno)|(P0 & P1 & P2 & P3 & P4 & P5 & P6 & P7)].
  - split; [done|]. split; [by apply tload_inv_weaken|]. split; [reflexivity|]. split; [auto|].
    split; [by left|]. intros k Hf. exfalso. destruct (tload_free_fits k s Hf) as [t Ht]. by apply (Hno t).
  - split; [exact P7|]. split; [split; [by eexists|split; by eapply taken_used]|]. split; [exact P5|].
    split; [intros a Ha; by eapply taken_used|]. split; [|split; [lia|by eapply tload_free_taken]].
    right. unfold tload_used, low_page, table_ok.
    split; [lia|]. rewrite P3. split; [done|]. rewrite P4, bool_decide_true; [apply orb_true_r|].
    split; [done|lia].
Qed.

Lemma tload_note_heap n addr length type s :
  tload_inv (S n) s → region_wf addr length →
  wp (add_linked_list addr length type) (λ _ s', same_heap s s' ∧ tload_inv n s' ∧ ram s' = ram s ∧
    (∀ a, tload_used s a → tload_used s' a) ∧ (∀ k, tload_free k s → tload_free k s')) s.
Proof.
  intros [[R Hm] Hb] Hr. unfold add_linked_list, malloc.
  eapply wp_mono; [apply (add_linked_list_depth 1 (Z.of_nat n) R); [lia| |exact Hr]|].
  { eapply map_state_weaken; [|exact Hm]. lia. }
  cbv beta. intros [] s' [Hm' (Eb & _ & Er & Eh)]. unfold tload_inv, tload_used, tload_free. rewrite Eb.
  split; [exact Eh|]. split; [split; [by eexists|exact Hb]|]. split; [exact Er|auto].
Qed.

Lemma tload_alloc_spec n type s :
  tload_inv (S n) s →
  wp (malloc_align PAGESIZE PAGESIZE type 1) (λ p s', tload_inv n s' ∧ ram s' = ram s ∧
    (∀ a, tload_used s a → tload_used s' a) ∧
    (p = 0 ∨ (low_page p ∧ ¬ tload_used s p ∧ tload_used s' p)) ∧
    (∀ k, tload_free (S k) s → p ≠ 0 ∧ tload_free k s')) s.
Proof. intros Hi. eapply wp_mono; [by apply (tload_alloc_heap n)|]. cbv beta. by intros p s' [_ H]. Qed.
Lemma tload_note_spec n addr length type s :
  tload_inv (S n) s → region_wf addr length →
  wp (add_linked_list addr length type) (λ _ s', tload_inv n s' ∧ ram s' = ram s ∧
    (∀ a, tload_used s a → tload_used s' a) ∧ (∀ k, tload_free k s → tload_free k s')) s.
Proof. intros Hi Hr. eapply wp_mono; [by apply (tload_note_heap n)|]. cbv beta. by intros [] s' [_ H]. Qed.

Lemma tload_say_spec n msg s :
  tload_inv n s →
  wp (say msg) (λ _ s', tload_inv n s' ∧ ram s' = ram s ∧
    (∀ a, tload_used s a → tload_used s' a) ∧ (∀ k, tload_free k s → tload_free k s')) s.
Proof.
  intros Hi. unfold say. generalize (puts (cstr msg)). intros f. apply wp_modify.
  split; [by apply (tload_inv_rest n s)|]. split; [reflexivity|]. split; [auto|].
  intros k. by apply tload_free_rest.
Qed.

#[export] Instance tload_pager : Pager tload := {
  pg_inv := tload_inv;
  pg_used := tload_used;
  pg_free := tload_free;
  pg_ram_set _ _ := eq_refl;
  pg_inv_set n m s H :=
    tload_inv_rest n s (with_ram (λ _, m) s) H eq_refl eq_refl eq_refl eq_refl eq_refl eq_refl eq_refl;
  pg_used_set _ _ _ := iff_refl _;
  pg_inv_weaken := tload_inv_weaken;
  pg_free_set n m s := tload_free_rest n s (with_ram (λ _, m) s) eq_refl;
  pg_free_weaken := tload_free_weaken;
  pg_alloc_spec := tload_alloc_spec;
  pg_note_spec := tload_note_spec;
  pg_say_spec := tload_say_spec
}.

(** The same manager, with the bounds of its heap in the invariant (once set
    they never move) and room for [x] entries set aside. *)
Definition inv_at (hs he : Z) (x n : nat) (s : tload) : Prop :=
  tload_inv (n + x) s ∧ heap_start s = hs ∧ heap_end s = he.

Lemma inv_at_mono hs he x n n' s s' :
  inv_at hs he x n s → tload_inv (n' + x) s' → same_heap s s' → inv_at hs he x n' s'.
Proof. intros (_ & <- & <-) Hi [H1 H2]. by split_and!. Qed.

Lemma alloc_at hs he x n type s :
  inv_at hs he x (S n) s →
  wp (malloc_align PAGESIZE PAGESIZE type 1) (λ p s', inv_at hs he x n s' ∧ ram s' = ram s ∧
    (∀ a, tload_used s a → tload_used s' a) ∧
    (p = 0 ∨ (low_page p ∧ ¬ tload_used s p ∧ tload_used s' p)) ∧
    (∀ k, tload_free (S k) s → p ≠ 0 ∧ tload_free k s')) s.
Proof.
  intros Hi. eapply wp_mono; [apply (tload_alloc_heap (n + x)), Hi|]. cbv beta. intros p s' (Hh & Hi' & H).
  split; [by eapply inv_at_mono|exact H].
Qed.
Lemma note_at hs he x n addr length type s :
  inv_at hs he x (S n) s → region_wf addr length →
  wp (add_linked_list addr length type) (λ _ s', inv_at hs he x n s' ∧ ram s' = ram s ∧
    (∀ a, tload_used s a → tload_used s' a) ∧ (∀ k, tload_free k s → tload_free k s')) s.
Proof.
  intros Hi Hr. eapply wp_mono; [apply (tload_note_heap (n + x)); [apply Hi|exact Hr]|].
  cbv beta. intros [] s' (Hh & Hi' & H). split; [by eapply inv_at_mono|exact H].
Qed.
Lemma say_at hs he x n msg s :
  inv_at hs he x n s →
  wp (say msg) (λ _ s', inv_at hs he x n s' ∧ ram s' = ram s ∧
    (∀ a, tload_used s a → tload_used s' a) ∧ (∀ k, tload_free k s → tload_free k s')) s.
Proof.
  intros Hi. pose proof (tload_say_spec (n + x) msg s (proj1 Hi)) as H. unfold say in *. revert H.
  generalize (puts (cstr msg)). intros f H. apply wp_modify.
  destruct H as [H1 H2]. split; [by eapply inv_at_mono|exact H2].
Qed.
Lemma inv_at_set hs he x n m s : inv_at hs he x n s → inv_at hs he x n (with_ram (λ _, m) s).
Proof.
  intros Hi. eapply inv_at_mono; [exact Hi| |done].
  apply (tload_inv_rest (n + x) s); [apply Hi|reflexivity..].
Qed.
Lemma inv_at_weaken hs he x n s : inv_at hs he x (S n) s → inv_at hs he x n s.
Proof. intros Hi. eapply inv_at_mono; [exact Hi|apply tload_inv_weaken, Hi|done]. Qed.

Definition pager_at (hs he : Z) (x : nat) : Pager tload := {|
  pg_inv := inv_at hs he x;
  pg_used := tload_used;
  pg_free := tload_free;
  pg_ram_set _ _ := eq_refl;
  pg_inv_set := inv_at_set hs he x;
  pg_used_set _ _ _ := iff_refl _;
  pg_inv_weaken := inv_at_weaken hs he x;
  pg_free_set n m s := tload_free_rest n s (with_ram (λ _, m) s) eq_refl;
  pg_free_weaken := tload_free_weaken;
  pg_alloc_spec := alloc_at hs he x;
  pg_note_spec := note_at hs he x;
  pg_say_spec := say_at hs he x
|}.

(** After one region was recorded and the root table allocated, cleared and
    pointed back at itself, as [kmain] does. *)
Definition tload1 : tload := (run (add_linked_list 0x100000000 0x1000 Available) tt tload0).2.
Definition root1 : Z := (run (malloc_align PAGESIZE PAGESIZE PagingStructure 1) 0 tload1).1.
Definition tload2 : tload :=
  let s := (run (malloc_align PAGESIZE PAGESIZE PagingStructure 1) 0 tload1).2 in
  with_ram (λ m, wr64 (fill 4096 m root1 0) (root1 + 8 * 511) (Z.lor root1 3)) s.

Lemma root1_value : root1 = 0x800000.
Proof. by vm_compute. Qed.

Lemma tload1_inv n : 112 + 56 * Z.of_nat n <= HEAP_SIZE → tload_inv n tload1.
Proof.
  intros Hn. assert (wp (add_linked_list 0x100000000 0x1000 Available) (λ _ s', ∃ hp,
    heap_taken tload0 s' hp ∧
    map_state (Z.of_nat n) (plus_region (heap_region hp) 0x100000000 0x1000 Available) s') tload0) as Hw.
  { apply add_linked_list_first; [exact tload0_ready|exact Hn|unfold region_wf; lia]. }
  apply (wp_run _ tt) in Hw as (hp & (_ & _ & _ & Htk & _) & Hm).
  destruct tload0_ready as (_ & Htop & H0 & _).
  split; [by eexists|]. split; by eapply taken_used.
Qed.

Lemma tload2_inv n : 168 + 56 * Z.of_nat n <= HEAP_SIZE → tload_inv n tload2 ∧ tload_used tload2 root1.
Proof.
  intros Hn. pose proof (wp_run _ 0 _ _ (tload_alloc_spec n PagingStructure tload1 (tload1_inv (S n) ltac:(lia))))
    as (Hi & _ & _ & Hp & _). fold root1 in Hp. rewrite root1_value in Hp.
  destruct Hp as [?|(_ & _ & Hu)]; [done|]. unfold tload2.
  revert Hi Hu. generalize (run (malloc_align PAGESIZE PAGESIZE PagingStructure 1) 0 tload1).2.
  intros s Hi Hu. split; [|rewrite root1_value; exact Hu].
  apply (tload_inv_rest n s); [exact Hi|reflexivity..].
Qed.

Lemma free_with_ram n f s : tload_free n s → tload_free n (with_ram f s).
Proof. by apply tload_free_rest. Qed.
Lemma used_with_ram f s a : tload_used s a → pg_used (with_ram f s) a.
Proof. exact id. Qed.
Lemma inv_with_ram n f s : tload_inv n s → tload_inv n (with_ram f s).
Proof. intros Hi. by apply (tload_inv_rest n s). Qed.

#[local] Opaque root1.

Lemma tload2_tree : tree (ram tload2) root1 {[ [] := root1 ]}.
Proof.
  assert (table_ok root1) as Hr by (rewrite root1_value; split_and!; [lia|lia|done]).
  apply tree_fresh; [done|]. intros i Hi Hne. unfold tload2. cbn [ram with_ram].
  rewrite entry_store by (done || (unfold index; lia)). rewrite decide_False by (intros [_ ?]; done).
  unfold entry, rd64. rewrite (rd_fill_0 8) by (unfold index in Hi; lia). done.
Qed.

(** C5. Mapping a page.  From a well-formed tree of page tables whose pages
    the memory manager knows to be taken, [create_virtual_mapping_from_page]
    terminates; every other page keeps its mapping, the tables stay a tree
    (grown by fresh tables only), no byte of a taken page that is not a table
    changes, and either the walk of [virt_addr] gives the address returned
    (the given page plus the offset when a page was given, otherwise the page
    mapped before or one that was free; writable when asked for), or fewer
    than four pages were free and [virt_addr] maps as before. *)
Theorem create_virtual_mapping_maps_page root T v fl page_exists page type n (s : tload) :
  tree (ram s) root T → tables_used s T → va_ok v → tload_inv (4 + n) s →
  (truth page_exists = true → low_page page ∨ page = 0) →
  (∀ e, leaf (ram s) root v = Some e → frame_of e < 2 ^ 32) →
  wp (create_virtual_mapping_from_page v root fl page_exists page type)
     (mapping_post root T v fl page_exists page n s) s.
Proof. exact (create_mapping_spec (S := tload) root T v fl page_exists page type n s). Qed.

Lemma create_virtual_mapping_maps_page_witness :
  wp (create_virtual_mapping_from_page 0xffff800000 root1 PF_W 1 0xb8000 VideoHardware)
     (mapping_post root1 {[ [] := root1 ]} 0xffff800000 PF_W 1 0xb8000 95 tload2) tload2.
Proof.
  apply (create_virtual_mapping_maps_page root1 {[ [] := root1 ]} 0xffff800000 PF_W 1 0xb8000
    VideoHardware 95 tload2).
  - exact tload2_tree.
  - intros p a Hp. apply lookup_singleton_Some in Hp as [_ <-]. split; [by apply (tload2_inv 99)|].
    rewrite root1_value. lia.
  - split; [lia|]. by vm_compute.
  - by apply (tload2_inv 99).
  - intros _. left. split; [|lia]. split_and!; [lia|lia|done].
  - intros e He. exfalso. revert He. rewrite (tree_leaf _ _ _ _ tload2_tree) by by vm_compute.
    rewrite lookup_singleton_ne by done. done.
Defined.
