(* ===== verification/TloadKif.v ===== *)
(** * The kernel's object layouts in the loaders

    src/tloadkif.c and src/tloadkif.h: arrays and object headers the managed
    kernel expects, built by the C loaders with [malloc].  The code runs over
    any heap with the interface [Heap], which the heap of [tload] provides.
    [Get_Symbol_Addr] (a lookup in the loaded kernel) is a parameter; the
    string objects are left out, since struct System_String has no members in
    the header. *)

From stdpp Require Import base numbers list gmap strings.
From Stdlib Require Import Lia.
From S2P Require Import Prelude Mem Console MemMgr.
Open Scope Z_scope.

(** ** A heap that grows upwards *)
Class HeapOps (S : Type) := {
  hp_mem : S → mem;
  hp_set_mem : mem → S → S;
  hp_malloc : Z → M S Z;
  hp_ok : S → Prop;
  hp_top : S → Z;
  hp_limit : S → Z
}.

Class Heap (S : Type) `{HeapOps S} := {
  hp_mem_set m s : hp_mem (hp_set_mem m s) = m;
  hp_set_set m m' s : hp_set_mem m' (hp_set_mem m s) = hp_set_mem m' s;
  hp_ok_set m s : hp_ok s → hp_ok (hp_set_mem m s);
  hp_top_set m s : hp_top (hp_set_mem m s) = hp_top s;
  hp_limit_set m s : hp_limit (hp_set_mem m s) = hp_limit s;
  hp_positive s : hp_ok s → 0 < hp_top s ∧ hp_limit s < 2 ^ 63;
  hp_malloc_spec n s : hp_ok s → 0 <= n → hp_top s + n <= hp_limit s →
    wp (hp_malloc n) (λ p s', hp_ok s' ∧ p = hp_top s ∧ hp_top s' = p + n ∧
      hp_limit s' = hp_limit s ∧ hp_mem s' = hp_mem s) s
}.

(** struct __array: member offsets and size (padded to 8). *)
Definition arr_vtbl : Z := 0.
Definition arr_mutex_lock : Z := 8.
Definition arr_elemtype : Z := 16.
Definition arr_lobounds : Z := 24.
Definition arr_sizes : Z := 32.
Definition arr_inner_array : Z := 40.
Definition arr_rank : Z := 48.
Definition arr_elem_size : Z := 56.
Definition sizeof_array : Z := 64.

Section kif.
Context {S : Type} `{HeapOps S}.
Context (Get_Symbol_Addr : string → Z).

Definition store64 (a v : Z) : M S unit :=
  modify (λ s, hp_set_mem (wr64 (hp_mem s) a v) s).
Definition store32 (a v : Z) : M S unit :=
  modify (λ s, hp_set_mem (wr32 (hp_mem s) a v) s).

(** The body all [Create_*_Array] functions share, with the symbols of the
    array and element type and the element size.  Returns the array object
    (stored through [arr_obj]) and [inner_array]. *)
Definition create_array (arr_sym elem_sym : string) (elem_size length : Z) : M S (Z * Z) :=
  arr ← hp_malloc sizeof_array;
  store64 (arr + arr_vtbl) (Get_Symbol_Addr arr_sym) ;;
  store64 (arr + arr_mutex_lock) 0 ;;
  store64 (arr + arr_rank) 1 ;;
  store32 (arr + arr_elem_size) elem_size ;;
  store64 (arr + arr_elemtype) (Get_Symbol_Addr elem_sym) ;;
  lobounds ← hp_malloc 4;
  store64 (arr + arr_lobounds) lobounds ;;
  sizes ← hp_malloc 4;
  store64 (arr + arr_sizes) sizes ;;
  inner ← hp_malloc (u64 (length * 4));
  store64 (arr + arr_inner_array) inner ;;
  store32 lobounds 0 ;;
  store32 sizes length ;;
  mret (arr, inner).

Definition Create_Ref_Array := create_array "_Zu1Zu1O" "_Zu1O" 8.
Definition Create_Char_Array := create_array "_Zu1Zc" "_Zc" 2.
Definition Create_I_Array := create_array "_Zu1Zu1I" "_Zu1I" 8.
Definition Create_I1_Array := create_array "_Zu1Za" "_Za" 1.
Definition Create_I2_Array := create_array "_Zu1Zs" "_Zs" 2.
Definition Create_I4_Array := create_array "_Zu1Zi" "_Zi" 4.
Definition Create_I8_Array := create_array "_Zu1Zx" "_Zx" 8.
Definition Create_U_Array := create_array "_Zu1Zu1U" "_Zu1U" 8.
Definition Create_U1_Array := create_array "_Zu1Zh" "_Zh" 1.
Definition Create_U2_Array := create_array "_Zu1Zt" "_Zt" 2.
Definition Create_U4_Array := create_array "_Zu1Zj" "_Zj" 4.
Definition Create_U8_Array := create_array "_Zu1Zy" "_Zy" 8.

(** The header of an object: the type's vtable and an open lock. *)
Definition init_object (sym : string) (obj : Z) : M S unit :=
  store64 obj (Get_Symbol_Addr sym) ;; store64 (obj + 8) 0.
Definition Init_System_Object := init_object "_Zu1O".
Definition Init_Multiboot_Header := init_object "_ZN11tysos#2Edll9Multiboot6Header".
Definition Init_Multiboot_MemoryMap := init_object "_ZN11tysos#2Edll9Multiboot9MemoryMap".
Definition Init_Multiboot_Module := init_object "_ZN11tysos#2Edll9Multiboot6Module".
End kif.

(** ** Arrays *)
(** What the kernel reads of a one-dimensional array object. *)
Record array_view := ArrayView {
  av_vtbl : Z; av_lock : Z; av_elemtype : Z; av_rank : Z; av_elem_size : Z;
  av_lobound : Z; av_size : Z; av_inner : Z
}.

Definition view_array (m : mem) (arr : Z) : array_view :=
  ArrayView (rd64 m (arr + arr_vtbl)) (rd64 m (arr + arr_mutex_lock))
    (rd64 m (arr + arr_elemtype)) (rd64 m (arr + arr_rank)) (rd32 m (arr + arr_elem_size))
    (rd32 m (rd64 m (arr + arr_lobounds))) (rd32 m (rd64 m (arr + arr_sizes)))
    (rd64 m (arr + arr_inner_array)).

(** Read a field through a chain of stores at known offsets. *)
Ltac rd_field :=
  unfold rd64, rd32, wr64, wr32;
  repeat first [rewrite rd_wr_eq | rewrite rd_wr_ne by lia].

Section arrays.
Context {S : Type} `{Heap S} (sym : string → Z).

Lemma store64_spec a v s :
  hp_ok s →
  wp (store64 a v) (λ _ s', hp_ok s' ∧ hp_top s' = hp_top s ∧ hp_limit s' = hp_limit s ∧
    hp_mem s' = wr64 (hp_mem s) a v) s.
Proof.
  intros Hs. apply wp_modify. rewrite hp_top_set, hp_limit_set, hp_mem_set.
  split_and!; try done. by apply hp_ok_set.
Qed.

Lemma store32_spec a v s :
  hp_ok s →
  wp (store32 a v) (λ _ s', hp_ok s' ∧ hp_top s' = hp_top s ∧ hp_limit s' = hp_limit s ∧
    hp_mem s' = wr32 (hp_mem s) a v) s.
Proof.
  intros Hs. apply wp_modify. rewrite hp_top_set, hp_limit_set, hp_mem_set.
  split_and!; try done. by apply hp_ok_set.
Qed.

(** A store, an allocation: top, limit and memory are kept as equations. *)
Ltac st :=
  wp_steps; eapply wp_mono; [first [by apply store64_spec | by apply store32_spec]|]; cbv beta;
  let s := fresh "s" in let K := fresh "K" in
  let T := fresh "T" in let L := fresh "L" in let E := fresh "E" in
  intros [] s (K & T & L & E).
Ltac al :=
  wp_steps; eapply wp_mono; [apply hp_malloc_spec; [done|lia|lia]|]; cbv beta;
  let v := fresh "v" in let s := fresh "s" in let K := fresh "K" in
  let T := fresh "T" in let L := fresh "L" in let E := fresh "E" in
  intros v s (K & -> & T & L & E).

Lemma create_array_spec a_sym e_sym es len s :
  hp_ok s → 0 <= len < 2 ^ 31 → 0 <= es < 2 ^ 32 →
  (∀ x, 0 <= sym x < 2 ^ 64) → hp_top s + 72 + 4 * len <= hp_limit s →
  wp (create_array sym a_sym e_sym es len) (λ r s',
    let base := hp_top s in
    r = (base, base + 72) ∧ hp_ok s' ∧ hp_top s' = base + 72 + 4 * len ∧
    hp_limit s' = hp_limit s ∧
    view_array (hp_mem s') base =
      ArrayView (sym a_sym) 0 (sym e_sym) 1 es 0 len (base + 72) ∧
    same_outside base 72 (hp_mem s) (hp_mem s')) s.
Proof.
  intros Hs Hl He Hsym Hroom. destruct (hp_positive s Hs) as [Hp Hlim].
  unfold create_array, sizeof_array. rewrite (u64_small (len * 4)) by lia.
  unfold arr_vtbl, arr_mutex_lock, arr_elemtype, arr_lobounds, arr_sizes, arr_inner_array,
    arr_rank, arr_elem_size.
  al. do 5 st. al. st. al. st. al. do 3 st. wp_steps. cbv zeta.
  repeat match goal with E : hp_mem ?x = _ |- context [hp_mem ?x] => rewrite E end.
  repeat match goal with T : hp_top ?x = _ |- context [hp_top ?x] => rewrite T end.
  set (b := hp_top s) in *. unfold view_array, arr_vtbl, arr_mutex_lock, arr_elemtype,
    arr_lobounds, arr_sizes, arr_inner_array, arr_rank, arr_elem_size.
  split_and!; [f_equal; lia|done|lia|congruence| |].
  - assert (∀ x, x mod 256 ^ Z.of_nat 8 = x mod 2 ^ 64) as P8 by done.
    assert (∀ x, x mod 256 ^ Z.of_nat 4 = x mod 2 ^ 32) as P4 by done.
    clear -Hp Hl He Hsym Hroom Hlim P8 P4.
    set (m := wr32 (wr32 _ (b + 64) 0) (b + 64 + 4) len).
    assert (rd 8 m (b + 24) = b + 64 ∧ rd 8 m (b + 32) = b + 64 + 4) as [F24 F32]
      by (unfold m; split; rd_field; rewrite P8, Z.mod_small by lia; lia).
    unfold rd64. rewrite F24, F32.
    f_equal; unfold m; rd_field; rewrite ?P8, ?P4, ?Z.mod_small by (apply Hsym || lia); lia.
  - intros k Hk. unfold wr64, wr32. rewrite !rd8_wr_outside by lia. done.
Qed.
End arrays.

(** ** The heap of [tload] *)
#[export] Instance tload_heap_ops : HeapOps tload := {
  hp_mem := ram;
  hp_set_mem m := with_ram (λ _, m);
  hp_malloc := malloc;
  hp_ok := heap_ok;
  hp_top := cur_end;
  hp_limit := heap_end
}.

Lemma tload_malloc_spec n s :
  heap_ok s → 0 <= n → cur_end s + n <= heap_end s →
  wp (malloc n) (λ p s', heap_ok s' ∧ p = cur_end s ∧ cur_end s' = p + n ∧
    heap_end s' = heap_end s ∧ ram s' = ram s) s.
Proof.
  intros Hs Hn Hr. eapply wp_intro; [by apply malloc_bump|].
  unfold heap_ok in *. cbn. split_and!; done || lia.
Qed.

Lemma tload_heap_positive s : heap_ok s → 0 < cur_end s ∧ heap_end s < 2 ^ 63.
Proof. unfold heap_ok. lia. Qed.

#[export] Instance tload_heap : Heap tload := {
  hp_mem_set _ _ := eq_refl;
  hp_set_set _ _ _ := eq_refl;
  hp_ok_set _ _ H := H;
  hp_top_set _ _ := eq_refl;
  hp_limit_set _ _ := eq_refl;
  hp_positive := tload_heap_positive;
  hp_malloc_spec := tload_malloc_spec
}.

(** The twelve constructors with their type symbols and element sizes. *)
Definition makers (sym : string → Z) : list ((Z → M tload (Z * Z)) * (string * string * Z)) :=
  [(Create_Ref_Array sym, ("_Zu1Zu1O", "_Zu1O", 8)%string);
   (Create_Char_Array sym, ("_Zu1Zc", "_Zc", 2)%string);
   (Create_I_Array sym, ("_Zu1Zu1I", "_Zu1I", 8)%string);
   (Create_I1_Array sym, ("_Zu1Za", "_Za", 1)%string);
   (Create_I2_Array sym, ("_Zu1Zs", "_Zs", 2)%string);
   (Create_I4_Array sym, ("_Zu1Zi", "_Zi", 4)%string);
   (Create_I8_Array sym, ("_Zu1Zx", "_Zx", 8)%string);
   (Create_U_Array sym, ("_Zu1Zu1U", "_Zu1U", 8)%string);
   (Create_U1_Array sym, ("_Zu1Zh", "_Zh", 1)%string);
   (Create_U2_Array sym, ("_Zu1Zt", "_Zt", 2)%string);
   (Create_U4_Array sym, ("_Zu1Zj", "_Zj", 4)%string);
   (Create_U8_Array sym, ("_Zu1Zy", "_Zy", 8)%string)].

Lemma makers_create sym mk a e es :
  (mk, (a, e, es)) ∈ makers sym → mk = create_array sym a e es ∧ 1 <= es <= 8.
Proof.
  intros Hin. unfold makers in Hin. rewrite !elem_of_cons in Hin.
  repeat match type of Hin with _ ∨ _ => destruct Hin as [Hin|Hin] end;
    first [by apply not_elem_of_nil in Hin
          | inversion Hin; subst; split; [reflexivity|lia]].
Qed.

(** C32. Every array constructor, on a heap with room, builds the object the
    kernel expects: vtable and element type of its own symbols, an open lock,
    rank 1, its element size, lower bound 0 and the requested length, with
    the element area behind it; nothing outside the object changes. *)
Theorem create_array_object sym mk a e es len s :
  (mk, (a, e, es)) ∈ makers sym →
  heap_ok s → 0 <= len < 2 ^ 31 → (∀ x, 0 <= sym x < 2 ^ 64) →
  cur_end s + 72 + 4 * len <= heap_end s →
  wp (mk len) (λ r s',
    r = (cur_end s, cur_end s + 72) ∧ heap_ok s' ∧
    view_array (ram s') (cur_end s) =
      ArrayView (sym a) 0 (sym e) 1 es 0 len (cur_end s + 72) ∧
    same_outside (cur_end s) 72 (ram s) (ram s')) s.
Proof.
  intros Hin Hs Hl Hsym Hroom. destruct (makers_create _ _ _ _ _ Hin) as [-> Hes].
  eapply wp_mono; [apply (create_array_spec (S := tload) sym a e es len s); done || lia|].
  cbv zeta. intros r s' (E1 & E2 & _ & _ & E4 & E5). split_and!; done.
Qed.

(** A heap at 1 MiB. *)
Definition heap1 : tload := with_heap 0x100000 0x100000 0x800000 tload0.

Lemma create_array_object_witness :
  wp (Create_U4_Array (λ _, 0x1234) 3) (λ r s',
    r = (cur_end heap1, cur_end heap1 + 72) ∧ heap_ok s' ∧
    view_array (ram s') (cur_end heap1) =
      ArrayView 0x1234 0 0x1234 1 4 0 3 (cur_end heap1 + 72) ∧
    same_outside (cur_end heap1) 72 (ram heap1) (ram s')) heap1.
Proof.
  apply (create_array_object (λ _, 0x1234) (Create_U4_Array (λ _, 0x1234)) "_Zu1Zj" "_Zj" 4 3 heap1).
  - unfold makers. rewrite !elem_of_cons. tauto.
  - unfold heap_ok, heap1. simpl. lia.
  - lia.
  - intros; lia.
  - unfold heap1. simpl. lia.
Defined.

(** Arrays of 8-byte elements overlap the next allocation: the element
    area is allocated with 4 bytes per element whatever the element size, so
    after [Create_Ref_Array] of a non-empty array the next [malloc] returns
    an address inside the area the elements occupy. *)
Lemma ref_array_overlaps_next_block sym len n s :
  heap_ok s → 0 < len < 2 ^ 31 → (∀ x, 0 <= sym x < 2 ^ 64) → 0 <= n →
  cur_end s + 72 + 4 * len + n <= heap_end s →
  wp (r ← Create_Ref_Array sym len; p ← malloc n; mret (r.2, p)) (λ q _,
    q.1 < q.2 < q.1 + 8 * len) s.
Proof.
  intros Hs Hl Hsym Hn Hroom. wp_steps.
  eapply wp_mono; [apply (create_array_spec (S := tload) sym "_Zu1Zu1O" "_Zu1O" 8 len s); done || (simpl; lia)|].
  cbv zeta. intros r s' (-> & Hok & Htop & Hlim & _). cbn in Htop, Hlim. wp_steps.
  eapply wp_mono; [apply tload_malloc_spec; [done|done|lia]|].
  intros p s'' (_ & -> & _). wp_steps. cbn. lia.
Qed.

Lemma ref_array_overlaps_next_block_witness :
  wp (r ← Create_Ref_Array (λ _, 0x1234) 2; p ← malloc 16; mret (r.2, p)) (λ q _,
    q.1 < q.2 < q.1 + 8 * 2) heap1.
Proof.
  apply (ref_array_overlaps_next_block (λ _, 0x1234) 2 16 heap1);
    [unfold heap_ok, heap1; simpl; lia|lia|intros; lia|lia|unfold heap1; simpl; lia].
Defined.
