(* ===== verification/TloadStdlib.v ===== *)
(** * The C library of the BIOS loader

    src/tload/stdlib.c (32-bit code; [char] is signed).  Loops that stop at a
    terminator take fuel. *)

From stdpp Require Import base numbers list gmap.
From Stdlib Require Import Lia.
From S2P Require Import Prelude Mem.
Open Scope Z_scope.

Definition char (m : mem) (a : Z) : Z := s8 (rd8 m a).

Fixpoint strcmp (fuel : nat) (m : mem) (s1 s2 : Z) : outcome Z :=
  match fuel with
  | O => Hang
  | S fuel =>
      if truth (char m s1) then
        if char m s1 <? char m s2 then Done (char m s1 - char m s2)
        else if char m s2 <? char m s1 then Done (char m s1 - char m s2)
        else strcmp fuel m (s1 + 1) (s2 + 1)
      else Done (char m s1 - char m s2)
  end.

(** [n - i] iterations are left. *)
Fixpoint strncmp_loop (n : nat) (m : mem) (s1 s2 : Z) : Z :=
  match n with
  | O => 0
  | S n =>
      if char m s1 <? char m s2 then char m s1 - char m s2
      else if char m s2 <? char m s1 then char m s1 - char m s2
      else if char m s1 =? 0 then 0
      else strncmp_loop n m (s1 + 1) (s2 + 1)
  end.
Definition strncmp (m : mem) (s1 s2 n : Z) : Z := strncmp_loop (Z.to_nat n) m s1 s2.

Fixpoint strncpy_loop (n : nat) (m : mem) (dest src : Z) : mem :=
  match n with
  | O => m
  | S n => strncpy_loop n (wr8 m dest (rd8 m src)) (dest + 1) (src + 1)
  end.
Definition strncpy (m : mem) (dest src n : Z) : Z * mem :=
  (dest, strncpy_loop (Z.to_nat n) m dest src).

Fixpoint strlen_loop (fuel : nat) (m : mem) (s len : Z) : outcome Z :=
  match fuel with
  | O => Hang
  | S fuel => if truth (char m s) then strlen_loop fuel m (s + 1) (u32 (len + 1)) else Done len
  end.
Definition strlen (fuel : nat) (m : mem) (s : Z) : outcome Z := strlen_loop fuel m s 0.

Fixpoint memset_loop (n : nat) (m : mem) (i s c : Z) : mem :=
  match n with
  | O => m
  | S n => memset_loop n (wr8 m (u32 (i + s)) c) (i + 1) s c
  end.
Definition memset (m : mem) (s c n : Z) : Z * mem := (s, memset_loop (Z.to_nat n) m 0 s c).

(** ** Specifications *)
Lemma char_zero m a : char m a = 0 ↔ rd8 m a = 0.
Proof. unfold char. pose proof (rd8_range m a). mlia. Qed.

Lemma truth_char m a : truth (char m a) = negb (rd8 m a =? 0).
Proof.
  unfold truth. f_equal. pose proof (char_zero m a).
  destruct (Z.eqb_spec (char m a) 0), (Z.eqb_spec (rd8 m a) 0); tauto.
Qed.

Lemma char_inj m a b : char m a = char m b → rd8 m a = rd8 m b.
Proof. unfold char. pose proof (rd8_range m a). pose proof (rd8_range m b). mlia. Qed.

Lemma tstrlen_loop_spec l fuel m s len :
  cstring m s l → (length l < fuel)%nat → 0 <= len → len + Z.of_nat (length l) < 2 ^ 32 →
  strlen_loop fuel m s len = Done (len + Z.of_nat (length l)).
Proof.
  revert fuel s len. induction l as [|c l IH]; intros [|fuel] s len Hs Hf Hl Hr;
    try (simpl in Hf; lia); cbn [strlen_loop cstring length] in *; rewrite truth_char.
  - rewrite Hs. f_equal. lia.
  - destruct Hs as (-> & Hc & Hs). destruct (Z.eqb_spec c 0); [lia|]. cbn [negb].
    rewrite u32_small, IH by (done || lia). f_equal. lia.
Qed.

(** [strcmp] decides equality of terminated strings and has the sign of the
    first difference. *)
Lemma tstrcmp_spec l1 l2 fuel m s1 s2 :
  cstring m s1 l1 → cstring m s2 l2 → (length l1 < fuel)%nat →
  ∃ r, strcmp fuel m s1 s2 = Done r ∧ (r = 0 ↔ l1 = l2).
Proof.
  revert l2 fuel s1 s2. induction l1 as [|c l1 IH]; intros l2 [|fuel] s1 s2 H1 H2 Hf;
    try (simpl in Hf; lia); cbn [strcmp]; rewrite truth_char; cbn [cstring length] in *.
  - rewrite H1. cbn [negb Z.eqb]. eexists. split; [done|].
    assert (char m s1 = 0) as -> by by apply char_zero. destruct l2 as [|d l2]; cbn [cstring] in H2.
    + assert (char m s2 = 0) as -> by by apply char_zero. done.
    + destruct H2 as (E & Hd & _). split; [|done]. intros Hr.
      assert (rd8 m s2 = 0) by (apply char_zero; lia). lia.
  - destruct H1 as (E1 & Hc & H1). rewrite E1. destruct (Z.eqb_spec c 0); [lia|]. cbn [negb].
    destruct (decide (char m s1 = char m s2)) as [Ee|Hne].
    + rewrite Ee, Z.ltb_irrefl. apply char_inj in Ee. rewrite E1 in Ee.
      destruct l2 as [|d l2]; cbn [cstring] in H2; [lia|]. destruct H2 as (E2 & Hd & H2).
      destruct (IH l2 fuel (s1 + 1) (s2 + 1)) as (r & -> & Hr); [done|done|lia|].
      exists r. split; [done|]. rewrite Hr. split; [intros ->; congruence|congruence].
    + exists (char m s1 - char m s2).
      split; [destruct (Z.ltb_spec (char m s1) (char m s2)), (Z.ltb_spec (char m s2) (char m s1)); done || lia|].
      split; [lia|]. intros <-. cbn [cstring] in H2. destruct H2 as (E2 & _). exfalso. apply Hne.
      unfold char. congruence.
Qed.

(** [strncpy] copies exactly [n] bytes, past a terminator too. *)
Lemma strncpy_loop_spec n m dest src k :
  dest + Z.of_nat n <= src ∨ src + Z.of_nat n <= dest →
  rd8 (strncpy_loop n m dest src) k =
    if decide (dest <= k < dest + Z.of_nat n) then rd8 m (src + (k - dest)) else rd8 m k.
Proof.
  revert m dest src. induction n as [|n IH]; intros m dest src Hd; cbn [strncpy_loop].
  - by rewrite decide_False by lia.
  - rewrite IH by lia. rewrite !rd8_wr8. repeat case_decide; try lia.
    + f_equal. lia.
    + subst k. rewrite Z.sub_diag, Z.add_0_r. apply u8_small, rd8_range.
Qed.

Lemma memset_loop_spec n m i s c k :
  0 <= s + i → s + i + Z.of_nat n <= 2 ^ 32 →
  rd8 (memset_loop n m i s c) k = if decide (s + i <= k < s + i + Z.of_nat n) then u8 c else rd8 m k.
Proof.
  revert m i. induction n as [|n IH]; intros m i H0 H1; cbn [memset_loop].
  - by rewrite decide_False by lia.
  - rewrite IH by lia. rewrite rd8_wr8, (u32_small (i + s)) by lia. repeat case_decide; try lia; done.
Qed.
