(* ===== verification/CmdLine.v ===== *)
(** * The command line of the BIOS loader

    src/tload/cmdline.c over any heap with the interface of TloadKif; string
    comparison and copying are src/tload/stdlib.c.  The two string literals
    the code compares against lie in memory at addresses that are parameters. *)

From stdpp Require Import base numbers list gmap strings.
From Stdlib Require Import Lia.
From S2P Require Import Prelude Mem Console MemMgr TloadKif TloadStdlib.
Open Scope Z_scope.
Open Scope outcome_scope.

(** The globals; a null [kernel_name] is 0. *)
Record cmdvars := CmdVars { kernel_name : Z; tysos_debug : Z }.

(** [while (c is none of stops) p++], at most [fuel] characters. *)
Fixpoint scan (fuel : nat) (stops : list Z) (m : mem) (p : Z) : outcome Z :=
  match fuel with
  | O => Hang
  | S fuel => if existsb (Z.eqb (rd8 m p)) stops then Done p else scan fuel stops m (p + 1)
  end.
(** [while (c is ' ') p++]. *)
Fixpoint skip_spaces (fuel : nat) (m : mem) (p : Z) : outcome Z :=
  match fuel with
  | O => Hang
  | S fuel => if rd8 m p =? 32 then skip_spaces fuel m (p + 1) else Done p
  end.
(** [while ((c is ' ') && (trailing >= s)) trailing--]. *)
Fixpoint back_spaces (fuel : nat) (m : mem) (trailing s : Z) : outcome Z :=
  match fuel with
  | O => Hang
  | S fuel =>
      if (rd8 m trailing =? 32) && (s <=? trailing) then back_spaces fuel m (trailing - 1) s
      else Done trailing
  end.

(** The stripped string and the memory with its new terminator. *)
Definition _strip_whitespace (fuel : nat) (m : mem) (s : Z) : outcome (Z * mem) :=
  s ⇐ skip_spaces fuel m s;
  e ⇐ scan fuel [0] m s;
  t ⇐ back_spaces fuel m (e - 1) s;
  Done (s, wr8 m (t + 1) 0).

Section cmdline.
Context {St : Type} `{HeapOps St}.
(** Where the compiler placed the two literals. *)
Context (lit_kernel lit_debug : Z).

Definition interpret_cmd_arg (fuel : nat) (m : mem) (name arg : Z) (v : cmdvars) : outcome cmdvars :=
  k ⇐ strcmp fuel m lit_kernel name;
  if negb (truth k) then Done (CmdVars arg (tysos_debug v))
  else
    d ⇐ strcmp fuel m lit_debug name;
    Done (if negb (truth d) then CmdVars (kernel_name v) 1 else v).

Definition parse_cmd_arg (fuel : nat) (m : mem) (cur_str : Z) (v : cmdvars) : outcome (mem * cmdvars) :=
  let arg_name := cur_str in
  p ⇐ scan fuel [0; 61] m cur_str;
  let '(m, arg_val) := if rd8 m p =? 0 then (m, 0) else (wr8 m p 0, p + 1) in
  n ⇐ _strip_whitespace fuel m arg_name;
  a ⇐ (if negb (arg_val =? 0) then _strip_whitespace fuel n.2 arg_val else Done (0, n.2));
  v ⇐ interpret_cmd_arg fuel a.2 n.1 a.1 v;
  Done (a.2, v).

(** [while(1)]: one argument per iteration. *)
Fixpoint cmd_loop (loops fuel : nat) (m : mem) (s i : Z) (v : cmdvars) : outcome (mem * cmdvars) :=
  match loops with
  | O => Hang
  | S loops =>
      let cur_str := s + i in
      p ⇐ scan fuel [0; 44; 32] m cur_str;
      let term_char := rd8 m p in
      let sep := (term_char =? 44) || (term_char =? 32) in
      let m := if sep then wr8 m p 0 else m in
      let i := if sep then p - s + 1 else p - s in
      r ⇐ parse_cmd_arg fuel m cur_str v;
      if term_char =? 0 then Done r else cmd_loop loops fuel r.1 s i r.2
  end.

Definition parse_cmd_line (loops fuel : nat) (s : Z) (v : cmdvars) : M St cmdvars :=
  st ← get;
  len ← lift (strlen fuel (hp_mem st) s);
  new_cmdline ← hp_malloc (u32 (len + 1));
  modify (λ st, hp_set_mem (strncpy (hp_mem st) new_cmdline s len).2 st) ;;
  modify (λ st, hp_set_mem (wr8 (hp_mem st) (new_cmdline + len) 0) st) ;;
  st ← get;
  s ← lift (skip_spaces fuel (hp_mem st) new_cmdline);
  if rd8 (hp_mem st) s =? 0 then mret v
  else
    r ← lift (cmd_loop loops fuel (hp_mem st) s 0 v);
    modify (hp_set_mem r.1) ;;
    mret r.2.
End cmdline.

(** ** What a command line means *)
Definition is_sep (c : Z) : bool := (c =? 44) || (c =? 32).

(** The arguments: the text between commas and spaces. *)
Fixpoint tokens (cur l : list Z) : list (list Z) :=
  match l with
  | [] => [cur]
  | c :: l => if is_sep c then cur :: tokens [] l else tokens (cur ++ [c]) l
  end.

(** Name and value of an argument. *)
Fixpoint split_eq (t : list Z) : list Z * option (list Z) :=
  match t with
  | [] => ([], None)
  | c :: t => if c =? 61 then ([], Some t) else let r := split_eq t in (c :: r.1, r.2)
  end.

(** The last [kernel] argument (if any, with its value if any), and whether
    [debug] was given. *)
Definition options : Type := option (option (list Z)) * bool.
Definition apply_arg (o : options) (t : list Z) : options :=
  let r := split_eq t in
  if bool_decide (r.1 = cstr "kernel") then (Some r.2, o.2)
  else if bool_decide (r.1 = cstr "debug") then (o.1, true)
  else o.
Fixpoint trim (l : list Z) : list Z :=
  match l with c :: l' => if c =? 32 then trim l' else l | [] => [] end.
Definition meaning (l : list Z) : options :=
  match trim l with [] => (None, false) | l => foldl apply_arg (None, false) (tokens [] l) end.

(** The globals [v] represent the options [o]; the kernel's name, if there
    is one, ends before [hi]. *)
Definition represents (m : mem) (v0 : cmdvars) (lo hi : Z) (o : options) (v : cmdvars) : Prop :=
  match o.1 with
  | None => kernel_name v = kernel_name v0
  | Some None => kernel_name v = 0
  | Some (Some n) =>
      lo <= kernel_name v ∧ kernel_name v + Z.of_nat (length n) < hi ∧ cstring m (kernel_name v) n
  end ∧
  tysos_debug v = if o.2 then 1 else tysos_debug v0.

(** ** Memory that reads the same *)
Definition same_bytes (m m' : mem) : Prop := ∀ k, rd8 m' k = rd8 m k.

Lemma wr8_zero_same m a : rd8 m a = 0 → same_bytes m (wr8 m a 0).
Proof. intros E k. rewrite rd8_wr8. case_decide; [subst; by rewrite E|done]. Qed.

Lemma same_bytes_cstring m m' a l : same_bytes m m' → cstring m a l → cstring m' a l.
Proof. intros H. apply cstring_agree. intros k _. symmetry. apply H. Qed.

Lemma scan_spec stops l1 l2 fuel m a :
  cstring m a (l1 ++ l2) → Forall (λ c, existsb (Z.eqb c) stops = false) l1 →
  existsb (Z.eqb (default 0 (head l2))) stops = true → (length l1 < fuel)%nat →
  scan fuel stops m a = Done (a + Z.of_nat (length l1)).
Proof.
  revert fuel a. induction l1 as [|c l1 IH]; intros [|fuel] a Hs Hl He Hf;
    try (simpl in Hf; lia); cbn [scan app length] in *.
  - assert (rd8 m a = default 0 (head l2)) as -> by (destruct l2; [done|by destruct Hs]).
    rewrite He. by rewrite Z.add_0_r.
  - destruct Hs as (-> & _ & Hs). apply Forall_cons in Hl as [-> Hl]. rewrite IH by (done || lia).
    f_equal. lia.
Qed.

Lemma skip_spaces_spec l fuel m a :
  cstring m a l → (length l < fuel)%nat →
  skip_spaces fuel m a = Done (a + Z.of_nat (length l - length (trim l))) ∧
  cstring m (a + Z.of_nat (length l - length (trim l))) (trim l).
Proof.
  revert fuel a. induction l as [|c l IH]; intros [|fuel] a Hs Hf; try (simpl in Hf; lia);
    cbn [skip_spaces cstring trim length] in *.
  - rewrite Hs. cbn [Z.eqb]. by rewrite Z.add_0_r.
  - destruct Hs as (Ec & Hc & Hs). rewrite Ec. destruct (c =? 32) eqn:E.
    + destruct (IH fuel (a + 1) Hs ltac:(lia)) as [-> Hr].
      assert (length (trim l) <= length l)%nat as Hl
        by (clear; induction l as [|x l IHl]; simpl; [lia|destruct (x =? 32); simpl; lia]).
      replace (a + Z.of_nat (S (length l) - length (trim l)))
        with (a + 1 + Z.of_nat (length l - length (trim l))) by lia. done.
    + cbn [length]. rewrite Nat.sub_diag, Z.add_0_r. done.
Qed.

Lemma strip_spec t fuel m a :
  cstring m a t → Forall (λ c, c ≠ 32) t → (length t < fuel)%nat →
  ∃ m', _strip_whitespace fuel m a = Done (a, m') ∧ same_bytes m m'.
Proof.
  intros Hs Hn Hf. unfold _strip_whitespace.
  assert (trim t = t) as Et.
  { destruct Hn as [|c t Hc _]; [done|]. cbn [trim]. by destruct (Z.eqb_spec c 32). }
  destruct (skip_spaces_spec t fuel m a Hs Hf) as [-> _]. rewrite Et, Nat.sub_diag, Z.add_0_r.
  cbn [obind]. rewrite (scan_spec [0] t []); rewrite ?app_nil_r; try done.
  2: { clear -Hs. revert a Hs. induction t as [|c t IH]; intros a Hs; constructor; destruct Hs as (_ & Hc & Hs).
       - cbn. destruct (Z.eqb_spec c 0); [lia|done].
       - by apply (IH (a + 1)). }
  cbn [obind]. exists (wr8 m (a + Z.of_nat (length t)) 0). split.
  - destruct fuel as [|fuel]; [lia|]. cbn [back_spaces].
    assert ((rd8 m (a + Z.of_nat (length t) - 1) =? 32) && (a <=? a + Z.of_nat (length t) - 1) = false) as ->.
    { destruct (Z.leb_spec a (a + Z.of_nat (length t) - 1)) as [Hle|]; [|by rewrite andb_false_r].
      rewrite andb_true_r. apply Z.eqb_neq.
      destruct t as [|c t _] using rev_ind; [simpl in Hle; lia|].
      apply Forall_app in Hn as [_ Hn]. apply Forall_cons in Hn as [Hc _].
      apply cstring_app in Hs as [_ (E & _)]. rewrite length_app. simpl.
      replace (a + Z.of_nat (length t + 1) - 1) with (a + Z.of_nat (length t)) by lia. congruence. }
    cbn [obind]. do 3 f_equal. lia.
  - apply wr8_zero_same. rewrite <- (app_nil_r t) in Hs. by apply cstring_app in Hs as [_ E].
Qed.

Lemma split_eq_spec t :
  t = (split_eq t).1 ++ (match (split_eq t).2 with Some v => 61 :: v | None => [] end) ∧
  Forall (λ c, c ≠ 61) (split_eq t).1.
Proof.
  induction t as [|c t [E H]]; cbn [split_eq]; [by split|].
  destruct (Z.eqb_spec c 61) as [->|Hne]; cbn [fst snd app]; [by split|].
  split; [by rewrite <- E|by constructor].
Qed.

Lemma cstring_chars m a t : cstring m a t → Forall (λ c, 0 < c < 256) t.
Proof.
  revert a. induction t as [|c t IH]; intros a; [constructor|]. intros (_ & Hc & Hs).
  constructor; [done|]. by apply (IH (a + 1)).
Qed.

Section parsing.
Context (lit_kernel lit_debug : Z) (v0 : cmdvars) (lo : Z) (fuel : nat).

(** The literals are in place and away from [lo, hi). *)
Definition literals (m : mem) (hi : Z) : Prop :=
  cstring m lit_kernel (cstr "kernel") ∧ cstring m lit_debug (cstr "debug") ∧
  (lit_kernel + 7 <= lo ∨ hi <= lit_kernel) ∧ (lit_debug + 6 <= lo ∨ hi <= lit_debug).

Lemma literals_keep m m' a n hi :
  literals m hi → same_outside a n m m' → lo <= a → a + n <= hi → literals m' hi.
Proof.
  intros (L1 & L2 & L3 & L4) Hs Ha Hn. split_and!; try done.
  - eapply cstring_agree; [|exact L1]. intros k Hk. cbn in Hk. symmetry. apply Hs. lia.
  - eapply cstring_agree; [|exact L2]. intros k Hk. cbn in Hk. symmetry. apply Hs. lia.
Qed.

Lemma represents_keep m m' a n hi o v :
  represents m v0 lo a o v → same_outside a n m m' → a <= hi → represents m' v0 lo hi o v.
Proof.
  intros [Hk Hd] Hs Hh. split; [|done]. destruct (o.1) as [[nm|]|]; [|done|done].
  destruct Hk as (K1 & K2 & K3). split_and!; [done|lia|].
  eapply cstring_agree; [|exact K3]. intros k Hk. symmetry. apply Hs. lia.
Qed.

(** The name decides what an argument does. *)
Lemma interpret_spec m hi name n arg v :
  literals m hi → cstring m name n → (6 < fuel)%nat → (length n < fuel)%nat →
  interpret_cmd_arg lit_kernel lit_debug fuel m name arg v = Done
    (if bool_decide (n = cstr "kernel") then CmdVars arg (tysos_debug v)
     else if bool_decide (n = cstr "debug") then CmdVars (kernel_name v) 1 else v).
Proof.
  intros (L1 & L2 & _) Hn Hf Hl. unfold interpret_cmd_arg.
  destruct (tstrcmp_spec (cstr "kernel") n fuel m lit_kernel name) as (r & -> & Hr); [done|done|simpl; lia|].
  cbn [obind]. unfold truth. rewrite negb_involutive.
  destruct (Z.eqb_spec r 0) as [E|E].
  - rewrite bool_decide_true by (symmetry; by apply Hr). done.
  - rewrite bool_decide_false by (intros ->; by apply E, Hr).
    destruct (tstrcmp_spec (cstr "debug") n fuel m lit_debug name) as (q & -> & Hq); [done|done|simpl; lia|].
    cbn [obind]. rewrite negb_involutive. destruct (Z.eqb_spec q 0) as [E'|E'].
    + rewrite bool_decide_true by (symmetry; by apply Hq). done.
    + rewrite bool_decide_false by (intros ->; by apply E', Hq). done.
Qed.

Lemma parse_cmd_arg_spec t m cur o v :
  let hi := cur + Z.of_nat (length t) + 1 in
  cstring m cur t → Forall (λ c, c ≠ 32) t → 0 <= lo <= cur → literals m hi →
  (6 < fuel)%nat → (length t < fuel)%nat → represents m v0 lo cur o v →
  ∃ m' v', parse_cmd_arg lit_kernel lit_debug fuel m cur v = Done (m', v') ∧
    same_outside cur (Z.of_nat (length t)) m m' ∧ represents m' v0 lo hi (apply_arg o t) v'.
Proof.
  intros hi Hs Hn Hlo Hlit Hf6 Hf Hrep. destruct (split_eq_spec t) as [Et H61].
  unfold apply_arg. set (n := (split_eq t).1) in *. set (val := (split_eq t).2) in *.
  assert (length t = length n + length (match val with Some w => 61%Z :: w | None => [] end))%nat as Hlen
    by (rewrite Et at 1; apply length_app).
  unfold parse_cmd_arg.
  rewrite (scan_spec [0; 61] n (match val with Some w => 61 :: w | None => [] end)).
  2: by rewrite <- Et.
  2: { pose proof (cstring_chars _ _ _ Hs) as Hc. rewrite Et in Hc. apply Forall_app in Hc as [Hc _].
       rewrite Forall_forall in *. intros c Hin. specialize (Hc c Hin). specialize (H61 c Hin). cbn.
       destruct (Z.eqb_spec c 0), (Z.eqb_spec c 61); try done; lia. }
  2: by destruct val.
  2: lia.
  cbn [obind]. set (p := cur + Z.of_nat (length n)).
  (** memory after the equals sign was overwritten *)
  assert (∃ m1 av, (if rd8 m p =? 0 then (m, 0) else (wr8 m p 0, p + 1)) = (m1, av) ∧
    same_outside cur (Z.of_nat (length t)) m m1 ∧ cstring m1 cur n ∧
    match val with
    | Some w => av = p + 1 ∧ cstring m1 av w ∧ av + Z.of_nat (length w) < hi
    | None => av = 0
    end) as (m1 & av & -> & Hout & Hname & Hval).
  { rewrite Et in Hs. apply cstring_app in Hs as [Hs1 Hs2]. fold p in Hs2. destruct val as [w|].
    - destruct Hs2 as (E & _ & Hw). rewrite E. cbn [Z.eqb]. exists (wr8 m p 0), (p + 1).
      cbn [length] in Hlen. split; [done|]. split_and!.
      + intros k Hk. rewrite rd8_wr8, decide_False by (unfold p; lia). done.
      + rewrite <- (app_nil_r n). apply cstring_app. split.
        * intros i c Hi. apply lookup_lt_Some in Hi as Hli. rewrite rd8_wr8, decide_False by (unfold p; lia).
          by apply Hs1.
        * cbn [cstring]. fold p. rewrite rd8_wr8, decide_True by done. done.
      + done.
      + eapply cstring_agree; [|exact Hw]. intros k Hk. rewrite rd8_wr8, decide_False by lia. done.
      + unfold hi, p. lia.
    - cbn [cstring] in Hs2. rewrite Hs2. cbn [Z.eqb]. exists m, 0. split_and!; [done|done| |done].
      rewrite <- (app_nil_r n). by apply cstring_app. }
  assert (Forall (λ c, c ≠ 32) n) as Hn1 by (rewrite Et in Hn; by apply Forall_app in Hn as [? _]).
  destruct (strip_spec n fuel m1 cur Hname Hn1 ltac:(lia)) as (m2 & -> & Hsame2). cbn [obind fst snd].
  assert (∃ m3, (if negb (av =? 0) then _strip_whitespace fuel m2 av else Done (0, m2)) = Done (av, m3) ∧
    same_bytes m1 m3) as (m3 & -> & Hsame3).
  { destruct val as [w|].
    - destruct Hval as (-> & Hw & _). destruct (Z.eqb_spec (p + 1) 0); [unfold p in *; lia|]. cbn [negb].
      assert (Forall (λ c, c ≠ 32) w) as Hnw.
      { rewrite Et in Hn. apply Forall_app in Hn as [_ Hn]. by apply Forall_cons in Hn as [_ ?]. }
      destruct (strip_spec w fuel m2 (p + 1)) as (m3 & -> & Hs3);
        [by eapply same_bytes_cstring|done|simpl in Hlen; lia|].
      exists m3. split; [done|]. intros k. by rewrite Hs3.
    - subst av. exists m2. done. }
  cbn [obind fst snd].
  assert (same_outside cur (Z.of_nat (length t)) m m3) as Hout3
    by (intros k Hk; rewrite Hsame3; by apply Hout).
  rewrite (interpret_spec m3 hi cur n av v); [..|lia].
  2: { eapply literals_keep; [exact Hlit|exact Hout3|lia|unfold hi; lia]. }
  2: { by eapply same_bytes_cstring. }
  2: { done. }
  cbn [obind]. do 2 eexists. split; [done|]. split; [done|].
  assert (represents m3 v0 lo hi o v) as Hrep3
    by (eapply represents_keep; [exact Hrep|exact Hout3|unfold hi; lia]).
  case_bool_decide; [|case_bool_decide; [|done]].
  - split; [|apply Hrep3]. cbn [fst kernel_name]. destruct val as [w|]; [|done].
    destruct Hval as (-> & Hw & Hlt). split_and!; [unfold p; lia|done|by eapply same_bytes_cstring].
  - split; [apply Hrep3|done].
Qed.

Lemma tokens_split cur l :
  ∃ t rest, l = t ++ rest ∧ Forall (λ c, is_sep c = false) t ∧
    tokens cur l = (cur ++ t) :: match rest with [] => [] | _ :: l' => tokens [] l' end ∧
    match rest with [] => True | c :: _ => is_sep c = true end.
Proof.
  revert cur. induction l as [|c l IH]; intros cur; cbn [tokens].
  - exists [], []. rewrite ?app_nil_r. split_and!; [done|by apply Forall_nil|done|done].
  - destruct (is_sep c) eqn:E.
    + exists [], (c :: l). rewrite ?app_nil_r. split_and!; [done|by apply Forall_nil|done|done].
    + destruct (IH (cur ++ [c])) as (t & rest & -> & Ht & Hk & Hr). exists (c :: t), rest.
      rewrite Hk, <- app_assoc. split_and!; [done|by constructor|done|done].
Qed.

Lemma cmd_loop_spec loops l m s i o v :
  (length l < loops)%nat → cstring m (s + i) l → 0 <= lo <= s + i →
  literals m (s + i + Z.of_nat (length l) + 1) → (6 < fuel)%nat → (length l < fuel)%nat →
  represents m v0 lo (s + i) o v →
  ∃ m' v', cmd_loop lit_kernel lit_debug loops fuel m s i v = Done (m', v') ∧
    same_outside (s + i) (Z.of_nat (length l)) m m' ∧
    represents m' v0 lo (s + i + Z.of_nat (length l) + 1) (foldl apply_arg o (tokens [] l)) v'.
Proof.
  revert l m i o v. induction loops as [|loops IH]; intros l m i o v Hloops Hs Hlo Hlit Hf6 Hf Hrep; [lia|].
  cbn [cmd_loop]. destruct (tokens_split [] l) as (t & rest & -> & Ht & Htok & Hsep).
  rewrite Htok. cbn [app foldl]. rewrite length_app in *.
  pose proof (cstring_chars _ _ _ Hs) as Hch. apply Forall_app in Hch as [Hct Hcr].
  rewrite (scan_spec [0; 44; 32] t rest); [|done| | |lia].
  2: { rewrite Forall_forall in *. intros c Hc. specialize (Ht c Hc). specialize (Hct c Hc). cbn.
       unfold is_sep in Ht. apply orb_false_iff in Ht as [-> ->]. destruct (Z.eqb_spec c 0); [lia|done]. }
  2: { destruct rest as [|c rest]; [done|]. cbn. unfold is_sep in Hsep.
       rewrite orb_false_r, Hsep. apply orb_true_r. }
  cbn [obind]. set (cur := s + i) in *. set (p := cur + Z.of_nat (length t)).
  pose proof Hs as Hs'. apply cstring_app in Hs' as [Hs1 Hs2]. fold p in Hs2.
  assert (rd8 m p = default 0 (head rest)) as Ep by (destruct rest; [done|by destruct Hs2]).
  rewrite Ep. fold (is_sep (default 0 (head rest))).
  assert (Forall (λ c, c ≠ 32) t) as Hn.
  { rewrite Forall_forall in *. intros c Hc ->. by specialize (Ht 32 Hc). }
  destruct rest as [|c rest]; cbn [head default length] in *.
  - change (is_sep 0) with false. cbv iota. rewrite app_nil_r in Hs. cbn [Z.eqb].
    destruct (parse_cmd_arg_spec t m cur o v) as (m' & v' & -> & Ho & Hr);
      [done|done|done|by rewrite Nat.add_0_r in Hlit|done|lia|done|].
    cbn [obind]. exists m', v'. rewrite Nat.add_0_r. done.
  - change (id c) with c. rewrite Hsep. destruct Hs2 as (_ & Hc & Hs2).
    set (m1 := wr8 m p 0).
    assert (same_outside p 1 m m1) as H1
      by (intros k Hk; unfold m1; rewrite rd8_wr8, decide_False by lia; done).
    assert (cstring m1 cur t) as Hs3.
    { rewrite <- (app_nil_r t). apply cstring_app. split.
      - intros j d Hj. apply lookup_lt_Some in Hj as Hlj. rewrite H1 by (unfold p; lia). by apply Hs1.
      - cbn [cstring]. fold p. unfold m1. by rewrite rd8_wr8, decide_True by done. }
    destruct (parse_cmd_arg_spec t m1 cur o v)
      as (m2 & v2 & -> & Ho & Hr); [done|done|done| |done|lia| |].
    { destruct Hlit as (L1 & L2 & L3 & L4).
      assert (literals m1 (cur + Z.of_nat (length t + S (length rest)) + 1)) as (L1' & L2' & _)
        by (eapply (literals_keep m m1 p 1); [by split_and!|exact H1|unfold p; lia|unfold p; lia]).
      split_and!; [done|done|lia|lia]. }
    { eapply (represents_keep m m1 cur (Z.of_nat (length t) + 1)); [done| |lia].
      intros k Hk. apply H1. unfold p. lia. }
    cbn [obind fst snd]. destruct (Z.eqb_spec c 0); [lia|].
    replace (cur + Z.of_nat (length t)) with p in Hr by done.
    assert (s + (p - s + 1) = p + 1) as Enext by lia.
    assert (same_outside cur (Z.of_nat (length t) + 1) m m2) as Hm2.
    { intros k Hk. rewrite Ho by lia. apply H1. unfold p. lia. }
    destruct (IH rest m2 (p - s + 1) (apply_arg o t) v2) as (m3 & v3 & -> & Ho3 & Hr3);
      rewrite ?Enext; try lia.
    { eapply cstring_agree; [|exact Hs2]. intros k Hk. symmetry. apply Hm2. unfold p in Hk. lia. }
    { replace (p + 1 + Z.of_nat (length rest) + 1)
        with (cur + Z.of_nat (length t + S (length rest)) + 1) by (unfold p; lia).
      eapply literals_keep; [exact Hlit|exact Hm2|lia|lia]. }
    { done. }
    rewrite Enext in Ho3, Hr3. exists m3, v3. split; [done|]. split.
    + intros k Hk. rewrite Ho3 by (unfold p; lia). apply Hm2. lia.
    + replace (cur + Z.of_nat (length t + S (length rest)) + 1)
        with (p + 1 + Z.of_nat (length rest) + 1) by (unfold p; lia). done.
Qed.
End parsing.

(** ** The whole line *)
Lemma length_trim l : (length (trim l) <= length l)%nat.
Proof. induction l as [|c l IH]; simpl; [lia|]. destruct (c =? 32); simpl; lia. Qed.

(** A kernel name is no longer than the line. *)
Lemma value_length t w : (split_eq t).2 = Some w → (length w <= length t)%nat.
Proof.
  intros E. pose proof (proj1 (split_eq_spec t)) as H. rewrite E in H. apply (f_equal length) in H.
  rewrite length_app in H. cbn [length] in H. lia.
Qed.

Lemma tokens_length cur l : Forall (λ t, (length t <= length cur + length l)%nat) (tokens cur l).
Proof.
  revert cur. induction l as [|c l IH]; intros cur; cbn [tokens length]; [repeat constructor; lia|].
  destruct (is_sep c).
  - constructor; [lia|]. eapply Forall_impl; [apply IH|]. cbn. intros; lia.
  - eapply Forall_impl; [apply IH|]. cbn. intros t Ht. rewrite length_app in Ht. cbn in Ht. lia.
Qed.

Lemma options_length l ts o n :
  Forall (λ t, (length t <= n)%nat) ts → (∀ w, o.1 = Some (Some w) → (length w <= n)%nat) →
  (foldl apply_arg o ts).1 = Some (Some l) → (length l <= n)%nat.
Proof.
  intros Ht. revert o. induction Ht as [|t ts Ht _ IH]; intros o Ho; cbn [foldl]; [apply Ho|].
  apply IH. intros w. unfold apply_arg. destruct (split_eq t) as [nm v] eqn:E. cbn [fst snd].
  case_bool_decide; [|case_bool_decide; apply Ho]. intros [= ->].
  etransitivity; [apply (value_length t); by rewrite E|done].
Qed.

Lemma meaning_length l n : (meaning l).1 = Some (Some n) → (length n <= length l)%nat.
Proof.
  unfold meaning. pose proof (length_trim l) as Ht. destruct (trim l) as [|c t]; [done|]. intros E.
  etransitivity; [|exact Ht]. eapply options_length; [exact (tokens_length [] (c :: t))| |exact E]. done.
Qed.

(** The copy the parser works on. *)
Lemma copied_line m s p l :
  cstring m s l → (s + Z.of_nat (length l) + 1 <= p ∨ p + Z.of_nat (length l) + 1 <= s) →
  let m' := wr8 (strncpy m p s (Z.of_nat (length l))).2 (p + Z.of_nat (length l)) 0 in
  cstring m' p l ∧ same_outside p (Z.of_nat (length l) + 1) m m'.
Proof.
  intros Hs Hd m'.
  assert (∀ k, rd8 m' k = if decide (k = p + Z.of_nat (length l)) then 0
    else if decide (p <= k < p + Z.of_nat (length l)) then rd8 m (s + (k - p)) else rd8 m k) as Hm.
  { intros k. unfold m', strncpy. cbn [snd]. rewrite rd8_wr8, strncpy_loop_spec, Nat2Z.id by lia.
    repeat case_decide; try lia; done. }
  split.
  - rewrite <- (app_nil_r l) in Hs |- *. apply cstring_app in Hs as [H1 H2]. apply cstring_app. split.
    + intros i c Hi. apply lookup_lt_Some in Hi as Hl. rewrite Hm, decide_False, decide_True by lia.
      replace (s + (p + Z.of_nat i - p)) with (s + Z.of_nat i) by lia. by apply H1.
    + cbn [cstring]. by rewrite Hm, decide_True by done.
  - intros k Hk. rewrite Hm, !decide_False by lia. done.
Qed.

Section line.
Context {St : Type} {HO : HeapOps St} {HP : Heap St}.
Context (lit_kernel lit_debug : Z).

(** What the allocation of the copy establishes, whatever the memory, is
    still true afterwards. *)
Lemma parse_cmd_line_keeps l loops fuel s v st (R : St → Prop) :
  let top := hp_top st in
  let n := Z.of_nat (length l) + 1 in
  hp_ok st → cstring (hp_mem st) s l → n < 2 ^ 32 → top + n <= hp_limit st →
  (s + n <= top ∨ top + n <= s) → literals lit_kernel lit_debug top (hp_mem st) (top + n) →
  (length l < loops)%nat → (length l < fuel)%nat → (6 < fuel)%nat →
  wp (hp_malloc n) (λ _ st', ∀ m, R (hp_set_mem m st')) st →
  wp (parse_cmd_line lit_kernel lit_debug loops fuel s v) (λ v' st',
    represents (hp_mem st') v top (top + n) (meaning l) v' ∧
    same_outside top n (hp_mem st) (hp_mem st') ∧ R st') st.
Proof.
  intros top n Hok Hs Hn Hroom Hdis Hlit Hloops Hf Hf6 HR. destruct (hp_positive st Hok) as [Hpos _].
  unfold parse_cmd_line. wp_steps. unfold strlen.
  eapply wp_lift; [apply (tstrlen_loop_spec l); [done|done|lia|lia]|].
  rewrite Z.add_0_l, u32_small by lia. wp_step.
  pose proof (hp_malloc_spec n st Hok ltac:(lia) Hroom) as Hm. fold n. unfold wp in Hm, HR |- * at 1.
  destruct (hp_malloc n st) as [[p st1]| |]; [|done..]. destruct Hm as (_ & -> & _ & _ & Em).
  fold top. wp_steps. rewrite !hp_mem_set, Em.
  destruct (copied_line (hp_mem st) s top l Hs ltac:(lia)) as [Hc Hout].
  set (m' := wr8 _ _ 0) in *.
  destruct (skip_spaces_spec l fuel m' top Hc Hf) as [Hsk Ht]. pose proof (length_trim l) as Hlt.
  eapply wp_lift; [exact Hsk|]. set (s' := top + Z.of_nat (length l - length (trim l))) in *. unfold meaning.
  assert (represents m' v top s' (None, false) v) as Hrep by (split; done).
  assert (s' + Z.of_nat (length (trim l)) + 1 = top + n) as Hs' by (unfold s', n; lia).
  clearbody s'. destruct (trim l) as [|c t] eqn:Etrim.
  - cbn [cstring] in Ht. rewrite Ht. cbn [Z.eqb]. wp_steps. rewrite !hp_mem_set, hp_set_set. by split_and!.
  - pose proof Ht as Ht'. destruct Ht as (Ec & Hc0 & _). rewrite Ec.
    destruct (Z.eqb_spec c 0); [lia|]. wp_step.
    assert (s' + 0 + Z.of_nat (length (c :: t)) + 1 = top + n) as Eend by lia.
    destruct (cmd_loop_spec lit_kernel lit_debug v top fuel loops (c :: t) m' s' 0 (None, false) v)
      as (m2 & v2 & E2 & Ho2 & Hr2); rewrite ?Z.add_0_r; try done; try lia.
    { rewrite Z.add_0_r in Eend. rewrite Eend. eapply literals_keep; [exact Hlit|exact Hout|lia|unfold n; lia]. }
    eapply wp_lift; [exact E2|]. wp_steps. cbn [fst snd]. rewrite hp_mem_set, !hp_set_set.
    split_and!; [by rewrite Eend in Hr2| |apply HR]. intros k Hk. rewrite Ho2 by (cbn [length] in *; lia).
    by apply Hout.
Qed.
Lemma parse_cmd_line_spec l loops fuel s v st :
  let top := hp_top st in
  let n := Z.of_nat (length l) + 1 in
  hp_ok st → cstring (hp_mem st) s l → n < 2 ^ 32 → top + n <= hp_limit st →
  (s + n <= top ∨ top + n <= s) → literals lit_kernel lit_debug top (hp_mem st) (top + n) →
  (length l < loops)%nat → (length l < fuel)%nat → (6 < fuel)%nat →
  wp (parse_cmd_line lit_kernel lit_debug loops fuel s v) (λ v' st',
    represents (hp_mem st') v top (top + n) (meaning l) v' ∧
    same_outside top n (hp_mem st) (hp_mem st')) st.
Proof.
  intros top n H1 H2 H3 H4 H5 H6 H7 H8 H9.
  eapply wp_mono; [apply (parse_cmd_line_keeps l loops fuel s v st (λ _, True)); try done|].
  - eapply wp_mono; [apply hp_malloc_spec; [done|unfold n; lia|done]|]. done.
  - cbv beta. intros v' st' (R1 & R2 & _). done.
Qed.
End line.

(** Text without commas, blanks and equals signs. *)
Definition blank_free (x : list Z) : Prop := Forall (λ c, is_sep c = false ∧ c ≠ 61) x.

Lemma meaning_spaces x :
  blank_free x → x ≠ cstr "kernel" →
  (meaning (cstr "kernel = " ++ x)).1 = Some None.
Proof.
  intros Hx Hk.
  assert (∀ cur, tokens cur x = [cur ++ x]) as Ht.
  { clear Hk. induction Hx as [|c x [Hc _] Hx IH]; intros cur; cbn [tokens]; [by rewrite app_nil_r|].
    rewrite Hc, IH. by rewrite <- app_assoc. }
  assert (split_eq x = (x, None)) as Hs.
  { clear Hk Ht. induction Hx as [|c x [_ Hc] Hx IH]; cbn [split_eq]; [done|].
    destruct (Z.eqb_spec c 61); [done|]. by rewrite IH. }
  assert (∀ o, (apply_arg o x).1 = o.1) as Ha.
  { intros o. unfold apply_arg. rewrite Hs. cbn [fst snd]. rewrite bool_decide_false by done.
    by case_bool_decide. }
  change (meaning (cstr "kernel = " ++ x)) with
    (foldl apply_arg (None, false) (tokens [] (cstr "kernel = " ++ x))).
  change (tokens [] (cstr "kernel = " ++ x)) with (cstr "kernel" :: cstr "=" :: tokens [] x).
  rewrite Ht. cbn [foldl app]. by rewrite Ha.
Qed.

(** ** Claims *)

(** C22. The command line.  On a terminated line of any content, with room on
    the heap, [parse_cmd_line] terminates without undefined behaviour; it
    writes only to the copy it allocates, and afterwards the globals represent
    the meaning of the line: the text is cut at commas and spaces, each piece
    at its first equals sign; the last piece named [kernel] sets
    [kernel_name] to its value (null without one), a piece named [debug] sets
    [tysos_debug], all others are ignored.  The comment at the top of cmdline.c
    also allows blanks around the equals sign; the code does not do so: as the
    line is cut at blanks first, "kernel = x" is a piece named [kernel] without a
    value, a nameless one and one named [x], and
    [kernel_name] is null after any line "kernel = x" (the last conjunct). *)
Theorem parse_cmd_line_meaning {St} {HO : HeapOps St} {HP : Heap St} lit_kernel lit_debug
    l loops fuel s v (st : St) :
  let top := hp_top st in
  let n := Z.of_nat (length l) + 1 in
  hp_ok st → cstring (hp_mem st) s l → n < 2 ^ 32 → top + n <= hp_limit st →
  (s + n <= top ∨ top + n <= s) → literals lit_kernel lit_debug top (hp_mem st) (top + n) →
  (length l < loops)%nat → (length l < fuel)%nat → (6 < fuel)%nat →
  wp (parse_cmd_line lit_kernel lit_debug loops fuel s v) (λ v' st',
    represents (hp_mem st') v top (top + n) (meaning l) v' ∧
    same_outside top n (hp_mem st) (hp_mem st') ∧
    (∀ x, blank_free x → x ≠ cstr "kernel" → l = cstr "kernel = " ++ x → kernel_name v' = 0)) st.
Proof.
  intros top n H1 H2 H3 H4 H5 H6 H7 H8 H9.
  eapply wp_mono; [by apply (parse_cmd_line_spec lit_kernel lit_debug l)|]. cbv beta.
  intros v' st' [Hr Hs]. split_and!; [exact Hr|exact Hs|].
  intros x Hx Hk ->. destruct Hr as [Hr _]. by rewrite (meaning_spaces x Hx Hk) in Hr.
Qed.

(** The line and the literals in low memory. *)
Definition demo_line : list Z := cstr " debug,kernel=tysos.bin".
Definition demo_tload : tload :=
  hp_set_mem (put_bytes (put_bytes (put_bytes ∅ 0x9000 (demo_line ++ [0])) 0x9100 (cstr "kernel" ++ [0]))
    0x9200 (cstr "debug" ++ [0])) heap1.

(** The same literals and a line with blanks around the equals sign. *)
Definition spaced_tload : tload :=
  hp_set_mem (put_bytes (put_bytes (put_bytes ∅ 0x9000 (cstr "kernel = a.bin" ++ [0]))
    0x9100 (cstr "kernel" ++ [0])) 0x9200 (cstr "debug" ++ [0])) heap1.

Lemma parse_cmd_line_meaning_witness :
  meaning demo_line = (Some (Some (cstr "tysos.bin")), true) ∧
  wp (parse_cmd_line 0x9100 0x9200 100 100 0x9000 (CmdVars 0 0)) (λ v' st',
    represents (hp_mem st') (CmdVars 0 0) (hp_top demo_tload)
      (hp_top demo_tload + (Z.of_nat (length demo_line) + 1)) (meaning demo_line) v' ∧
    same_outside (hp_top demo_tload) (Z.of_nat (length demo_line) + 1) (hp_mem demo_tload) (hp_mem st') ∧
    (∀ x, blank_free x → x ≠ cstr "kernel" → demo_line = cstr "kernel = " ++ x → kernel_name v' = 0))
    demo_tload ∧
  wp (parse_cmd_line 0x9100 0x9200 100 100 0x9000 (CmdVars 7 0)) (λ v' _, kernel_name v' = 0) spaced_tload.
Proof.
  split; [by vm_compute|]. split; [|eapply wp_mono].
  1: apply (parse_cmd_line_meaning (St := tload) 0x9100 0x9200 demo_line 100 100 0x9000 (CmdVars 0 0) demo_tload).
  10: apply (parse_cmd_line_meaning (St := tload) 0x9100 0x9200 (cstr "kernel = a.bin") 100 100 0x9000
    (CmdVars 7 0) spaced_tload).
  19: intros v' st' (_ & _ & H); apply (H (cstr "a.bin")); [repeat constructor|by vm_compute|done].
  all: try (by apply Nat.ltb_lt); try (repeat constructor; by vm_compute).
  all: try (left; by vm_compute); try by vm_compute.
  all: split_and!; [repeat constructor; by vm_compute..|left; by vm_compute|left; by vm_compute].
Defined.
