(* ===== verification/TloadSegs.v ===== *)
(** * Segments of the kernel under BIOS

    The headers of src/tload/elf.h and the part of [load_elf64_kernel] in
    src/tload/elf.c that reads the program headers of the kernel image lying
    in memory at [kernel] and maps its segments into the page tables at
    [pml4t] (32-bit code: pointers are 32 bits, the fields of the file 64).
    Header fields are read from memory at every use, as the code does.  A
    16-bit index times a 16-bit size that does not fit an [int] is undefined;
    signed 64-bit sums wrap.  The page loop takes [fuel]. *)

From stdpp Require Import base numbers list gmap strings.
From Stdlib Require Import Lia.
From S2P Require Import Prelude Mem Console MemMgr PageTable VMem.
Open Scope Z_scope.

Definition DEFAULT_PIE_ALIGN : Z := 0x100000.
Definition ELFCLASS64 : Z := 2.
Definition ELFDATA2LSB : Z := 1.
Definition ET_EXEC : Z := 2.
Definition ET_DYN : Z := 3.
Definition EM_X86_64 : Z := 62.
Definition PT_LOAD : Z := 1.
Definition PT_DYNAMIC : Z := 2.
Definition SHT_SYMTAB : Z := 2.
Definition SHT_RELA : Z := 4.
Definition DT_NULL : Z := 0.
Definition DT_STRTAB : Z := 5.
Definition DT_SYMTAB : Z := 6.
Definition R_X86_64_64 : Z := 1.
Definition R_X86_64_RELATIVE : Z := 8.
Definition SHN_UNDEF : Z := 0.
Definition ELF64_R_SYM (i : Z) : Z := Z.shiftr i 32.
Definition ELF64_R_TYPE (i : Z) : Z := Z.land i 0xffffffff.

(** ** The structures of elf.h, by their field offsets *)
Definition e_ident (i eh : Z) (m : mem) : Z := rd8 m (eh + i).
Definition e_type (eh : Z) (m : mem) : Z := rd16 m (eh + 16).
Definition e_machine (eh : Z) (m : mem) : Z := rd16 m (eh + 18).
Definition e_entry (eh : Z) (m : mem) : Z := rd64 m (eh + 24).
Definition e_phoff (eh : Z) (m : mem) : Z := rd64 m (eh + 32).
Definition e_shoff (eh : Z) (m : mem) : Z := rd64 m (eh + 40).
Definition e_phentsize (eh : Z) (m : mem) : Z := rd16 m (eh + 54).
Definition e_phnum (eh : Z) (m : mem) : Z := rd16 m (eh + 56).
Definition e_shentsize (eh : Z) (m : mem) : Z := rd16 m (eh + 58).
Definition e_shnum (eh : Z) (m : mem) : Z := rd16 m (eh + 60).
Definition e_shstrndx (eh : Z) (m : mem) : Z := rd16 m (eh + 62).

Definition p_type (ph : Z) (m : mem) : Z := rd32 m ph.
Definition p_flags (ph : Z) (m : mem) : Z := rd32 m (ph + 4).
Definition p_offset (ph : Z) (m : mem) : Z := rd64 m (ph + 8).
Definition p_vaddr (ph : Z) (m : mem) : Z := rd64 m (ph + 16).
Definition p_filesz (ph : Z) (m : mem) : Z := rd64 m (ph + 32).
Definition p_memsz (ph : Z) (m : mem) : Z := rd64 m (ph + 40).

Definition sh_name (sh : Z) (m : mem) : Z := rd32 m sh.
Definition sh_type (sh : Z) (m : mem) : Z := rd32 m (sh + 4).
Definition sh_offset (sh : Z) (m : mem) : Z := rd64 m (sh + 24).
Definition sh_size (sh : Z) (m : mem) : Z := rd64 m (sh + 32).
Definition sh_entsize (sh : Z) (m : mem) : Z := rd64 m (sh + 56).

Definition st_name (sy : Z) (m : mem) : Z := rd32 m sy.
Definition st_shndx (sy : Z) (m : mem) : Z := rd16 m (sy + 6).
Definition st_value (sy : Z) (m : mem) : Z := rd64 m (sy + 8).
Definition sizeof_Sym : Z := 24.

Definition r_offset (ra : Z) (m : mem) : Z := rd64 m ra.
Definition r_info (ra : Z) (m : mem) : Z := rd64 m (ra + 8).
Definition r_addend (ra : Z) (m : mem) : Z := s64 (rd64 m (ra + 16)).

Definition d_tag (dt : Z) (m : mem) : Z := s64 (rd64 m dt).
Definition d_ptr (dt : Z) (m : mem) : Z := rd64 m (dt + 8).
Definition sizeof_Dyn : Z := 16.

(** A 16-bit counter visits at most this many headers. *)
Definition max_hdrs : nat := Z.to_nat 65536.

(** ** Segments: over any memory manager the mapping code runs on *)
Section segments.
Context {P : Type} `{PagerOps P}.

Definition peek {A} (f : mem → A) : M P A := s ← get; mret (f (pg_ram s)).
Definition poke (f : mem → mem) : M P unit := modify (λ s, pg_set_ram (f (pg_ram s)) s).

(** [idx * entsize + (unsigned long)off + (unsigned long)kernel]. *)
Definition hdr_at (idx kernel : Z) (entsize off : mem → Z) : M P Z :=
  m ← peek id;
  if idx * entsize m <? 2 ^ 31 then mret (u32 (idx * entsize m + u32 (off m) + kernel)) else undef.

(** The lowest address and the end of the loadable segments. *)
Definition image_bounds (eh kernel : Z) : M P (Z * Z) :=
  r ← while max_hdrs
    (λ a : Z * Z * Z, n ← peek (e_phnum eh); mret (a.1.1 <? n))
    (λ a, let '(idx, image_start, image_end) := a in
      ph ← hdr_at idx kernel (e_phentsize eh) (e_phoff eh);
      m ← peek id;
      mret (if p_type ph m =? PT_LOAD then
              (u16 (idx + 1),
               if p_vaddr ph m <? image_start then p_vaddr ph m else image_start,
               if image_end <? u64 (p_vaddr ph m + p_memsz ph m)
               then u64 (p_vaddr ph m + p_memsz ph m) else image_end)
            else (u16 (idx + 1), image_start, image_end)))
    (0, 0xffffffff, 0);
  mret (r.1.2, r.2).

(** One byte of a page that is not mapped directly. *)
Definition copy_byte (ph new_page old_page page_index seg_addr : Z) : M P unit :=
  if seg_addr <? 0 then mret tt
  else
    fs ← peek (p_filesz ph);
    if seg_addr <? s64 fs then
      poke (λ m, wr8 m (u32 (new_page + page_index)) (rd8 m (u32 (old_page + page_index))))
    else
      ms ← peek (p_memsz ph);
      if seg_addr <? s64 ms then poke (λ m, wr8 m (u32 (new_page + page_index)) 0)
      else mret tt.

(** [n] bytes of the page are left; the result is the new [seg_addr]. *)
Fixpoint copy_bytes (n : nat) (ph new_page old_page page_index seg_addr : Z) : M P Z :=
  match n with
  | O => mret seg_addr
  | S n =>
      copy_byte ph new_page old_page page_index seg_addr ;;
      copy_bytes n ph new_page old_page (page_index + 1) (s64 (seg_addr + 1))
  end.

(** One page of a segment; the result is the new [seg_addr]. *)
Definition load_page (ph pml4t seg_v_start seg_p_start seg_addr : Z) : M P Z :=
  let v_page_start := u64 (seg_v_start + seg_addr) in
  let p_page_start := u64 (seg_p_start + seg_addr) in
  m ← peek id;
  if (0 <=? seg_addr) && (s64 (seg_addr + PAGESIZE) <? s64 (p_filesz ph m)) &&
     (Z.land p_page_start (PAGESIZE - 1) =? 0)
  then
    create_virtual_mapping_from_page v_page_start pml4t (p_flags ph m) 1 (u32 p_page_start) Tysos ;;
    mret (s64 (seg_addr + PAGESIZE))
  else
    new_page ← create_virtual_mapping v_page_start pml4t (p_flags ph m) Tysos;
    copy_bytes (Z.to_nat PAGESIZE) ph new_page (u32 p_page_start) 0 seg_addr.

Definition load_segment (fuel : nat) (ph kernel pml4t : Z) : M P unit :=
  m ← peek id;
  if (p_type ph m =? PT_LOAD) && (0 <? p_memsz ph m) then
    let seg_p_start := u64 (kernel + p_offset ph m) in
    let seg_v_start := p_vaddr ph m in
    let seg_v_start_align := Z.land seg_v_start (u64 (Z.lnot (PAGESIZE - 1))) in
    let seg_addr := s64 (- (seg_v_start - seg_v_start_align)) in
    while fuel
      (λ seg_addr, ms ← peek (p_memsz ph); mret (seg_addr <? s64 ms))
      (λ seg_addr, load_page ph pml4t seg_v_start seg_p_start seg_addr)
      seg_addr ;;
    mret tt
  else mret tt.

Definition load_segments (fuel : nat) (eh kernel pml4t : Z) : M P unit :=
  while max_hdrs
    (λ idx, n ← peek (e_phnum eh); mret (idx <? n))
    (λ idx,
      ph ← hdr_at idx kernel (e_phentsize eh) (e_phoff eh);
      load_segment fuel ph kernel pml4t ;;
      mret (u16 (idx + 1)))
    0 ;;
  mret tt.
End segments.

(** ** Bytes of a segment *)
Section proofs.
Context {P : Type} `{Pager P}.
Implicit Types (s : P).

Lemma wp_peek {A} (f : mem → A) (Q : A → P → Prop) s : Q (f (pg_ram s)) s → wp (peek f) Q s.
Proof. intros HQ. unfold peek. by wp_steps. Qed.

(** Only memory changes. *)
Definition mem_step (s s' : P) : Prop := (∀ n, pg_inv n s → pg_inv n s') ∧ keeps 0 s s'.

Lemma mem_step_refl s : mem_step s s.
Proof. split; [done|apply keeps_refl]. Qed.
Lemma mem_step_trans s s1 s2 : mem_step s s1 → mem_step s1 s2 → mem_step s s2.
Proof. intros [I1 K1] [I2 K2]. split; [auto|by eapply (keeps_trans 0 0)]. Qed.
Lemma mem_step_set m s : mem_step s (pg_set_ram m s).
Proof. split; [intros n; apply pg_inv_set|apply keeps_set]. Qed.

(** The image: [len] bytes at [K]; it is part of what must stay as it is in
    [m0] ([Keep]: the image, and what else the caller needs afterwards). *)
Context (K len : Z) (m0 : mem) (Keep : Z → Prop).
Definition in_image (a : Z) : Prop := K <= a < K + len.
Definition kept (m : mem) : Prop := ∀ a, Keep a → rd8 m a = rd8 m0 a.
Hypothesis keep_image : ∀ a, in_image a → Keep a.

Lemma rd_kept n m a :
  kept m → K <= a → a + Z.of_nat n <= K + len → rd n m a = rd n m0 a.
Proof. intros Hm Ha He. apply rd_ext. intros j Hj. apply Hm, keep_image. unfold in_image. lia. Qed.

Definition hdr_in (ph : Z) : Prop := K <= ph ∧ ph + 56 <= K + len.

(** Byte [k] of the segment of [ph]. *)
Definition seg_byte (ph k : Z) : Z :=
  if k <? p_filesz ph m0 then rd8 m0 (K + p_offset ph m0 + k) else 0.

(** The header of a segment with bytes to load: inside the image, and below
    the recursive slot of the page tables. *)
Definition loads (ph : Z) : bool := (p_type ph m0 =? PT_LOAD) && (0 <? p_memsz ph m0).
Definition seg_ok (ph : Z) : Prop :=
  hdr_in ph ∧ p_filesz ph m0 <= p_memsz ph m0 ∧ p_offset ph m0 + p_filesz ph m0 <= len ∧
  p_vaddr ph m0 + p_memsz ph m0 <= 511 * 2 ^ 39.

Lemma seg_nonneg ph : 0 <= p_filesz ph m0 ∧ 0 <= p_offset ph m0 ∧ 0 <= p_vaddr ph m0.
Proof.
  unfold p_filesz, p_offset, p_vaddr.
  pose proof (rd64_range m0 (ph + 32)). pose proof (rd64_range m0 (ph + 8)).
  pose proof (rd64_range m0 (ph + 16)). lia.
Qed.

Hypothesis image_low : 0 < K ∧ 0 < len < 2 ^ 31 ∧ K + len <= 2 ^ 32.

Section copy.
Context (ph f sa : Z).
Hypothesis Hseg : seg_ok ph.
Hypothesis Hpage : 0 <= f ∧ f + 4096 <= 2 ^ 32.
Hypothesis Hapart : ∀ a, Keep a → a < f ∨ f + 4096 <= a.
Hypothesis Hsa : -4096 < sa < p_memsz ph m0.
Let old := u32 (u64 (u64 (K + p_offset ph m0) + sa)).

Lemma old_byte j : 0 <= sa + j < p_filesz ph m0 → u32 (old + j) = K + p_offset ph m0 + (sa + j).
Proof.
  intros Hj. destruct Hseg as (_ & H1 & H2 & _). pose proof (seg_nonneg ph). unfold old.
  unfold u32, u64. Z.div_mod_to_equations. lia.
Qed.

Lemma copy_byte_spec j s :
  kept (pg_ram s) → 0 <= j < 4096 →
  wp (copy_byte ph f old j (sa + j)) (λ _ s', mem_step s s' ∧
    same_outside (f + j) 1 (pg_ram s) (pg_ram s') ∧
    rd8 (pg_ram s') (f + j) =
      if decide (0 <= sa + j < p_memsz ph m0) then seg_byte ph (sa + j) else rd8 (pg_ram s) (f + j)) s.
Proof.
  intros Hk Hj. pose proof (seg_nonneg ph) as (F0 & O0 & V0). destruct Hseg as (Hh & S1 & S2 & S3).
  unfold hdr_in in Hh. unfold copy_byte.
  assert (p_filesz ph (pg_ram s) = p_filesz ph m0) as Ef by (apply (rd_kept 8); [done|lia|lia]).
  assert (p_memsz ph (pg_ram s) = p_memsz ph m0) as Em by (apply (rd_kept 8); [done|lia|lia]).
  destruct (Z.ltb_spec (sa + j) 0).
  { wp_steps. rewrite decide_False by lia. split_and!; [apply mem_step_refl|done|done]. }
  wp_step. apply wp_peek. rewrite Ef, s64_small by lia. unfold seg_byte.
  destruct (Z.ltb_spec (sa + j) (p_filesz ph m0)) as [Hin|Hin].
  - apply wp_modify. rewrite pg_ram_set, decide_True, (u32_small (f + j)) by lia.
    rewrite old_byte by lia. split_and!; [apply mem_step_set|apply (wr_same_outside 1)|].
    rewrite rd8_wr8, decide_True, u8_small by (done || apply rd8_range).
    apply Hk, keep_image. unfold in_image. lia.
  - wp_step. apply wp_peek. rewrite Em, s64_small by lia.
    destruct (Z.ltb_spec (sa + j) (p_memsz ph m0)).
    + apply wp_modify. rewrite pg_ram_set, decide_True, (u32_small (f + j)) by lia.
      split_and!; [apply mem_step_set|apply (wr_same_outside 1)|].
      by rewrite rd8_wr8, decide_True.
    + wp_steps. rewrite decide_False by lia. split_and!; [apply mem_step_refl|done|done].
Qed.

Lemma kept_step m m' a n :
  kept m → same_outside a n m m' → f <= a → a + n <= f + 4096 → kept m'.
Proof. intros Hk Hs Ha Hn b Hb. destruct (Hapart b Hb); rewrite Hs by lia; by apply Hk. Qed.

Lemma copy_bytes_spec n j s :
  kept (pg_ram s) → 0 <= j → j + Z.of_nat n <= 4096 →
  wp (copy_bytes n ph f old j (sa + j)) (λ r s', r = sa + j + Z.of_nat n ∧ mem_step s s' ∧
    same_outside (f + j) (Z.of_nat n) (pg_ram s) (pg_ram s') ∧
    ∀ i, j <= i < j + Z.of_nat n → rd8 (pg_ram s') (f + i) =
      if decide (0 <= sa + i < p_memsz ph m0) then seg_byte ph (sa + i) else rd8 (pg_ram s) (f + i)) s.
Proof.
  revert j s. induction n as [|n IH]; intros j s Hk Hj Hn; cbn [copy_bytes].
  - wp_steps. split_and!; [lia|apply mem_step_refl|done|]. intros; lia.
  - wp_step. eapply wp_mono; [apply copy_byte_spec; [done|lia]|]. cbv beta.
    intros [] s1 (M1 & O1 & B1). pose proof (seg_nonneg ph). destruct Hseg as (_ & _ & _ & S3).
    rewrite s64_small by lia. replace (sa + j + 1) with (sa + (j + 1)) by lia.
    eapply wp_mono; [apply IH; [eapply kept_step; [done|done|lia|lia]|lia|lia]|]. cbv beta.
    intros r s2 (-> & M2 & O2 & B2). split_and!; [lia|by eapply mem_step_trans| |].
    + intros k Hk'. rewrite O2, O1 by lia. done.
    + intros i Hi. destruct (decide (i = j)) as [->|Hne].
      * rewrite O2 by lia. done.
      * rewrite B2 by lia. destruct (decide (0 <= sa + i < p_memsz ph m0)); [done|]. apply O1. lia.
Qed.
End copy.

(** ** The pages loaded so far

    [G] gives the frame of every page mapped so far, [L v c] says that the
    byte at [v] was loaded and is [c]. *)
Context (root : Z) (s0 : P).

Definition page_frame (f : Z) : Prop := 0 <= f ∧ f + 4096 <= 2 ^ 32 ∧ f mod 4096 = 0.
Definition image_page (f : Z) : Prop := K <= f ∧ f + 4096 <= K + len.

Record pages_inv (n : nat) (s : P) (G : gmap Z Z) (L : Z → Z → Prop) : Prop := PagesInv {
  pi_inv : pg_inv (4 * n) s;
  pi_free : pg_free (4 * n) s;
  pi_used a : pg_used s0 a → pg_used s a;
  pi_tree : ∃ T, tree (pg_ram s) root T ∧ tables_used s T ∧
    (∀ a, Keep a → data s T a) ∧ (∀ vp f, G !! vp = Some f → data s T f);
  pi_kept : kept (pg_ram s);
  pi_map vp f : G !! vp = Some f → page_frame f ∧ va_ok (vp * 4096) ∧
    ∃ e, leaf (pg_ram s) root (vp * 4096) = Some e ∧ frame_of e = f;
  pi_kind vp f : G !! vp = Some f → image_page f ∨ ¬ pg_used s0 f;
  pi_inj v1 v2 f : G !! v1 = Some f → G !! v2 = Some f → ¬ pg_used s0 f → v1 = v2;
  pi_unmapped vp : va_ok (vp * 4096) → G !! vp = None → leaf (pg_ram s) root (vp * 4096) = None;
  pi_bytes v c : L v c → ∃ f, G !! (v / 4096) = Some f ∧ rd8 (pg_ram s) (f + v mod 4096) = c
}.

(** Every mapped page holds a loaded byte; a page of the image only such. *)
Definition coherent (G : gmap Z Z) (L : Z → Z → Prop) : Prop :=
  ∀ vp f, G !! vp = Some f →
    (∃ v c, v / 4096 = vp ∧ L v c) ∧ (image_page f → ∀ v, v / 4096 = vp → ∃ c, L v c).

Lemma pageof_aligned f : f mod 4096 = 0 → pageof f = f.
Proof. unfold pageof. lia. Qed.
Lemma pageof_frame f i : f mod 4096 = 0 → 0 <= i < 4096 → pageof (f + i) = f.
Proof. unfold pageof. intros. dlia. Qed.

Lemma va_ok_low v : 0 <= v < 511 * 2 ^ 39 → va_ok v.
Proof.
  intros Hv. split; [lia|]. unfold user_va, GET_PML4T_ENTRY_NO. rewrite land_1ff.
  rewrite Z.shiftr_div_pow2 by lia. dlia.
Qed.

Lemma leaf_page m v : va_ok v → leaf m root v = leaf m root (v / 4096 * 4096).
Proof. intros [Hv _]. apply vpn_leaf. unfold vpn. by rewrite Z.div_mul by lia. Qed.

Hypothesis keep_used : ∀ a, Keep a → pg_used s0 (pageof a).

(** A frame that was free at the start is apart from all that must stay. *)
Lemma frame_apart f :
  page_frame f → ¬ pg_used s0 f → ∀ a, Keep a → a < f ∨ f + 4096 <= a.
Proof.
  intros (_ & _ & F2) Hf a Ha. apply outside_page; [done|]. intros E. apply Hf.
  rewrite <- E. by apply keep_used.
Qed.

(** A page was mapped: it joins [G]. *)
Section mapped.
Context (n : nat) (s s1 : P) (G : gmap Z Z) (L : Z → Z → Prop) (T : gmap (list Z) Z) (vp fl px pg r : Z).
Hypothesis HI : pages_inv (S n) s G L.
Hypothesis Hdi : ∀ a, Keep a → data s T a.
Hypothesis Hdg : ∀ vp f, G !! vp = Some f → data s T f.
Hypothesis Hva : va_ok (vp * 4096).
Hypothesis Hpost : mapping_post root T (vp * 4096) fl px pg (4 * n) s r s1.
Hypothesis Hpx : if truth px then G !! vp = None ∧ image_page pg ∧ page_frame pg else True.

Definition new_frame (T' : gmap (list Z) Z) : Prop :=
  page_frame r ∧ (image_page r ∨ ¬ pg_used s0 r) ∧ data s1 T' r ∧
  (∀ f, G !! vp = Some f → f = r) ∧ (truth px = true → r = pg) ∧
  (truth px = false → G !! vp = None → ¬ pg_used s0 r) ∧
  (∀ v2, G !! v2 = Some r → ¬ pg_used s0 r → vp = v2).

Lemma mapped_frame :
  ∃ T' e, tree (pg_ram s1) root T' ∧ tables_used s1 T' ∧ data_kept s T s1 T' ∧
    leaf (pg_ram s1) root (vp * 4096) = Some e ∧ frame_of e = r ∧ new_frame T'.
Proof.
  destruct Hpost as (M1 & M2 & M3 & T' & M4 & M5 & M6 & M7 & M8).
  destruct HI as [I1 I2 I3 _ I5 I6 I7 I8 I9 I10].
  destruct M8 as [(M8 & (e & M9 & _) & M10)|(_ & _ & Hno)].
  2: { exfalso. apply Hno. eapply pg_free_le; [|done]. lia. }
  rewrite Z.mod_mul in M10 by lia. rewrite ?Z.add_0_r, ?Z.sub_0_r in M10.
  assert (frame_of e = r) as Hr.
  { unfold translate, GET_PAGE_OFFSET in M8. rewrite M9, land_fff, Z.mod_mul in M8 by lia.
    injection M8 as M8. lia. }
  exists T', e. split_and!; try done. unfold new_frame. destruct (truth px) eqn:Epx.
  - destruct Hpx as (G0 & Hip & Hpf). subst pg. assert (in_image r) as Hin by (unfold image_page, in_image in *; lia).
    destruct (M7 r (Hdi r (keep_image r Hin))) as [Hd _].
    split_and!; [done|by left|done|congruence|done|done|]. intros v2 _ Hn. exfalso. apply Hn.
    rewrite <- (pageof_aligned r) by apply Hpf. by apply keep_used, keep_image.
  - unfold page_source in M10. destruct (G !! vp) as [f|] eqn:EG.
    + destruct (I6 vp f EG) as (Hpf & _ & e' & Hl & Hfe). rewrite Hl, Hfe in M10. subst f.
      destruct (M7 r (Hdg vp r EG)) as [Hd _].
      split_and!; [done|by eapply I7|done|congruence|done|done|]. intros v2 H2 Hn. by apply (I8 vp v2 r).
    + rewrite I9 in M10 by done. destruct M10 as ((Hr1 & Hr2) & Hr3 & Hr4 & Hr5).
      assert (pageof r = r) as Ep by apply pageof_aligned, Hr1.
      assert (¬ pg_used s0 r) as Hn0 by (intros E; by apply Hr3, I3).
      assert (page_frame r) by (unfold page_frame, table_ok in *; lia).
      split_and!; [done|by right| |done|done|done|].
      * split; [by rewrite Ep|]. by rewrite Ep.
      * intros v2 H2. exfalso. apply Hr3. rewrite <- Ep. by apply (Hdg v2 r).
Qed.

Lemma pages_inv_map : pages_inv n s1 (<[vp := r]> G) L.
Proof.
  destruct mapped_frame as (T' & e & R1 & R2 & R3 & R4 & R5 & (F1 & F2 & F3 & F4 & F5 & F6 & F7)).
  destruct Hpost as (M1 & M2 & M3 & _). pose proof HI as [I1 I2 I3 _ I5 I6 I7 I8 I9 I10].
  assert (∀ vp' f, <[vp := r]> G !! vp' = Some f → vp' = vp ∧ f = r ∨ vp' ≠ vp ∧ G !! vp' = Some f) as Hins.
  { intros vp' f Hf. apply lookup_insert_Some in Hf as [[<- <-]|[? ?]]; [by left|by right]. }
  assert (∀ vp', va_ok (vp' * 4096) → vp' ≠ vp →
    leaf (pg_ram s1) root (vp' * 4096) = leaf (pg_ram s) root (vp' * 4096)) as Hkeep.
  { intros vp' Hv Hne. apply M3; [done|]. by rewrite !Z.div_mul by lia. }
  split.
  - done.
  - apply M2. eapply pg_free_le; [|done]. lia.
  - intros a Ha. by apply M2, I3.
  - exists T'. split_and!; [done|done| |].
    + intros a Ha. by apply R3, Hdi.
    + intros vp' f Hf. apply Hins in Hf as [[-> ->]|[_ Hf]]; [done|]. by eapply R3, Hdg.
  - intros a Ha. destruct (R3 a (Hdi a Ha)) as [_ ->]. by apply I5.
  - intros vp' f Hf. apply Hins in Hf as [[-> ->]|[Hne Hf]]; [by eauto|].
    destruct (I6 vp' f Hf) as (J1 & J2 & e' & J3 & J4). split_and!; [done..|].
    exists e'. by rewrite Hkeep.
  - intros vp' f Hf. apply Hins in Hf as [[-> ->]|[_ Hf]]; [done|by eapply I7].
  - intros v1 v2 f H1 H2 Hn. apply Hins in H1 as [[-> ->]|[N1 H1]], H2 as [[-> ?]|[N2 H2]]; subst; auto.
    + symmetry. by apply F7.
    + by eapply I8.
  - intros vp' Hv Hno. apply lookup_insert_None in Hno as [Hno Hne]. rewrite Hkeep by (done || congruence).
    by apply I9.
  - intros v c Hl. destruct (I10 v c Hl) as (f & Hf & Hb). exists f.
    assert (data s T (f + v mod 4096)) as Hd.
    { destruct (I6 _ _ Hf) as ((_ & _ & Hm) & _). pose proof (Hdg _ _ Hf) as Hd. unfold data in *.
      rewrite (pageof_aligned f) in Hd by done. rewrite pageof_frame by (done || apply Z.mod_pos_bound; lia). done. }
    split; [|by rewrite (proj2 (R3 _ Hd))]. apply lookup_insert_Some.
    destruct (decide (vp = v / 4096)) as [E|E]; [left|right; done]. split; [done|].
    symmetry. apply F4. by rewrite E.
Qed.
End mapped.

(** Bytes were stored in a page of [G] that is not the image's. *)
Lemma pages_inv_copy n s s2 G (L N : Z → Z → Prop) vp f :
  pages_inv n s G L → G !! vp = Some f → ¬ pg_used s0 f → mem_step s s2 →
  same_outside f 4096 (pg_ram s) (pg_ram s2) →
  (∀ v c, N v c → v / 4096 = vp ∧ rd8 (pg_ram s2) (f + v mod 4096) = c) →
  (∀ v c, L v c → v / 4096 = vp → rd8 (pg_ram s2) (f + v mod 4096) = rd8 (pg_ram s) (f + v mod 4096)) →
  pages_inv n s2 G (λ v c, L v c ∨ N v c).
Proof.
  intros [I1 I2 I3 (T & T1 & T2 & T3 & T4) I5 I6 I7 I8 I9 I10] HG Hf [Mi Mk] Hs HN HL.
  destruct (I6 vp f HG) as (Hpf & Hva & _). pose proof Hpf as (F0 & F1 & F2).
  pose proof (frame_apart f Hpf Hf) as Hap.
  assert (∀ q, T !! q ≠ Some f) as Hnt.
  { intros q. rewrite <- (pageof_aligned f F2). apply (T4 vp f HG). }
  destruct (tree_self (pg_ram s) (pg_ram s2) root T T1) as [T1' Hleaf].
  { intros q t j Hq Hj _. destruct (tr_table _ _ _ T1 q t Hq) as [_ Ht].
    eapply entry_same_outside; [done|done|done|done|lia|]. intros ->. by apply (Hnt q). }
  assert (∀ a, data s T a → data s2 T a) as Hdata by (intros a [D1 D2]; split; [by apply Mk|done]).
  split; try done.
  - by apply Mi.
  - by apply Mk.
  - intros a Ha. by apply Mk, I3.
  - exists T. split_and!; [done|by eapply tables_used_keeps| |].
    + intros a Ha. by apply Hdata, T3.
    + intros v g Hg. by eapply Hdata, T4.
  - intros a Ha. rewrite Hs by by apply Hap. by apply I5.
  - intros v g Hg. destruct (I6 v g Hg) as (J1 & J2 & e & J3 & J4). split_and!; [done..|].
    exists e. by rewrite Hleaf by apply J2.
  - intros v Hv Hno. rewrite Hleaf by apply Hv. by apply I9.
  - intros v c [Hl|Hn].
    + destruct (I10 v c Hl) as (g & Hg & Hb). exists g. split; [done|].
      destruct (decide (v / 4096 = vp)) as [E|E].
      { assert (g = f) as -> by congruence. by rewrite (HL v c). }
      rewrite Hs; [done|]. destruct (I6 _ _ Hg) as ((G0 & G1 & G2) & _).
      assert (g ≠ f) as Hgf by (intros ->; by apply E, (I8 _ _ f)).
      pose proof (Z.mod_pos_bound v 4096 ltac:(lia)). dlia.
    + destruct (HN v c Hn) as [E Hb]. exists f. by rewrite E.
Qed.

(** ** One page of a segment *)
Section one_page.
Context (n : nat) (s : P) (G : gmap Z Z) (L : Z → Z → Prop) (ph sa : Z).
Hypothesis Hseg : seg_ok ph.
Hypothesis Hloads : loads ph = true.
Hypothesis HI : pages_inv (S n) s G L.
Hypothesis Hcoh : coherent G L.
Hypothesis Hsa : -4096 < sa < p_memsz ph m0.
Hypothesis Hal : (p_vaddr ph m0 + sa) mod 4096 = 0.
Let V := p_vaddr ph m0.
Let vp := (V + sa) / 4096.
Hypothesis Hnew : ∀ k c, 0 <= k → sa <= k < p_memsz ph m0 → ¬ L (V + k) c.

(** The bytes of the segment in this page. *)
Definition page_bytes (v c : Z) : Prop :=
  ∃ k, 0 <= k ∧ sa <= k < sa + 4096 ∧ k < p_memsz ph m0 ∧ v = V + k ∧ c = seg_byte ph k.
Definition page_post (r : Z) (s' : P) : Prop :=
  r = sa + 4096 ∧ ∃ G', pages_inv n s' G' (λ v c, L v c ∨ page_bytes v c) ∧
    coherent G' (λ v c, L v c ∨ page_bytes v c).

Lemma page_va : vp * 4096 = V + sa ∧ va_ok (vp * 4096).
Proof.
  destruct Hseg as (_ & _ & _ & S3). pose proof (seg_nonneg ph). assert (vp * 4096 = V + sa) as E by (unfold vp, V in *; dlia).
  split; [done|]. apply va_ok_low. rewrite E. unfold V in *. dlia.
Qed.

(** Some byte of the page belongs to the segment. *)
Lemma page_has_byte : ∃ k, 0 <= k ∧ sa <= k < sa + 4096 ∧ k < p_memsz ph m0.
Proof.
  exists (Z.max 0 sa). unfold loads in Hloads. apply andb_true_iff in Hloads as [_ Hm].
  apply Z.ltb_lt in Hm. lia.
Qed.

Lemma on_page v : v / 4096 = vp → ∃ k, v = V + k ∧ sa <= k < sa + 4096 ∧ v mod 4096 = k - sa.
Proof. intros Hv. destruct page_va as [E _]. exists (v - V). split_and!; [lia|dlia|dlia|dlia]. Qed.

Lemma at_page k : sa <= k < sa + 4096 → (V + k) / 4096 = vp ∧ (V + k) mod 4096 = k - sa.
Proof. intros Hk. destruct page_va as [E _]. split; dlia. Qed.

(** A page of the image is fully loaded, so it is not this one. *)
Lemma page_not_image f : G !! vp = Some f → ¬ image_page f.
Proof.
  intros HG Hi. destruct (Hcoh vp f HG) as [_ Hall]. destruct page_has_byte as (k & K0 & K1 & K2).
  destruct (Hall Hi (V + k)) as [c Hc]; [by apply at_page|]. apply (Hnew k c); [done|lia|done].
Qed.

Lemma mapped_low e : leaf (pg_ram s) root (vp * 4096) = Some e → frame_of e < 2 ^ 32.
Proof.
  intros He. destruct (G !! vp) as [f|] eqn:EG.
  - destruct (pi_map _ _ _ _ HI vp f EG) as ((F0 & F1 & _) & _ & e' & He' & Hf).
    rewrite He in He'. injection He' as <-. lia.
  - rewrite (pi_unmapped _ _ _ _ HI) in He by (done || apply page_va). done.
Qed.

Lemma coherent_new r :
  (image_page r → 0 <= sa ∧ sa + 4096 <= p_memsz ph m0) →
  coherent (<[vp := r]> G) (λ v c, L v c ∨ page_bytes v c).
Proof.
  intros Hr v f Hf. apply lookup_insert_Some in Hf as [[<- <-]|[_ Hf]].
  - split.
    + destruct page_has_byte as (k & K0 & K1 & K2). exists (V + k), (seg_byte ph k).
      split; [by apply at_page|]. right. by exists k.
    + intros Hi w Hw. destruct (Hr Hi) as [H1 H2]. destruct (on_page w Hw) as (k & -> & Hk & _).
      exists (seg_byte ph k). right. exists k. split_and!; [lia|lia|lia|lia|done|done].
  - destruct (Hcoh v f Hf) as [(w & c & Hw & Hl) H2]. split; [by eauto|].
    intros Hi w' Hw'. destruct (H2 Hi w' Hw') as [c' Hc']. by eauto.
Qed.

(** The page comes straight from the image. *)
Lemma direct_page fl :
  0 <= sa → sa + 4096 < p_filesz ph m0 → (K + p_offset ph m0 + sa) mod 4096 = 0 →
  wp (create_virtual_mapping_from_page (vp * 4096) root fl 1 (K + p_offset ph m0 + sa) Tysos)
    (λ _ s', page_post (sa + 4096) s') s.
Proof.
  intros H1 H2 H3. pose proof (seg_nonneg ph) as (F0 & O0 & _). destruct page_va as [E Hva].
  pose proof Hseg as (_ & S1 & S2 & _). set (pg := K + p_offset ph m0 + sa) in *.
  pose proof (pi_tree _ _ _ _ HI) as (T & T1 & T2 & T3 & T4).
  assert (image_page pg ∧ page_frame pg) as [Hip Hpf].
  { unfold image_page, page_frame, pg in *. lia. }
  assert (G !! vp = None) as HG.
  { destruct (G !! vp) as [f|] eqn:EG; [|done]. destruct (Hcoh vp f EG) as [(v & c & Hv & Hl) _].
    destruct (on_page v Hv) as (k & -> & Hk & _). exfalso. apply (Hnew k c); [lia|lia|done]. }
  eapply wp_mono; [apply (create_mapping_spec root T (vp * 4096) fl 1 pg Tysos (4 * n) s);
    [done|done|done| | |apply mapped_low]|].
  { pose proof (pi_inv _ _ _ _ HI). by replace (4 + 4 * n)%nat with (4 * S n)%nat by lia. }
  { intros _. left. unfold low_page, table_ok, page_frame, image_page, pg in *. lia. }
  intros r s1 Hpost. cbv beta in Hpost.
  pose proof (pages_inv_map n s s1 G L T vp fl 1 pg r HI T3 T4 Hva Hpost ltac:(done)) as HI1.
  destruct (mapped_frame n s s1 G L T vp fl 1 pg r HI T3 T4 Hva Hpost ltac:(done))
    as (_ & _ & _ & _ & _ & _ & _ & (_ & _ & _ & _ & Er & _)). rewrite (Er eq_refl) in *.
  split; [done|]. exists (<[vp := pg]> G). split; [|apply coherent_new; lia].
  pose proof (pi_kept _ _ _ _ HI1) as Himg. destruct HI1 as [J1 J2 J3 J4 J5 J6 J7 J8 J9 J10].
  split; try done. intros v c [Hl|(k & K0 & K1 & K2 & -> & ->)]; [by apply J10|].
  destruct (at_page k K1) as [-> ->]. exists pg. split; [apply lookup_insert_eq|].
  rewrite Himg by (apply keep_image; unfold in_image, pg; lia). unfold seg_byte.
  destruct (Z.ltb_spec k (p_filesz ph m0)); [|lia]. f_equal. unfold pg. lia.
Qed.

(** The page is a new one, or shared with an earlier segment. *)
Lemma copied_page fl :
  wp (new_page ← create_virtual_mapping (vp * 4096) root fl Tysos;
      copy_bytes (Z.to_nat PAGESIZE) ph new_page (u32 (u64 (u64 (K + p_offset ph m0) + sa))) 0 sa)
    page_post s.
Proof.
  pose proof (seg_nonneg ph) as (F0 & O0 & _). destruct page_va as [E Hva].
  pose proof (pi_tree _ _ _ _ HI) as (T & T1 & T2 & T3 & T4). unfold create_virtual_mapping. wp_step.
  eapply wp_mono; [apply (create_mapping_spec root T (vp * 4096) fl 0 0 Tysos (4 * n) s);
    [done|done|done| |done|apply mapped_low]|].
  { pose proof (pi_inv _ _ _ _ HI). by replace (4 + 4 * n)%nat with (4 * S n)%nat by lia. }
  intros r s1 Hpost. cbv beta in Hpost.
  pose proof (pages_inv_map n s s1 G L T vp fl 0 0 r HI T3 T4 Hva Hpost I) as HI1.
  destruct (mapped_frame n s s1 G L T vp fl 0 0 r HI T3 T4 Hva Hpost I)
    as (_ & _ & _ & _ & _ & _ & _ & (Hpf & Hkind & _ & Hsame & _ & Hfresh & _)).
  assert (¬ pg_used s0 r) as Hr0.
  { destruct (G !! vp) as [f|] eqn:EG; [|by apply Hfresh]. rewrite <- (Hsame f eq_refl) in *.
    destruct Hkind as [Hi|]; [|done]. by destruct (page_not_image f EG). }
  pose proof (frame_apart r Hpf Hr0) as Hap. pose proof Hpf as (P0 & P1 & P2).
  replace sa with (sa + 0) at 2 by lia.
  eapply wp_mono; [apply copy_bytes_spec; [done|lia|exact Hap|lia|apply (pi_kept _ _ _ _ HI1)|lia|unfold PAGESIZE; lia]|].
  cbv beta. rewrite Z2Nat.id by (unfold PAGESIZE; lia). unfold PAGESIZE. rewrite !Z.add_0_r, !Z.add_0_l.
  intros r2 s2 (-> & Hm & Ho & Hb). split; [done|]. exists (<[vp := r]> G). split.
  - eapply (pages_inv_copy n s1 s2 _ L page_bytes vp r); try done; [apply lookup_insert_eq|..].
    + intros v c (k & K0 & K1 & K2 & -> & ->). destruct (at_page k K1) as [-> ->]. split; [done|].
      rewrite Hb by lia. replace (sa + (k - sa)) with k by lia. by rewrite decide_True.
    + intros v c Hl Hv. destruct (on_page v Hv) as (k & -> & Hk & ->). rewrite Hb by lia.
      replace (sa + (k - sa)) with k by lia. rewrite decide_False; [done|]. intros [Hk0 Hk1].
      apply (Hnew k c); [lia|lia|done].
  - apply coherent_new. intros Hi. exfalso. apply Hr0. rewrite <- (pageof_aligned r) by done.
    apply keep_used, keep_image. unfold image_page, in_image in *. lia.
Qed.

Lemma load_page_spec : wp (load_page ph root V (u64 (K + p_offset ph m0)) sa) page_post s.
Proof.
  pose proof (seg_nonneg ph) as (F0 & O0 & V0). destruct page_va as [E Hva].
  pose proof Hseg as ((Hh1 & Hh2) & S1 & S2 & S3). unfold load_page. wp_step. apply wp_peek.
  pose proof (pi_kept _ _ _ _ HI) as Himg.
  assert (p_filesz ph (id (pg_ram s)) = p_filesz ph m0) as -> by (apply (rd_kept 8); [done|lia|lia]).
  rewrite (u64_small (V + sa)), <- E by (unfold V in *; dlia).
  rewrite (s64_small (sa + PAGESIZE)), (s64_small (p_filesz _ _)) by (unfold V, PAGESIZE in *; lia).
  destruct ((0 <=? sa) && (sa + PAGESIZE <? p_filesz ph m0) &&
    (Z.land (u64 (u64 (K + p_offset ph m0) + sa)) (PAGESIZE - 1) =? 0)) eqn:Ed; [|apply copied_page].
  apply andb_true_iff in Ed as [Ed E3]. apply andb_true_iff in Ed as [E1 E2].
  apply Z.leb_le in E1. apply Z.ltb_lt in E2. apply Z.eqb_eq in E3.
  change (PAGESIZE - 1) with 0xfff in E3. rewrite land_fff in E3. unfold PAGESIZE in *.
  rewrite !(u64_small (K + p_offset ph m0)), !(u64_small (_ + sa)) in * by lia.
  rewrite (u32_small (K + _ + sa)) by lia. wp_step.
  eapply wp_mono; [by apply direct_page|]. intros r s1 Hp. by wp_step.
Qed.
End one_page.

(** ** One segment *)
Lemma pages_inv_ext n s G (L L' : Z → Z → Prop) :
  (∀ v c, L v c ↔ L' v c) → pages_inv n s G L ∧ coherent G L → pages_inv n s G L' ∧ coherent G L'.
Proof.
  intros HL [[I1 I2 I3 I4 I5 I6 I7 I8 I9 I10] Hc]. split.
  - split; try done. intros v c Hv. by apply I10, HL.
  - intros vp f Hf. destruct (Hc vp f Hf) as [(v & c & Hv & Hl) H2]. split; [exists v, c; by rewrite <- HL|].
    intros Hi w Hw. destruct (H2 Hi w Hw) as [d Hd]. exists d. by rewrite <- HL.
Qed.

(** The bytes of the segment below offset [sa], and the pages from there on. *)
Definition bytes_below (ph sa v c : Z) : Prop :=
  ∃ k, 0 <= k < p_memsz ph m0 ∧ k < sa ∧ v = p_vaddr ph m0 + k ∧ c = seg_byte ph k.
Definition pages_from (ph sa : Z) : Z :=
  (p_vaddr ph m0 + p_memsz ph m0 + 4095) / 4096 - (p_vaddr ph m0 + sa) / 4096.

Definition seg_pages (ph : Z) : nat :=
  if loads ph then Z.to_nat (pages_from ph 0) else 0.

Definition seg_bytes (ph v c : Z) : Prop :=
  loads ph = true ∧ ∃ k, 0 <= k < p_memsz ph m0 ∧ v = p_vaddr ph m0 + k ∧ c = seg_byte ph k.

(** The loop over the pages of a segment. *)
Section one_segment.
Context (ph : Z) (n : nat) (L : Z → Z → Prop).
Hypothesis Hok : seg_ok ph.
Hypothesis Hloads : loads ph = true.
Hypothesis Hdis : ∀ v c d, seg_bytes ph v c → ¬ L v d.
Let V := p_vaddr ph m0.
Let N := p_memsz ph m0.

Definition seg_inv (sa : Z) (s : P) : Prop :=
  -4096 < sa < N + 4096 ∧ (V + sa) mod 4096 = 0 ∧ ∃ G,
    pages_inv (Z.to_nat (pages_from ph sa) + n) s G (λ v c, L v c ∨ bytes_below ph sa v c) ∧
    coherent G (λ v c, L v c ∨ bytes_below ph sa v c).

Lemma seg_size : 0 < N ∧ 0 <= V ∧ V + N <= 511 * 2 ^ 39.
Proof.
  destruct (seg_nonneg ph) as (_ & _ & V0). destruct Hok as (_ & _ & _ & S3).
  unfold loads in Hloads. apply andb_true_iff in Hloads as [_ El]. by apply Z.ltb_lt in El.
Qed.

Lemma seg_inv_start G s :
  pages_inv (seg_pages ph + n) s G L → coherent G L → seg_inv (- (V mod 4096)) s.
Proof.
  intros HI Hcoh. destruct seg_size as (N0 & V0 & V1). unfold seg_inv.
  assert (pages_from ph (- (V mod 4096)) = pages_from ph 0) as -> by (unfold pages_from; fold V; dlia).
  unfold seg_pages in HI. rewrite Hloads in HI.
  split_and!; [dlia|dlia|dlia|]. exists G. eapply pages_inv_ext; [|split; [exact HI|exact Hcoh]].
  intros v c. cbv beta. split; [by left|]. intros [?|(k & ? & ? & _)]; [done|]. dlia.
Qed.

Lemma seg_inv_step sa s :
  seg_inv sa s → sa < N →
  wp (load_page ph root V (u64 (K + p_offset ph m0)) sa) (λ r s',
    seg_inv r s' ∧ (Z.to_nat (pages_from ph r) < Z.to_nat (pages_from ph sa))%nat) s.
Proof.
  intros (B1 & B2 & G & HI & Hc) Hlt. destruct seg_size as (N0 & V0 & V1).
  assert (0 < pages_from ph sa) as Hpos by (unfold pages_from; fold V; fold N; dlia).
  assert (pages_from ph (sa + 4096) = pages_from ph sa - 1) as Hstep by (unfold pages_from; dlia).
  replace (Z.to_nat (pages_from ph sa) + n)%nat
    with (S (Z.to_nat (pages_from ph (sa + 4096)) + n)) in HI by lia.
  eapply wp_mono; [apply (load_page_spec _ s G _ ph sa Hok Hloads HI Hc); [lia|done|]|].
  { intros k c K0 K1 [Hl|(j & J1 & J2 & J3 & J4)]; [|unfold V in *; lia].
    apply (Hdis (V + k) (seg_byte ph k) c); [|done]. split; [done|]. exists k. split_and!; [lia|lia|done|done]. }
  cbv beta. intros r s2 (-> & G2 & HI2). split; [|lia]. split_and!; [lia|lia|dlia|].
  exists G2. eapply pages_inv_ext; [|exact HI2]. intros v c. cbv beta. split.
  - intros [[Hl|(k & ? & ? & ? & ?)]|(k & ? & ? & ? & ? & ?)]; [by left|right; exists k..];
      split_and!; try done; lia.
  - intros [Hl|(k & ? & ? & ? & ?)]; [by left; left|]. destruct (Z.lt_ge_cases k sa).
    + left; right. exists k. split_and!; try done; lia.
    + right. exists k. split_and!; try done; lia.
Qed.

Lemma seg_inv_end sa s :
  seg_inv sa s → N <= sa → ∃ G', pages_inv n s G' (λ v c, L v c ∨ seg_bytes ph v c) ∧
    coherent G' (λ v c, L v c ∨ seg_bytes ph v c).
Proof.
  intros (B1 & B2 & G & HI & Hc) Hge. exists G.
  replace (Z.to_nat (pages_from ph sa) + n)%nat with n in HI by (unfold pages_from; fold V; fold N; dlia).
  eapply pages_inv_ext; [|split; [exact HI|exact Hc]]. intros v c. cbv beta. split.
  - intros [Hl|(k & ? & ? & ? & ?)]; [by left|right]. split; [done|]. by exists k.
  - intros [Hl|(_ & k & ? & ? & ?)]; [by left|right]. exists k. split_and!; try done; lia.
Qed.
End one_segment.

(** Fields of a header in the image. *)
Lemma phdr_kept ph m :
  hdr_in ph → kept m →
  p_type ph m = p_type ph m0 ∧ p_memsz ph m = p_memsz ph m0 ∧
  p_offset ph m = p_offset ph m0 ∧ p_vaddr ph m = p_vaddr ph m0.
Proof.
  intros [H1 H2] Hm. split_and!; [apply (rd_kept 4)|apply (rd_kept 8)|apply (rd_kept 8)|apply (rd_kept 8)];
    try done; lia.
Qed.

Lemma tload_segment_spec fuel n s G L ph :
  hdr_in ph → (loads ph = true → seg_ok ph) → (seg_pages ph < fuel)%nat →
  pages_inv (seg_pages ph + n) s G L → coherent G L → (∀ v c d, seg_bytes ph v c → ¬ L v d) →
  wp (load_segment fuel ph K root) (λ _ s', ∃ G',
    pages_inv n s' G' (λ v c, L v c ∨ seg_bytes ph v c) ∧
    coherent G' (λ v c, L v c ∨ seg_bytes ph v c)) s.
Proof.
  intros Hh Hok Hf HI Hcoh Hdis. unfold load_segment. wp_step. apply wp_peek. unfold id.
  destruct (phdr_kept ph _ Hh (pi_kept _ _ _ _ HI)) as (-> & -> & -> & ->).
  fold (loads ph). destruct (loads ph) eqn:El.
  2: { wp_step. exists G. unfold seg_pages in HI. rewrite El in HI.
       eapply pages_inv_ext; [|split; [exact HI|exact Hcoh]].
       intros v c. split; [by left|]. intros [?|[? _]]; [done|congruence]. }
  specialize (Hok eq_refl). destruct (seg_size ph Hok El) as (N0 & V0 & V1).
  change (PAGESIZE - 1) with 0xfff. rewrite page_mask by lia. rewrite s64_small by dlia.
  set (V := p_vaddr ph m0) in *. replace (- (V - (V - V mod 4096))) with (- (V mod 4096)) by lia.
  wp_step. eapply (wp_while (seg_inv ph n L) (λ sa, Z.to_nat (pages_from ph sa))).
  - intros sa s1 Hi. pose proof Hi as (B1 & _ & G1 & HI1 & _). wp_step. apply wp_peek. wp_step.
    destruct (phdr_kept ph _ Hh (pi_kept _ _ _ _ HI1)) as (_ & -> & _). rewrite s64_small by lia.
    destruct (Z.ltb_spec sa (p_memsz ph m0)) as [Hlt|Hge]; [by apply seg_inv_step|].
    wp_step. by eapply seg_inv_end.
  - by eapply seg_inv_start.
  - unfold seg_pages in Hf. rewrite El in Hf.
    by assert (pages_from ph (- (V mod 4096)) = pages_from ph 0) as -> by (unfold pages_from; fold V; dlia).
Qed.

(** ** All segments *)
Definition phdr (i : Z) : Z := K + e_phoff K m0 + i * e_phentsize K m0.
Definition phnum : Z := e_phnum K m0.

(** The file header and the program headers lie in the image. *)
Definition phdrs_in : Prop :=
  64 <= len ∧ 56 <= e_phentsize K m0 ∧ e_phoff K m0 + phnum * e_phentsize K m0 <= len.

(** Pages of the [n] headers from [i] on. *)
Fixpoint total_pages (n : nat) (i : Z) : nat :=
  match n with
  | O => 0
  | S n => seg_pages (phdr i) + total_pages n (i + 1)
  end.

(** The bytes of the segments with index below [i]. *)
Definition loaded_bytes (i v c : Z) : Prop := ∃ j, 0 <= j < i ∧ seg_bytes (phdr j) v c.

Definition segs_ok : Prop := ∀ i, 0 <= i < phnum → loads (phdr i) = true → seg_ok (phdr i).
Definition segs_disjoint : Prop := ∀ i j v c d,
  0 <= i < phnum → 0 <= j < phnum → i ≠ j → seg_bytes (phdr i) v c → ¬ seg_bytes (phdr j) v d.

Lemma ehdr_kept m :
  64 <= len → kept m →
  e_phnum K m = phnum ∧ e_phentsize K m = e_phentsize K m0 ∧ e_phoff K m = e_phoff K m0.
Proof.
  intros Hl Hm. split_and!; [apply (rd_kept 2)|apply (rd_kept 2)|apply (rd_kept 8)]; try done; lia.
Qed.

Lemma phnum_range : 0 <= phnum < 65536.
Proof. apply (rd_range 2). Qed.

Lemma phdr_in i : phdrs_in → 0 <= i < phnum → hdr_in (phdr i).
Proof.
  intros (H1 & H2 & H3) Hi. pose proof (rd64_range m0 (K + 32)) as Ho. fold (e_phoff K m0) in Ho.
  assert (i * e_phentsize K m0 + e_phentsize K m0 <= phnum * e_phentsize K m0) by nia.
  unfold hdr_in, phdr. nia.
Qed.

Lemma wp_hdr_at i (Q : Z → P → Prop) s :
  phdrs_in → kept (pg_ram s) → 0 <= i < phnum → Q (phdr i) s →
  wp (hdr_at i K (e_phentsize K) (e_phoff K)) Q s.
Proof.
  intros Hp Hm Hi HQ. unfold hdr_at. wp_step. apply wp_peek. unfold id.
  destruct (ehdr_kept _ (proj1 Hp) Hm) as (_ & -> & ->). pose proof (phdr_in i Hp Hi) as [H1 H2].
  unfold phdr in *. pose proof (rd64_range m0 (K + 32)) as Ho. fold (e_phoff K m0) in Ho.
  destruct Hp as (_ & H3 & _). assert (0 <= i * e_phentsize K m0) by nia.
  destruct (Z.ltb_spec (i * e_phentsize K m0) (2 ^ 31)) as [_|?]; [|lia]. wp_step.
  rewrite (u32_small (e_phoff K m0)), u32_small by lia.
  by replace (i * e_phentsize K m0 + e_phoff K m0 + K) with (K + e_phoff K m0 + i * e_phentsize K m0) by lia.
Qed.

Lemma tload_segments_spec fuel n s G :
  phdrs_in → segs_ok → segs_disjoint → (∀ i, 0 <= i < phnum → (seg_pages (phdr i) < fuel)%nat) →
  pages_inv (total_pages (Z.to_nat phnum) 0 + n) s G (λ _ _, False) → coherent G (λ _ _, False) →
  wp (load_segments fuel K K root) (λ _ s', ∃ G',
    pages_inv n s' G' (loaded_bytes phnum) ∧ coherent G' (loaded_bytes phnum)) s.
Proof.
  intros Hp Hok Hdis Hf HI Hc. pose proof phnum_range as Hn. unfold load_segments. wp_step.
  eapply (wp_while (λ i s, 0 <= i <= phnum ∧ ∃ G,
      pages_inv (total_pages (Z.to_nat (phnum - i)) i + n) s G (loaded_bytes i) ∧
      coherent G (loaded_bytes i)) (λ i, Z.to_nat (phnum - i))).
  - intros i s1 (Hi & G1 & HI1 & Hc1). pose proof (pi_kept _ _ _ _ HI1) as Himg.
    wp_step. apply wp_peek. wp_step. destruct (ehdr_kept _ (proj1 Hp) Himg) as (-> & _).
    destruct (Z.ltb_spec i phnum) as [Hlt|Hge].
    2: { wp_step. assert (i = phnum) as -> by lia. rewrite Z.sub_diag in HI1. by exists G1. }
    wp_step. apply wp_hdr_at; [done|done|lia|]. wp_step.
    replace (Z.to_nat (phnum - i)) with (S (Z.to_nat (phnum - (i + 1)))) in HI1 by lia.
    cbn [total_pages] in HI1. rewrite <- Nat.add_assoc in HI1.
    eapply wp_mono; [eapply (tload_segment_spec fuel _ s1 G1 (loaded_bytes i));
      [apply phdr_in; [done|lia]|apply Hok; lia|apply Hf; lia|exact HI1|exact Hc1|]|].
    { intros v c d Hb (j & Hj & Hd). apply (Hdis i j v c d); [lia|lia|lia|done|done]. }
    cbv beta. intros [] s2 (G2 & HI2). wp_step. rewrite u16_small by lia. split; [|lia].
    split; [lia|]. exists G2. eapply pages_inv_ext; [|exact HI2]. intros v c. cbv beta. split.
    + intros [(j & Hj & Hb)|Hb]; [exists j|exists i]; (split; [lia|done]).
    + intros (j & Hj & Hb). destruct (decide (j = i)) as [->|]; [by right|left; exists j; split; [lia|done]].
  - split; [lia|]. exists G. rewrite Z.sub_0_r. eapply pages_inv_ext; [|split; [exact HI|exact Hc]].
    intros v c. split; [done|]. intros (j & ? & _). lia.
  - unfold max_hdrs. lia.
Qed.

(** ** The extent of the image *)
Definition pt_load (i : Z) : Prop := p_type (phdr i) m0 = PT_LOAD.
Definition seg_start (i : Z) : Z := p_vaddr (phdr i) m0.
Definition seg_end (i : Z) : Z := u64 (p_vaddr (phdr i) m0 + p_memsz (phdr i) m0).

(** [lo] and [hi] bound the loadable segments among the first [n] headers
    tightly, except that [lo] is never above 0xffffffff. *)
Definition image_range (n lo hi : Z) : Prop :=
  lo <= 0xffffffff ∧ 0 <= hi ∧
  (∀ i, 0 <= i < n → pt_load i → lo <= seg_start i ∧ seg_end i <= hi) ∧
  (lo = 0xffffffff ∨ ∃ i, 0 <= i < n ∧ pt_load i ∧ lo = seg_start i) ∧
  (hi = 0 ∨ ∃ i, 0 <= i < n ∧ pt_load i ∧ hi = seg_end i).

Lemma image_range_skip n lo hi : ¬ pt_load n → image_range n lo hi → image_range (n + 1) lo hi.
Proof.
  intros Hp (H1 & H2 & H3 & H4 & H5). split_and!; [done|done| | |].
  - intros i Hi Hl. destruct (decide (i = n)) as [->|]; [done|]. apply H3; [lia|done].
  - destruct H4 as [?|(i & ? & ?)]; [by left|right; exists i; split; [lia|done]].
  - destruct H5 as [?|(i & ? & ?)]; [by left|right; exists i; split; [lia|done]].
Qed.

Lemma image_range_add n lo hi :
  0 <= n → pt_load n → image_range n lo hi →
  image_range (n + 1) (if seg_start n <? lo then seg_start n else lo)
                      (if hi <? seg_end n then seg_end n else hi).
Proof.
  intros Hn Hp (H1 & H2 & H3 & H4 & H5). pose proof (u64_range (p_vaddr (phdr n) m0 + p_memsz (phdr n) m0)).
  split_and!.
  - destruct (Z.ltb_spec (seg_start n) lo); lia.
  - fold (seg_end n) in *. destruct (Z.ltb_spec hi (seg_end n)); lia.
  - intros i Hi Hl. destruct (Z.ltb_spec (seg_start n) lo), (Z.ltb_spec hi (seg_end n));
      (destruct (decide (i = n)) as [->|]; [lia|destruct (H3 i); [lia|done|lia]]).
  - destruct (Z.ltb_spec (seg_start n) lo); [right; exists n; split; [lia|done]|].
    destruct H4 as [?|(i & ? & ?)]; [by left|right; exists i; split; [lia|done]].
  - destruct (Z.ltb_spec hi (seg_end n)); [right; exists n; split; [lia|done]|].
    destruct H5 as [?|(i & ? & ?)]; [by left|right; exists i; split; [lia|done]].
Qed.

Lemma image_bounds_spec s :
  phdrs_in → kept (pg_ram s) →
  wp (image_bounds K K) (λ r s', s' = s ∧ image_range phnum r.1 r.2) s.
Proof.
  intros Hp Hk. pose proof phnum_range as Hn. unfold image_bounds. wp_step.
  eapply (wp_while (λ a s', s' = s ∧ 0 <= a.1.1 <= phnum ∧ image_range a.1.1 a.1.2 a.2)
    (λ a, Z.to_nat (phnum - a.1.1))).
  - intros [[i lo] hi] s' (-> & Hi & Hr). cbn [fst snd] in *. wp_step. apply wp_peek. wp_step.
    destruct (ehdr_kept _ (proj1 Hp) Hk) as (-> & _). destruct (Z.ltb_spec i phnum) as [Hlt|Hge].
    2: { wp_step. split; [done|]. by replace phnum with i by lia. }
    wp_step. apply wp_hdr_at; [done|done|lia|]. wp_step. apply wp_peek. unfold id.
    destruct (phdr_kept (phdr i) _ (phdr_in i Hp ltac:(lia)) Hk) as (-> & -> & _ & ->).
    rewrite u16_small by lia. wp_step.
    destruct (Z.eqb_spec (p_type (phdr i) m0) PT_LOAD); cbn [fst snd];
      (split; [split_and!; [done|lia|lia|]|lia]).
    + apply image_range_add; [lia|done|done].
    + by apply image_range_skip.
  - cbn [fst snd]. split_and!; [done|lia|lia|]. unfold image_range.
    split_and!; [lia|lia|intros; lia|by left|by left].
  - cbn [fst snd]. unfold max_hdrs. lia.
Qed.
End proofs.
