(* ===== verification/TloadElf.v ===== *)
(** * Loading the kernel under BIOS

    src/tload/elf.c: [load_elf64_kernel] checks the headers of the kernel
    image, loads its segments (TloadSegs), finds the symbol table, applies the
    relocations of a position-independent kernel and picks the entry point;
    [Get_Symbol_Addr] looks symbols up.  Following a null [symtab] or
    [strtab] is undefined.  The [_DEBUG] traces are left out.  Loops whose
    length the file decides take [fuel]. *)

From stdpp Require Import base numbers list gmap strings.
From Stdlib Require Import Lia.
From S2P Require Import Prelude Mem Console MemMgr PageTable VMem TloadStdlib TloadSegs.
Open Scope Z_scope.
Open Scope outcome_scope.

(** ** The loader's globals *)
Record loader := Loader {
  mm : tload;
  pie_base : Z; k : Z; ehdr : Z; strtab : Z; shstrtab : Z; symtab : Z;
  dynstrtab : Z; dynsymtab : Z; dyntab : Z;
  prev_matching_sym : Z;
  (** What the caller's [e_point], [load_offset] and [kernel_vsize] point to. *)
  e_point : Z; load_offset : Z; kernel_vsize : Z
}.

Definition on_mm {A} (c : M tload A) : M loader A := λ s,
  obind (c (mm s)) (λ p, Done (p.1, Loader p.2 (pie_base s) (k s) (ehdr s) (strtab s) (shstrtab s)
    (symtab s) (dynstrtab s) (dynsymtab s) (dyntab s) (prev_matching_sym s)
    (e_point s) (load_offset s) (kernel_vsize s))).

Definition set_pie_base (x : Z) (s : loader) : loader :=
  Loader (mm s) x (k s) (ehdr s) (strtab s) (shstrtab s) (symtab s) (dynstrtab s) (dynsymtab s)
    (dyntab s) (prev_matching_sym s) (e_point s) (load_offset s) (kernel_vsize s).
Definition set_kernel (x : Z) (s : loader) : loader :=
  Loader (mm s) (pie_base s) x x (strtab s) (shstrtab s) (symtab s) (dynstrtab s) (dynsymtab s)
    (dyntab s) (prev_matching_sym s) (e_point s) (load_offset s) (kernel_vsize s).
Definition set_strtab (x : Z) (s : loader) : loader :=
  Loader (mm s) (pie_base s) (k s) (ehdr s) x (shstrtab s) (symtab s) (dynstrtab s) (dynsymtab s)
    (dyntab s) (prev_matching_sym s) (e_point s) (load_offset s) (kernel_vsize s).
Definition set_shstrtab (x : Z) (s : loader) : loader :=
  Loader (mm s) (pie_base s) (k s) (ehdr s) (strtab s) x (symtab s) (dynstrtab s) (dynsymtab s)
    (dyntab s) (prev_matching_sym s) (e_point s) (load_offset s) (kernel_vsize s).
Definition set_symtab (x : Z) (s : loader) : loader :=
  Loader (mm s) (pie_base s) (k s) (ehdr s) (strtab s) (shstrtab s) x (dynstrtab s) (dynsymtab s)
    (dyntab s) (prev_matching_sym s) (e_point s) (load_offset s) (kernel_vsize s).
Definition set_dyn (dst dsy dt : Z) (s : loader) : loader :=
  Loader (mm s) (pie_base s) (k s) (ehdr s) (strtab s) (shstrtab s) (symtab s) dst dsy
    dt (prev_matching_sym s) (e_point s) (load_offset s) (kernel_vsize s).
Definition set_prev (x : Z) (s : loader) : loader :=
  Loader (mm s) (pie_base s) (k s) (ehdr s) (strtab s) (shstrtab s) (symtab s) (dynstrtab s)
    (dynsymtab s) (dyntab s) x (e_point s) (load_offset s) (kernel_vsize s).
Definition set_results (ep lo vs : Z) (s : loader) : loader :=
  Loader (mm s) (pie_base s) (k s) (ehdr s) (strtab s) (shstrtab s) (symtab s) (dynstrtab s)
    (dynsymtab s) (dyntab s) (prev_matching_sym s) ep lo vs.

Definition set_e_point (x : Z) (s : loader) : loader := set_results x (load_offset s) (kernel_vsize s) s.

Section load.
(** Where the compiler placed the two literals the code compares against. *)
Context (lit_strtab lit_start : Z) (fuel : nat).

Definition peekl {A} (f : mem → A) : M loader A := on_mm (peek f).
Definition fail (msg : string) : M loader Z := on_mm (say msg) ;; mret (-1).

(** The [if] at the head: magic number, class and byte order. *)
Definition check_ident (eh : Z) : M loader (option string) :=
  m ← peekl id;
  mret (if negb (e_ident 0 eh m =? 0x7f) || negb (e_ident 1 eh m =? 69) ||
           negb (e_ident 2 eh m =? 76) || negb (e_ident 3 eh m =? 70)
        then Some "Error: not an ELF file"
        else if negb (e_ident 4 eh m =? ELFCLASS64) then Some "Error: not an ELF64 file"
        else if negb (e_ident 5 eh m =? ELFDATA2LSB) then Some "Error: not an ELF64 LSB file"
        else None).

Definition image_len (image_start image_end : Z) : Z :=
  let image_length := u32 (image_end - image_start) in
  if truth (image_length mod DEFAULT_PIE_ALIGN)
  then u32 (image_length - image_length mod DEFAULT_PIE_ALIGN + DEFAULT_PIE_ALIGN)
  else image_length.

(** The kernel's base: [Some] message is an error. *)
Definition choose_base (eh image_length : Z) : M loader (bool * option string) :=
  ty ← peekl (e_type eh);
  if ty =? ET_EXEC then mret (false, None)
  else if ty =? ET_DYN then
    p ← on_mm (malloc_align image_length DEFAULT_PIE_ALIGN Tysos 1);
    modify (set_pie_base p) ;;
    if p =? 0 then mret (true, Some "Error: unable to allocate memory for kernel")
    else
      let pie_excess := p mod DEFAULT_PIE_ALIGN in
      modify (set_pie_base (if truth pie_excess then u32 (p - pie_excess + DEFAULT_PIE_ALIGN) else p)) ;;
      mret (true, None)
  else mret (false, Some "Error: unknown file type (not ET_EXEC or ET_DYN)").

(** The section headers: [shstrtab], then [symtab] and [strtab]. *)
Definition find_sections (eh kernel : Z) : M loader unit :=
  ndx ← peekl (e_shstrndx eh);
  names ← on_mm (hdr_at ndx kernel (e_shentsize eh) (e_shoff eh));
  modify (set_shstrtab names) ;;
  while max_hdrs
    (λ idx, n ← peekl (e_shnum eh); mret (idx <? n))
    (λ idx,
      sh ← on_mm (hdr_at idx kernel (e_shentsize eh) (e_shoff eh));
      m ← peekl id;
      let sect_name := u32 (sh_name sh m + u32 (sh_offset names m) + kernel) in
      (if sh_type sh m =? SHT_SYMTAB then modify (set_symtab sh) else mret tt) ;;
      c ← lift (strcmp fuel m lit_strtab sect_name);
      (if negb (truth c) then modify (set_strtab sh) else mret tt) ;;
      mret (u16 (idx + 1)))
    0 ;;
  mret tt.

(** The first PT_DYNAMIC header sets [dyntab]; then its entries. *)
Definition find_dynamic (eh kernel : Z) : M loader unit :=
  while max_hdrs
    (λ a : Z * bool, n ← peekl (e_phnum eh); mret (negb a.2 && (a.1 <? n)))
    (λ a,
      ph ← on_mm (hdr_at a.1 kernel (e_phentsize eh) (e_phoff eh));
      m ← peekl id;
      if p_type ph m =? PT_DYNAMIC then
        modify (λ s, set_dyn (dynstrtab s) (dynsymtab s) (u32 (p_offset ph m + kernel)) s) ;;
        mret (a.1, true)
      else mret (u16 (a.1 + 1), false))
    (0, false) ;;
  mret tt.

Definition read_dynamic (kernel : Z) : M loader unit :=
  s ← get;
  while fuel
    (λ cur_dt, t ← peekl (d_tag cur_dt); mret (negb (t =? DT_NULL)))
    (λ cur_dt,
      m ← peekl id;
      (if d_tag cur_dt m =? DT_STRTAB then
         modify (λ s, set_dyn (u32 (d_ptr cur_dt m + kernel)) (dynsymtab s) (dyntab s) s)
       else if d_tag cur_dt m =? DT_SYMTAB then
         modify (λ s, set_dyn (dynstrtab s) (u32 (d_ptr cur_dt m + kernel)) (dyntab s) s)
       else mret tt) ;;
      mret (u32 (cur_dt + sizeof_Dyn)))
    (dyntab s) ;;
  mret tt.

(** The 8-byte field at [pie_base + r_offset], mapped if need be, becomes
    [value]. *)
Definition fix_up (pml4t ra value : Z) : M loader unit :=
  s ← get;
  off ← peekl (r_offset ra);
  a ← on_mm (create_virtual_mapping (u64 (pie_base s + off)) pml4t (Z.lor PF_W PF_R) Tysos);
  on_mm (poke (λ m, wr64 m a (u64 value))).

Definition relocate (pml4t ra : Z) : M loader unit :=
  s ← get;
  m ← peekl id;
  if ELF64_R_TYPE (r_info ra m) =? R_X86_64_RELATIVE then
    fix_up pml4t ra (pie_base s + r_addend ra m)
  else if ELF64_R_TYPE (r_info ra m) =? R_X86_64_64 then
    let sym := u32 (dynsymtab s + sizeof_Sym * ELF64_R_SYM (r_info ra m)) in
    if st_shndx sym m =? SHN_UNDEF then mret tt
    else fix_up pml4t ra (u64 (pie_base s + st_value sym m) + r_addend ra m)
  else mret tt.

Definition relocate_all (eh kernel pml4t : Z) : M loader unit :=
  while max_hdrs
    (λ idx, n ← peekl (e_shnum eh); mret (idx <? n))
    (λ idx,
      sh ← on_mm (hdr_at idx kernel (e_shentsize eh) (e_shoff eh));
      ty ← peekl (sh_type sh);
      (if ty =? SHT_RELA then
         while fuel
           (λ cur_off, n ← peekl (sh_size sh); mret (cur_off <? n))
           (λ cur_off,
             off ← peekl (sh_offset sh);
             relocate pml4t (u32 (cur_off + off + kernel)) ;;
             e ← peekl (sh_entsize sh);
             mret (u64 (cur_off + e)))
           0 ;;
         mret tt
       else mret tt) ;;
      mret (u16 (idx + 1)))
    0 ;;
  mret tt.

(** The symbol at [cur_off] of the table and the address of its name. *)
Definition sym_at (cur_off : Z) : M loader (Z * Z) :=
  s ← get;
  m ← peekl id;
  let sym := u32 (cur_off + sh_offset (symtab s) m + k s) in
  if strtab s =? 0 then undef else
  mret (sym, u32 (st_name sym m + u32 (sh_offset (strtab s) m) + k s)).

Definition find_start : M loader unit :=
  s ← get;
  if symtab s =? 0 then mret tt
  else if strtab s =? 0 then mret tt
  else
    while fuel
      (λ cur_off, n ← peekl (sh_size (symtab s)); mret (cur_off <? n))
      (λ cur_off,
        sn ← sym_at cur_off;
        m ← peekl id;
        c ← lift (strcmp fuel m lit_start sn.2);
        (if negb (truth c) then modify (set_e_point (st_value sn.1 m)) else mret tt) ;;
        e ← peekl (sh_entsize (symtab s));
        mret (u64 (cur_off + e)))
      0 ;;
    mret tt.

(** The three results. *)
Definition set_outputs (eh : Z) (is_pie : bool) (image_length : Z) : M loader unit :=
  entry ← peekl (e_entry eh);
  modify (λ s,
    let ep := if e_point s =? 0 then entry else e_point s in
    if is_pie then set_results (u64 (ep + pie_base s)) (pie_base s) image_length s
    else set_results ep 0 image_length s).

(** The dynamic section of a position-independent kernel: found or not. *)
Definition load_dynamic (eh kernel pml4t : Z) : M loader bool :=
  find_dynamic eh kernel ;;
  s ← get;
  if dyntab s =? 0 then mret false
  else read_dynamic kernel ;; relocate_all eh kernel pml4t ;; mret true.

Definition load_elf64_kernel (kernel pml4t : Z) : M loader Z :=
  modify (set_e_point 0) ;;
  modify (set_kernel kernel) ;;
  e ← check_ident kernel;
  match e with
  | Some msg => fail msg
  | None =>
      b ← on_mm (image_bounds kernel kernel);
      let image_length := image_len b.1 b.2 in
      t ← choose_base kernel image_length;
      match t.2 with
      | Some msg => fail msg
      | None =>
          mach ← peekl (e_machine kernel);
          if negb (mach =? EM_X86_64) then fail "Error: not an x86_64 executable"
          else
            on_mm (load_segments fuel kernel kernel pml4t) ;;
            find_sections kernel kernel ;;
            d ← (if t.1 : bool then load_dynamic kernel kernel pml4t else mret true);
            if negb d then fail "Error: unable to find dynamic section"
            else
              find_start ;;
              set_outputs kernel t.1 image_length ;;
              mret 0
      end
  end.

(** [Get_Symbol_Addr]: the search, the result with the symbol found. *)
Definition search_symbol (name : Z) : M loader Z :=
  s ← get;
  if symtab s =? 0 then undef else
  r ← while fuel
    (λ a : Z * option Z, n ← peekl (sh_size (symtab s));
       mret (match a.2 with None => a.1 <? n | Some _ => false end))
    (λ a,
      sn ← sym_at a.1;
      m ← peekl id;
      c ← lift (strcmp fuel m name sn.2);
      if negb (truth c) then
        modify (set_prev sn.1) ;;
        mret (a.1, Some (st_value sn.1 m))
      else
        e ← peekl (sh_entsize (symtab s));
        mret (u64 (a.1 + e), None))
    (0, None);
  mret (default 0 r.2).

Definition Get_Symbol_Addr (name : Z) : M loader Z :=
  s ← get;
  (if symtab s =? 0 then on_mm (say "Get_Symbol_Addr failed: symtab not loaded") else mret tt) ;;
  (if strtab s =? 0 then on_mm (say "Get_Symbol_Addr failed: strtab not loaded") else mret tt) ;;
  m ← peekl id;
  let prev := prev_matching_sym s in
  if negb (prev =? 0) then
    if strtab s =? 0 then undef else
    let sym_name := u32 (st_name prev m + u32 (sh_offset (strtab s) m) + k s) in
    c ← lift (strcmp fuel m name sym_name);
    if negb (truth c) then mret (st_value prev m) else search_symbol name
  else search_symbol name.
End load.

(** ** Reasoning about the loader's state *)
Lemma wp_on_mm {A} (c : M tload A) (Q : A → loader → Prop) s :
  wp c (λ a x, Q a (Loader x (pie_base s) (k s) (ehdr s) (strtab s) (shstrtab s)
    (symtab s) (dynstrtab s) (dynsymtab s) (dyntab s) (prev_matching_sym s)
    (e_point s) (load_offset s) (kernel_vsize s))) (mm s) →
  wp (on_mm c) Q s.
Proof. unfold wp, on_mm. by destruct (c (mm s)) as [[a x]| |]. Qed.

Lemma wp_peekl {A} (f : mem → A) (Q : A → loader → Prop) s : Q (f (ram (mm s))) s → wp (peekl f) Q s.
Proof. intros HQ. apply wp_on_mm, wp_peek. by destruct s. Qed.

(** The string [l] with its terminator is what [a] points to. *)
Definition is_named (m : mem) (a : Z) (l : list Z) : bool :=
  bool_decide (rdbytes (S (length l)) m a = l ++ [0]).

Lemma is_named_spec m a l l2 :
  Forall (λ c, c ≠ 0) l → cstring m a l2 → (is_named m a l = true ↔ l2 = l).
Proof.
  unfold is_named. rewrite bool_decide_eq_true. revert a l2.
  induction l as [|c l IH]; intros a l2 Hl Hs; cbn [length rdbytes app].
  - destruct l2 as [|d l2]; cbn [cstring] in Hs.
    + split; [done|]. by rewrite Hs.
    + destruct Hs as (-> & ? & _). split; [intros [= ?]; lia|done].
  - apply Forall_cons in Hl as [Hc Hl]. destruct l2 as [|d l2]; cbn [cstring] in Hs.
    + rewrite Hs. split; [intros [= E _]; congruence|done].
    + destruct Hs as (-> & ? & Hs). specialize (IH (a + 1) l2 Hl Hs). split.
      * intros [= -> E]. f_equal. by apply IH.
      * intros [= -> E]. f_equal. by apply IH.
Qed.

Lemma cstring_nonzero m a l : cstring m a l → Forall (λ c, c ≠ 0) l.
Proof.
  revert a. induction l as [|c l IH]; intros a Hl; constructor; cbn [cstring] in Hl; [lia|].
  by eapply IH, Hl.
Qed.

(** A comparison with a literal. *)
Lemma wp_strcmp fuel m lit name l l2 (Q : Z → loader → Prop) s :
  cstring m lit l → cstring m name l2 → (length l < fuel)%nat →
  (∀ c, truth c = negb (is_named m name l) → Q c s) →
  wp (lift (strcmp fuel m lit name)) Q s.
Proof.
  intros H1 H2 Hf HQ. destruct (tstrcmp_spec l l2 fuel m lit name H1 H2 Hf) as (r & E & Hr).
  eapply wp_lift; [exact E|]. apply HQ. pose proof (cstring_nonzero m lit l H1) as Hl.
  pose proof (is_named_spec m name l l2 Hl H2) as Hn. unfold truth.
  destruct (Z.eqb_spec r 0), (is_named m name l); try done; exfalso.
  - assert (l2 = l) as El by (symmetry; by apply Hr). apply Hn in El. done.
  - assert (l2 = l) as El by by apply Hn. apply n. by apply Hr.
Qed.

(** ** The symbol table *)
Section symbols.
(** The memory, the headers of the two tables and the image's address. *)
Context (m : mem) (symh strh kern : Z).
Definition sym_entsize : Z := sh_entsize symh m.
Definition sym_count : Z := sh_size symh m / sym_entsize.
Definition sym (i : Z) : Z := u32 (i * sym_entsize + sh_offset symh m + kern).
Definition sym_name (i : Z) : Z := u32 (st_name (sym i) m + u32 (sh_offset strh m) + kern).

(** Whole entries, every name a terminated string. *)
Definition symbols_ok : Prop :=
  symh ≠ 0 ∧ strh ≠ 0 ∧ 0 < sym_entsize ∧ sh_size symh m mod sym_entsize = 0 ∧
  sh_size symh m + sym_entsize < 2 ^ 64 ∧
  ∀ i, 0 <= i < sym_count → ∃ l, cstring m (sym_name i) l.

(** The first of [n] entries from [i] on with the name [l]. *)
Fixpoint first_named (n : nat) (i : Z) (l : list Z) : option Z :=
  match n with
  | O => None
  | S n => if is_named m (sym_name i) l then Some i else first_named n (i + 1) l
  end.
(** The reference: a plain search from the start. *)
Definition lookup_symbol (l : list Z) : Z :=
  match first_named (Z.to_nat sym_count) 0 l with Some i => st_value (sym i) m | None => 0 end.
(** The value of the last symbol named [l], or [old]. *)
Fixpoint last_named (n : nat) (i : Z) (l : list Z) (old : Z) : Z :=
  match n with
  | O => old
  | S n => last_named n (i + 1) l (if is_named m (sym_name i) l then st_value (sym i) m else old)
  end.

Lemma first_named_some n i l r :
  first_named n i l = Some r →
  i <= r < i + Z.of_nat n ∧ is_named m (sym_name r) l = true ∧
  ∀ j, i <= j < r → is_named m (sym_name j) l = false.
Proof.
  revert i. induction n as [|n IH]; intros i Hf; [done|]. cbn [first_named] in Hf.
  destruct (is_named m (sym_name i) l) eqn:E.
  - injection Hf as <-. split_and!; [lia|lia|done|]. intros; lia.
  - apply IH in Hf as (H1 & H2 & H3). split_and!; [lia|lia|done|]. intros j Hj.
    destruct (decide (j = i)) as [->|]; [done|]. apply H3. lia.
Qed.

Lemma first_named_intro n i l r :
  i <= r < i + Z.of_nat n → is_named m (sym_name r) l = true →
  (∀ j, i <= j < r → is_named m (sym_name j) l = false) → first_named n i l = Some r.
Proof.
  revert i. induction n as [|n IH]; intros i Hr Hn Hb; [lia|]. cbn [first_named].
  destruct (decide (r = i)) as [->|Hne]; [by rewrite Hn|]. rewrite Hb by lia.
  apply IH; [lia|done|]. intros j Hj. apply Hb. lia.
Qed.

Hypothesis Hok : symbols_ok.

Lemma sym_size : sh_size symh m = sym_count * sym_entsize.
Proof. destruct Hok as (_ & _ & H1 & H2 & _). unfold sym_count. dlia. Qed.

Lemma sym_off i : 0 <= i <= sym_count → u64 (i * sym_entsize + sym_entsize) = (i + 1) * sym_entsize.
Proof.
  destruct Hok as (_ & _ & H1 & _ & H2 & _). intros Hi. pose proof sym_size as E.
  rewrite u64_small; [lia|]. nia.
Qed.

Lemma sym_ltb i : (i * sym_entsize <? sh_size symh m) = (i <? sym_count).
Proof.
  rewrite sym_size. destruct Hok as (_ & _ & H1 & _).
  destruct (Z.ltb_spec (i * sym_entsize) (sym_count * sym_entsize)), (Z.ltb_spec i sym_count);
    try done; exfalso; nia.
Qed.

Definition tables_at (s : loader) : Prop :=
  ram (mm s) = m ∧ symtab s = symh ∧ strtab s = strh ∧ k s = kern.

Lemma wp_sym_at i (Q : Z * Z → loader → Prop) s :
  tables_at s → Q (sym i, sym_name i) s → wp (sym_at (i * sym_entsize)) Q s.
Proof.
  intros (H1 & H2 & H3 & H4) HQ. unfold sym_at. wp_step. apply wp_get. wp_step. apply wp_peekl.
  unfold id. rewrite H1, H2, H3, H4. destruct Hok as (_ & Hs & _).
  destruct (Z.eqb_spec strh 0); [done|]. by wp_step.
Qed.

Lemma tables_at_e_point x s : tables_at s → tables_at (set_e_point x s).
Proof. done. Qed.

Lemma last_named_split a b i l old :
  last_named (a + b) i l old = last_named b (i + Z.of_nat a) l (last_named a i l old).
Proof.
  revert i old. induction a as [|a IH]; intros i old; cbn [last_named Nat.add].
  - by rewrite Z.add_0_r.
  - rewrite IH. f_equal. lia.
Qed.

(** The scan for the entry symbol ends, and keeps the last match. *)
Lemma find_start_spec lit_start l fuel (Q : unit → loader → Prop) s :
  tables_at s → cstring m lit_start l → (length l < fuel)%nat → (Z.to_nat sym_count < fuel)%nat →
  Q tt (set_e_point (last_named (Z.to_nat sym_count) 0 l (e_point s)) s) →
  wp (find_start lit_start fuel) Q s.
Proof.
  intros Hs Hl Hf1 Hf2 HQ. pose proof Hs as (H1 & H2 & H3 & H4). pose proof Hok as (O1 & O2 & O3 & O4 & O5 & O6).
  assert (0 <= sym_count) as Hc by (apply Z.div_pos; [apply rd64_range|done]).
  unfold find_start. wp_step. apply wp_get. rewrite H2, H3.
  destruct (Z.eqb_spec symh 0); [done|]. destruct (Z.eqb_spec strh 0); [done|]. wp_step.
  eapply (wp_while (λ off s', ∃ i, off = i * sym_entsize ∧ 0 <= i <= sym_count ∧
      s' = set_e_point (last_named (Z.to_nat i) 0 l (e_point s)) s)
    (λ off, Z.to_nat (sym_count - off / sym_entsize))).
  - intros off s1 (i & -> & Hi & ->). wp_step. apply wp_peekl. wp_step.
    cbn [mm set_e_point set_results]. rewrite H1, sym_ltb.
    destruct (Z.ltb_spec i sym_count) as [Hlt|Hge].
    2: { wp_step. assert (i = sym_count) as -> by lia. done. }
    wp_step. apply wp_sym_at; [by apply tables_at_e_point|]. wp_step. apply wp_peekl. unfold id.
    cbn [mm set_e_point set_results fst snd]. rewrite H1. wp_step.
    destruct (O6 i) as [l2 Hl2]; [lia|]. eapply wp_strcmp; [done|done|done|]. intros c ->.
    rewrite negb_involutive. wp_step.
    assert (∀ s', s' = set_e_point (last_named (Z.to_nat (i + 1)) 0 l (e_point s)) s →
      wp (e ← peekl (sh_entsize symh); mret (u64 (i * sym_entsize + e))) (λ a' s', (∃ i0,
        a' = i0 * sym_entsize ∧ 0 <= i0 <= sym_count ∧
        s' = set_e_point (last_named (Z.to_nat i0) 0 l (e_point s)) s) ∧
        (Z.to_nat (sym_count - a' / sym_entsize) < Z.to_nat (sym_count - i * sym_entsize / sym_entsize))%nat) s') as Hnext.
    { intros s' ->. wp_step. apply wp_peekl. cbn [mm set_e_point set_results]. rewrite H1.
      fold sym_entsize. wp_step. rewrite sym_off by lia. rewrite !Z.div_mul by lia.
      split; [|lia]. exists (i + 1). split_and!; [done|lia|lia|done]. }
    replace (Z.to_nat (i + 1)) with (Z.to_nat i + 1)%nat in Hnext by lia.
    rewrite last_named_split, Z2Nat.id in Hnext by lia. cbn [last_named] in Hnext. rewrite Z.add_0_l in Hnext.
    destruct (is_named m (sym_name i) l); [apply wp_modify|wp_step]; by apply Hnext.
  - exists 0. split_and!; [lia|lia|lia|]. by destruct s.
  - rewrite Z.div_0_l by lia. by rewrite Z.sub_0_r.
Qed.

(** ** Looking symbols up *)
(** The cached symbol is the first one with its name. *)
Definition cache_ok (s : loader) : Prop :=
  prev_matching_sym s = 0 ∨ ∃ i, prev_matching_sym s = sym i ∧ 0 <= i < sym_count ∧
    ∀ l, Forall (λ c, c ≠ 0) l → is_named m (sym_name i) l = true →
      first_named (Z.to_nat sym_count) 0 l = Some i.

Lemma cache_ok_first l i s :
  Forall (λ c, c ≠ 0) l → first_named (Z.to_nat sym_count) 0 l = Some i → cache_ok (set_prev (sym i) s).
Proof.
  intros Hl Hi. right. exists i. pose proof (first_named_some _ _ _ _ Hi) as (H1 & H2 & _).
  split_and!; [done|lia|lia|]. intros l' Hl' Hn. destruct Hok as (_ & _ & _ & _ & _ & O6).
  destruct (O6 i) as [n Hn2]; [lia|].
  apply (is_named_spec _ _ _ n) in Hn, H2; [|done..]. congruence.
Qed.

Section lookup.
Context (l : list Z) (name : Z) (fuel : nat) (s : loader).
Hypothesis Hs : tables_at s.
Hypothesis Hl : cstring m name l.
Hypothesis Hf1 : (length l < fuel)%nat.
Hypothesis Hf2 : (Z.to_nat sym_count + 1 < fuel)%nat.
Hypothesis Hcache : cache_ok s.

Definition lookup_post (r : Z) (s' : loader) : Prop :=
  r = lookup_symbol l ∧ tables_at s' ∧ cache_ok s'.

(** Not found among the first [i], or found. *)
Definition search_inv (a : Z * option Z) (s' : loader) : Prop :=
  (∃ i, a = (i * sym_entsize, None) ∧ 0 <= i <= sym_count ∧ s' = s ∧
     ∀ j, 0 <= j < i → is_named m (sym_name j) l = false) ∨
  (a.2 = Some (lookup_symbol l) ∧ tables_at s' ∧ cache_ok s').

Lemma search_step i :
  0 <= i < sym_count → (∀ j, 0 <= j < i → is_named m (sym_name j) l = false) →
  wp (sn ← sym_at (i * sym_entsize);
      m ← peekl id;
      c ← lift (strcmp fuel m name sn.2);
      if negb (truth c) then
        modify (set_prev sn.1) ;;
        mret (i * sym_entsize, Some (st_value sn.1 m))
      else
        e ← peekl (sh_entsize symh);
        mret (u64 (i * sym_entsize + e), None))
    (λ a s', search_inv a s' ∧
      (match a.2 with Some _ => 0 | None => S (Z.to_nat (sym_count - a.1 / sym_entsize)) end
        < S (Z.to_nat (sym_count - i)))%nat) s.
Proof.
  intros Hi Hb. pose proof Hs as (H1 & _). pose proof Hok as (_ & _ & O3 & _ & _ & O6).
  wp_step. apply wp_sym_at; [done|]. wp_step. apply wp_peekl. unfold id. rewrite H1. wp_step.
  cbn [fst snd]. destruct (O6 i Hi) as [l2 Hl2]. eapply wp_strcmp; [done|done|done|]. intros c ->.
  rewrite negb_involutive. destruct (is_named m (sym_name i) l) eqn:En.
  - assert (first_named (Z.to_nat sym_count) 0 l = Some i) as Hfi
      by (apply first_named_intro; [lia|exact En|exact Hb]).
    wp_step. apply wp_modify. wp_step. split; [right; cbn [snd]|cbn; lia]. unfold lookup_symbol.
    rewrite Hfi. split_and!; [done|done|]. apply (cache_ok_first l); [exact (cstring_nonzero m name l Hl)|exact Hfi].
  - wp_step. apply wp_peekl. rewrite H1. wp_step. fold sym_entsize. rewrite sym_off by lia.
    cbn [fst snd]. rewrite Z.div_mul by lia. split; [left|lia]. exists (i + 1).
    split_and!; [done|lia|lia|done|]. intros j Hj. destruct (decide (j = i)) as [->|]; [done|]. apply Hb. lia.
Qed.

Lemma search_symbol_spec : wp (search_symbol fuel name) lookup_post s.
Proof.
  pose proof Hs as (H1 & H2 & _). pose proof Hok as (O1 & _ & O3 & _).
  assert (0 <= sym_count) as Hc by (apply Z.div_pos; [apply rd64_range|done]).
  unfold search_symbol. wp_step. apply wp_get. rewrite H2. destruct (Z.eqb_spec symh 0); [done|]. wp_step.
  eapply (wp_while search_inv
    (λ a, match a.2 with Some _ => O | None => S (Z.to_nat (sym_count - a.1 / sym_entsize)) end)).
  - intros a s1 [(i & -> & Hi & -> & Hb)|(Ha & Ht & Hc1)].
    + wp_step. apply wp_peekl. wp_step. cbn [fst snd]. rewrite H1, sym_ltb, Z.div_mul by lia.
      destruct (Z.ltb_spec i sym_count) as [Hlt|Hge]; [by apply search_step; [lia|]|].
      wp_step. cbn [snd default]. split_and!; [|done|done]. unfold lookup_symbol.
      destruct (first_named (Z.to_nat sym_count) 0 l) as [r|] eqn:Er; [|done].
      apply first_named_some in Er as (R1 & R2 & _). rewrite Hb in R2 by lia. done.
    + wp_step. apply wp_peekl. wp_step. rewrite Ha. wp_step. done.
  - left. exists 0. split_and!; [done|lia|lia|done|]. intros; lia.
  - cbn [fst snd]. rewrite Z.div_0_l by lia. lia.
Qed.

Lemma get_symbol_spec : wp (Get_Symbol_Addr fuel name) lookup_post s.
Proof.
  pose proof Hs as (H1 & H2 & H3 & H4). pose proof Hok as (O1 & O2 & _ & _ & _ & O6).
  unfold Get_Symbol_Addr. wp_step. apply wp_get. rewrite H2, H3, H4.
  destruct (Z.eqb_spec symh 0); [done|]. destruct (Z.eqb_spec strh 0); [done|]. wp_steps.
  apply wp_peekl. unfold id. rewrite H1. cbv zeta.
  destruct (Z.eqb_spec (prev_matching_sym s) 0) as [|Hp]; cbn [negb]; [apply search_symbol_spec|].
  destruct Hcache as [?|(i & Ei & Hi & Hfirst)]; [done|]. rewrite Ei. fold (sym_name i).
  wp_step. destruct (O6 i Hi) as [l2 Hl2]. eapply wp_strcmp; [done|done|done|]. intros c ->.
  rewrite negb_involutive. destruct (is_named m (sym_name i) l) eqn:En; [|apply search_symbol_spec].
  wp_step. split_and!; [|done|done]. unfold lookup_symbol.
  by rewrite (Hfirst l (cstring_nonzero m name l Hl) En).
Qed.
End lookup.
End symbols.

(** ** Section headers *)
Section sections.
Context (m : mem) (K len : Z).
Definition shdr (i : Z) : Z := K + e_shoff K m + i * e_shentsize K m.
Definition shnum : Z := e_shnum K m.
Definition names_hdr : Z := shdr (e_shstrndx K m).
Definition sect_name (sh : Z) : Z := u32 (sh_name sh m + u32 (sh_offset names_hdr m) + K).

(** The headers lie in the image, every name is a terminated string. *)
Definition sections_ok : Prop :=
  64 <= e_shentsize K m ∧ e_shoff K m + shnum * e_shentsize K m <= len ∧
  e_shstrndx K m < shnum ∧ ∀ i, 0 <= i < shnum → ∃ l, cstring m (sect_name (shdr i)) l.

(** The last of [n] sections from [i] on with [p], or [old]. *)
Fixpoint last_section (p : Z → bool) (n : nat) (i old : Z) : Z :=
  match n with
  | O => old
  | S n => last_section p n (i + 1) (if p (shdr i) then shdr i else old)
  end.
Definition is_symtab (sh : Z) : bool := sh_type sh m =? SHT_SYMTAB.
Definition is_strtab (sh : Z) : bool := is_named m (sect_name sh) (cstr ".strtab").
Definition symtab_of (old : Z) : Z := last_section is_symtab (Z.to_nat shnum) 0 old.
Definition strtab_of (old : Z) : Z := last_section is_strtab (Z.to_nat shnum) 0 old.

Lemma last_section_snoc p i old :
  0 <= i → last_section p (Z.to_nat (i + 1)) 0 old =
    if p (shdr i) then shdr i else last_section p (Z.to_nat i) 0 old.
Proof.
  intros Hi. replace (Z.to_nat (i + 1)) with (S (Z.to_nat i)) by lia.
  assert (∀ n j old, last_section p (S n) j old =
    if p (shdr (j + Z.of_nat n)) then shdr (j + Z.of_nat n) else last_section p n j old) as E.
  { clear. induction n as [|n IH]; intros j old; [cbn; by rewrite Z.add_0_r|].
    change (last_section p (S (S n)) j old)
      with (last_section p (S n) (j + 1) (if p (shdr j) then shdr j else old)).
    rewrite IH. replace (j + 1 + Z.of_nat n) with (j + Z.of_nat (S n)) by lia. done. }
  rewrite E. by replace (0 + Z.of_nat (Z.to_nat i)) with i by lia.
Qed.

Hypothesis image_low : 0 < K ∧ 0 < len < 2 ^ 31 ∧ K + len <= 2 ^ 32.
Hypothesis Hok : sections_ok.

Lemma wp_shdr_at i (Q : Z → loader → Prop) s :
  ram (mm s) = m → 0 <= i < shnum → Q (shdr i) s →
  wp (on_mm (hdr_at i K (e_shentsize K) (e_shoff K))) Q s.
Proof.
  intros Hm Hi HQ. apply wp_on_mm. unfold hdr_at. wp_step. apply wp_peek. unfold id. cbn [pg_ram tload_pager_ops].
  rewrite Hm. destruct Hok as (H1 & H2 & _). pose proof (rd64_range m (K + 40)) as Ho. fold (e_shoff K m) in Ho.
  assert (i * e_shentsize K m + e_shentsize K m <= shnum * e_shentsize K m) by nia.
  destruct (Z.ltb_spec (i * e_shentsize K m) (2 ^ 31)) as [_|?]; [|lia]. wp_step.
  assert (0 <= i * e_shentsize K m) by nia.
  rewrite (u32_small (e_shoff K m)), u32_small by lia.
  replace (i * e_shentsize K m + e_shoff K m + K) with (shdr i) by (unfold shdr; lia). by destruct s.
Qed.

Lemma find_sections_spec lit_strtab fuel (Q : unit → loader → Prop) s :
  ram (mm s) = m → cstring m lit_strtab (cstr ".strtab") → (7 < fuel)%nat →
  Q tt (set_strtab (strtab_of (strtab s)) (set_symtab (symtab_of (symtab s)) (set_shstrtab names_hdr s))) →
  wp (find_sections lit_strtab fuel K K) Q s.
Proof.
  intros Hm Hlit Hf HQ. pose proof Hok as (H1 & H2 & H3 & H4).
  assert (0 <= e_shstrndx K m) as N0 by apply (rd_range 2). assert (0 <= shnum < 65536) as N1 by apply (rd_range 2).
  unfold find_sections. wp_step. apply wp_peekl. rewrite Hm. wp_step.
  apply wp_shdr_at; [done|done|]. wp_step. apply wp_modify. wp_step. fold names_hdr.
  eapply (wp_while (λ i s', 0 <= i <= shnum ∧
      s' = set_strtab (last_section is_strtab (Z.to_nat i) 0 (strtab s))
             (set_symtab (last_section is_symtab (Z.to_nat i) 0 (symtab s)) (set_shstrtab names_hdr s)))
    (λ i, Z.to_nat (shnum - i))).
  - intros i s1 [Hi ->]. wp_step. apply wp_peekl. wp_step. cbn [mm set_strtab set_symtab set_shstrtab].
    rewrite Hm. fold shnum. destruct (Z.ltb_spec i shnum) as [Hlt|Hge].
    2: { wp_step. by replace i with shnum by lia. }
    wp_step. apply wp_shdr_at; [done|lia|]. wp_step. apply wp_peekl. unfold id.
    cbn [mm set_strtab set_symtab set_shstrtab]. rewrite Hm. cbv zeta. fold (sect_name (shdr i)).
    set (st := last_section is_strtab (Z.to_nat i) 0 (strtab s)).
    set (sy := last_section is_symtab (Z.to_nat i) 0 (symtab s)).
    wp_step. assert (∀ (R : unit → loader → Prop),
      R tt (set_strtab st (set_symtab (if is_symtab (shdr i) then shdr i else sy) (set_shstrtab names_hdr s))) →
      wp (if sh_type (shdr i) m =? SHT_SYMTAB then modify (set_symtab (shdr i)) else mret tt) R
        (set_strtab st (set_symtab sy (set_shstrtab names_hdr s)))) as Hsym.
    { intros R HR. fold (is_symtab (shdr i)). destruct (is_symtab (shdr i)); [by apply wp_modify|by apply wp_ret]. }
    apply Hsym. wp_step. destruct (H4 i) as [l2 Hl2]; [lia|]. eapply wp_strcmp; [done|done|cbn; lia|].
    intros c ->. rewrite negb_involutive. fold (is_strtab (shdr i)). wp_step.
    destruct (is_strtab (shdr i)) eqn:Es; [apply wp_modify|wp_step]; wp_step;
      rewrite u16_small by lia; (split; [split; [lia|]|lia]);
      rewrite !last_section_snoc, Es by lia; reflexivity.
  - split; [lia|]. by destruct s.
  - unfold max_hdrs. lia.
Qed.
End sections.

(** ** What the tables say does not depend on memory outside the image *)
Section agree.
Context (K len : Z) (m0 m : mem).
Hypothesis Hagree : ∀ a, in_image K len a → rd8 m a = rd8 m0 a.

Definition str_in (a : Z) : Prop := ∃ l, cstring m0 a l ∧ K <= a ∧ a + Z.of_nat (length l) < K + len.

Lemma rd_agree n a : K <= a → a + Z.of_nat n <= K + len → rd n m a = rd n m0 a.
Proof. intros. apply rd_ext. intros j Hj. apply Hagree. unfold in_image. lia. Qed.

Lemma str_agree a : str_in a → ∃ l, cstring m a l.
Proof.
  intros (l & Hl & H1 & H2). exists l. eapply cstring_agree; [|done].
  intros j Hj. symmetry. apply Hagree. unfold in_image. lia.
Qed.

Lemma named_agree a l : Forall (λ c, c ≠ 0) l → str_in a → is_named m a l = is_named m0 a l.
Proof.
  intros Hn (l2 & Hl & H1 & H2). assert (cstring m a l2) as Hl'.
  { eapply cstring_agree; [|done]. intros j Hj. symmetry. apply Hagree. unfold in_image. lia. }
  pose proof (is_named_spec m a l l2 Hn Hl'). pose proof (is_named_spec m0 a l l2 Hn Hl).
  destruct (is_named m a l), (is_named m0 a l); try done; exfalso; intuition congruence.
Qed.

Hypothesis Hlen : 64 <= len.
Hypothesis Hsec : 64 <= e_shentsize K m0 ∧ e_shoff K m0 + shnum m0 K * e_shentsize K m0 <= len ∧
  e_shstrndx K m0 < shnum m0 K.
Hypothesis Hnames : ∀ i, 0 <= i < shnum m0 K → str_in (sect_name m0 K (shdr m0 K i)).

Lemma ehdr_agree :
  e_shoff K m = e_shoff K m0 ∧ e_shentsize K m = e_shentsize K m0 ∧
  e_shnum K m = e_shnum K m0 ∧ e_shstrndx K m = e_shstrndx K m0 ∧ e_entry K m = e_entry K m0.
Proof.
  split_and!; [apply (rd_agree 8)|apply (rd_agree 2)|apply (rd_agree 2)|apply (rd_agree 2)|apply (rd_agree 8)]; lia.
Qed.

Lemma shdr_agree i : shdr m K i = shdr m0 K i.
Proof. unfold shdr. destruct ehdr_agree as (-> & -> & _). done. Qed.

Lemma shdr_in i : 0 <= i < shnum m0 K → K <= shdr m0 K i ∧ shdr m0 K i + 64 <= K + len.
Proof.
  destruct Hsec as (H1 & H2 & _). intros Hi. pose proof (rd64_range m0 (K + 40)) as Ho.
  fold (e_shoff K m0) in Ho. unfold shdr.
  assert (i * e_shentsize K m0 + e_shentsize K m0 <= shnum m0 K * e_shentsize K m0) by nia. nia.
Qed.

Lemma shdr_fields sh :
  K <= sh → sh + 64 <= K + len →
  sh_name sh m = sh_name sh m0 ∧ sh_type sh m = sh_type sh m0 ∧ sh_offset sh m = sh_offset sh m0 ∧
  sh_size sh m = sh_size sh m0 ∧ sh_entsize sh m = sh_entsize sh m0.
Proof.
  intros. split_and!; [apply (rd_agree 4)|apply (rd_agree 4)|apply (rd_agree 8)|apply (rd_agree 8)|apply (rd_agree 8)]; lia.
Qed.

Lemma sect_name_agree i :
  0 <= i < shnum m0 K → sect_name m K (shdr m K i) = sect_name m0 K (shdr m0 K i).
Proof.
  intros Hi. unfold sect_name, names_hdr. destruct ehdr_agree as (_ & _ & _ & -> & _). rewrite !shdr_agree.
  destruct (shdr_in i Hi) as [I1 I2]. destruct (shdr_fields _ I1 I2) as (-> & _).
  destruct (shdr_in (e_shstrndx K m0)) as [I3 I4]; [split; [apply (rd_range 2)|tauto]|].
  by destruct (shdr_fields _ I3 I4) as (_ & _ & -> & _).
Qed.

Lemma sections_ok_agree : sections_ok m K len.
Proof.
  unfold sections_ok, shnum. destruct ehdr_agree as (-> & -> & -> & -> & _). split_and!; [tauto..|].
  intros i Hi. rewrite sect_name_agree by done. by apply str_agree, Hnames.
Qed.

Lemma last_section_agree (p p' : Z → bool) n i old :
  0 <= i → i + Z.of_nat n <= shnum m0 K →
  (∀ j, 0 <= j < shnum m0 K → p (shdr m K j) = p' (shdr m0 K j)) →
  last_section m K p n i old = last_section m0 K p' n i old.
Proof.
  intros Hi Hn Hp. revert i old Hi Hn. induction n as [|n IH]; intros i old Hi Hn; [done|].
  cbn [last_section]. rewrite Hp, shdr_agree by lia. apply IH; lia.
Qed.

Lemma tables_agree old :
  symtab_of m K old = symtab_of m0 K old ∧ strtab_of m K old = strtab_of m0 K old.
Proof.
  assert (0 <= shnum m0 K) as N0 by apply (rd_range 2).
  unfold symtab_of, strtab_of. assert (shnum m K = shnum m0 K) as -> by apply ehdr_agree.
  split; (apply last_section_agree; [lia|lia|]); intros j Hj.
  - unfold is_symtab. rewrite shdr_agree. destruct (shdr_in j Hj) as [I1 I2].
    by destruct (shdr_fields _ I1 I2) as (_ & -> & _).
  - unfold is_strtab. rewrite sect_name_agree by done. apply named_agree; [by repeat constructor|].
    by apply Hnames.
Qed.

(** The symbols. *)
Context (symh strh : Z).
Hypothesis Hsymh : K <= symh ∧ symh + 64 <= K + len.
Hypothesis Hstrh : K <= strh ∧ strh + 64 <= K + len.
Definition symbols_in : Prop := ∀ i, 0 <= i < sym_count m0 symh →
  K <= sym m0 symh K i ∧ sym m0 symh K i + 24 <= K + len ∧ str_in (sym_name m0 symh strh K i).
Hypothesis Hsyms : symbols_ok m0 symh strh K.
Hypothesis Hin : symbols_in.

Lemma symh_agree :
  sym_entsize m symh = sym_entsize m0 symh ∧ sym_count m symh = sym_count m0 symh ∧
  (∀ i, sym m symh K i = sym m0 symh K i).
Proof.
  destruct (shdr_fields symh) as (_ & _ & E1 & E2 & E3); [lia|lia|].
  unfold sym_count, sym, sym_entsize. rewrite E1, E2, E3. done.
Qed.

Lemma sym_agree i : 0 <= i < sym_count m0 symh →
  st_value (sym m symh K i) m = st_value (sym m0 symh K i) m0 ∧
  sym_name m symh strh K i = sym_name m0 symh strh K i.
Proof.
  intros Hi. destruct (Hin i Hi) as (I1 & I2 & _). unfold sym_name.
  destruct symh_agree as (_ & _ & ->). destruct (shdr_fields strh) as (_ & _ & -> & _); [lia|lia|].
  split; [apply (rd_agree 8); lia|].
  by assert (st_name (sym m0 symh K i) m = st_name (sym m0 symh K i) m0) as -> by (apply (rd_agree 4); lia).
Qed.

Lemma symbols_ok_agree : symbols_ok m symh strh K.
Proof.
  destruct Hsyms as (H1 & H2 & H3 & H4 & H5 & _). destruct symh_agree as (E1 & E2 & _).
  destruct (shdr_fields symh) as (_ & _ & _ & E3 & _); [lia|lia|].
  unfold symbols_ok. rewrite E1, E2, E3. split_and!; [done..|].
  intros i Hi. destruct (sym_agree i Hi) as [_ ->]. apply str_agree. by apply Hin.
Qed.

Lemma last_named_agree n i l old :
  Forall (λ c, c ≠ 0) l → 0 <= i → i + Z.of_nat n <= sym_count m0 symh →
  last_named m symh strh K n i l old = last_named m0 symh strh K n i l old.
Proof.
  intros Hl. revert i old. induction n as [|n IH]; intros i old Hi Hn; [done|]. cbn [last_named].
  destruct (sym_agree i) as [-> ->]; [lia|]. rewrite named_agree by (done || apply Hin; lia).
  apply IH; lia.
Qed.
End agree.

(** ** A statically linked kernel *)
Definition symh_of (m : mem) (K : Z) : Z := symtab_of m K 0.
Definition strh_of (m : mem) (K : Z) : Z := strtab_of m K 0.

(** The image of [len] bytes at [K] is an ELF64 executable for x86-64 with
    disjoint loadable segments and terminated section and symbol names. *)
Record exec_image (m : mem) (K len : Z) : Prop := ExecImage {
  ex_low : 0 < K ∧ 0 < len < 2 ^ 31 ∧ K + len <= 2 ^ 32;
  ex_ident : e_ident 0 K m = 0x7f ∧ e_ident 1 K m = 69 ∧ e_ident 2 K m = 76 ∧ e_ident 3 K m = 70 ∧
    e_ident 4 K m = ELFCLASS64 ∧ e_ident 5 K m = ELFDATA2LSB;
  ex_type : e_type K m = ET_EXEC;
  ex_machine : e_machine K m = EM_X86_64;
  ex_phdrs : phdrs_in K len m;
  ex_segs : segs_ok K len m;
  ex_disjoint : segs_disjoint K m;
  ex_sections : 64 <= e_shentsize K m ∧ e_shoff K m + shnum m K * e_shentsize K m <= len ∧
    e_shstrndx K m < shnum m K;
  ex_names i : 0 <= i < shnum m K → str_in K len m (sect_name m K (shdr m K i));
  ex_symbols : symh_of m K ≠ 0 → strh_of m K ≠ 0 →
    symbols_ok m (symh_of m K) (strh_of m K) K ∧ symbols_in K len m (symh_of m K) (strh_of m K)
}.

(** The entry point: the last symbol [_start], or the header's. *)
Definition entry_of (m : mem) (K : Z) : Z :=
  let ep :=
    if (symh_of m K =? 0) || (strh_of m K =? 0) then 0
    else last_named m (symh_of m K) (strh_of m K) K (Z.to_nat (sym_count m (symh_of m K))) 0 (cstr "_start") 0 in
  if ep =? 0 then e_entry K m else ep.

Definition kernel_pages (m : mem) (K : Z) : nat := total_pages K m (Z.to_nat (phnum K m)) 0.
Definition enough_fuel (m : mem) (K : Z) (fuel : nat) : Prop :=
  (7 < fuel)%nat ∧ (symh_of m K ≠ 0 → (Z.to_nat (sym_count m (symh_of m K)) < fuel)%nat) ∧
  ∀ i, 0 <= i < phnum K m → (seg_pages m (phdr K m i) < fuel)%nat.

(** Before the call: page tables that map nothing, room for the kernel's
    pages and tables and for [n] pages more, and the image and the literals in
    pages that are taken. *)
Record load_ready (lit_strtab lit_start K len root : Z) (T : gmap (list Z) Z) (n x : nat) (s : loader) : Prop :=
LoadReady {
  lr_tree : tree (ram (mm s)) root T;
  lr_tables : tables_used (mm s) T;
  lr_unmapped v : va_ok v → leaf (ram (mm s)) root v = None;
  lr_inv : tload_inv (4 * (kernel_pages (ram (mm s)) K + n) + x) (mm s);
  lr_free : tload_free (4 * (kernel_pages (ram (mm s)) K + n)) (mm s);
  lr_image a : in_image K len a → data (mm s) T a;
  lr_strtab : cstring (ram (mm s)) lit_strtab (cstr ".strtab") ∧
    ∀ a, lit_strtab <= a < lit_strtab + 8 → data (mm s) T a;
  lr_start : cstring (ram (mm s)) lit_start (cstr "_start") ∧
    ∀ a, lit_start <= a < lit_start + 7 → data (mm s) T a;
  lr_globals : symtab s = 0 ∧ strtab s = 0
}.

(** What the loading leaves: room for [n] pages more, a tree of tables that
    maps, below 4 GiB, only pages with a byte of a segment, each to a page of
    the image or one that was free, and every taken byte unchanged and still
    out of the tables. *)
Record paging_left (root : Z) (T : gmap (list Z) Z) (n sp : nat) (img : Z → Prop) (seg : Z → Z → Prop)
  (x x' : tload) : Prop :=
PagingLeft {
  pl_heap : same_heap x x';
  pl_inv : tload_inv (4 * n + sp) x';
  pl_free : tload_free (4 * n) x';
  pl_tree : ∃ T', tree (ram x') root T' ∧ tables_used x' T' ∧ data_kept x T x' T' ∧
    ∀ v pa, va_ok v → translate (ram x') root v = Some pa →
      0 <= pa < 2 ^ 32 ∧ data x' T' pa ∧ (img pa ∨ ¬ tload_used x pa) ∧ ∃ w c, w / 4096 = v / 4096 ∧ seg w c
}.

(** Afterwards: every byte of every segment is mapped and has its value, and
    no byte of a page that was taken has changed. *)
Record exec_loaded (K len root : Z) (T : gmap (list Z) Z) (n x : nat) (s s' : loader) : Prop := ExecLoaded {
  el_bytes i j : 0 <= i < phnum K (ram (mm s)) → loads (ram (mm s)) (phdr K (ram (mm s)) i) = true →
    0 <= j < p_memsz (phdr K (ram (mm s)) i) (ram (mm s)) →
    ∃ pa, translate (ram (mm s')) root (p_vaddr (phdr K (ram (mm s)) i) (ram (mm s)) + j) = Some pa ∧
      rd8 (ram (mm s')) pa = seg_byte K (ram (mm s)) (phdr K (ram (mm s)) i) j;
  el_paging : paging_left root T n x (in_image K len) (loaded_bytes K (ram (mm s)) (phnum K (ram (mm s)))) (mm s) (mm s');
  el_entry : e_point s' = entry_of (ram (mm s)) K;
  el_offset : load_offset s' = 0;
  el_size : ∃ lo hi, image_range K (ram (mm s)) (phnum K (ram (mm s))) lo hi ∧ kernel_vsize s' = image_len lo hi;
  el_tables : symtab s' = symh_of (ram (mm s)) K ∧ strtab s' = strh_of (ram (mm s)) K ∧ k s' = K
}.

Lemma last_section_in m K len p n i old :
  (∀ j, i <= j < i + Z.of_nat n → K <= shdr m K j ∧ shdr m K j + 64 <= K + len) →
  last_section m K p n i old = old ∨
  (K <= last_section m K p n i old ∧ last_section m K p n i old + 64 <= K + len).
Proof.
  revert i old. induction n as [|n IH]; intros i old Hi; [by left|]. cbn [last_section].
  destruct (IH (i + 1) (if p (shdr m K i) then shdr m K i else old)) as [E|E]; [|rewrite E|by right].
  - intros j Hj. apply Hi. lia.
  - destruct (p (shdr m K i)); [right|by left]. apply Hi. lia.
Qed.

Section exec.
Context (lit_strtab lit_start K len root : Z) (T : gmap (list Z) Z) (fuel n sp : nat) (s : loader).
#[local] Instance load_pager : Pager tload := pager_at (heap_start (mm s)) (heap_end (mm s)) sp.
Let m0 := ram (mm s).
Hypothesis Hex : exec_image m0 K len.
Hypothesis Hrdy : load_ready lit_strtab lit_start K len root T n sp s.
Hypothesis Hfuel : enough_fuel m0 K fuel.

Lemma ready_pages :
  pages_inv K len m0 (data (mm s) T) root (mm s) (kernel_pages m0 K + n) (mm s) ∅ (λ _ _, False).
Proof.
  destruct Hrdy as [R1 R2 R3 R4 R5 R6 R7 R8 R9]. split; try done.
  - exists T. split_and!; [done|done|done|]. intros vp f Hf. by rewrite lookup_empty in Hf.
  - intros vp Hv _. by apply R3.
Qed.

(** The segments. *)
Lemma segments_paging x G :
  pages_inv K len m0 (data (mm s) T) root (mm s) n x G (loaded_bytes K m0 (phnum K m0)) →
  coherent K len G (loaded_bytes K m0 (phnum K m0)) →
  paging_left root T n sp (in_image K len) (loaded_bytes K m0 (phnum K m0)) (mm s) x.
Proof.
  intros HI Hc. pose proof HI as [(I1 & I1') I2 _ (T' & I3 & I4 & I5 & I6) I7 I8 _ _ I9 _]. split; [done|exact I1|exact I2|].
  exists T'. split; [exact I3|]. split; [exact I4|]. split; [intros a Ha; split; [by apply I5|by apply I7]|].
  intros v pa Hv Ht. unfold translate in Ht. rewrite leaf_page in Ht by done.
  assert (va_ok (v / 4096 * 4096)) as Hv'.
  { destruct Hv as [Hv Hu]. split; [dlia|]. unfold user_va, GET_PML4T_ENTRY_NO in *. rewrite land_1ff, Z.shiftr_div_pow2 in * by lia.
    intros E. apply Hu. rewrite <- E. change (2 ^ 39) with (4096 * 134217728). rewrite <- !Z.div_div, Z.div_mul by lia. done. }
  destruct (G !! (v / 4096)) as [f|] eqn:Eg.
  - assert (∀ j, 0 <= j < 4096 → in_image K len (f + j) ∨ ¬ tload_used (mm s) (f + j)) as Hkind.
    { destruct (I8 _ _ Eg) as ((F0 & F1 & F2) & _). intros j Hj.
      destruct (pi_kind _ _ _ _ _ _ _ _ _ _ HI _ _ Eg) as [[A1 A2]|Hn]; [left; unfold in_image; lia|right].
      intros Hu. apply Hn. revert Hu. unfold tload_used. by assert ((f + j) / 4096 = f / 4096) as -> by dlia. }
    destruct (I8 _ _ Eg) as ((F0 & F1 & F2) & _ & e & He & Hfe). change (pg_ram x) with (ram x) in He. rewrite He in Ht.
    cbn in Ht. injection Ht as <-. unfold GET_PAGE_OFFSET. rewrite land_fff, Hfe. split; [dlia|].
    split; [|split; [apply Hkind; dlia|exact (proj1 (Hc _ _ Eg))]]. pose proof (I6 _ _ Eg) as [D1 D2]. split; rewrite pageof_frame by (done || dlia).
    + by rewrite pageof_aligned in D1.
    + intros q. specialize (D2 q). by rewrite pageof_aligned in D2.
  - specialize (I9 _ Hv' Eg). change (pg_ram x) with (ram x) in I9. by rewrite I9 in Ht.
Qed.

Lemma exec_segments (Q : unit → tload → Prop) :
  (∀ x, paging_left root T n sp (in_image K len) (loaded_bytes K m0 (phnum K m0)) (mm s) x →
     (∀ i j, 0 <= i < phnum K m0 → loads m0 (phdr K m0 i) = true → 0 <= j < p_memsz (phdr K m0 i) m0 →
       ∃ pa, translate (ram x) root (p_vaddr (phdr K m0 i) m0 + j) = Some pa ∧
         rd8 (ram x) pa = seg_byte K m0 (phdr K m0 i) j) → Q tt x) →
  wp (load_segments fuel K K root) Q (mm s).
Proof.
  intros HQ. destruct Hex as [X1 _ _ _ X5 X6 X7 _ _ _].
  eapply wp_mono; [apply (tload_segments_spec (H0 := load_pager) K len m0 (data (mm s) T) (lr_image _ _ _ _ _ _ _ _ _ Hrdy) X1 root (mm s)
    (λ a H, proj1 H) fuel n (mm s) ∅ X5 X6 X7 (proj2 (proj2 Hfuel)) ready_pages); done|].
  cbv beta. intros [] x (G & HI & Hc). apply HQ; [by eapply segments_paging|].
  intros i j Hi Hl Hj. destruct (X6 i Hi Hl) as (_ & _ & _ & Hv). destruct (seg_nonneg m0 (phdr K m0 i)) as (_ & _ & V0).
  destruct (pi_bytes _ _ _ _ _ _ _ _ _ _ HI (p_vaddr (phdr K m0 i) m0 + j) (seg_byte K m0 (phdr K m0 i) j))
    as (f & Hf & Hb).
  { exists i. split; [done|]. split; [done|]. exists j. done. }
  destruct (pi_map _ _ _ _ _ _ _ _ _ _ HI _ _ Hf) as (_ & _ & e & He & Hfe).
  assert (va_ok (p_vaddr (phdr K m0 i) m0 + j)) as Hva by (apply va_ok_low; lia).
  exists (f + (p_vaddr (phdr K m0 i) m0 + j) mod 4096). split; [|done].
  unfold translate. change (pg_ram x) with (ram x) in He. rewrite leaf_page, He by done. cbn.
  unfold GET_PAGE_OFFSET. by rewrite land_fff, Hfe.
Qed.

Lemma exec_ident (Q : option string → loader → Prop) s1 :
  mm s1 = mm s → Q None s1 → wp (check_ident K) Q s1.
Proof.
  intros Em HQ. destruct (ex_ident _ _ _ Hex) as (E0 & E1 & E2 & E3 & E4 & E5).
  unfold check_ident. wp_step. apply wp_peekl. rewrite Em. unfold id. fold m0.
  rewrite E0, E1, E2, E3, E4, E5. by wp_step.
Qed.

Lemma exec_bounds (Q : Z * Z → loader → Prop) s1 :
  mm s1 = mm s → (∀ lo hi, image_range K m0 (phnum K m0) lo hi → Q (lo, hi) s1) →
  wp (on_mm (image_bounds K K)) Q s1.
Proof.
  intros Em HQ. apply wp_on_mm. rewrite Em.
  eapply wp_mono; [apply (image_bounds_spec K len m0 (data (mm s) T) (lr_image _ _ _ _ _ _ _ _ _ Hrdy)
    (ex_low _ _ _ Hex) (mm s) (ex_phdrs _ _ _ Hex)); done|].
  intros [lo hi] x [-> Hr]. rewrite <- Em. apply HQ in Hr. by destruct s1.
Qed.

Lemma exec_tables m :
  (∀ a, data (mm s) T a → rd8 m a = rd8 m0 a) →
  sections_ok m K len ∧ symtab_of m K 0 = symh_of m0 K ∧ strtab_of m K 0 = strh_of m0 K ∧
  e_entry K m = e_entry K m0 ∧
  cstring m lit_strtab (cstr ".strtab") ∧ cstring m lit_start (cstr "_start").
Proof.
  intros Hm. assert (∀ a, in_image K len a → rd8 m a = rd8 m0 a) as Ha by (intros a Hi; by apply Hm, Hrdy).
  destruct (ex_phdrs _ _ _ Hex) as (Hl & _). destruct Hrdy as [_ _ _ _ _ _ [L1 L2] [L3 L4] _].
  destruct (tables_agree K len m0 m Ha Hl (ex_sections _ _ _ Hex) (ex_names _ _ _ Hex) 0) as [-> ->].
  split_and!; [|done|done| | |].
  - exact (sections_ok_agree K len m0 m Ha Hl (ex_sections _ _ _ Hex) (ex_names _ _ _ Hex)).
  - apply (ehdr_agree K len m0 m Ha Hl).
  - eapply cstring_agree; [|exact L1]. intros a Hi. symmetry. apply Hm, L2. cbn in Hi. lia.
  - eapply cstring_agree; [|exact L3]. intros a Hi. symmetry. apply Hm, L4. cbn in Hi. lia.
Qed.

Lemma section_hdr_in p :
  let sh := last_section m0 K p (Z.to_nat (shnum m0 K)) 0 0 in
  sh ≠ 0 → K <= sh ∧ sh + 64 <= K + len.
Proof.
  cbv zeta. intros Hne. assert (0 <= shnum m0 K) by apply (rd_range 2).
  destruct (last_section_in m0 K len p (Z.to_nat (shnum m0 K)) 0 0) as [E|E]; [|done|done].
  intros j Hj. apply (shdr_in K len m0 (proj1 (ex_phdrs _ _ _ Hex)) (ex_sections _ _ _ Hex)). lia.
Qed.

(** The entry symbol. *)
Lemma exec_start (Q : unit → loader → Prop) s1 :
  (∀ a, data (mm s) T a → rd8 (ram (mm s1)) a = rd8 m0 a) →
  symtab s1 = symh_of m0 K → strtab s1 = strh_of m0 K → k s1 = K → e_point s1 = 0 →
  (∀ ep, (if ep =? 0 then e_entry K m0 else ep) = entry_of m0 K → Q tt (set_e_point ep s1)) →
  wp (find_start lit_start fuel) Q s1.
Proof.
  intros Hm Hy Ht Hk He HQ. unfold entry_of in HQ.
  destruct (exec_tables _ Hm) as (_ & _ & _ & _ & _ & Hlit).
  assert (∀ a, in_image K len a → rd8 (ram (mm s1)) a = rd8 m0 a) as Ha by (intros a Hi; by apply Hm, Hrdy).
  destruct (Z.eqb_spec (symh_of m0 K) 0) as [Ey|Ny]; [|destruct (Z.eqb_spec (strh_of m0 K) 0) as [Et|Nt]].
  - unfold find_start. wp_step. apply wp_get. rewrite Hy, Ey, Z.eqb_refl. wp_step.
    specialize (HQ 0 eq_refl). rewrite <- He in HQ. by destruct s1.
  - unfold find_start. wp_step. apply wp_get. rewrite Ht, Et, Z.eqb_refl. destruct (symtab s1 =? 0); wp_step;
      specialize (HQ 0 eq_refl); rewrite <- He in HQ; by destruct s1.
  - destruct (ex_symbols _ _ _ Hex Ny Nt) as [Hs Hi]. cbn [orb] in HQ.
    assert (K <= symh_of m0 K ∧ symh_of m0 K + 64 <= K + len) as HA by exact (section_hdr_in _ Ny).
    assert (K <= strh_of m0 K ∧ strh_of m0 K + 64 <= K + len) as HB by exact (section_hdr_in _ Nt).
    destruct (symh_agree K len m0 _ Ha (symh_of m0 K) HA) as (_ & Ec & _).
    destruct Hfuel as (F1 & F2 & _).
    assert (0 <= sym_count m0 (symh_of m0 K)) as C0.
    { destruct Hs as (_ & _ & H3 & _). apply Z.div_pos; [apply rd64_range|done]. }
    eapply (find_start_spec (ram (mm s1)) (symh_of m0 K) (strh_of m0 K) K).
    + by apply (symbols_ok_agree K len m0).
    + done.
    + exact Hlit.
    + cbn. lia.
    + rewrite Ec. by apply F2.
    + apply HQ. rewrite Ec, He. rewrite (last_named_agree K len m0) by (done || lia || by repeat constructor). done.
Qed.

Lemma load_exec_spec :
  wp (load_elf64_kernel lit_strtab lit_start fuel K root)
     (λ r s', r = 0 ∧ exec_loaded K len root T n sp s s') s.
Proof.
  destruct (lr_globals _ _ _ _ _ _ _ _ _ Hrdy) as [G1 G2]. unfold load_elf64_kernel.
  wp_step. apply wp_modify. wp_step. apply wp_modify. wp_step. apply exec_ident; [done|]. wp_step.
  apply exec_bounds; [done|]. intros lo hi Hr. cbv zeta. cbn [fst snd]. wp_step.
  unfold choose_base. wp_step. apply wp_peekl. cbn [mm set_kernel set_e_point set_results]. fold m0.
  rewrite (ex_type _ _ _ Hex). change (ET_EXEC =? ET_EXEC) with true. cbn iota. wp_step. cbn [snd fst].
  wp_step. apply wp_peekl. cbn [mm set_kernel set_e_point set_results]. fold m0.
  rewrite (ex_machine _ _ _ Hex). change (EM_X86_64 =? EM_X86_64) with true. cbn [negb]. wp_step.
  apply wp_on_mm. cbn [mm set_kernel set_e_point set_results]. apply exec_segments. intros x Hp Hbytes.
  assert (∀ a, data (mm s) T a → rd8 (ram x) a = rd8 m0 a) as Hx.
  { destruct (pl_tree _ _ _ _ _ _ _ _ Hp) as (T' & _ & _ & Hd & _). intros a Ha. by apply Hd. }
  destruct (exec_tables _ Hx) as (Hsec & Ey & Et & Een & Hl1 & Hl2). wp_step.
  apply (find_sections_spec (ram x) K len (ex_low _ _ _ Hex) Hsec); [done|done|apply Hfuel|].
  cbn [symtab strtab set_kernel set_e_point set_results set_shstrtab set_symtab]. rewrite G1, G2, Ey, Et.
  wp_step. wp_step. cbn [negb]. wp_step. apply exec_start; [exact Hx|reflexivity..|].
  intros ep Hep. wp_step. unfold set_outputs. wp_step. apply wp_peekl. apply wp_modify. wp_step.
  split; [done|].
  assert (e_entry K (ram x) = e_entry K m0) as Een' by exact Een.
  split; try done.
  - rewrite <- Een' in Hep. exact Hep.
  - exists lo, hi. done.
Qed.
End exec.

(** ** Claims *)

(** A small kernel in low memory: two segments that share a page, the second
    with a zeroed part that reaches into the next page, and a symbol table. *)
Definition phdr_bytes (ty fl off va fs ms : Z) : list Z :=
  le_bytes 4 ty ++ le_bytes 4 fl ++ le_bytes 8 off ++ le_bytes 8 va ++ le_bytes 8 va ++
  le_bytes 8 fs ++ le_bytes 8 ms ++ le_bytes 8 4096.
Definition shdr_bytes (name ty off sz es : Z) : list Z :=
  le_bytes 4 name ++ le_bytes 4 ty ++ le_bytes 8 0 ++ le_bytes 8 0 ++ le_bytes 8 off ++ le_bytes 8 sz ++
  le_bytes 4 0 ++ le_bytes 4 0 ++ le_bytes 8 0 ++ le_bytes 8 es.
Definition demo_image (ty : Z) (second : list Z) : list Z :=
  [0x7f; 69; 76; 70; 2; 1; 1; 0] ++ replicate 8 0 ++
  le_bytes 2 ty ++ le_bytes 2 EM_X86_64 ++ le_bytes 4 1 ++ le_bytes 8 0x40000000 ++ le_bytes 8 64 ++
  le_bytes 8 176 ++ le_bytes 4 0 ++ le_bytes 2 64 ++ le_bytes 2 56 ++ le_bytes 2 2 ++
  le_bytes 2 64 ++ le_bytes 2 4 ++ le_bytes 2 3 ++
  phdr_bytes PT_LOAD 5 520 0x40000010 8 8 ++ second ++
  shdr_bytes 0 0 0 0 0 ++ shdr_bytes 1 SHT_SYMTAB 432 48 24 ++ shdr_bytes 9 3 480 8 0 ++
  shdr_bytes 17 3 488 27 0 ++
  replicate 24 0 ++
  le_bytes 4 1 ++ [0; 0; 1; 0] ++ le_bytes 8 0x40000010 ++ le_bytes 8 0 ++
  [0] ++ cstr "_start" ++ [0] ++
  [0] ++ cstr ".symtab" ++ [0] ++ cstr ".strtab" ++ [0] ++ cstr ".shstrtab" ++ [0] ++
  replicate 5 0 ++ [1; 2; 3; 4; 5; 6; 7; 8].
Definition demo_len : Z := 528.
Definition demo_K : Z := 0x10000.
Definition demo_lits : list Z := cstr ".strtab" ++ [0] ++ cstr "_start" ++ [0].
Definition exec_file : list Z := demo_image ET_EXEC (phdr_bytes PT_LOAD 6 524 0x40000ff8 4 0x20).
(** Memory with the image and the literals, in normal form. *)
Definition exec_mem : mem := Eval vm_compute in put_bytes (put_bytes ∅ demo_K exec_file) 0x20000 demo_lits.
Definition demo_loader : loader :=
  Loader (with_ram (λ _, exec_mem) tload2) 0 0 0 0 0 0 0 0 0 0 0 0 0.

Lemma demo_ram : ram (mm demo_loader) = exec_mem.
Proof. reflexivity. Qed.

Lemma exec_mem_high a : 0x30000 <= a → rd8 exec_mem a = 0.
Proof. apply rd8_above. vm_compute. reflexivity. Qed.

#[local] Opaque tload2 root1 exec_file exec_mem.

Ltac ground := vm_compute; repeat split; try discriminate; try reflexivity.

Lemma forallb_elem (f : Z → bool) l x : forallb f l = true → x ∈ l → f x = true.
Proof. intros Hf Hx. rewrite forallb_forall in Hf. by apply Hf, list_elem_of_In. Qed.

Lemma demo_pages : kernel_pages (exec_mem) demo_K = 3%nat.
Proof. by vm_compute. Qed.

(** The tables were cleared, so nothing is mapped. *)
Lemma demo_tree : tree exec_mem root1 {[ [] := root1 ]}.
Proof.
  apply tree_fresh; [rewrite root1_value; split_and!; [lia|lia|done]|]. intros i Hi _.
  rewrite root1_value. unfold index in Hi. replace (entry exec_mem 0x800000 i) with 0; [done|].
  symmetry. apply (rd_zero 8). intros a Ha. apply exec_mem_high. lia.
Qed.

Lemma demo_used a : 0x10 <= a / 4096 < 0x21 → tload_used tload2 a.
Proof.
  intros Ha. unfold tload_used. generalize (a / 4096), Ha. clear. intros f Hf.
  assert (forallb (used (bitmap tload2)) (seqZ 16 17) = true) as E by (vm_compute; reflexivity).
  apply (forallb_elem _ _ f E), elem_of_seqZ. lia.
Qed.

Lemma demo_unused x : 0x900 <= x < 0x90c → used (bitmap tload2) x = false.
Proof.
  intros Hx. apply negb_true_iff.
  assert (forallb (λ f, negb (used (bitmap tload2) f)) (seqZ 0x900 12) = true) as E by (vm_compute; reflexivity).
  apply (forallb_elem _ _ x E), elem_of_seqZ. lia.
Qed.

Lemma demo_free : tload_free 12 tload2.
Proof.
  exists (seqZ 0x900 12). split_and!; [apply NoDup_seqZ|rewrite length_seqZ; lia|].
  intros x Hx. apply elem_of_seqZ in Hx. split; [lia|]. apply demo_unused. lia.
Qed.

Lemma demo_data a :
  demo_K <= a < 0x20010 → data (mm demo_loader) {[ [] := root1 ]} a.
Proof.
  unfold demo_K. intros Ha. split.
  - cbn [mm demo_loader]. apply used_with_ram, demo_used. unfold pageof. dlia.
  - intros q Hq. apply lookup_singleton_Some in Hq as [_ E]. rewrite root1_value in E. unfold pageof in E. dlia.
Qed.

Lemma demo_ready : load_ready 0x20000 0x20008 demo_K demo_len root1 {[ [] := root1 ]} 0 0 demo_loader.
Proof.
  split; rewrite ?demo_ram, ?demo_pages.
  - exact demo_tree.
  - intros p a Hp. apply lookup_singleton_Some in Hp as [_ <-].
    split; [cbn [mm demo_loader]; by apply used_with_ram, (tload2_inv 0)|]. rewrite root1_value. lia.
  - intros v Hv. rewrite (tree_leaf _ _ _ _ demo_tree) by apply Hv. by rewrite lookup_singleton_ne.
  - cbn [mm demo_loader]. by apply inv_with_ram, tload2_inv.
  - cbn [mm demo_loader]. apply free_with_ram, demo_free.
  - intros a Ha. apply demo_data. unfold in_image, demo_K, demo_len in *. lia.
  - split; [ground|]. intros a Ha. apply demo_data. unfold demo_K. lia.
  - split; [ground|]. intros a Ha. apply demo_data. unfold demo_K. lia.
  - done.
Qed.

Lemma demo_exec : exec_image (exec_mem) demo_K demo_len.
Proof.
  assert (phnum demo_K (exec_mem) = 2) as E by by vm_compute.
  split.
  - ground.
  - ground.
  - ground.
  - ground.
  - ground.
  - intros i Hi _. rewrite E in Hi. assert (i = 0 ∨ i = 1) as [-> | ->] by lia; ground.
  - intros i j v c d Hi Hj Hne (_ & x & X1 & X2 & _) (_ & y & Y1 & Y2 & _). rewrite E in Hi, Hj.
    revert X1 X2 Y1 Y2. set (m := exec_mem).
    assert (p_vaddr (phdr demo_K m 0) m = 0x40000010 ∧ p_memsz (phdr demo_K m 0) m = 8 ∧
      p_vaddr (phdr demo_K m 1) m = 0x40000ff8 ∧ p_memsz (phdr demo_K m 1) m = 0x20) as (A1 & A2 & A3 & A4) by ground.
    assert (i = 0 ∧ j = 1 ∨ i = 1 ∧ j = 0) as [[-> ->]|[-> ->]] by lia; rewrite A1, A2, A3, A4; lia.
  - ground.
  - intros i Hi. assert (shnum (exec_mem) demo_K = 4) as E4 by by vm_compute.
    rewrite E4 in Hi. assert (i = 0 ∨ i = 1 ∨ i = 2 ∨ i = 3) as [-> |[-> |[-> | ->]]] by lia.
    + exists []; ground.
    + exists (cstr ".symtab"); ground.
    + exists (cstr ".strtab"); ground.
    + exists (cstr ".shstrtab"); ground.
  - intros _ _. set (m := exec_mem). assert (sym_count m (symh_of m demo_K) = 2) as E2 by by vm_compute.
    split; [split_and!; [ground..|]|]; intros i Hi; rewrite E2 in Hi;
      (assert (i = 0 ∨ i = 1) as [-> | ->] by lia).
    + exists []; ground.
    + exists (cstr "_start"); ground.
    + split_and!; [ground|ground|exists []; ground].
    + split_and!; [ground|ground|exists (cstr "_start"); ground].
Qed.

(** C2. Loading a statically linked kernel.  For an ELF64 executable whose
    image lies in taken pages and whose loadable segments are disjoint (they
    may share pages, in any order), with page tables that map nothing yet and
    enough free pages, [load_elf64_kernel] terminates without undefined
    behaviour and returns 0; every byte of every segment, read through the
    page tables, is the file's byte or 0 past the file part; only pages with
    such a byte are mapped, to a page of the image or one that was free, the tables are a tree, no byte of a page taken
    before has changed, and memory for [n] more pages and [sp] more entries of
    the memory map is left if it was there on top of the kernel's; the entry point is the last symbol named
    [_start], or the header's when there is none; [load_offset] is 0, and
    [kernel_vsize] is the extent of the segments rounded up to 1 MiB. *)
Theorem load_elf64_kernel_loads lit_strtab lit_start K len root T fuel n sp (s : loader) :
  exec_image (ram (mm s)) K len → load_ready lit_strtab lit_start K len root T n sp s →
  enough_fuel (ram (mm s)) K fuel →
  wp (load_elf64_kernel lit_strtab lit_start fuel K root)
     (λ r s', r = 0 ∧ exec_loaded K len root T n sp s s') s.
Proof. exact (load_exec_spec lit_strtab lit_start K len root T fuel n sp s). Qed.

Lemma demo_fuel : enough_fuel (exec_mem) demo_K 100.
Proof.
  split; [lia|]. split; [by vm_compute; lia|]. intros i Hi.
  assert (phnum demo_K (exec_mem) = 2) as E by by vm_compute.
  rewrite E in Hi. assert (i = 0 ∨ i = 1) as [-> | ->] by lia; vm_compute; lia.
Qed.

Lemma load_elf64_kernel_loads_witness :
  wp (load_elf64_kernel 0x20000 0x20008 100 demo_K root1)
     (λ r s', r = 0 ∧ exec_loaded demo_K demo_len root1 {[ [] := root1 ]} 0 0 demo_loader s')
     demo_loader.
Proof.
  apply (load_elf64_kernel_loads 0x20000 0x20008 demo_K demo_len root1 {[ [] := root1 ]} 100 0 0).
  - exact demo_exec.
  - exact demo_ready.
  - exact demo_fuel.
Defined.

(** C24. The symbol cache is transparent.  Whatever was looked up before,
    every call of [Get_Symbol_Addr] in a sequence terminates and returns the
    value of the first symbol with that name, or 0 when there is none: the
    same as a search from the start of the table. *)
Theorem Get_Symbol_Addr_first_match m symh strh kern fuel (names : list (Z * list Z)) (s : loader) :
  symbols_ok m symh strh kern → tables_at m symh strh kern s → cache_ok m symh strh kern s →
  Forall (λ n, cstring m n.1 n.2 ∧ (length n.2 < fuel)%nat) names →
  (Z.to_nat (sym_count m symh) + 1 < fuel)%nat →
  wp (mapM (λ n, Get_Symbol_Addr fuel n.1) names)
     (λ rs s', rs = (λ n, lookup_symbol m symh strh kern n.2) <$> names ∧
        cache_ok m symh strh kern s') s.
Proof.
  intros Hok Hs Hc Hn Hf. revert s Hs Hc. induction Hn as [|[a l] names [Ha Hl] _ IH]; intros s Hs Hc.
  - by apply wp_ret.
  - cbn [mapM]. apply wp_bind.
    eapply wp_mono; [by apply (get_symbol_spec m symh strh kern Hok l a fuel s)|].
    intros r s1 (-> & Hs1 & Hc1). apply wp_bind. eapply wp_mono; [by apply IH|].
    cbv beta. intros rs s2 [-> Hc2]. by apply wp_ret.
Qed.

Definition demo_symbols : loader :=
  set_kernel demo_K (set_symtab (symh_of exec_mem demo_K) (set_strtab (strh_of exec_mem demo_K)
    (Loader (with_ram (λ _, exec_mem) tload0) 0 0 0 0 0 0 0 0 0 0 0 0 0))).

Lemma demo_symbols_ok : symbols_ok exec_mem (symh_of exec_mem demo_K) (strh_of exec_mem demo_K) demo_K.
Proof.
  split_and!; [ground..|]. assert (sym_count exec_mem (symh_of exec_mem demo_K) = 2) as E by by vm_compute.
  intros i Hi. rewrite E in Hi. assert (i = 0 ∨ i = 1) as [-> | ->] by lia; [exists []|exists (cstr "_start")]; ground.
Qed.

Lemma Get_Symbol_Addr_first_match_witness :
  wp (mapM (λ n, Get_Symbol_Addr 100 n.1)
       [(0x20008, cstr "_start"); (0x20000, cstr ".strtab"); (0x20008, cstr "_start")])
     (λ rs s', rs = (λ n, lookup_symbol exec_mem (symh_of exec_mem demo_K) (strh_of exec_mem demo_K) demo_K n.2)
          <$> [(0x20008, cstr "_start"); (0x20000, cstr ".strtab"); (0x20008, cstr "_start")] ∧
        cache_ok exec_mem (symh_of exec_mem demo_K) (strh_of exec_mem demo_K) demo_K s') demo_symbols.
Proof.
  apply Get_Symbol_Addr_first_match.
  - exact demo_symbols_ok.
  - split_and!; reflexivity.
  - left. reflexivity.
  - repeat constructor; vm_compute; reflexivity || lia.
  - vm_compute. lia.
Defined.

(** ** An oddity *)

(** The search for the image's start begins at 0xffffffff: when every
    segment lies above 4 GiB it stays there, and the size handed to the kernel
    is counted from that address. *)
Lemma high_image_start K m n lo hi :
  image_range K m n lo hi → (∀ i, 0 <= i < n → pt_load K m i → 0xffffffff < seg_start K m i) →
  lo = 0xffffffff.
Proof. intros (H1 & _ & _ & [?|(i & Hi & Hp & ->)] & _) Hall; [done|]. specialize (Hall i Hi Hp). lia. Qed.

