(* ===== verification/TloadImage.v ===== *)
(** * The kernel image as a value

    What src/tload/elf.c reads from a kernel image depends on the bytes of the
    image alone: two memories that agree on them describe the same segments,
    symbols and entry point.  [kmain] finds the image in the memory the boot
    loader filled and loads it after other parts of memory have changed. *)

From stdpp Require Import base numbers list gmap strings.
From Stdlib Require Import Lia.
From S2P Require Import Prelude Mem Console MemMgr PageTable VMem TloadStdlib TloadSegs TloadElf.
Open Scope Z_scope.

Section image.
Context (K len : Z) (m0 m : mem).
Hypothesis Hagree : ∀ a, in_image K len a → rd8 m a = rd8 m0 a.
Hypothesis Hex : exec_image m0 K len.

Lemma same_ehdr :
  (∀ i, 0 <= i < 6 → e_ident i K m = e_ident i K m0) ∧ e_type K m = e_type K m0 ∧
  e_machine K m = e_machine K m0 ∧ phnum K m = phnum K m0 ∧ ∀ i, phdr K m i = phdr K m0 i.
Proof.
  pose proof (proj1 (ex_phdrs _ _ _ Hex)) as Hl.
  destruct (ehdr_kept K len m0 (in_image K len) (λ _ H, H) m Hl Hagree) as (E1 & E2 & E3).
  split_and!; [intros i Hi; apply Hagree; unfold in_image; lia| | |exact E1|].
  - apply (rd_agree K len m0 m Hagree 2); lia.
  - apply (rd_agree K len m0 m Hagree 2); lia.
  - intros i. unfold phdr. by rewrite E2, E3.
Qed.

Lemma same_phdr i : 0 <= i < phnum K m0 →
  p_type (phdr K m0 i) m = p_type (phdr K m0 i) m0 ∧ p_memsz (phdr K m0 i) m = p_memsz (phdr K m0 i) m0 ∧
  p_offset (phdr K m0 i) m = p_offset (phdr K m0 i) m0 ∧ p_vaddr (phdr K m0 i) m = p_vaddr (phdr K m0 i) m0 ∧
  p_filesz (phdr K m0 i) m = p_filesz (phdr K m0 i) m0.
Proof.
  intros Hi. pose proof (phdr_in K len m0 (ex_low _ _ _ Hex) i (ex_phdrs _ _ _ Hex) Hi) as Hh.
  destruct (phdr_kept K len m0 (in_image K len) (λ _ H, H) _ m Hh Hagree) as (E1 & E2 & E3 & E4).
  split_and!; try done. unfold hdr_in in Hh. apply (rd_agree K len m0 m Hagree 8); lia.
Qed.

Lemma same_loads i : 0 <= i < phnum K m0 → loads m (phdr K m0 i) = loads m0 (phdr K m0 i).
Proof. intros Hi. unfold loads. by destruct (same_phdr i Hi) as (-> & -> & _). Qed.

Lemma same_seg_pages i : 0 <= i < phnum K m0 → seg_pages m (phdr K m0 i) = seg_pages m0 (phdr K m0 i).
Proof.
  intros Hi. unfold seg_pages, pages_from. rewrite same_loads by done.
  by destruct (same_phdr i Hi) as (_ & -> & _ & -> & _).
Qed.

Lemma same_seg_byte i j :
  0 <= i < phnum K m0 → loads m0 (phdr K m0 i) = true → 0 <= j →
  seg_byte K m (phdr K m0 i) j = seg_byte K m0 (phdr K m0 i) j.
Proof.
  intros Hi Hl Hj. unfold seg_byte. destruct (same_phdr i Hi) as (_ & _ & -> & _ & ->).
  destruct (Z.ltb_spec j (p_filesz (phdr K m0 i) m0)); [|done]. apply Hagree. unfold in_image.
  destruct (ex_segs _ _ _ Hex i Hi Hl) as (_ & _ & H2 & _). pose proof (seg_nonneg m0 (phdr K m0 i)). lia.
Qed.

Lemma same_seg_bytes i v c : 0 <= i < phnum K m0 →
  seg_bytes K m (phdr K m0 i) v c ↔ seg_bytes K m0 (phdr K m0 i) v c.
Proof.
  intros Hi. unfold seg_bytes. rewrite same_loads by done. destruct (same_phdr i Hi) as (_ & -> & _ & -> & _).
  split; intros (H1 & j & H2 & H3 & H4); (split; [done|]; exists j; split_and!; try done; try lia);
    rewrite same_seg_byte in * by (done || lia); done.
Qed.

Lemma same_loaded v c : loaded_bytes K m (phnum K m) v c ↔ loaded_bytes K m0 (phnum K m0) v c.
Proof.
  destruct same_ehdr as (_ & _ & _ & En & Ep). unfold loaded_bytes. rewrite En.
  split; intros (j & Hj & H); exists j; (split; [done|]); rewrite Ep in *; by apply same_seg_bytes.
Qed.

Lemma same_pages : kernel_pages m K = kernel_pages m0 K.
Proof.
  destruct same_ehdr as (_ & _ & _ & En & Ep). unfold kernel_pages. rewrite En.
  pose proof (phnum_range K m0) as Hr.
  assert (∀ n i, 0 <= i → i + Z.of_nat n <= phnum K m0 → total_pages K m n i = total_pages K m0 n i) as E.
  { induction n as [|n IH]; intros i Hi Hn; [done|]. cbn [total_pages].
    rewrite Ep, same_seg_pages, IH by lia. done. }
  apply E; lia.
Qed.

Lemma same_tables : symh_of m K = symh_of m0 K ∧ strh_of m K = strh_of m0 K.
Proof.
  exact (tables_agree K len m0 m Hagree (proj1 (ex_phdrs _ _ _ Hex)) (ex_sections _ _ _ Hex) (ex_names _ _ _ Hex) 0).
Qed.

Lemma str_in_agree a : str_in K len m0 a → str_in K len m a.
Proof.
  intros (l & Hl & H1 & H2). exists l. split_and!; [|done|done]. eapply cstring_agree; [|exact Hl].
  intros j Hj. symmetry. apply Hagree. unfold in_image. lia.
Qed.

Lemma header_in (p : Z → bool) :
  let sh := last_section m0 K p (Z.to_nat (shnum m0 K)) 0 0 in sh ≠ 0 → K <= sh ∧ sh + 64 <= K + len.
Proof.
  cbv zeta. intros Hne. assert (0 <= shnum m0 K) by apply (rd_range 2).
  destruct (last_section_in m0 K len p (Z.to_nat (shnum m0 K)) 0 0) as [E|E]; [|done|done].
  intros j Hj. apply (shdr_in K len m0 (proj1 (ex_phdrs _ _ _ Hex)) (ex_sections _ _ _ Hex)). lia.
Qed.

Section symbols.
Hypothesis Hy : symh_of m0 K ≠ 0.
Hypothesis Ht : strh_of m0 K ≠ 0.

Lemma same_symbols :
  symbols_ok m (symh_of m0 K) (strh_of m0 K) K ∧ symbols_in K len m (symh_of m0 K) (strh_of m0 K) ∧
  sym_count m (symh_of m0 K) = sym_count m0 (symh_of m0 K).
Proof.
  destruct (ex_symbols _ _ _ Hex Hy Ht) as [Hs Hi]. pose proof (header_in _ Hy) as HA. pose proof (header_in _ Ht) as HB.
  destruct (symh_agree K len m0 m Hagree (symh_of m0 K) HA) as (_ & Ec & Es).
  split_and!; [by apply (symbols_ok_agree K len m0 m)| |exact Ec].
  intros i Hn. rewrite Ec in Hn. destruct (Hi i Hn) as (I1 & I2 & I3). rewrite Es. split_and!; [done|done|].
  destruct (sym_agree K len m0 m Hagree (symh_of m0 K) (strh_of m0 K) HA HB Hi i Hn) as [_ ->].
  by apply str_in_agree.
Qed.

Lemma same_last_named l :
  Forall (λ c, c ≠ 0) l →
  last_named m (symh_of m0 K) (strh_of m0 K) K (Z.to_nat (sym_count m0 (symh_of m0 K))) 0 l 0 =
  last_named m0 (symh_of m0 K) (strh_of m0 K) K (Z.to_nat (sym_count m0 (symh_of m0 K))) 0 l 0.
Proof.
  intros Hl. destruct (ex_symbols _ _ _ Hex Hy Ht) as [Hs Hi].
  assert (0 <= sym_count m0 (symh_of m0 K)).
  { destruct Hs as (_ & _ & H3 & _). apply Z.div_pos; [apply rd64_range|done]. }
  apply (last_named_agree K len m0 m Hagree); try done; try lia; [exact (header_in _ Hy)|exact (header_in _ Ht)].
Qed.
End symbols.

Lemma same_count : symh_of m0 K ≠ 0 → sym_count m (symh_of m0 K) = sym_count m0 (symh_of m0 K).
Proof. intros Hy. exact (proj1 (proj2 (symh_agree K len m0 m Hagree _ (header_in _ Hy)))). Qed.

Lemma same_entry : entry_of m K = entry_of m0 K.
Proof.
  unfold entry_of. destruct same_tables as [-> ->].
  assert (e_entry K m = e_entry K m0) as -> by apply (ehdr_agree K len m0 m Hagree (proj1 (ex_phdrs _ _ _ Hex))).
  destruct (Z.eqb_spec (symh_of m0 K) 0) as [|Hy]; [done|]. destruct (Z.eqb_spec (strh_of m0 K) 0) as [|Ht]; [done|].
  cbn [orb]. rewrite same_count, same_last_named by (done || by repeat constructor). done.
Qed.

Lemma same_image : exec_image m K len.
Proof.
  destruct same_ehdr as (E1 & E2 & E3 & E4 & E5). pose proof (ex_phdrs _ _ _ Hex) as (P1 & P2 & P3).
  destruct (ehdr_kept K len m0 (in_image K len) (λ _ H, H) m P1 Hagree) as (_ & F2 & F3).
  destruct (ehdr_agree K len m0 m Hagree P1) as (S1 & S2 & S3 & S4 & _).
  destruct same_tables as [Ey Et]. split.
  - apply Hex.
  - rewrite !E1 by lia. apply Hex.
  - rewrite E2. apply Hex.
  - rewrite E3. apply Hex.
  - unfold phdrs_in. rewrite E4, F2, F3. done.
  - intros i Hi Hl. rewrite E4 in Hi. rewrite E5 in *. rewrite same_loads in Hl by done.
    destruct (ex_segs _ _ _ Hex i Hi Hl) as (Q1 & Q2 & Q3 & Q4). unfold seg_ok.
    destruct (same_phdr i Hi) as (_ & -> & -> & -> & ->). done.
  - intros i j v c d Hi Hj Hne. rewrite E4 in Hi, Hj. rewrite !E5, !same_seg_bytes by done. by apply Hex.
  - unfold shnum. rewrite S1, S2, S3, S4. apply Hex.
  - intros i Hi. unfold shnum in Hi. rewrite S3 in Hi.
    rewrite (sect_name_agree K len m0 m Hagree P1 (ex_sections _ _ _ Hex) i Hi).
    apply str_in_agree, Hex. done.
  - rewrite Ey, Et. intros Hy Ht. by destruct (same_symbols Hy Ht) as (? & ? & _).
Qed.

Lemma same_range lo hi : image_range K m (phnum K m) lo hi → image_range K m0 (phnum K m0) lo hi.
Proof.
  destruct same_ehdr as (_ & _ & _ & E4 & E5). unfold image_range. rewrite E4.
  assert (∀ i, 0 <= i < phnum K m0 → (pt_load K m i ↔ pt_load K m0 i) ∧ seg_start K m i = seg_start K m0 i ∧
    seg_end K m i = seg_end K m0 i) as Hs.
  { intros i Hi. unfold pt_load, seg_start, seg_end. rewrite !E5. by destruct (same_phdr i Hi) as (-> & -> & _ & -> & _). }
  intros (H1 & H2 & H3 & H4 & H5). split_and!; [done|done| | |].
  - intros i Hi. destruct (Hs i Hi) as (<- & <- & <-). by apply H3.
  - destruct H4 as [?|(i & Hi & H4)]; [by left|right]. exists i. split; [done|]. by destruct (Hs i Hi) as (<- & <- & _).
  - destruct H5 as [?|(i & Hi & H5)]; [by left|right]. exists i. split; [done|]. by destruct (Hs i Hi) as (<- & _ & <-).
Qed.

Lemma same_fuel fuel : enough_fuel m0 K fuel → enough_fuel m K fuel.
Proof.
  intros (F1 & F2 & F3). destruct same_ehdr as (_ & _ & _ & E4 & E5). destruct same_tables as [E6 _].
  split_and!; [done| |].
  - rewrite E6. intros Hy. rewrite same_count by done. by apply F2.
  - intros i Hi. rewrite E4 in Hi. rewrite E5, same_seg_pages by done. by apply F3.
Qed.
End image.
