(* ===== verification/Boot.v ===== *)
(** * Starting up under BIOS

    src/tload/main.c without the EFI variant: [setup_mm] tells the memory
    manager what the multiboot header at [h] says is in memory, first in the
    page bitmap, then in the linked memory map.  The header, the memory map, the module list and the
    loader's section headers are read from memory; the flags and the
    addresses of the lists once per pass, since no call of a pass writes
    there. *)

From stdpp Require Import base numbers list gmap strings.
From Stdlib Require Import Lia.
From S2P Require Import Prelude Mem Console MemMgr PageTable VMem.
Open Scope Z_scope.

(** struct mb_header, struct mb_mmap, struct mb_mod and Elf32_Shdr. *)
Definition flags (h : Z) (m : mem) : Z := rd32 m h.
Definition mem_upper (h : Z) (m : mem) : Z := rd32 m (h + 8).
Definition mods_count (h : Z) (m : mem) : Z := rd32 m (h + 20).
Definition mods_addr (h : Z) (m : mem) : Z := rd32 m (h + 24).
Definition elf_num (h : Z) (m : mem) : Z := rd32 m (h + 28).
Definition elf_size (h : Z) (m : mem) : Z := rd32 m (h + 32).
Definition elf_addr (h : Z) (m : mem) : Z := rd32 m (h + 36).
Definition mmap_length (h : Z) (m : mem) : Z := rd32 m (h + 44).
Definition mmap_addr (h : Z) (m : mem) : Z := rd32 m (h + 48).

Definition mb_base_addr (e : Z) (m : mem) : Z := rd64 m e.
Definition mb_len (e : Z) (m : mem) : Z := rd64 m (e + 8).
Definition mb_type (e : Z) (m : mem) : Z := rd32 m (e + 16).

Definition mod_start (e : Z) (m : mem) : Z := rd32 m e.
Definition mod_end (e : Z) (m : mem) : Z := rd32 m (e + 4).
Definition sizeof_mb_mod : Z := 16.

Definition sh_addr (sh : Z) (m : mem) : Z := rd32 m (sh + 12).
Definition sh_size (sh : Z) (m : mem) : Z := rd32 m (sh + 20).

Definition peekm {A} (f : mem → A) : M tload A := s ← get; mret (f (ram s)).

(** ** The three lists of the header *)

(** [while(cur_offset < mmap_addr + mmap_length)]: [body] on every entry. *)
Fixpoint for_mmap (fuel : nat) (body : Z → Z → Z → M tload unit) (cur_offset stop : Z) : M tload unit :=
  match fuel with
  | O => hang
  | S fuel =>
      if cur_offset <? stop then
        m ← peekm id;
        let cur_size := s32 (rd32 m cur_offset) in
        let cur_mmap := u32 (cur_offset + 4) in
        body (mb_base_addr cur_mmap m) (mb_len cur_mmap m) (mb_type cur_mmap m) ;;
        for_mmap fuel body (u32 (cur_mmap + cur_size)) stop
      else mret tt
  end.

(** [for(i = 0; i < mods_count; i++)]: [body] on start and length of every
    module. *)
Fixpoint for_mods (fuel : nat) (body : Z → Z → M tload unit) (h i : Z) : M tload unit :=
  match fuel with
  | O => hang
  | S fuel =>
      m ← peekm id;
      if i <? mods_count h m then
        let md := u32 (mods_addr h m + sizeof_mb_mod * i) in
        body (mod_start md m) (u32 (mod_end md m - mod_start md m)) ;;
        for_mods fuel body h (u32 (i + 1))
      else mret tt
  end.

(** [for(i = 0; i < elf_num; i++)]: [body] on the address of every section
    header of the loader. *)
Fixpoint for_elf (fuel : nat) (body : Z → M tload unit) (h i : Z) : M tload unit :=
  match fuel with
  | O => hang
  | S fuel =>
      m ← peekm id;
      if i <? elf_num h m then
        body (u32 (elf_addr h m + i * elf_size h m)) ;;
        for_elf fuel body h (u32 (i + 1))
      else mret tt
  end.

Definition mark_mmap (base length type : Z) : M tload unit :=
  if type =? 1 then mark_free base length ;; mret tt else mark_used base length ;; mret tt.
Definition mark_range (base length : Z) : M tload unit := mark_used base length ;; mret tt.
Definition mark_section (sh : Z) : M tload unit :=
  m ← peekm id; mark_range (sh_addr sh m) (sh_size sh m).

(** First the bitmap, since the linked list needs a heap. *)
Definition setup_bitmap (fuel : nat) (h tl_start tl_end : Z) : M tload unit :=
  m ← peekm id;
  (if truth (Z.land (flags h m) 0x40) then
     for_mmap fuel mark_mmap (mmap_addr h m) (u32 (mmap_addr h m + mmap_length h m))
   else if truth (Z.land (flags h m) 0x1) then
     say "Warning: multiboot header does not specify a memory map" ;;
     mark_free 0x100000 (u32 (mem_upper h m * 1024)) ;; mret tt
   else say "Warning: no memory information specified in multiboot header") ;;
  mark_range 0 0x100000 ;;
  (if truth (Z.land (flags h m) 0x8) then for_mods fuel mark_range h 0 else mret tt) ;;
  (if truth (Z.land (flags h m) 0x20) then for_elf fuel mark_section h 0 else mret tt) ;;
  mark_range tl_start (u64 (tl_end - tl_start)).

Definition list_section (sh : Z) : M tload unit :=
  m ← peekm id; add_linked_list (sh_addr sh m) (sh_size sh m) TLoad.

Definition setup_list (fuel : nat) (h tl_start tl_end : Z) : M tload unit :=
  m ← peekm id;
  (if truth (Z.land (flags h m) 0x40) then
     for_mmap fuel (λ base len type, add_linked_list base len (s32 type))
       (mmap_addr h m) (u32 (mmap_addr h m + mmap_length h m))
   else mret tt) ;;
  (if truth (Z.land (flags h m) 0x8) then
     for_mods fuel (λ base len, add_linked_list base len Module_) h 0
   else mret tt) ;;
  (if truth (Z.land (flags h m) 0x20) then for_elf fuel list_section h 0 else mret tt) ;;
  add_linked_list tl_start (u64 (tl_end - tl_start)) TLoad.

Definition setup_mm (fuel : nat) (h tl_start tl_end : Z) : M tload unit :=
  setup_bitmap fuel h tl_start tl_end ;; setup_list fuel h tl_start tl_end.

(** ** Code that leaves memory alone *)
Definition ram_kept {A} (c : M tload A) : Prop := ∀ s a s', c s = Done (a, s') → ram s' = ram s.

Create HintDb ramdb.

Lemma ram_kept_ret {A} (a : A) : ram_kept (mret a).
Proof. by intros s b s' [= _ <-]. Qed.
Lemma ram_kept_get : ram_kept get.
Proof. by intros s b s' [= _ <-]. Qed.
Lemma ram_kept_lift {A} (c : outcome A) : ram_kept (lift c).
Proof. intros s b s'. unfold lift, obind. destruct c; [|done..]. by intros [= _ <-]. Qed.
Lemma ram_kept_modify f : (∀ s, ram (f s) = ram s) → ram_kept (modify f).
Proof. intros Hf s b s' [= _ <-]. apply Hf. Qed.
Lemma ram_kept_bind {A B} (c : M tload A) (f : A → M tload B) :
  ram_kept c → (∀ a, ram_kept (f a)) → ram_kept (c ≫= f).
Proof.
  intros Hc Hf s b s'. unfold mbind, M_bind, bind, obind. destruct (c s) as [[a s1]| |] eqn:E; [|done..].
  intros H. apply Hf in H. simpl in H. rewrite H. by eapply Hc.
Qed.
Lemma ram_kept_hang {A} : ram_kept (@hang tload A).
Proof. done. Qed.
Lemma ram_kept_undef {A} : ram_kept (@undef tload A).
Proof. done. Qed.
Lemma ram_kept_say msg : ram_kept (say msg).
Proof. apply ram_kept_modify. reflexivity. Qed.
#[export] Hint Resolve ram_kept_ret ram_kept_get ram_kept_lift ram_kept_say ram_kept_hang ram_kept_undef : ramdb.

(** Take a program apart; what remains are calls with lemmas of their own. *)
Ltac ram_step :=
  first
  [ solve [eauto with ramdb]
  | apply ram_kept_modify; intros; reflexivity
  | apply ram_kept_bind; [|intro]
  | match goal with
    | |- ram_kept (if ?b then _ else _) => destruct b
    | |- ram_kept (match ?x with _ => _ end) => destruct x
    end ].
Ltac ram_solve := repeat ram_step.

Lemma ram_kept_coalesce fuel cur addr length type : ram_kept (coalesce fuel cur addr length type).
Proof. revert cur. induction fuel as [|fuel IH]; intros cur; cbn [coalesce]; ram_solve. Qed.
#[export] Hint Resolve ram_kept_coalesce : ramdb.

Lemma ram_append new s : ram (append_node new s) = ram s.
Proof. unfold append_node. by destruct (mm_last s =? 0). Qed.

Lemma ram_kept_add_with mal addr length type :
  (∀ n, ram_kept (mal n)) → ram_kept (add_linked_list_with mal addr length type).
Proof. intros Hm. unfold add_linked_list_with. ram_solve. apply ram_kept_modify. apply ram_append. Qed.

Lemma ram_kept_malloc_with add n :
  (∀ a l t, ram_kept (add a l t)) → ram_kept (malloc_with add n).
Proof. intros Ha. unfold malloc_with, malloc_align_with, _malloc_fixed_with. ram_solve. Qed.

Lemma ram_kept_malloc d n : ram_kept (malloc_depth d n).
Proof.
  revert n. induction d as [|d IH]; intros n; cbn [malloc_depth]; [done|].
  apply ram_kept_malloc_with. intros. by apply ram_kept_add_with.
Qed.

Lemma ram_kept_add addr length type : ram_kept (add_linked_list addr length type).
Proof. apply ram_kept_add_with. intros. apply ram_kept_malloc. Qed.
Lemma ram_kept_mark_used start length : ram_kept (mark_used start length).
Proof. unfold mark_used. ram_solve. Qed.
Lemma ram_kept_mark_free start length : ram_kept (mark_free start length).
Proof. unfold mark_free. ram_solve. Qed.
#[export] Hint Resolve ram_kept_add ram_kept_mark_used ram_kept_mark_free : ramdb.

(** ** The lists as values *)
(** One call per element. *)
Fixpoint each {A} (f : A → M tload unit) (l : list A) : M tload unit :=
  match l with [] => mret tt | x :: l => f x ;; each f l end.

(** The entries of the memory map between two addresses. *)
Inductive mmap_at (m : mem) : Z → Z → list (Z * Z * Z) → Prop :=
| mmap_end cur stop : stop <= cur → mmap_at m cur stop []
| mmap_entry cur stop l :
    cur < stop →
    mmap_at m (u32 (u32 (cur + 4) + s32 (rd32 m cur))) stop l →
    mmap_at m cur stop ((mb_base_addr (u32 (cur + 4)) m, mb_len (u32 (cur + 4)) m, mb_type (u32 (cur + 4)) m) :: l).

Definition module_of (h : Z) (m : mem) (i : Z) : Z * Z :=
  let md := u32 (mods_addr h m + sizeof_mb_mod * i) in (mod_start md m, u32 (mod_end md m - mod_start md m)).
Definition modules (h : Z) (m : mem) : list (Z * Z) := module_of h m <$> seqZ 0 (mods_count h m).
Definition section_at (h : Z) (m : mem) (i : Z) : Z := u32 (elf_addr h m + i * elf_size h m).
Definition section_of (h : Z) (m : mem) (i : Z) : Z * Z :=
  (sh_addr (section_at h m i) m, sh_size (section_at h m i) m).
Definition sections (h : Z) (m : mem) : list (Z * Z) := section_of h m <$> seqZ 0 (elf_num h m).

(** Running [c] and then [k], where [c] leaves memory alone. *)
Lemma bind_each {A B} (c : M tload A) (k1 k2 : A → M tload B) m s :
  ram_kept c → ram s = m → (∀ a s', ram s' = m → k1 a s' = k2 a s') → (c ≫= k1) s = (c ≫= k2) s.
Proof.
  intros Hc Hs Hk. unfold mbind, M_bind, bind, obind. destruct (c s) as [[a s']| |] eqn:E; [|done..].
  apply Hk. simpl. rewrite <- Hs. by eapply Hc.
Qed.

Lemma for_mmap_each m body cur stop l fuel s :
  (∀ b n t, ram_kept (body b n t)) → mmap_at m cur stop l → (length l < fuel)%nat → ram s = m →
  for_mmap fuel body cur stop s = each (λ e, body e.1.1 e.1.2 e.2) l s.
Proof.
  intros Hb Hl. revert fuel s. induction Hl as [cur stop Hc|cur stop l Hc _ IH]; intros [|fuel] s Hf Hs;
    cbn [length] in Hf; try lia; cbn [for_mmap each fst snd].
  - destruct (Z.ltb_spec cur stop); [lia|done].
  - destruct (Z.ltb_spec cur stop); [|lia].
    change ((body (mb_base_addr (u32 (cur + 4)) (ram s)) (mb_len (u32 (cur + 4)) (ram s))
        (mb_type (u32 (cur + 4)) (ram s)) ;;
      for_mmap fuel body (u32 (u32 (cur + 4) + s32 (rd32 (ram s) cur))) stop) s = (body
        (mb_base_addr (u32 (cur + 4)) m) (mb_len (u32 (cur + 4)) m) (mb_type (u32 (cur + 4)) m) ;;
      each (λ e, body e.1.1 e.1.2 e.2) l) s).
    rewrite Hs. apply (bind_each _ _ _ m); [auto|done|]. intros [] s' Hs'. apply IH; [lia|done].
Qed.

Lemma for_mods_each h m body fuel i s :
  (∀ b n, ram_kept (body b n)) → 0 <= i <= mods_count h m → (Z.to_nat (mods_count h m - i) < fuel)%nat →
  ram s = m →
  for_mods fuel body h i s = each (λ e, body e.1 e.2) (module_of h m <$> seqZ i (mods_count h m - i)) s.
Proof.
  intros Hb. assert (mods_count h m < 2 ^ 32) as Hm by apply (rd_range 4). revert i s.
  induction fuel as [|fuel IH]; intros i s Hi Hf Hs; [lia|]. cbn [for_mods].
  change ((if i <? mods_count h (ram s) then
    (body (mod_start (u32 (mods_addr h (ram s) + sizeof_mb_mod * i)) (ram s))
      (u32 (mod_end (u32 (mods_addr h (ram s) + sizeof_mb_mod * i)) (ram s) -
            mod_start (u32 (mods_addr h (ram s) + sizeof_mb_mod * i)) (ram s))) ;;
     for_mods fuel body h (u32 (i + 1))) else mret tt) s =
    each (λ e, body e.1 e.2) (module_of h m <$> seqZ i (mods_count h m - i)) s). rewrite Hs.
  destruct (Z.ltb_spec i (mods_count h m)) as [Hlt|Hge].
  - rewrite seqZ_cons by lia. cbn [fmap list_fmap each]. apply (bind_each _ _ _ m); [apply Hb|done|].
    intros [] s' Hs'. rewrite u32_small, IH by (done || lia). do 3 f_equal; lia.
  - replace (mods_count h m - i) with 0 by lia. done.
Qed.

Lemma for_elf_each h m body (f : Z * Z → M tload unit) fuel i s :
  (∀ sh, ram_kept (body sh)) → (∀ sh s, ram s = m → body sh s = f (sh_addr sh m, sh_size sh m) s) →
  0 <= i <= elf_num h m → (Z.to_nat (elf_num h m - i) < fuel)%nat → ram s = m →
  for_elf fuel body h i s = each f (section_of h m <$> seqZ i (elf_num h m - i)) s.
Proof.
  intros Hk Hb. assert (elf_num h m < 2 ^ 32) as Hm by apply (rd_range 4). revert i s.
  induction fuel as [|fuel IH]; intros i s Hi Hf Hs; [lia|]. cbn [for_elf].
  change ((if i <? elf_num h (ram s) then
    (body (u32 (elf_addr h (ram s) + i * elf_size h (ram s))) ;;
     for_elf fuel body h (u32 (i + 1))) else mret tt) s =
    each f (section_of h m <$> seqZ i (elf_num h m - i)) s). rewrite Hs.
  destruct (Z.ltb_spec i (elf_num h m)) as [Hlt|Hge].
  - rewrite seqZ_cons by lia. cbn [fmap list_fmap each]. fold (section_at h m i).
    transitivity ((body (section_at h m i) ;; each f (section_of h m <$> seqZ (Z.succ i) (Z.pred (elf_num h m - i)))) s).
    + apply (bind_each _ _ _ m); [apply Hk|done|].
      intros [] s' Hs'. rewrite u32_small, IH by (done || lia). do 3 f_equal; lia.
    + unfold mbind, M_bind, bind. by rewrite Hb.
  - replace (elf_num h m - i) with 0 by lia. done.
Qed.

(** ** Both passes over one list *)
Lemma each_app {A} (f : A → M tload unit) l1 l2 s : each f (l1 ++ l2) s = (each f l1 ;; each f l2) s.
Proof.
  revert s. induction l1 as [|x l1 IH]; intros s; [done|]. cbn [each app].
  unfold mbind, M_bind, bind in *. destruct (f x s) as [[[] s1]| |]; [|done..]. apply IH.
Qed.

Lemma ram_kept_each {A} (f : A → M tload unit) l : (∀ x, ram_kept (f x)) → ram_kept (each f l).
Proof.
  intros Hf. induction l as [|x l IH]; cbn [each]; [apply ram_kept_ret|].
  apply ram_kept_bind; [apply Hf|]. by intros _.
Qed.

Lemma each_fmap {A B} (f : B → M tload unit) (g : A → B) l s : each f (g <$> l) s = each (λ x, f (g x)) l s.
Proof.
  revert s. induction l as [|x l IH]; intros s; [done|]. cbn [each fmap list_fmap].
  unfold mbind, M_bind, bind in *. destruct (f (g x) s) as [[[] s1]| |]; [|done..]. apply IH.
Qed.

(** [c] does what [l] says. *)
Lemma each_bind {A} (f : A → M tload unit) l1 l2 (c k : M tload unit) m s :
  (∀ x, ram_kept (f x)) → ram s = m → c s = each f l1 s → (∀ s', ram s' = m → k s' = each f l2 s') →
  (c ;; k) s = each f (l1 ++ l2) s.
Proof.
  intros Hf Hs Hc Hk. rewrite each_app. transitivity ((each f l1 ;; k) s).
  - unfold mbind, M_bind, bind. by rewrite Hc.
  - apply (bind_each _ _ _ m); [by apply ram_kept_each|done|]. intros _. exact Hk.
Qed.

Definition has (b : Z) (h : Z) (m : mem) : bool := truth (Z.land (flags h m) b).
Definition boot_modules (h : Z) (m : mem) : list (Z * Z) := if has 0x8 h m then modules h m else [].
Definition boot_sections (h : Z) (m : mem) : list (Z * Z) := if has 0x20 h m then sections h m else [].

(** What the bitmap is told: ranges in use ([true]) or free, in order. *)
Definition boot_marks (h : Z) (m : mem) (es : list (Z * Z * Z)) (tl_start tl_end : Z) : list (bool * (Z * Z)) :=
  ((λ e, (negb (e.2 =? 1), e.1)) <$> es) ++ [(true, (0, 0x100000))] ++
  (pair true <$> boot_modules h m) ++ (pair true <$> boot_sections h m) ++
  [(true, (tl_start, u64 (tl_end - tl_start)))].
(** What the linked list is told. *)
Definition boot_regions (h : Z) (m : mem) (es : list (Z * Z * Z)) (tl_start tl_end : Z) : list (Z * Z * Z) :=
  ((λ e, (e.1, s32 e.2)) <$> es) ++ ((λ e, (e, Module_)) <$> boot_modules h m) ++
  ((λ e, (e, TLoad)) <$> boot_sections h m) ++ [(tl_start, u64 (tl_end - tl_start), TLoad)].

Definition mark_one (e : bool * (Z * Z)) : M tload unit :=
  (if e.1 then mark_used e.2.1 e.2.2 else mark_free e.2.1 e.2.2) ;; mret tt.
Definition add_one (r : Z * Z * Z) : M tload unit := add_linked_list r.1.1 r.1.2 r.2.

Lemma ram_kept_mark_one e : ram_kept (mark_one e).
Proof. unfold mark_one. ram_solve. Qed.
Lemma ram_kept_add_one r : ram_kept (add_one r).
Proof. unfold add_one. apply ram_kept_add. Qed.
Lemma ram_kept_range b n : ram_kept (mark_range b n).
Proof. unfold mark_range. ram_solve. Qed.
Lemma ram_kept_section sh : ram_kept (mark_section sh).
Proof. unfold mark_section, peekm, mark_range. ram_solve. Qed.
Lemma ram_kept_list_section sh : ram_kept (list_section sh).
Proof. unfold list_section, peekm. ram_solve. Qed.
#[export] Hint Resolve ram_kept_mark_one ram_kept_add_one ram_kept_range ram_kept_section ram_kept_list_section : ramdb.

(** Split off the first part of a pass. *)
Ltac each_step kept m := apply (each_bind _ _ _ _ _ m); [apply kept|done| |intros ? ?].

Section passes.
Context (h tl_start tl_end : Z) (m : mem) (es : list (Z * Z * Z)) (fuel : nat).
Hypothesis Hmap : has 0x40 h m = true.
Hypothesis Hes : mmap_at m (mmap_addr h m) (u32 (mmap_addr h m + mmap_length h m)) es.
Hypothesis Hfuel : (length es < fuel)%nat ∧ (Z.to_nat (mods_count h m) < fuel)%nat ∧ (Z.to_nat (elf_num h m) < fuel)%nat.

Lemma setup_bitmap_each s :
  ram s = m → setup_bitmap fuel h tl_start tl_end s = each mark_one (boot_marks h m es tl_start tl_end) s.
Proof.
  intros Hs. destruct Hfuel as (F1 & F2 & F3). unfold setup_bitmap, boot_marks, boot_modules, boot_sections.
  change ((peekm id ≫= ?k) s) with (k (ram s) s). cbv beta. rewrite Hs. fold (has 0x40 h m) (has 0x8 h m) (has 0x20 h m).
  rewrite Hmap. assert (0 <= mods_count h m ∧ 0 <= elf_num h m) as [N1 N2] by (split; apply (rd_range 4)).
  each_step ram_kept_mark_one m;
    [|each_step ram_kept_mark_one m; [|each_step ram_kept_mark_one m; [|each_step ram_kept_mark_one m]]].
  - rewrite (for_mmap_each m _ _ _ es); [|intros b n t; unfold mark_mmap; ram_solve|done|done|done].
    rewrite each_fmap. clear. revert s. induction es as [|[[b n] t] l IH]; intros s; [done|]. cbn [each fst snd].
    unfold mark_mmap, mark_one, mbind, M_bind, bind. cbn [fst snd]. destruct (t =? 1); cbn [negb];
      [destruct (mark_free b n s) as [[? ?]| |]|destruct (mark_used b n s) as [[? ?]| |]]; try done; apply IH.
  - done.
  - destruct (has 0x8 h m); [|done]. rewrite (for_mods_each h m) by (done || lia || eauto with ramdb).
    rewrite Z.sub_0_r. unfold modules. rewrite !each_fmap. done.
  - destruct (has 0x20 h m); [|done].
    rewrite (for_elf_each h m _ (λ e, mark_range e.1 e.2)); [|eauto with ramdb| |lia|by rewrite Z.sub_0_r|done].
    + rewrite Z.sub_0_r. unfold sections. rewrite !each_fmap. done.
    + intros sh s1 Hs1. unfold mark_section. change ((peekm id ≫= ?k) s1) with (k (ram s1) s1).
      cbv beta. by rewrite Hs1.
  - cbn [each]. unfold mark_range, mark_one, mbind, M_bind, bind. cbn [fst snd].
    by destruct (mark_used _ _ _) as [[? ?]| |].
Qed.

Lemma setup_list_each s :
  ram s = m → setup_list fuel h tl_start tl_end s = each add_one (boot_regions h m es tl_start tl_end) s.
Proof.
  intros Hs. destruct Hfuel as (F1 & F2 & F3). unfold setup_list, boot_regions, boot_modules, boot_sections.
  change ((peekm id ≫= ?k) s) with (k (ram s) s). cbv beta. rewrite Hs. fold (has 0x40 h m) (has 0x8 h m) (has 0x20 h m).
  rewrite Hmap. assert (0 <= mods_count h m ∧ 0 <= elf_num h m) as [N1 N2] by (split; apply (rd_range 4)).
  each_step ram_kept_add_one m; [|each_step ram_kept_add_one m; [|each_step ram_kept_add_one m]].
  - rewrite (for_mmap_each m _ _ _ es); [|eauto with ramdb|done|done|done]. by rewrite each_fmap.
  - destruct (has 0x8 h m); [|done]. rewrite (for_mods_each h m) by (done || lia || eauto with ramdb).
    rewrite Z.sub_0_r. unfold modules. rewrite !each_fmap. done.
  - destruct (has 0x20 h m); [|done].
    rewrite (for_elf_each h m _ (λ e, add_linked_list e.1 e.2 TLoad)); [|eauto with ramdb| |lia|by rewrite Z.sub_0_r|done].
    + rewrite Z.sub_0_r. unfold sections. rewrite !each_fmap. done.
    + intros sh s1 Hs1. unfold list_section. change ((peekm id ≫= ?k) s1) with (k (ram s1) s1).
      cbv beta. by rewrite Hs1.
  - cbn [each]. unfold add_one, mbind, M_bind, bind. cbn [fst snd].
    by destruct (add_linked_list _ _ _ _) as [[[] ?]| |].
Qed.
End passes.

(** ** What the memory manager knows afterwards *)
(** A range gives the frames its loop steps on the status [e.1]. *)
Definition marked (u : Z → bool) (e : bool * (Z * Z)) : Z → bool :=
  λ x, if bool_decide (in_pages e.2.1 e.2.2 x) then e.1 else u x.
Definition status (l : list (bool * (Z * Z))) (u : Z → bool) : Z → bool := foldl marked u l.

Definition range_ok (r : Z * Z) : Prop := 0 <= r.1 ∧ 0 <= r.2 ∧ r.1 + r.2 <= 0x100000000.

Lemma status_ext l u1 u2 x : (∀ x, u1 x = u2 x) → status l u1 x = status l u2 x.
Proof.
  unfold status. revert u1 u2. induction l as [|e l IH]; intros u1 u2 Hu; [apply Hu|]. cbn [foldl].
  apply IH. intros y. unfold marked. by rewrite Hu.
Qed.

Lemma each_marks l s :
  Forall (λ e, range_ok e.2) l →
  ∃ bm', each mark_one l s = Done (tt, with_bitmap (λ _, bm') s) ∧
    ∀ x, used bm' x = status l (used (bitmap s)) x.
Proof.
  intros Hl. revert s. induction Hl as [|[v [b n]] l (R1 & R2 & R3) _ IH]; intros s.
  - exists (bitmap s). split; [by destruct s|done].
  - cbn [each fst snd] in *.
    assert (∃ bm1, mark_one (v, (b, n)) s = Done (tt, with_bitmap (λ _, bm1) s) ∧
      ∀ x, used bm1 x = marked (used (bitmap s)) (v, (b, n)) x) as (bm1 & E1 & H1).
    { unfold mark_one, marked, mbind, M_bind, bind. cbn [fst snd]. destruct v.
      - destruct (mark_used_spec b n s R1 R2 R3) as (bm1 & -> & H). by exists bm1.
      - destruct (mark_free_spec b n s R1 R2 R3) as (bm1 & -> & H). by exists bm1. }
    destruct (IH (with_bitmap (λ _, bm1) s)) as (bm' & E & H). exists bm'. split.
    + unfold mbind, M_bind, bind. rewrite E1. cbn [obind fst snd]. rewrite E. done.
    + intros x. rewrite H. cbn [bitmap with_bitmap status foldl]. by apply status_ext.
Qed.

Lemma status_app l1 l2 u x : status (l1 ++ l2) u x = status l2 (status l1 u) x.
Proof. unfold status. by rewrite foldl_app. Qed.

(** Ranges in use only add frames. *)
Lemma status_used l u x :
  status (pair true <$> l) u x = true ↔ u x = true ∨ ∃ r, r ∈ l ∧ in_pages r.1 r.2 x.
Proof.
  unfold status. revert u. induction l as [|r l IH]; intros u; cbn [fmap list_fmap foldl].
  - split; [by left|]. intros [?|(r & Hr & _)]; [done|]. by apply not_elem_of_nil in Hr.
  - rewrite IH. unfold marked. cbn [fst snd]. case_bool_decide as Hp; split.
    + intros _. right. exists r. split; [by apply elem_of_cons; left|done].
    + by left.
    + intros [?|(r' & Hr' & ?)]; [by left|]. right. exists r'. split; [by apply elem_of_cons; right|done].
    + intros [?|(r' & Hr' & ?)]; [by left|]. apply elem_of_cons in Hr' as [->|Hr']; [done|]. right. by exists r'.
Qed.

Section setup.
Context (h tl_start tl_end : Z) (es : list (Z * Z * Z)) (s : tload).
Let m := ram s.

(** The ranges that are never handed out, and the status the memory map gives
    a frame: that of the last entry that covers it. *)
Definition reserved : list (Z * Z) :=
  (0, 0x100000) :: boot_modules h m ++ boot_sections h m ++ [(tl_start, u64 (tl_end - tl_start))].
Definition protected (x : Z) : Prop := ∃ r, r ∈ reserved ∧ in_pages r.1 r.2 x.
Definition mmap_status (x : Z) : bool :=
  status ((λ e, (negb (e.2 =? 1), e.1)) <$> es) (used (bitmap s)) x.
Definition occupied (x : Z) : Prop := protected x ∨ mmap_status x = true.

Lemma boot_marks_status x :
  status (boot_marks h m es tl_start tl_end) (used (bitmap s)) x = true ↔ occupied x.
Proof.
  unfold boot_marks, occupied, protected, mmap_status.
  replace ([(true, (0, 0x100000))] ++ (pair true <$> boot_modules h m) ++ (pair true <$> boot_sections h m) ++
    [(true, (tl_start, u64 (tl_end - tl_start)))]) with (pair true <$> reserved).
  - rewrite status_app, status_used. tauto.
  - unfold reserved. cbn [fmap list_fmap]. by rewrite !fmap_app.
Qed.

(** The heap can be at [t]. *)
Definition heap_fits (t : Z) : Prop :=
  0 <= t < 0x100000000 ∧ t mod HEAP_ALIGN = 0 ∧
  ∀ j, 0 <= j → j * 4096 < HEAP_SIZE → ¬ occupied (u32 (t + j * 4096) / 4096).

(** The description is usable: one table each, ranges below 4 GiB, the top
    page of the 32-bit space in use, and room for the heap and, on it, for
    [room] more entries of the memory map. *)
Record boot_info (fuel room : nat) : Prop := BootInfo {
  bi_map : has 0x40 h m = true;
  bi_entries : mmap_at m (mmap_addr h m) (u32 (mmap_addr h m + mmap_length h m)) es;
  bi_fuel : (length es < fuel)%nat ∧ (Z.to_nat (mods_count h m) < fuel)%nat ∧ (Z.to_nat (elf_num h m) < fuel)%nat;
  bi_ranges : Forall range_ok ((fst <$> es) ++ reserved);
  bi_empty : map_empty s;
  bi_top : occupied 0xfffff;
  bi_heap : ∃ t, heap_fits t;
  bi_room : 56 * Z.of_nat (1 + length (boot_regions h m es tl_start tl_end) + room) <= HEAP_SIZE;
  bi_wf : Forall (λ r, region_wf r.1.1 r.1.2) (boot_regions h m es tl_start tl_end)
}.

(** The bitmap after the first pass makes a boot state. *)
Lemma bitmap_ready fuel room bm' :
  boot_info fuel room → (∀ x, used bm' x = true ↔ occupied x) → boot_ready (with_bitmap (λ _, bm') s).
Proof.
  intros [_ _ _ _ B5 B6 (t & T1 & T2 & T3) _ _] Hbm. split; [exact B5|]. cbn [bitmap with_bitmap].
  split_and!; [by apply Hbm| |].
  - apply Hbm. left. exists (0, 0x100000). split; [by apply elem_of_cons; left|].
    unfold in_pages. cbn [fst snd]. dlia.
  - exists t. split_and!; [lia|lia|done|]. intros j Hj Hl. apply not_true_is_false. rewrite Hbm. by apply T3.
Qed.

Lemma boot_marks_ok : Forall range_ok ((fst <$> es) ++ reserved) →
  Forall (λ e : bool * (Z * Z), range_ok e.2) (boot_marks h m es tl_start tl_end).
Proof.
  intros Hr. apply Forall_app in Hr as [H1 H2]. unfold boot_marks, reserved in *. cbn in H2.
  apply Forall_cons in H2 as [H2 H3]. apply Forall_app in H3 as [H3 H4]. apply Forall_app in H4 as [H4 H5].
  rewrite !Forall_app, !Forall_fmap. rewrite Forall_fmap in H1.
  rewrite Forall_singleton in H5. split_and!; [exact H1|rewrite Forall_singleton; exact H2|exact H3|exact H4|rewrite Forall_singleton; exact H5].
Qed.
End setup.

Lemma add_regions_each rs s : add_regions rs s = each add_one rs s.
Proof.
  revert s. induction rs as [|[[b n] t] rs IH]; intros s; [done|]. cbn [add_regions each].
  change (add_one (b, n, t)) with (add_linked_list b n t). unfold mbind, M_bind, bind.
  destruct (add_linked_list b n t s) as [[[] s1]| |]; [apply IH|reflexivity|reflexivity].
Qed.

(** The state of the memory manager after [setup_mm]. *)
Definition setup_post (h tl_start tl_end : Z) (es : list (Z * Z * Z)) (room : nat) (s s' : tload) : Prop :=
  ∃ hp l,
    (∀ x, used (bitmap s') x = true ↔
       occupied h tl_start tl_end es s x ∨ in_pages hp HEAP_SIZE x) ∧
    (∀ x, in_pages hp HEAP_SIZE x → ¬ occupied h tl_start tl_end es s x) ∧
    map_ok s' l ∧ count_linked_list s' = Done (Z.of_nat (length l)) ∧
    (∀ a ty, covers s' a ty ↔
       heap_region hp a ty ∨ listed (boot_regions h (ram s) es tl_start tl_end) a ty) ∧
    ram s' = ram s ∧ heap_start s' = hp ∧ heap_end s' = hp + HEAP_SIZE ∧ 0 < hp ∧ hp mod HEAP_ALIGN = 0 ∧
    hp + HEAP_SIZE <= 0xfffff000 ∧ (∀ t, heap_fits h tl_start tl_end es s t → hp <= t) ∧
    tload_inv room s'.

Lemma setup_mm_spec fuel room h tl_start tl_end es (s : tload) :
  boot_info h tl_start tl_end es s fuel room →
  wp (setup_mm fuel h tl_start tl_end) (λ _ s', setup_post h tl_start tl_end es room s s') s.
Proof.
  intros HB. pose proof HB as [B1 B2 B3 B4 B5 B6 B7 B8 B9].
  destruct (each_marks (boot_marks h (ram s) es tl_start tl_end) s) as (bm' & Ebm & Hbm);
    [by apply boot_marks_ok|].
  assert (∀ x, used bm' x = true ↔ occupied h tl_start tl_end es s x) as Hocc.
  { intros x. rewrite Hbm. apply boot_marks_status. }
  assert (setup_mm fuel h tl_start tl_end s =
    add_regions (boot_regions h (ram s) es tl_start tl_end) (with_bitmap (λ _, bm') s)) as E.
  { unfold setup_mm, mbind, M_bind, bind. rewrite (setup_bitmap_each _ _ _ (ram s) es) by done.
    rewrite Ebm. cbn [obind fst snd]. rewrite add_regions_each. by apply setup_list_each. }
  unfold wp. rewrite E. fold (wp (add_regions (boot_regions h (ram s) es tl_start tl_end))
    (λ _ s', setup_post h tl_start tl_end es room s s') (with_bitmap (λ _, bm') s)).
  destruct (boot_regions h (ram s) es tl_start tl_end) as [|[[b n] t] rs] eqn:Er.
  { unfold boot_regions in Er. by repeat apply app_nil in Er as [_ Er]. }
  apply Forall_cons in B9 as [W1 W2]. cbn [length] in B8.
  eapply wp_mono; [apply (memory_map_room (Z.of_nat room) b n t rs); [by apply (bitmap_ready h tl_start tl_end es s fuel room)|lia|lia|done|done]|].
  cbv beta. intros [] s' (hp & (Hf & H0 & Htop & Htk & _ & Hram & Hhs & Hhe & Hmin) & Hst). cbn [bitmap with_bitmap ram] in *.
  destruct (map_state_count _ _ _ Hst) as (l & Hok & Hc).
  assert (∀ x, used (bitmap s') x = true ↔ occupied h tl_start tl_end es s x ∨ in_pages hp HEAP_SIZE x) as Hused.
  { intros x. rewrite Htk, orb_true_iff, bool_decide_eq_true, Hocc. done. }
  exists hp, l. split_and!; [exact Hused| |done|done| |done|done|done|done|apply Hf|done| |].
  - intros x [X1 X2] Hx. apply Hocc in Hx. destruct Hf as (F1 & F2 & F3).
    assert (hp mod 4096 = 0) as Hm by (unfold HEAP_ALIGN in F2; dlia).
    specialize (F3 (x - hp / 4096) ltac:(lia) ltac:(lia)).
    replace (hp + (x - hp / 4096) * 4096) with (x * 4096) in F3 by dlia.
    rewrite u32_small, Z.div_mul in F3 by (unfold HEAP_SIZE in *; dlia). congruence.
  - intros a ty. rewrite Er. exact (map_state_covers _ _ _ a ty Hst).
  - intros t' (T1 & T2 & T3). apply Hmin. split_and!; [lia|lia|done|]. intros j Hj Hl.
    apply not_true_is_false. rewrite Hocc. by apply T3.
  - split; [by eexists|]. split; apply Hused; left; [done|]. left. exists (0, 0x100000).
    split; [by apply elem_of_cons; left|]. unfold in_pages. cbn [fst snd]. dlia.
Qed.

(** C7. Setting up the memory manager.  From the multiboot header, with a
    memory map whose entries, like the modules and the loader's sections, lie
    below 4 GiB, [setup_mm] terminates and leaves exactly these frames in use:
    the first megabyte, those the modules, sections and the loader itself
    step on, those whose last entry in the memory map is not available memory
    (or that no entry covers and were in use), and a heap at the lowest
    aligned address where it fits into what was left; the linked memory map is well formed and describes exactly the heap
    and the regions of the header, with room for [room] more; memory is not
    written. *)
Theorem setup_mm_boot_state fuel room h tl_start tl_end es (s : tload) :
  boot_info h tl_start tl_end es s fuel room →
  wp (setup_mm fuel h tl_start tl_end) (λ _ s', setup_post h tl_start tl_end es room s s') s.
Proof. exact (setup_mm_spec fuel room h tl_start tl_end es s). Qed.

(** A header with three memory ranges, a module and a section. *)
Definition demo_header : list Z :=
  le_bytes 4 0x68 ++ le_bytes 4 0x280 ++ le_bytes 4 0x7c00 ++ le_bytes 4 0 ++ le_bytes 4 0 ++
  le_bytes 4 1 ++ le_bytes 4 0xa000 ++ le_bytes 4 1 ++ le_bytes 4 40 ++ le_bytes 4 0xa100 ++
  le_bytes 4 0 ++ le_bytes 4 72 ++ le_bytes 4 0xa200.
Definition demo_entry (e : Z * Z * Z) : list Z :=
  le_bytes 4 20 ++ le_bytes 8 e.1.1 ++ le_bytes 8 e.1.2 ++ le_bytes 4 e.2.
Definition demo_entries : list (Z * Z * Z) :=
  [(0, 0x9f000, 1); (0x100000, 0x7f00000, 1); (0xfffc0000, 0x40000, 2)].
Definition demo_mem : mem := Eval vm_compute in
  put_bytes (put_bytes (put_bytes (put_bytes ∅ 0x9000 demo_header)
    0xa000 (le_bytes 4 0x200000 ++ le_bytes 4 0x203000))
    0xa100 (replicate 12 0 ++ le_bytes 4 0x100000 ++ le_bytes 4 0 ++ le_bytes 4 0x5000))
    0xa200 (demo_entries ≫= demo_entry).
Definition demo_boot : tload := TLoadState ∅ 0 0 ∅ 0 0 0 console0 demo_mem.

Lemma header_reserved : reserved 0x9000 0x100000 0x106000 demo_boot =
  [(0, 0x100000); (0x200000, 0x3000); (0x100000, 0x5000); (0x100000, 0x6000)].
Proof. vm_compute. reflexivity. Qed.

Lemma header_free x : 0x300 <= x < 0xa00 → ¬ occupied 0x9000 0x100000 0x106000 demo_entries demo_boot x.
Proof.
  intros Hx [(r & Hr & H1 & H2)|Hs].
  - rewrite header_reserved in Hr. repeat (apply elem_of_cons in Hr as [->|Hr]; [cbn in *; dlia|]).
    by apply not_elem_of_nil in Hr.
  - unfold mmap_status, status, marked in Hs. cbn -[used in_pages Z.eqb] in Hs. revert Hs.
    repeat case_bool_decide; try done; unfold in_pages in *; try dlia.
Qed.

Lemma header_info : boot_info 0x9000 0x100000 0x106000 demo_entries demo_boot 10 100.
Proof.
  split.
  - by vm_compute.
  - repeat (apply (mmap_entry demo_mem); [by vm_compute|]). by constructor.
  - vm_compute. lia.
  - rewrite header_reserved. repeat constructor; cbn; lia.
  - split_and!; reflexivity.
  - right. vm_compute. reflexivity.
  - exists 0x300000. split_and!; [lia|lia|by vm_compute|]. intros j Hj Hl. unfold HEAP_SIZE in Hl.
    apply header_free. rewrite u32_small by lia. dlia.
  - vm_compute. discriminate.
  - repeat constructor; vm_compute; discriminate || reflexivity.
Qed.

Lemma setup_mm_boot_state_witness :
  wp (setup_mm 10 0x9000 0x100000 0x106000)
    (λ _ s', setup_post 0x9000 0x100000 0x106000 demo_entries 100 demo_boot s') demo_boot.
Proof. apply (setup_mm_boot_state 10 100 0x9000 0x100000 0x106000 demo_entries demo_boot header_info). Defined.
