(* ===== verification/BootMap.v ===== *)
(** * Mapping the loader itself

    [identity_map_tload] of src/tload/main.c without the EFI variant: before
    the switch to long mode the loader maps its own sections, its heap and
    everything between its first and last byte to themselves. *)

From stdpp Require Import base numbers list gmap strings.
From Stdlib Require Import Lia.
From S2P Require Import Prelude Mem Console MemMgr PageTable VMem Boot.
Open Scope Z_scope.

(** ** The code *)
(** [while(base < stop) { map base to itself; base += PAGESIZE; }] on 32 bits. *)
Fixpoint identity_range (fuel : nat) (pml4t base : Z) (stop : tload → Z) : M tload unit :=
  match fuel with
  | O => hang
  | S fuel =>
      s ← get;
      if base <? stop s then
        create_virtual_mapping_from_page base pml4t (Z.lor (Z.lor PF_R PF_W) PF_X) 1 base TLoad ;;
        identity_range fuel pml4t (u32 (base + PAGESIZE)) stop
      else mret tt
  end.
Definition page_down (a : Z) : Z := Z.land a (u32 (Z.lnot (PAGESIZE - 1))).

Definition identity_map_tload (fuel : nat) (h pml4t tl_start tl_end : Z) : M tload Z :=
  for_elf fuel (λ sh,
    m ← peekm id;
    identity_range fuel pml4t (page_down (sh_addr sh m))
      (λ s, u32 (sh_addr sh (ram s) + sh_size sh (ram s)))) h 0 ;;
  s ← get;
  identity_range fuel pml4t (heap_start s) heap_end ;;
  identity_range fuel pml4t (page_down tl_start) (λ _, tl_end) ;;
  mret 0.

(** ** What is mapped *)
(** The pages between the page of [r.1] and [r.2]. *)
Definition pages_of (r : Z * Z) (x : Z) : Prop := r.1 / 4096 <= x ∧ x * 4096 < r.2.
Definition page_count (r : Z * Z) : nat := Z.to_nat ((r.2 - pageof r.1 + 4095) / 4096).
Definition mapped_pages (rs : list (Z * Z)) (x : Z) : Prop := ∃ r, r ∈ rs ∧ pages_of r x.

Definition section_range (h : Z) (m : mem) (i : Z) : Z * Z :=
  let sh := section_at h m i in (sh_addr sh m, sh_addr sh m + sh_size sh m).
Definition ident_ranges (h : Z) (s : tload) (tl_start tl_end : Z) : list (Z * Z) :=
  (section_range h (ram s) <$> seqZ 0 (elf_num h (ram s))) ++
  [(heap_start s, heap_end s); (tl_start, tl_end)].

(** [v] is mapped to itself, for writing too. *)
Definition ident (root : Z) (m : mem) (v : Z) : Prop :=
  translate m root v = Some v ∧ ∃ e, leaf m root v = Some e ∧ Z.testbit e 1 = true.

Lemma page_down_pageof a : 0 <= a < 2 ^ 32 → page_down a = pageof a.
Proof.
  intros Ha. unfold page_down, pageof.
  change (u32 (Z.lnot (PAGESIZE - 1))) with (Z.land (Z.ones 32) (Z.lnot (2 ^ 12 - 1))).
  rewrite Z.land_assoc, Z.land_ones, Z.mod_small, land_lnot_mask by lia. reflexivity.
Qed.

Lemma pages_of_down a b x : pages_of (pageof a, b) x ↔ pages_of (a, b) x.
Proof. unfold pages_of, pageof. cbn [fst snd]. assert ((a - a mod 4096) / 4096 = a / 4096) as -> by dlia. done. Qed.

Lemma wp_peekm {A} (f : mem → A) (Q : A → tload → Prop) s : Q (f (ram s)) s → wp (peekm f) Q s.
Proof. done. Qed.

Section ident.
Context (root : Z) (sp : nat) (s0 : tload) (T0 : gmap (list Z) Z).
#[local] Instance heap_pager : Pager tload := pager_at (heap_start s0) (heap_end s0) sp.

(** The pages [done] are mapped to themselves, all others as in [s0], and
    there is room for [k] more. *)
Record mapped (done : Z → Prop) (k : nat) (s : tload) : Prop := Mapped {
  mf_inv : inv_at (heap_start s0) (heap_end s0) sp (4 * k) s;
  mf_free : tload_free (4 * k) s;
  mf_tree : ∃ T, tree (ram s) root T ∧ tables_used s T ∧ data_kept s0 T0 s T;
  mf_low : ∀ v e, va_ok v → leaf (ram s) root v = Some e → frame_of e < 2 ^ 32;
  mf_in : ∀ v, va_ok v → done (v / 4096) → ident root (ram s) v;
  mf_out : ∀ v, va_ok v → ¬ done (v / 4096) → leaf (ram s) root v = leaf (ram s0) root v
}.

Lemma mapped_ext d d' k s : (∀ x, d x ↔ d' x) → mapped d k s → mapped d' k s.
Proof. intros Hd [? ? ? ? H5 H6]. split; try done; intros v Hv Hx; [apply H5|apply H6]; try done; by rewrite Hd. Qed.

(** Memory that is no table is still what it was. *)
Lemma mapped_rd32 d k s a :
  mapped d k s → (∀ b, a <= b < a + 4 → data s0 T0 b) → rd32 (ram s) a = rd32 (ram s0) a.
Proof.
  intros [_ _ (T & _ & _ & Hk) _ _ _] Hd. apply (rd_ext 4). intros b Hb. by apply (Hk b), Hd.
Qed.

Lemma low_va v : 0 <= v < 2 ^ 32 → va_ok v.
Proof.
  intros Hv. split; [lia|]. unfold user_va, GET_PML4T_ENTRY_NO. rewrite land_1ff, Z.shiftr_div_pow2 by lia.
  rewrite (Z.div_small v) by lia. done.
Qed.

(** The mapping of one byte is that of its page. *)
Lemma ident_page m base v :
  base mod 4096 = 0 → v / 4096 = base / 4096 → ident root m base → ident root m v.
Proof.
  intros Hb Hv (Ht & e & He & Hw). assert (leaf m root v = Some e) as Hl.
  { rewrite <- He. apply vpn_leaf. unfold vpn. by rewrite Hv. }
  split; [|by exists e]. unfold translate in *. rewrite He in Ht. rewrite Hl. cbn in *. simplify_eq.
  f_equal. unfold GET_PAGE_OFFSET in *. rewrite !land_fff in *. dlia.
Qed.

Lemma map_page d k s base :
  0 <= base < 2 ^ 32 → base mod 4096 = 0 → mapped d (S k) s →
  wp (create_virtual_mapping_from_page base root (Z.lor (Z.lor PF_R PF_W) PF_X) 1 base TLoad)
    (λ _ s', mapped (λ x, x = base / 4096 ∨ d x) k s') s.
Proof.
  intros Hb Hm [H1 H2 (T & HT & Hu & Hk) H4 H5 H6]. pose proof (low_va base Hb) as Hva.
  eapply wp_mono; [apply (create_mapping_spec (H0 := heap_pager) root T base _ 1 base TLoad (4 * k) s)|].
  - exact HT.
  - exact Hu.
  - exact Hva.
  - replace (4 + 4 * k)%nat with (4 * S k)%nat by lia. exact H1.
  - intros _. destruct (decide (base = 0)); [by right|left]. split; [split_and!|]; dlia.
  - intros e. by apply H4.
  - intros r s' (G1 & [_ G2] & G3 & T' & GT & Gu & _ & Gd & [(Gt & Ge & Gr)|(_ & _ & Gf)]).
    2: { exfalso. apply Gf. apply (pg_free_le 4 (4 * S k)); [lia|exact H2]. }
    cbn in Gr. assert (r = base) as -> by lia. destruct Ge as (e & He & Hw).
    assert (ident root (ram s') base) as Hid by (split; [done|]; exists e; split; [done|by apply Hw]).
    assert (∀ v, va_ok v → v / 4096 ≠ base / 4096 → leaf (ram s') root v = leaf (ram s) root v) as Hsame
      by (intros v Hv Hne; by apply G3).
    split.
    + exact G1.
    + apply G2. by replace (4 + 4 * k)%nat with (4 * S k)%nat by lia.
    + exists T'. split_and!; [exact GT|exact Gu|by eapply data_kept_trans].
    + intros v e' Hv He'. destruct (decide (v / 4096 = base / 4096)) as [E|Hne].
      * assert (leaf (ram s') root v = Some e) as E' by (rewrite <- He; apply vpn_leaf; unfold vpn; by rewrite E).
        rewrite E' in He'. injection He' as <-. clear Hsame. unfold translate in Gt.
        change (pg_ram s') with (ram s') in *. rewrite He in Gt. cbn in Gt. injection Gt as Gt.
        unfold GET_PAGE_OFFSET in Gt. rewrite land_fff in Gt. lia.
      * rewrite Hsame in He' by done. by eapply H4.
    + intros v Hv Hx. destruct (decide (v / 4096 = base / 4096)) as [E|Hne]; [by eapply ident_page|].
      destruct Hx as [?|Hx]; [done|]. specialize (H5 v Hv Hx). unfold ident, translate in *. by rewrite Hsame.
    + intros v Hv Hx. rewrite Hsame; [apply H6; [done|]|done|]; intros ?; apply Hx; auto.
Qed.

Lemma page_count_step base b :
  base mod 4096 = 0 → base < b → page_count (base, b) = S (page_count (base + 4096, b)).
Proof. intros Hm Hlt. unfold page_count, pageof. cbn [fst snd]. dlia. Qed.

(** A range, its end the same at every turn of the loop. *)
Lemma identity_range_spec fuel d k s base b stop :
  (∀ d k s, mapped d k s → stop s = b) → 0 <= base < 2 ^ 32 → base mod 4096 = 0 → b <= 2 ^ 32 - 4096 →
  (page_count (base, b) < fuel)%nat → mapped d (page_count (base, b) + k) s →
  wp (identity_range fuel root base stop) (λ _ s', mapped (λ x, d x ∨ pages_of (base, b) x) k s') s.
Proof.
  intros Hstop. revert d s base. induction fuel as [|fuel IH]; intros d s base Hb Hm Hend Hf Hs; [lia|].
  cbn [identity_range]. wp_step. wp_step. rewrite (Hstop _ _ _ Hs). destruct (Z.ltb_spec base b) as [Hlt|Hge].
  - rewrite (page_count_step base b) in Hs, Hf by done. wp_step.
    eapply wp_mono; [apply (map_page d (page_count (base + 4096, b) + k) s base); [done|done|exact Hs]|]. cbv beta. intros r s1 Hs1.
    unfold PAGESIZE. rewrite u32_small by lia.
    eapply wp_mono; [eapply (IH _ s1 (base + 4096)); [lia|dlia|done|lia|exact Hs1]|].
    cbv beta. intros [] s'. apply mapped_ext. intros x. unfold pages_of. cbn [fst snd].
    assert ((base + 4096) / 4096 = base / 4096 + 1) as -> by dlia. split.
    + intros [[->|?]|?]; [right; dlia|by left|right; lia].
    + intros [?|?]; [by left; right|]. destruct (decide (x = base / 4096)); [by left; left|right; lia].
  - wp_step. revert Hs. replace (page_count (base, b)) with 0%nat by (unfold page_count, pageof; cbn [fst snd]; dlia).
    cbn [Nat.add]. apply mapped_ext. intros x. unfold pages_of. cbn [fst snd]. split; [by left|].
    intros [?|?]; [done|dlia].
Qed.

Context (h tl_start tl_end : Z) (fuel : nat).
Let m0 := ram s0.

(** The header and the loader's section headers are in memory that is taken
    and holds no page table. *)
Definition headers_kept : Prop :=
  (∀ a, h <= a < h + 52 → data s0 T0 a) ∧
  (∀ i a, 0 <= i < elf_num h m0 → section_at h m0 i <= a < section_at h m0 i + 40 → data s0 T0 a).
Hypothesis Hhdr : headers_kept.

Lemma elf_fields d k s :
  mapped d k s → elf_num h (ram s) = elf_num h m0 ∧ elf_addr h (ram s) = elf_addr h m0 ∧
    elf_size h (ram s) = elf_size h m0.
Proof.
  intros Hs. destruct Hhdr as [H1 _]. split_and!; apply (mapped_rd32 d k s); try done; intros b Hb; apply H1; lia.
Qed.

Lemma section_fields d k s i :
  mapped d k s → 0 <= i < elf_num h m0 →
  sh_addr (section_at h m0 i) (ram s) = sh_addr (section_at h m0 i) m0 ∧
  sh_size (section_at h m0 i) (ram s) = sh_size (section_at h m0 i) m0.
Proof.
  intros Hs Hi. destruct Hhdr as [_ H2]. split; apply (mapped_rd32 d k s); try done; intros b Hb; apply (H2 i); lia.
Qed.

Definition range_fits (r : Z * Z) : Prop := 0 <= r.1 < 2 ^ 32 ∧ r.2 <= 2 ^ 32 - 4096 ∧ (page_count r < fuel)%nat.
Definition total (rs : list (Z * Z)) : nat := sum_list (page_count <$> rs).

Lemma page_count_down a b : page_count (pageof a, b) = page_count (a, b).
Proof. unfold page_count. cbn [fst snd]. assert (pageof (pageof a) = pageof a) as -> by (unfold pageof; dlia). done. Qed.

(** One section. *)
Lemma map_section d k s i :
  0 <= i < elf_num h m0 → range_fits (section_range h m0 i) →
  mapped d (page_count (section_range h m0 i) + k) s →
  wp (m ← peekm id;
      identity_range fuel root (page_down (sh_addr (section_at h m0 i) m))
        (λ s, u32 (sh_addr (section_at h m0 i) (ram s) + sh_size (section_at h m0 i) (ram s))))
    (λ _ s', mapped (λ x, d x ∨ pages_of (section_range h m0 i) x) k s') s.
Proof.
  intros Hi (R1 & R2 & R3) Hs. set (sh := section_at h m0 i) in *. unfold section_range in *. fold sh in R1, R2, R3, Hs |- *.
  cbn [fst snd] in *. assert (0 <= sh_size sh m0) by apply (rd_range 4). wp_step. apply wp_peekm. unfold id.
  destruct (section_fields _ _ _ _ Hs Hi) as [E0 _]. fold sh in E0. rewrite E0, page_down_pageof by done.
  eapply wp_mono; [apply (identity_range_spec fuel d k s _ (sh_addr sh m0 + sh_size sh m0))|].
  - intros d' k' s' Hs'. destruct (section_fields _ _ _ _ Hs' Hi) as [E1 E2]. fold sh in E1, E2. rewrite E1, E2.
    apply u32_small. lia.
  - unfold pageof. dlia.
  - unfold pageof. dlia.
  - done.
  - by rewrite page_count_down.
  - by rewrite page_count_down.
  - cbv beta. intros [] s'. apply mapped_ext. intros x. by rewrite pages_of_down.
Qed.

Lemma mapped_pages_cons d r rs x :
  (d x ∨ pages_of r x) ∨ mapped_pages rs x ↔ d x ∨ mapped_pages (r :: rs) x.
Proof.
  unfold mapped_pages. split.
  - intros [[?|?]|(r' & Hr & ?)]; [by left|right; exists r|right; exists r'].
    + split; [by apply elem_of_cons; left|done].
    + split; [by apply elem_of_cons; right|done].
  - intros [?|(r' & Hr & ?)]; [by left; left|]. apply elem_of_cons in Hr as [->|Hr]; [by left; right|right]. by exists r'.
Qed.

Lemma map_sections n d k s i :
  0 <= i <= elf_num h m0 → (Z.to_nat (elf_num h m0 - i) < n)%nat →
  Forall range_fits (section_range h m0 <$> seqZ i (elf_num h m0 - i)) →
  mapped d (total (section_range h m0 <$> seqZ i (elf_num h m0 - i)) + k) s →
  wp (for_elf n (λ sh,
        m ← peekm id;
        identity_range fuel root (page_down (sh_addr sh m))
          (λ s, u32 (sh_addr sh (ram s) + sh_size sh (ram s)))) h i)
    (λ _ s', mapped (λ x, d x ∨ mapped_pages (section_range h m0 <$> seqZ i (elf_num h m0 - i)) x) k s') s.
Proof.
  assert (elf_num h m0 < 2 ^ 32) as Hmax by apply (rd_range 4).
  revert d s i. induction n as [|n IH]; intros d s i Hi Hn Hr Hs; [lia|]. cbn [for_elf]. wp_step. apply wp_peekm.
  unfold id. destruct (elf_fields _ _ _ Hs) as (-> & -> & ->). fold (section_at h m0 i).
  destruct (Z.ltb_spec i (elf_num h m0)) as [Hlt|Hge].
  - rewrite seqZ_cons in * by lia. cbn [fmap list_fmap] in *. apply Forall_cons in Hr as [Hr1 Hr2].
    unfold total in Hs. cbn [fmap list_fmap sum_list] in Hs. rewrite <- Nat.add_assoc in Hs. wp_step.
    eapply wp_mono; [eapply (map_section d _ s i); [lia|done|exact Hs]|]. cbv beta. intros [] s1 Hs1.
    rewrite u32_small by lia. replace (Z.pred (elf_num h m0 - i)) with (elf_num h m0 - (i + 1)) in * by lia.
    eapply wp_mono; [eapply (IH _ s1 (i + 1)); [lia|lia|exact Hr2|exact Hs1]|].
    cbv beta. intros [] s'. apply mapped_ext. intros x. apply mapped_pages_cons.
  - wp_step. replace (elf_num h m0 - i) with 0 in * by lia. revert Hs. cbn. apply mapped_ext.
    intros x. split; [by left|]. intros [?|(r & Hr' & _)]; [done|]. by apply not_elem_of_nil in Hr'.
Qed.
End ident.

(** What [identity_map_tload] needs: a tree of page tables known to the memory
    manager, a page-aligned heap, headers out of the way, ranges below 4 GiB,
    and memory for at most four requests a page, with [n] pages to spare. *)
Record ident_ready (root : Z) (T : gmap (list Z) Z) (h tl_start tl_end : Z) (fuel n sp : nat) (s : tload) : Prop :=
IdentReady {
  ir_tree : tree (ram s) root T;
  ir_used : tables_used s T;
  ir_low : ∀ v e, va_ok v → leaf (ram s) root v = Some e → frame_of e < 2 ^ 32;
  ir_heap : heap_start s mod 4096 = 0;
  ir_headers : headers_kept sp s T h;
  ir_ranges : Forall (range_fits fuel) (ident_ranges h s tl_start tl_end);
  ir_num : (Z.to_nat (elf_num h (ram s)) < fuel)%nat;
  ir_inv : tload_inv (4 * (total (ident_ranges h s tl_start tl_end) + n) + sp) s;
  ir_free : tload_free (4 * (total (ident_ranges h s tl_start tl_end) + n)) s
}.

Lemma ident_start root T h tl_start tl_end fuel n sp s :
  ident_ready root T h tl_start tl_end fuel n sp s →
  mapped root sp s T (λ _, False) (total (ident_ranges h s tl_start tl_end) + n) s.
Proof.
  intros [H1 H2 H3 _ _ _ _ H8 H9]. split; try done. exists T. split_and!; [done|done|]. by intros k Hk.
Qed.

Lemma total_app l1 l2 : total (l1 ++ l2) = (total l1 + total l2)%nat.
Proof. unfold total. rewrite fmap_app. induction (page_count <$> l1); simpl; lia. Qed.

Lemma identity_map_spec root T h tl_start tl_end fuel n sp (s : tload) :
  ident_ready root T h tl_start tl_end fuel n sp s →
  wp (identity_map_tload fuel h root tl_start tl_end) (λ r s', r = 0 ∧
    mapped root sp s T (mapped_pages (ident_ranges h s tl_start tl_end)) n s') s.
Proof.
  intros HR. pose proof (ident_start _ _ _ _ _ _ _ _ _ HR) as Hs. destruct HR as [_ _ _ H4 H5 H6 H7 _ _].
  unfold ident_ranges in *. set (secs := section_range h (ram s) <$> seqZ 0 (elf_num h (ram s))) in *.
  apply Forall_app in H6 as [R1 R2]. apply Forall_cons in R2 as [(A1 & A2 & A3) R2].
  rewrite Forall_singleton in R2. destruct R2 as (B1 & B2 & B3). cbn [fst snd] in *.
  rewrite total_app in Hs. unfold total in Hs at 2. cbn [fmap list_fmap sum_list] in Hs.
  rewrite Nat.add_0_r, <- !Nat.add_assoc in Hs.
  unfold identity_map_tload. wp_step.
  eapply wp_mono; [eapply (map_sections root sp s T h fuel H5 fuel _ _ s 0)|]; rewrite ?Z.sub_0_r.
  { split; [lia|apply (rd_range 4)]. } { exact H7. } { exact R1. } { exact Hs. }
  cbv beta. intros [] s1 Hs1. wp_step. wp_step. wp_step.
  pose proof (mf_inv _ _ _ _ _ _ _ Hs1) as (_ & Eh & _). rewrite Eh.
  eapply wp_mono; [eapply (identity_range_spec root sp s T fuel _ _ s1 (heap_start s) (heap_end s));
    [by intros d k s' (_ & _ & E)%mf_inv|exact A1|exact H4|exact A2|exact A3|exact Hs1]|].
  cbv beta. intros [] s2 Hs2. wp_step. rewrite page_down_pageof by exact B1.
  eapply wp_mono; [eapply (identity_range_spec root sp s T fuel _ n s2 (pageof tl_start) tl_end);
    [done|unfold pageof; dlia|unfold pageof; dlia|exact B2|by rewrite page_count_down|
     by rewrite page_count_down]|].
  cbv beta. intros [] s3 Hs3. wp_step. split; [done|]. revert Hs3. apply mapped_ext.
  intros x. rewrite pages_of_down. unfold mapped_pages. split.
  - intros [[[[]|(r & Hr & Hx)]|Hx]|Hx]; eexists; (split; [|exact Hx]); rewrite elem_of_app, !elem_of_cons; auto.
  - intros (r & Hr & Hx). rewrite elem_of_app, !elem_of_cons, elem_of_nil in Hr.
    destruct Hr as [Hr|[->|[->|[]]]]; [|by auto..]. left; left; right. by exists r.
Qed.

(** C8. Identity mapping.  [identity_map_tload] terminates, returns 0, and
    afterwards every address in a page of the loader's sections, of its heap
    or between its first and last byte translates to itself and is writable;
    every other address maps as before, the page tables are a tree, no byte
    of a taken page that is not a table changes, and memory for [n] more
    pages and [sp] more entries of the memory map is left if it was there on
    top of the loader's. *)
Theorem identity_map_tload_maps root T h tl_start tl_end fuel n sp (s : tload) :
  ident_ready root T h tl_start tl_end fuel n sp s →
  wp (identity_map_tload fuel h root tl_start tl_end) (λ r s', r = 0 ∧
    (∀ v, va_ok v → mapped_pages (ident_ranges h s tl_start tl_end) (v / 4096) → ident root (ram s') v) ∧
    (∀ v, va_ok v → ¬ mapped_pages (ident_ranges h s tl_start tl_end) (v / 4096) →
      leaf (ram s') root v = leaf (ram s) root v) ∧
    (∃ T', tree (ram s') root T' ∧ tables_used s' T' ∧ data_kept s T s' T') ∧
    tload_inv (4 * n + sp) s' ∧ tload_free (4 * n) s') s.
Proof.
  intros HR. eapply wp_mono; [by apply (identity_map_spec _ T _ _ _ _ n sp)|]. cbv beta.
  intros r s' [-> [[G1 _] G2 G3 _ G5 G6]]. by split_and!.
Qed.

(** The header of Boot.v's example, the loader's memory manager after the root
    table was allocated. *)
Definition demo_mapping : tload := with_ram (λ _, demo_mem) tload2.

Lemma demo_mapping_parts :
  ram demo_mapping = demo_mem ∧ heap_start demo_mapping = 0x100000 ∧ heap_end demo_mapping = 0x800000.
Proof. split; [reflexivity|]. vm_compute. split; reflexivity. Qed.

Lemma demo_bits :
  forallb (λ kv, (kv.1 <? 65) || (kv.1 =? 0x7fff)) (map_to_list (bitmap tload2)) = true ∧
  forallb (used (bitmap tload2)) (seqZ 0 16) = true.
Proof. vm_compute. split; reflexivity. Qed.

#[local] Opaque tload2 root1 demo_mem.

Lemma demo_mapping_ranges :
  ident_ranges 0x9000 demo_mapping 0x100000 0x106000 =
  [(0x100000, 0x105000); (0x100000, 0x800000); (0x100000, 0x106000)].
Proof.
  destruct demo_mapping_parts as (E1 & E2 & E3). unfold ident_ranges. rewrite E1, E2, E3. vm_compute. reflexivity.
Qed.

Lemma demo_mapping_total : total (ident_ranges 0x9000 demo_mapping 0x100000 0x106000) = 1803%nat.
Proof. rewrite demo_mapping_ranges. vm_compute. reflexivity. Qed.

Lemma demo_mapping_free : tload_free (4 * 1803) demo_mapping.
Proof.
  apply free_with_ram. exists (seqZ 0x820 7212). split_and!; [apply NoDup_seqZ|rewrite length_seqZ; lia|].
  intros x Hx. apply elem_of_seqZ in Hx. split; [lia|]. unfold used, dword.
  destruct (bitmap tload2 !! (x / 32)) as [d|] eqn:E; [|apply Z.bits_0]. exfalso.
  apply elem_of_map_to_list, list_elem_of_In in E. pose proof (proj1 demo_bits) as Hb.
  rewrite forallb_forall in Hb. specialize (Hb _ E). cbn [fst] in Hb.
  apply orb_true_iff in Hb as [Hb%Z.ltb_lt|Hb%Z.eqb_eq]; clear E; dlia.
Qed.

Lemma demo_mapping_tree : tree demo_mem root1 {[ [] := root1 ]}.
Proof.
  apply tree_fresh; [rewrite root1_value; split_and!; [lia|lia|done]|]. intros i Hi _. rewrite root1_value.
  unfold index in Hi. replace (entry demo_mem 0x800000 i) with 0; [done|].
  symmetry. apply (rd_zero 8). intros a Ha. apply (rd8_above _ 0x30000); [vm_compute; reflexivity|lia].
Qed.

Lemma demo_mapping_data a : 0x9000 <= a < 0xb000 → data demo_mapping {[ [] := root1 ]} a.
Proof.
  intros Ha. split.
  - apply used_with_ram. unfold tload_used. pose proof (proj2 demo_bits) as Hb. rewrite forallb_forall in Hb.
    apply Hb, list_elem_of_In, elem_of_seqZ. unfold pageof. dlia.
  - intros q Hq. apply lookup_singleton_Some in Hq as [_ E]. rewrite root1_value in E. unfold pageof in E. dlia.
Qed.

Lemma demo_mapping_ready : ident_ready root1 {[ [] := root1 ]} 0x9000 0x100000 0x106000 2000 0 0 demo_mapping.
Proof.
  destruct demo_mapping_parts as (E1 & E2 & E3).
  split; rewrite ?demo_mapping_total, ?E1, ?Nat.add_0_r.
  - exact demo_mapping_tree.
  - intros p a Hp. apply lookup_singleton_Some in Hp as [_ <-].
    split; [by apply used_with_ram, (tload2_inv 0)|]. rewrite root1_value. lia.
  - intros v e Hv. rewrite (tree_leaf _ _ _ _ demo_mapping_tree) by apply Hv. by rewrite lookup_singleton_ne.
  - by rewrite E2.
  - unfold headers_kept. rewrite E1. split.
    + intros a Ha. apply demo_mapping_data. lia.
    + intros i a Hi. assert (elf_num 0x9000 demo_mem = 1) as En by by vm_compute. rewrite En in Hi.
      assert (i = 0) as -> by lia. replace (section_at 0x9000 demo_mem 0) with 0xa100 by by vm_compute.
      intros Ha. apply demo_mapping_data. lia.
  - rewrite demo_mapping_ranges. unfold range_fits, page_count, pageof.
    repeat (apply Forall_cons; split); [..|by apply Forall_nil]; cbn [fst snd];
    split_and!; try lia; apply Nat.ltb_lt; by vm_compute.
  - replace (elf_num 0x9000 demo_mem) with 1 by by vm_compute. lia.
  - by apply inv_with_ram, tload2_inv.
  - exact demo_mapping_free.
Qed.

Lemma identity_map_tload_maps_witness :
  wp (identity_map_tload 2000 0x9000 root1 0x100000 0x106000) (λ r s', r = 0 ∧
    (∀ v, va_ok v → mapped_pages (ident_ranges 0x9000 demo_mapping 0x100000 0x106000) (v / 4096) →
      ident root1 (ram s') v) ∧
    (∀ v, va_ok v → ¬ mapped_pages (ident_ranges 0x9000 demo_mapping 0x100000 0x106000) (v / 4096) →
      leaf (ram s') root1 v = leaf (ram demo_mapping) root1 v) ∧
    (∃ T', tree (ram s') root1 T' ∧ tables_used s' T' ∧ data_kept demo_mapping {[ [] := root1 ]} s' T') ∧
    tload_inv (4 * 0 + 0) s' ∧ tload_free (4 * 0) s')
    demo_mapping.
Proof.
  apply (identity_map_tload_maps root1 {[ [] := root1 ]} 0x9000 0x100000 0x106000 2000 0 0 demo_mapping
    demo_mapping_ready).
Defined.
