(* ===== verification/KifBoot.v ===== *)
(** * The information handed to the kernel

    src/tload/kif.c without the EFI variant, and [memmgr_init_linked_list] of
    src/tload/memmgr.c: a header object with the memory map, the modules and
    the addresses the kernel needs, built on the loader's heap.  The functions
    of tloadkif.c, which the build generates from the kernel, are a parameter
    [kif_code] with the laws [kif_laws].  Members have the offsets of an i386
    compiler, for which eight-byte members are aligned to four. *)

From stdpp Require Import base numbers list gmap strings.
From Stdlib Require Import Lia.
From S2P Require Import Prelude Mem Console MemMgr TloadStdlib TloadKif Boot BootMap.
Open Scope Z_scope.

(** struct __array, struct Multiboot_Header and struct Multiboot_Module of
    src/tload/tloadkif.h. *)
Definition ka_lobounds : Z := 40.
Definition ka_sizes : Z := 48.
Definition ka_inner_array : Z := 56.
Definition sizeof_ka : Z := 64.

Definition kh_mmap : Z := 20.
Definition kh_modules : Z := 28.
Definition kh_heap_start : Z := 36.
Definition kh_heap_end : Z := 44.
Definition kh_virt_master_paging_struct : Z := 52.
Definition kh_virt_bda : Z := 60.
Definition kh_max_tysos : Z := 68.
Definition kh_gdt : Z := 76.
Definition kh_tysos_paddr : Z := 84.
Definition kh_tysos_size : Z := 92.
Definition kh_tysos_virtaddr : Z := 100.
Definition kh_tysos_sym_tab_paddr : Z := 108.
Definition kh_tysos_sym_tab_size : Z := 116.
Definition kh_tysos_sym_tab_entsize : Z := 124.
Definition kh_tysos_str_tab_paddr : Z := 132.
Definition kh_tysos_str_tab_size : Z := 140.
Definition kh_cmdline : Z := 148.
Definition kh_debug : Z := 156.
Definition sizeof_kh : Z := 204.

Definition km_base_addr : Z := 20.
Definition km_length : Z := 28.
Definition km_name : Z := 36.
Definition sizeof_km : Z := 44.

Definition VA_PML4T : Z := 0xfffffffffffff000.

(** [&cur->mmap]: the object inside a struct linked_mmap. *)
Definition mmap_of (cur : Z) : Z := cur + 8.

(** char *string of struct mb_mod. *)
Definition mod_string (e : Z) (m : mem) : Z := rd32 m (e + 8).

(** tloadkif.c: the array and string objects come back through the pointer
    argument. *)
Record kif_code := KifCode {
  Create_Ref_Array : M tload Z;
  Init_Multiboot_Module : Z → M tload unit;
  Init_Multiboot_MemoryMap : Z → M tload unit;
  CreateString : Z → M tload Z
}.

Section code.
Context (gen : kif_code).

Definition load64 (a : Z) : M tload Z := peekm (λ m, rd64 m a).

(** The headers of all entries of the memory map. *)
Fixpoint init_loop (fuel : nat) (cur_mmap : Z) : M tload unit :=
  match fuel with
  | O => hang
  | S fuel =>
      if cur_mmap =? 0 then mret tt
      else
        Init_Multiboot_MemoryMap gen (mmap_of cur_mmap) ;;
        s ← get;
        match nodes s !! cur_mmap with
        | Some n => init_loop fuel (lm_next n)
        | None => undef
        end
  end.
Definition memmgr_init_linked_list : M tload unit :=
  s ← get; init_loop (S (size (nodes s))) (mm_first s).

(** The three blocks of an array of [n] references. *)
Definition new_ref_array (n : mem → Z) : M tload Z :=
  arr ← Create_Ref_Array gen;
  lobounds ← malloc 4;
  store64 (arr + ka_lobounds) lobounds ;;
  sizes ← malloc 4;
  store64 (arr + ka_sizes) sizes ;;
  len ← peekm n;
  inner ← malloc (u32 (len * 8));
  store64 (arr + ka_inner_array) inner ;;
  lobounds ← load64 (arr + ka_lobounds);
  store32 (u32 lobounds) 0 ;;
  sizes ← load64 (arr + ka_sizes);
  len ← peekm n;
  store32 (u32 sizes) len ;;
  mret arr.

(** [for(i = 0; i < mmap_items; i++)]: the address of every entry. *)
Fixpoint mmap_loop (n : nat) (arr i cur_linked_mmap : Z) : M tload unit :=
  match n with
  | O => mret tt
  | S n =>
      inner ← load64 (arr + ka_inner_array);
      store64 (u32 (u32 inner + 8 * i)) (mmap_of cur_linked_mmap) ;;
      s ← get;
      match nodes s !! cur_linked_mmap with
      | Some nd => mmap_loop n arr (i + 1) (lm_next nd)
      | None => undef
      end
  end.

Definition make_kif (tysos_heap_start tysos_heap_end bda_addr : Z) : M tload Z :=
  kif ← malloc sizeof_kh;
  s ← get;
  mmap_items ← lift (count_linked_list s);
  mmap_array_obj ← new_ref_array (λ _, mmap_items);
  s ← get;
  mmap_loop (Z.to_nat mmap_items) mmap_array_obj 0 (mm_first s) ;;
  store64 (kif + kh_mmap) mmap_array_obj ;;
  store64 (kif + kh_heap_start) tysos_heap_start ;;
  store64 (kif + kh_heap_end) tysos_heap_end ;;
  store64 (kif + kh_virt_master_paging_struct) VA_PML4T ;;
  store64 (kif + kh_virt_bda) bda_addr ;;
  mret kif.

(** One module, the body of the loop: the object with the address and length,
    then its name. *)
Definition write_fields (h arr i : Z) : M tload (Z * Z) :=
  m ← peekm id;
  let cur_mod := u32 (mods_addr h m + i * 16) in
  cur_dest ← malloc sizeof_km;
  Init_Multiboot_Module gen cur_dest ;;
  inner ← load64 (arr + ka_inner_array);
  store64 (u32 (u32 inner + 8 * i)) cur_dest ;;
  m ← peekm id;
  store64 (cur_dest + km_base_addr) (mod_start cur_mod m) ;;
  m ← peekm id;
  store64 (cur_dest + km_length) (u32 (mod_end cur_mod m - mod_start cur_mod m)) ;;
  mret (cur_mod, cur_dest).
Definition write_name (cur_mod cur_dest : Z) : M tload unit :=
  m ← peekm id;
  if truth (mod_string cur_mod m) then
    dest_str ← CreateString gen (mod_string cur_mod m);
    store64 (cur_dest + km_name) dest_str
  else mret tt.
Definition write_module (h arr i : Z) : M tload unit :=
  p ← write_fields h arr i; write_name p.1 p.2.

Fixpoint modules_loop (fuel : nat) (h arr i : Z) : M tload unit :=
  match fuel with
  | O => hang
  | S fuel =>
      n ← peekm (mods_count h);
      if i <? n then write_module h arr i ;; modules_loop fuel h arr (u32 (i + 1)) else mret tt
  end.

Definition write_kif_modules (fuel : nat) (kif h : Z) : M tload unit :=
  modules_array ← new_ref_array (mods_count h);
  store64 (kif + kh_modules) modules_array ;;
  modules_loop fuel h modules_array 0.
End code.

(** ** What tloadkif.c promises *)
(** Only memory, the console and the top of the heap change. *)
Record same_manager (s s' : tload) : Prop := SameManager {
  sm_ok : heap_ok s';
  sm_top : cur_end s <= cur_end s';
  sm_bitmap : bitmap s' = bitmap s;
  sm_nodes : nodes s' = nodes s;
  sm_first : mm_first s' = mm_first s;
  sm_last : mm_last s' = mm_last s;
  sm_start : heap_start s' = heap_start s;
  sm_end : heap_end s' = heap_end s
}.

Lemma same_manager_trans s s1 s2 : same_manager s s1 → same_manager s1 s2 → same_manager s s2.
Proof. intros [] []. split; try congruence. lia. Qed.

Lemma same_manager_map s s' l : same_manager s s' → map_ok s l → map_ok s' l.
Proof.
  intros [? ? ? E1 E2 E3 E4 E5] [Hf Hl Hnd Hdom Had Hlk Hwf Hap].
  split; rewrite ?E1, ?E2, ?E3, ?E4; try done. eapply Forall_impl; [exact Had|]. cbv beta. lia.
Qed.

(** Bytes of the heap that were handed out since [s]. *)
Definition fresh_only (s s' : tload) : Prop :=
  same_outside (cur_end s) (cur_end s' - cur_end s) (ram s) (ram s').

(** [array_room] bytes for an array object, [str_room l] for the string [l];
    [is_string m p l] says that [p] is a string object with the text [l]. *)
Record kif_laws (gen : kif_code) (array_room : Z) (str_room : list Z → Z)
    (is_string : mem → Z → list Z → Prop) : Prop := KifLaws {
  kl_array s : heap_ok s → cur_end s + array_room <= heap_end s →
    wp (Create_Ref_Array gen) (λ p s', same_manager s s' ∧ fresh_only s s' ∧ cur_end s <= p ∧
      p + sizeof_ka <= cur_end s' ∧ cur_end s' <= cur_end s + array_room) s;
  kl_module obj s : heap_ok s →
    wp (Init_Multiboot_Module gen obj) (λ _ s', same_manager s s' ∧ cur_end s' = cur_end s ∧
      same_outside obj 20 (ram s) (ram s')) s;
  kl_mmap obj s : heap_ok s →
    wp (Init_Multiboot_MemoryMap gen obj) (λ _ s', same_manager s s' ∧ cur_end s' = cur_end s ∧
      same_outside obj 20 (ram s) (ram s')) s;
  kl_string str l s : heap_ok s → cstring (ram s) str l →
    str + (Z.of_nat (length l) + 1) <= cur_end s ∨ heap_end s <= str → cur_end s + str_room l <= heap_end s →
    wp (CreateString gen str) (λ p s', same_manager s s' ∧ fresh_only s s' ∧ p = cur_end s ∧
      cur_end s' = cur_end s + str_room l ∧ is_string (ram s') p l) s;
  kl_array_room : sizeof_ka <= array_room;
  kl_room l : 0 <= str_room l;
  kl_string_bytes m m' p l : is_string m p l → (∀ a, p <= a < p + str_room l → rd8 m' a = rd8 m a) →
    is_string m' p l
}.

(** ** Arrays of references *)
(** [arr] is an array object for [n] references, which are at [inner]. *)
Record ref_array (m : mem) (arr n inner : Z) : Prop := RefArray {
  ra_order : arr + sizeof_ka <= inner - 8;
  ra_lobounds : rd64 m (arr + ka_lobounds) = inner - 8;
  ra_sizes : rd64 m (arr + ka_sizes) = inner - 4;
  ra_inner : rd64 m (arr + ka_inner_array) = inner;
  ra_lobound : rd32 m (inner - 8) = 0;
  ra_size : rd32 m (inner - 4) = n
}.

Lemma ref_array_kept m m' arr n inner :
  ref_array m arr n inner → (∀ a, arr <= a < inner → rd8 m' a = rd8 m a) → ref_array m' arr n inner.
Proof.
  intros [H1 H2 H3 H4 H5 H6] Hs. unfold sizeof_ka, ka_lobounds, ka_sizes, ka_inner_array in *.
  split; [done|rewrite <- H2|rewrite <- H3|rewrite <- H4|rewrite <- H5|rewrite <- H6];
    [apply (rd_ext 8)|apply (rd_ext 8)|apply (rd_ext 8)|apply (rd_ext 4)|apply (rd_ext 4)]; intros a Ha; apply Hs;
    unfold sizeof_ka, ka_lobounds, ka_sizes, ka_inner_array in *; lia.
Qed.

Section specs.
Context (gen : kif_code) (array_room : Z) (str_room : list Z → Z) (is_string : mem → Z → list Z → Prop).
Hypothesis laws : kif_laws gen array_room str_room is_string.

Lemma wp_malloc n (Q : Z → tload → Prop) s :
  heap_ok s → 0 <= n → cur_end s + n <= heap_end s →
  Q (cur_end s) (with_heap (cur_end s + n) (heap_start s) (heap_end s) s) → wp (malloc n) Q s.
Proof. intros Hs Hn Hr HQ. eapply wp_intro; [by apply malloc_bump|done]. Qed.

Lemma wp_store64 a v (Q : unit → tload → Prop) s :
  Q tt (with_ram (λ _, wr64 (ram s) a v) s) → wp (store64 a v) Q s.
Proof. done. Qed.
Lemma wp_store32 a v (Q : unit → tload → Prop) s :
  Q tt (with_ram (λ _, wr32 (ram s) a v) s) → wp (store32 a v) Q s.
Proof. done. Qed.
Lemma wp_load64 a (Q : Z → tload → Prop) s : Q (rd64 (ram s) a) s → wp (load64 a) Q s.
Proof. done. Qed.

Lemma new_ref_array_spec (n : mem → Z) len s :
  heap_ok s → 0 <= len → cur_end s + array_room + 8 + 8 * len <= heap_end s →
  (∀ m, (∀ a, a < cur_end s ∨ heap_end s <= a → rd8 m a = rd8 (ram s) a) → n m = len) →
  wp (new_ref_array gen n) (λ arr s', ∃ inner, same_manager s s' ∧ fresh_only s s' ∧
    ref_array (ram s') arr len inner ∧ cur_end s <= arr ∧ cur_end s' = inner + 8 * len ∧
    cur_end s' <= cur_end s + array_room + 8 + 8 * len) s.
Proof.
  intros Hh Hlen Hroom Hn. pose proof Hh as (A1 & A2 & A3 & A4). unfold new_ref_array. wp_step.
  eapply wp_mono; [apply (kl_array _ _ _ _ laws); [done|lia]|]. cbv beta.
  intros arr s1 ([O1 O2 O3 O4 O5 O6 O7 O8] & Hf & P1 & P2 & P3). unfold sizeof_ka in P2.
  unfold ka_lobounds, ka_sizes, ka_inner_array. set (t := cur_end s1) in *.
  assert (heap_ok s1) as (B1 & B2 & B3 & B4) by done. fold t in B1, B2.
  wp_step. apply wp_malloc; [done|lia|fold t; lia|]. fold t. wp_step. apply wp_store64. wp_step.
  apply wp_malloc; [unfold heap_ok; cbn; lia|lia|cbn; lia|]. wp_step. apply wp_store64. wp_step. apply wp_peekm.
  cbn [ram cur_end heap_start heap_end with_heap with_ram].
  assert (∀ m, (∀ a, a < arr ∨ heap_end s <= a → rd8 m a = rd8 (ram s1) a) → n m = len) as Hn'.
  { intros m Hm. apply Hn. intros a Ha. rewrite Hm by lia. apply Hf. fold t. lia. }
  rewrite (Hn' (wr64 _ _ _)).
  2: { intros a Ha. unfold wr64. rewrite !rd8_wr_outside by lia. done. }
  rewrite (u32_small (len * 8)) by lia. wp_step.
  apply wp_malloc; [unfold heap_ok; cbn; lia|lia|cbn; lia|]. wp_step. apply wp_store64. wp_step. apply wp_load64.
  cbn [ram cur_end heap_start heap_end with_heap with_ram].
  rewrite rd64_wr64_ne, rd64_wr64_ne, rd64_wr64_eq, (u64_small t), (u32_small t) by lia.
  wp_step. apply wp_store32. wp_step. apply wp_load64. cbn [ram with_ram]. unfold wr32, rd64 at 1.
  rewrite rd_wr_ne by lia. fold (rd64 (wr64 (wr64 (wr64 (ram s1) (arr + 40) t) (arr + 48) (t + 4)) (arr + 56) (t + 4 + 4)) (arr + 48)).
  rewrite rd64_wr64_ne, rd64_wr64_eq, (u64_small (t + 4)), (u32_small (t + 4)) by lia.
  wp_step. apply wp_peekm. cbn [ram with_ram]. rewrite Hn'.
  2: { intros a Ha. unfold wr64. rewrite !rd8_wr_outside by lia. done. }
  wp_step. apply wp_store32. wp_step. exists (t + 8).
  cbn [ram cur_end heap_start heap_end with_heap with_ram]. split_and!; [| | |lia|lia|lia].
  - split; try done; cbn; try lia; try congruence. unfold heap_ok. cbn. lia.
  - intros a Ha. cbn [ram cur_end heap_start heap_end with_heap with_ram] in *. unfold wr32, wr64.
    rewrite !rd8_wr_outside by lia. apply Hf. fold t. lia.
  - unfold wr32, wr64. split; unfold sizeof_ka, ka_lobounds, ka_sizes, ka_inner_array; [lia|..]; unfold rd64, rd32.
    + rewrite !rd_wr_ne, rd_wr_eq by lia. change (256 ^ Z.of_nat 8) with (2 ^ 64). rewrite Z.mod_small by lia. lia.
    + rewrite !rd_wr_ne, rd_wr_eq by lia. change (256 ^ Z.of_nat 8) with (2 ^ 64). rewrite Z.mod_small by lia. lia.
    + rewrite !rd_wr_ne, rd_wr_eq by lia. change (256 ^ Z.of_nat 8) with (2 ^ 64). rewrite Z.mod_small by lia. lia.
    + rewrite rd_wr_ne by lia. replace (t + 8 - 8) with t by lia. by rewrite rd_wr_eq.
    + replace (t + 8 - 4) with (t + 4) by lia. rewrite rd_wr_eq. change (256 ^ Z.of_nat 4) with (2 ^ 32).
      rewrite Z.mod_small by lia. done.
Qed.

Lemma mmap_loop_spec n i arr len inner l s :
  heap_ok s → map_ok s l → ref_array (ram s) arr len inner → 0 <= arr → inner + 8 * Z.of_nat (length l) < 2 ^ 32 →
  (i + n = length l)%nat →
  wp (mmap_loop n arr (Z.of_nat i) (default 0 (l !! i))) (λ _ s', ∃ m', s' = with_ram (λ _, m') s ∧
    same_outside (inner + 8 * Z.of_nat i) (8 * Z.of_nat n) (ram s) m' ∧
    ∀ j a, (i <= j)%nat → l !! j = Some a → rd64 m' (inner + 8 * Z.of_nat j) = mmap_of a) s.
Proof.
  intros Hh Hm Hr Ha Hl. pose proof (ra_order _ _ _ _ Hr) as Ho. unfold sizeof_ka in Ho.
  revert i s Hh Hm Hr. induction n as [|n IH]; intros i s Hh Hm Hr Hi; cbn [mmap_loop].
  - wp_step. exists (ram s). split; [by destruct s|]. split; [done|]. intros j a Hj E. apply lookup_lt_Some in E. lia.
  - destruct (lookup_lt_is_Some_2 l i) as [a Ea]; [lia|]. rewrite Ea. change (default 0 (Some a)) with a.
    destruct (map_ok_nonzero s l a Hh Hm (list_elem_of_lookup_2 _ _ _ Ea)) as [Z1 Z2].
    destruct (mo_links _ _ Hm i a Ea) as (nd & En & Enx & _).
    wp_step. apply wp_load64. rewrite (ra_inner _ _ _ _ Hr), (u32_small inner), u32_small by lia.
    wp_step. apply wp_store64. wp_step. apply wp_get. cbn [nodes with_ram]. rewrite En, Enx.
    replace (Z.of_nat i + 1) with (Z.of_nat (S i)) by lia. set (b := inner + 8 * Z.of_nat i) in *.
    eapply wp_mono; [apply (IH (S i))|].
    + exact Hh.
    + by destruct Hm.
    + eapply ref_array_kept; [exact Hr|]. intros k Hk. cbn [ram with_ram]. unfold wr64. by rewrite rd8_wr_outside by lia.
    + lia.
    + cbv beta. intros [] s' (m' & -> & Hs & Hv). exists m'. cbn [ram with_ram] in Hs. split_and!; [done| |].
      * intros k Hk. rewrite Hs by lia. unfold wr64. by rewrite rd8_wr_outside by lia.
      * intros j c Hj Ec. destruct (decide (j = i)) as [->|Hne]; [|apply Hv; [lia|done]].
        rewrite Ea in Ec. injection Ec as <-. fold b. destruct Hh as (A1 & A2 & A3 & _).
        unfold rd64. rewrite (rd_same_outside 8 _ _ _ _ _ Hs) by lia. fold (rd64 (wr64 (ram s) b (mmap_of a)) b).
        rewrite rd64_wr64_eq. apply u64_small. unfold mmap_of. lia.
Qed.

(** The array object [arr] lists [l]. *)
Definition lists (m : mem) (arr : Z) (l : list Z) : Prop :=
  ∃ inner, ref_array m arr (Z.of_nat (length l)) inner ∧
    ∀ i a, l !! i = Some a → rd64 m (inner + 8 * Z.of_nat i) = a.

(** What [make_kif] writes into the header at [kif]. *)
Record kif_map (m : mem) (kif ths the bda : Z) (l : list Z) : Prop := KifMap {
  kif_lists : lists m (rd64 m (kif + kh_mmap)) (mmap_of <$> l);
  kif_heap : rd64 m (kif + kh_heap_start) = ths ∧ rd64 m (kif + kh_heap_end) = the;
  kif_paging : rd64 m (kif + kh_virt_master_paging_struct) = VA_PML4T;
  kif_bda : rd64 m (kif + kh_virt_bda) = bda
}.

(** The header's part and all that was allocated behind it are as in [m0]. *)
Definition map_bytes (kif top : Z) (m0 m : mem) : Prop :=
  ∀ a, kif + kh_mmap <= a < kif + kh_modules ∨ kif + kh_heap_start <= a < kif + kh_max_tysos ∨
    kif + sizeof_kh <= a < top → rd8 m a = rd8 m0 a.

Definition map_room (l : list Z) : Z := sizeof_kh + array_room + 8 + 8 * Z.of_nat (length l).

Lemma make_kif_spec ths the bda l s :
  heap_ok s → map_ok s l → cur_end s + map_room l <= heap_end s →
  0 <= ths < 2 ^ 32 → 0 <= the < 2 ^ 32 → 0 <= bda < 2 ^ 32 →
  wp (make_kif gen ths the bda) (λ kif s', kif = cur_end s ∧ same_manager s s' ∧ fresh_only s s' ∧
    kif + sizeof_kh <= cur_end s' ∧ cur_end s' <= cur_end s + map_room l ∧
    ∀ m, map_bytes kif (cur_end s') (ram s') m → kif_map m kif ths the bda l) s.
Proof.
  intros Hh Hm Hroom B1 B2 B3. pose proof (kl_array_room _ _ _ _ laws) as Hka. unfold map_room, sizeof_kh, sizeof_ka in *. pose proof Hh as (A1 & A2 & A3 & A4).
  pose proof (map_ok_length s l Hh Hm) as Hlen. unfold make_kif, sizeof_kh. wp_step.
  apply wp_malloc; [done|lia|lia|]. set (kf := cur_end s) in *.
  set (s1 := with_heap (kf + 204) (heap_start s) (heap_end s) s).
  assert (heap_ok s1) as Hh1 by (unfold heap_ok; cbn; lia).
  assert (same_manager s s1) as G1 by (split; try done; cbn; lia).
  pose proof (same_manager_map _ _ _ G1 Hm) as Hm1. wp_step. apply wp_get. wp_step.
  eapply wp_lift; [apply (count_linked_list_length s1 l Hh1 Hm1); lia|]. wp_step.
  eapply wp_mono; [apply (new_ref_array_spec _ (Z.of_nat (length l)) s1); [done|lia|cbn; lia|done]|].
  cbv beta. intros arr s2 (inner & G2 & F2 & R2 & P1 & P2 & P3). cbn [cur_end s1 with_heap] in P1, P3.
  pose proof (ra_order _ _ _ _ R2) as P4. unfold sizeof_ka in P4.
  assert (heap_ok s2) as Hh2 by apply G2. assert (heap_end s2 = heap_end s) as E2 by apply G2.
  pose proof (same_manager_map _ _ _ G2 Hm1) as Hm2. wp_step. apply wp_get. wp_step.
  rewrite (mo_first _ _ Hm2), Nat2Z.id. replace (head l) with (l !! 0%nat) by by destruct l.
  pose proof Hh2 as (C1 & C2 & C3 & _).
  eapply wp_mono; [apply (mmap_loop_spec (length l) 0 arr _ inner l s2 Hh2 Hm2 R2); lia|].
  cbv beta. intros [] s3 (m3 & -> & F3 & V3). do 5 (wp_step; apply wp_store64). wp_step.
  unfold kh_mmap, kh_heap_start, kh_heap_end, kh_virt_master_paging_struct, kh_virt_bda.
  cbn [ram with_ram]. set (m4 := wr64 _ (kf + 60) bda). rewrite Z.add_0_r in F3.
  assert (same_outside kf 68 m3 m4) as F4 by (intros k Hk; unfold m4, wr64; by rewrite !rd8_wr_outside by lia).
  split; [done|]. cbn [cur_end with_ram]. split; [|split; [|split; [lia|split; [lia|]]]].
  - eapply same_manager_trans; [exact G1|]. destruct G2. by split.
  - intros k Hk. cbn [ram cur_end with_ram] in *. fold kf in Hk. rewrite F4, F3 by lia. apply F2. cbn. lia.
  - intros m Hmb. unfold map_bytes, kh_mmap, kh_modules, kh_heap_start, kh_max_tysos, sizeof_kh in Hmb.
    assert (∀ o, o = 20 ∨ 36 <= o ∧ o + 8 <= 68 → rd64 m (kf + o) = rd64 m4 (kf + o)) as E4.
    { intros o Ho. apply (rd_ext 8). intros k Hk. apply Hmb. lia. }
    split; unfold kh_mmap, kh_heap_start, kh_heap_end, kh_virt_master_paging_struct, kh_virt_bda; rewrite !E4 by lia.
    + replace (rd64 m4 (kf + 20)) with arr
        by (unfold m4; rewrite !rd64_wr64_ne, rd64_wr64_eq by lia; symmetry; apply u64_small; lia). exists inner. split.
      * rewrite length_fmap. eapply ref_array_kept; [exact R2|]. intros k Hk. rewrite Hmb, F4, F3 by lia. done.
      * intros i b Hb. apply list_lookup_fmap_Some in Hb as (a & -> & Hi). pose proof (lookup_lt_Some _ _ _ Hi). rewrite <- (V3 i a ltac:(lia) Hi).
        apply (rd_ext 8). intros k Hk. rewrite Hmb, F4 by lia. done.
    + unfold m4. split; rewrite !rd64_wr64_ne, rd64_wr64_eq by lia; apply u64_small; lia.
    + unfold m4. rewrite !rd64_wr64_ne, rd64_wr64_eq by lia. done.
    + unfold m4. rewrite rd64_wr64_eq. apply u64_small. lia.
Qed.

(** ** The headers of the memory map *)
Lemma init_loop_spec fuel i l s :
  heap_ok s → map_ok s l → (length l - i < fuel)%nat →
  wp (init_loop gen fuel (default 0 (l !! i))) (λ _ s', same_manager s s' ∧ cur_end s' = cur_end s ∧
    ∀ k, (∀ a, a ∈ l → k < a ∨ a + 28 <= k) → rd8 (ram s') k = rd8 (ram s) k) s.
Proof.
  revert i s. induction fuel as [|fuel IH]; intros i s Hh Hm Hf; [lia|]. cbn [init_loop].
  destruct (l !! i) as [a|] eqn:Ea; [change (default 0 (Some a)) with a|].
  2: { cbn [default Z.eqb]. wp_step. split; [by split|done]. }
  pose proof (list_elem_of_lookup_2 _ _ _ Ea) as Hin. apply lookup_lt_Some in Ea as Hlt.
  destruct (map_ok_nonzero s l a Hh Hm Hin) as [Z1 Z2]. destruct (Z.eqb_spec a 0); [lia|].
  wp_step. eapply wp_mono; [by apply (kl_mmap _ _ _ _ laws)|]. cbv beta. intros [] s1 (G1 & T1 & F1).
  pose proof (same_manager_map _ _ _ G1 Hm) as Hm1. destruct (mo_links _ _ Hm1 i a Ea) as (nd & En & Enx & _).
  wp_step. apply wp_get. rewrite En, Enx. eapply wp_mono; [apply (IH (S i) s1); [apply G1|done|lia]|].
  cbv beta. intros [] s2 (G2 & T2 & F2). split_and!; [by eapply same_manager_trans|congruence|].
  intros k Hk. rewrite F2 by done. apply F1. specialize (Hk a Hin). unfold mmap_of. lia.
Qed.

Lemma init_list_spec l s :
  heap_ok s → map_ok s l →
  wp (memmgr_init_linked_list gen) (λ _ s', same_manager s s' ∧ cur_end s' = cur_end s ∧
    ∀ k, (∀ a, a ∈ l → k < a ∨ a + 28 <= k) → rd8 (ram s') k = rd8 (ram s) k) s.
Proof.
  intros Hh Hm. unfold memmgr_init_linked_list. wp_step. apply wp_get. rewrite (mo_first _ _ Hm), (map_ok_size _ _ Hm).
  replace (head l) with (l !! 0%nat) by by destruct l. apply init_loop_spec; [done|done|lia].
Qed.

(** ** The modules *)
Section mods.
Context (h : Z) (m0 : mem) (lo hi : Z) (names : Z → option (list Z)).

Definition module_at (i : Z) : Z := u32 (mods_addr h m0 + i * 16).
(** Away from the part of the heap that is still free. *)
Definition away (a n : Z) : Prop := a + n <= lo ∨ hi <= a.
(** The header and the modules are, and [names] are their strings. *)
Record modules_away : Prop := ModulesAway {
  ma_header : away h 28;
  ma_module i : 0 <= i < mods_count h m0 → away (module_at i) 12;
  ma_name i : 0 <= i < mods_count h m0 →
    match names i with
    | None => mod_string (module_at i) m0 = 0
    | Some l => mod_string (module_at i) m0 ≠ 0 ∧ cstring m0 (mod_string (module_at i) m0) l ∧
        away (mod_string (module_at i) m0) (Z.of_nat (length l) + 1)
    end
}.
Hypothesis Haway : modules_away.

(** [a] is the module object for module [i]. *)
Definition module_obj (m : mem) (a i : Z) : Prop :=
  rd64 m (a + km_base_addr) = mod_start (module_at i) m0 ∧
  rd64 m (a + km_length) = u32 (mod_end (module_at i) m0 - mod_start (module_at i) m0) ∧
  match names i with Some l => is_string m (rd64 m (a + km_name)) l | None => True end.

Definition name_room (i : Z) : Z := match names i with Some l => str_room l | None => 0 end.
Fixpoint modules_room (n : nat) (i : Z) : Z :=
  match n with O => 0 | S n => sizeof_km + name_room i + modules_room n (i + 1) end.

Definition outside (m : mem) : Prop := ∀ a, a < lo ∨ hi <= a → rd8 m a = rd8 m0 a.

Lemma name_room_nonneg i : 0 <= name_room i.
Proof. unfold name_room. destruct (names i); [apply (kl_room _ _ _ _ laws)|lia]. Qed.
Lemma modules_room_nonneg n i : 0 <= modules_room n i.
Proof.
  revert i. induction n as [|n IH]; intros i; cbn [modules_room]; [lia|]. specialize (IH (i + 1)).
  pose proof (name_room_nonneg i). unfold sizeof_km. lia.
Qed.

Lemma outside_rd n m a : outside m → away a (Z.of_nat n) → rd n m a = rd n m0 a.
Proof. intros Hm Ha. apply rd_ext. intros k Hk. apply Hm. unfold away in Ha. lia. Qed.

Lemma outside_header m : outside m → mods_count h m = mods_count h m0 ∧ mods_addr h m = mods_addr h m0.
Proof.
  intros Hm. pose proof (ma_header Haway) as Ha. unfold away in Ha.
  split; apply (outside_rd 4); try done; unfold away; lia.
Qed.

Lemma outside_module m i : outside m → 0 <= i < mods_count h m0 →
  mod_start (module_at i) m = mod_start (module_at i) m0 ∧ mod_end (module_at i) m = mod_end (module_at i) m0 ∧
  mod_string (module_at i) m = mod_string (module_at i) m0.
Proof.
  intros Hm Hi. pose proof (ma_module Haway i Hi) as Ha. unfold away in Ha.
  split_and!; apply (outside_rd 4); try done; unfold away; lia.
Qed.

(** The object of one module. *)
Lemma module_obj_kept m m' a i :
  module_obj m a i → (∀ k, a + 20 <= k < a + sizeof_km → rd8 m' k = rd8 m k) →
  (∀ l, names i = Some l → ∀ k, rd64 m (a + km_name) <= k < rd64 m (a + km_name) + str_room l → rd8 m' k = rd8 m k) →
  module_obj m' a i.
Proof.
  unfold module_obj, km_base_addr, km_length, km_name, sizeof_km. intros (H1 & H2 & H3) Hk Hs.
  assert (∀ o, 20 <= o → o + 8 <= 44 → rd64 m' (a + o) = rd64 m (a + o)) as E.
  { intros o O1 O2. apply (rd_ext 8). intros k Hk'. apply Hk. lia. }
  rewrite !E by lia. split_and!; [done|done|]. destruct (names i) as [l|]; [|done].
  eapply (kl_string_bytes _ _ _ _ laws); [exact H3|]. by apply Hs.
Qed.

(** The array for the modules is there, nothing below it has changed. *)
Record module_ready (arr inner : Z) (s : tload) : Prop := ModuleReady {
  mr_ok : heap_ok s;
  mr_end : heap_end s = hi;
  mr_lo : 0 <= lo <= arr;
  mr_array : ref_array (ram s) arr (mods_count h m0) inner;
  mr_inner : inner + 8 * mods_count h m0 <= cur_end s;
  mr_outside : outside (ram s)
}.

Lemma write_fields_spec arr inner i s :
  module_ready arr inner s → 0 <= i < mods_count h m0 → cur_end s + sizeof_km <= hi →
  wp (write_fields gen h arr i) (λ p s', p = (module_at i, cur_end s) ∧ same_manager s s' ∧
    cur_end s' = cur_end s + sizeof_km ∧ outside (ram s') ∧
    (∀ k, k < cur_end s ∨ cur_end s' <= k → k < inner + 8 * i ∨ inner + 8 * i + 8 <= k → rd8 (ram s') k = rd8 (ram s) k) ∧
    rd64 (ram s') (inner + 8 * i) = cur_end s ∧
    rd64 (ram s') (cur_end s + km_base_addr) = mod_start (module_at i) m0 ∧
    rd64 (ram s') (cur_end s + km_length) = u32 (mod_end (module_at i) m0 - mod_start (module_at i) m0)) s.
Proof.
  intros [Hh He Hlo Hra Hin Hout] Hi Hroom. pose proof Hh as (A1 & A2 & A3 & A4). pose proof (ra_order _ _ _ _ Hra) as Ho.
  unfold sizeof_ka, sizeof_km in *. unfold write_fields, sizeof_km, km_base_addr, km_length, ka_inner_array.
  set (t := cur_end s) in *. wp_step. apply wp_peekm. unfold id. destruct (outside_header _ Hout) as [_ ->].
  fold (module_at i). cbv zeta. wp_step. apply wp_malloc; [done|lia|fold t; lia|]. fold t.
  set (s1 := with_heap (t + 44) (heap_start s) (heap_end s) s).
  assert (heap_ok s1) as Hh1 by (unfold heap_ok; cbn; lia).
  wp_step. eapply wp_mono; [by apply (kl_module _ _ _ _ laws)|]. cbv beta. intros [] s2 (G2 & T2 & F2).
  cbn [ram s1 with_heap cur_end] in F2, T2. wp_step. apply wp_load64.
  assert (rd64 (ram s2) (arr + 56) = inner) as ->.
  { rewrite <- (ra_inner _ _ _ _ Hra). apply (rd_ext 8). intros k Hk. unfold ka_inner_array in Hk. apply F2. lia. }
  rewrite (u32_small inner), u32_small by lia. set (b := inner + 8 * i) in *.
  wp_step. apply wp_store64. wp_step. apply wp_peekm. cbn [ram with_ram]. unfold id. set (m3 := wr64 (ram s2) b t).
  assert (outside m3) as O3.
  { intros k Hk. rewrite <- (Hout k Hk). unfold m3, wr64. rewrite rd8_wr_outside by lia. apply F2. lia. }
  destruct (outside_module _ i O3 Hi) as (-> & _). set (v1 := mod_start (module_at i) m0).
  wp_step. apply wp_store64. wp_step. apply wp_peekm. cbn [ram with_ram]. unfold id. set (m4 := wr64 m3 (t + 20) v1).
  assert (outside m4) as O4 by (intros k Hk; rewrite <- (O3 k Hk); unfold m4, wr64; by rewrite rd8_wr_outside by lia).
  destruct (outside_module _ i O4 Hi) as (-> & -> & _). fold v1. set (v2 := u32 (mod_end (module_at i) m0 - v1)).
  wp_step. apply wp_store64. wp_step. cbn [ram cur_end with_ram]. set (m5 := wr64 m4 (t + 28) v2).
  assert (0 <= v1 < 2 ^ 32) as V1 by apply (rd_range 4).
  pose proof (u32_range (mod_end (module_at i) m0 - v1)) as V2. fold v2 in V2. split_and!; [done| |done| | | | |].
  - destruct G2 as [Q1 Q2 Q3 Q4 Q5 Q6 Q7 Q8]. cbn in *. split; try done. cbn. lia.
  - intros k Hk. rewrite <- (O4 k Hk). unfold m5, wr64. by rewrite rd8_wr_outside by lia.
  - intros k K1 K2. unfold m5, m4, m3, wr64. rewrite !rd8_wr_outside by lia. apply F2. lia.
  - unfold m5, m4, m3. rewrite !rd64_wr64_ne, rd64_wr64_eq by lia. apply u64_small. lia.
  - unfold m5, m4, m3. rewrite rd64_wr64_ne, rd64_wr64_eq by lia. apply u64_small. lia.
  - unfold m5, m4, m3. rewrite rd64_wr64_eq. apply u64_small. lia.
Qed.

Lemma write_name_spec i dest s :
  heap_ok s → heap_end s = hi → 0 <= lo <= dest → dest + sizeof_km <= cur_end s → outside (ram s) →
  0 <= i < mods_count h m0 → cur_end s + name_room i <= hi →
  wp (write_name gen (module_at i) dest) (λ _ s', same_manager s s' ∧ cur_end s' = cur_end s + name_room i ∧
    (∀ k, k < dest + km_name ∨ (dest + sizeof_km <= k ∧ k < cur_end s) ∨ cur_end s' <= k → rd8 (ram s') k = rd8 (ram s) k) ∧
    match names i with
    | Some l => rd64 (ram s') (dest + km_name) = cur_end s ∧ is_string (ram s') (cur_end s) l
    | None => True
    end) s.
Proof.
  intros Hh He Hlo Hd Hout Hi Hroom. pose proof Hh as (A1 & A2 & A3 & A4). unfold write_name, sizeof_km, km_name in *.
  wp_step. apply wp_peekm. unfold id. destruct (outside_module _ i Hout Hi) as (_ & _ & ->).
  pose proof (ma_name Haway i Hi) as Hname. unfold name_room in *. destruct (names i) as [l|] eqn:En.
  2: { rewrite Hname. change (truth 0) with false. cbn iota. wp_step. split_and!; [by split|lia|done|done]. }
  destruct Hname as (N1 & N2 & N3). unfold truth. destruct (Z.eqb_spec (mod_string (module_at i) m0) 0); [done|].
  cbn [negb]. wp_step. eapply wp_mono; [apply (kl_string _ _ _ _ laws _ l); [done| |unfold away in N3; lia|lia]|].
  { eapply cstring_agree; [|exact N2]. intros k Hk. symmetry. apply Hout. unfold away in N3. lia. }
  cbv beta. intros p s1 (G1 & F1 & -> & T1 & S1). apply wp_store64. cbn [ram cur_end with_ram].
  unfold fresh_only in F1. rewrite T1 in F1. split_and!.
  - destruct G1. by split.
  - done.
  - intros k Hk. pose proof (kl_room _ _ _ _ laws l). rewrite T1 in Hk. unfold wr64. rewrite rd8_wr_outside by lia. apply F1. lia.
  - rewrite rd64_wr64_eq. apply u64_small. lia.
  - eapply (kl_string_bytes _ _ _ _ laws); [exact S1|]. intros k Hk. unfold wr64. by rewrite rd8_wr_outside by lia.
Qed.

Lemma write_module_spec arr inner i s :
  module_ready arr inner s → 0 <= i < mods_count h m0 → cur_end s + sizeof_km + name_room i <= hi →
  wp (write_module gen h arr i) (λ _ s', same_manager s s' ∧ cur_end s' = cur_end s + sizeof_km + name_room i ∧
    outside (ram s') ∧
    (∀ k, k < cur_end s ∨ cur_end s' <= k → k < inner + 8 * i ∨ inner + 8 * i + 8 <= k → rd8 (ram s') k = rd8 (ram s) k) ∧
    rd64 (ram s') (inner + 8 * i) = cur_end s ∧ module_obj (ram s') (cur_end s) i ∧
    (∀ l, names i = Some l → rd64 (ram s') (cur_end s + km_name) = cur_end s + sizeof_km)) s.
Proof.
  intros Hr Hi Hroom. pose proof (name_room_nonneg i) as Hnr. unfold write_module. wp_step.
  eapply wp_mono; [by apply (write_fields_spec arr inner i s Hr Hi); lia|]. cbv beta.
  intros p s1 (-> & G1 & T1 & O1 & F1 & R1 & R2 & R3). destruct Hr as [Hh He Hlo Hra Hin Hout].
  pose proof Hh as (A1 & A2 & A3 & A4). pose proof (ra_order _ _ _ _ Hra) as Ho.
  assert (heap_end s1 = hi) as He1 by (rewrite (sm_end _ _ G1); done). cbn [fst snd].
  unfold sizeof_km, km_base_addr, km_length, sizeof_ka in *. set (t := cur_end s) in *. rewrite T1 in F1.
  eapply wp_mono; [apply (write_name_spec i t s1); [apply G1|done|lia|unfold sizeof_km; lia|done|done|lia]|]. cbv beta.
  unfold sizeof_km, km_name. intros [] s2 (G2 & T2 & F2 & N2).
  assert (∀ k, k < t + 36 → rd8 (ram s2) k = rd8 (ram s1) k) as F3 by (intros k Hk; apply F2; lia).
  split_and!; [by eapply same_manager_trans|lia| | | | |].
  - intros k Hk. rewrite <- (O1 k Hk). apply F2. lia.
  - intros k K1 K2. rewrite F2 by lia. apply F1; lia.
  - rewrite <- R1. apply (rd_ext 8). intros k Hk. apply F3. lia.
  - unfold module_obj, km_base_addr, km_length, km_name. split_and!.
    + rewrite <- R2. apply (rd_ext 8). intros k Hk. apply F3. lia.
    + rewrite <- R3. apply (rd_ext 8). intros k Hk. apply F3. lia.
    + destruct (names i) as [l|]; [|done]. destruct N2 as [-> N2]. done.
  - intros l El. rewrite El in N2. destruct N2 as [-> _]. lia.
Qed.

(** Where an object and its name are. *)
Definition object_in (b e a i : Z) (m : mem) : Prop :=
  b <= a ∧ a + sizeof_km + name_room i <= e ∧
  ∀ l, names i = Some l → rd64 m (a + km_name) = a + sizeof_km.

Lemma module_obj_in m m' b e a i :
  module_obj m a i → object_in b e a i m → (∀ k, b <= k < e → rd8 m' k = rd8 m k) →
  module_obj m' a i ∧ object_in b e a i m'.
Proof.
  intros Hm (O1 & O2 & O3) Hk. pose proof (name_room_nonneg i). split.
  - eapply module_obj_kept; [exact Hm| |].
    + intros k Hk'. apply Hk. unfold sizeof_km in *. lia.
    + intros l El k Hk'. rewrite (O3 l El) in Hk'. unfold name_room in O2. rewrite El in O2. apply Hk. unfold sizeof_km in *. lia.
  - split_and!; [done|done|]. intros l El. rewrite <- (O3 l El). apply (rd_ext 8). intros k Hk'. apply Hk.
    unfold sizeof_km, km_name in *. lia.
Qed.

Lemma modules_loop_spec fuel n i arr inner s :
  module_ready arr inner s → 0 <= i → i + Z.of_nat n = mods_count h m0 → (n < fuel)%nat →
  cur_end s + modules_room n i <= hi →
  wp (modules_loop gen fuel h arr i) (λ _ s', ∃ objs, length objs = n ∧ same_manager s s' ∧
    cur_end s' = cur_end s + modules_room n i ∧
    (∀ k, k < cur_end s ∨ cur_end s' <= k → k < inner + 8 * i ∨ inner + 8 * mods_count h m0 <= k →
       rd8 (ram s') k = rd8 (ram s) k) ∧
    ∀ j a, objs !! j = Some a →
      rd64 (ram s') (inner + 8 * (i + Z.of_nat j)) = a ∧ module_obj (ram s') a (i + Z.of_nat j) ∧
      object_in (cur_end s) (cur_end s') a (i + Z.of_nat j) (ram s')) s.
Proof.
  assert (mods_count h m0 < 2 ^ 32) as Hmax by apply (rd_range 4).
  revert n i s. induction fuel as [|fuel IH]; intros n i s Hr Hi Hn Hf Hroom; [lia|]. cbn [modules_loop].
  pose proof Hr as [Hh He Hlo Hra Hin Hout]. wp_step. apply wp_peekm. destruct (outside_header _ Hout) as [-> _].
  destruct n as [|n].
  { destruct (Z.ltb_spec i (mods_count h m0)); [lia|]. wp_step. exists []. cbn [modules_room].
    split_and!; [done|by split|lia|done|]. intros j a Hj. by rewrite lookup_nil in Hj. }
  destruct (Z.ltb_spec i (mods_count h m0)) as [Hlt|]; [|lia]. cbn [modules_room] in *.
  pose proof (modules_room_nonneg n (i + 1)) as Hmr. pose proof (name_room_nonneg i) as Hnr. pose proof Hh as (A1 & A2 & A3 & A4).
  pose proof (ra_order _ _ _ _ Hra) as Ho. unfold sizeof_ka in Ho.
  wp_step. eapply wp_mono; [by apply (write_module_spec arr inner i s Hr); lia|]. cbv beta.
  unfold sizeof_km in *. intros [] s1 (G1 & T1 & O1 & F1 & R1 & M1 & N1). rewrite u32_small by lia. set (t := cur_end s) in *.
  eapply wp_mono; [apply (IH n (i + 1) s1); [|lia|lia|lia|lia]|].
  { split; [apply G1|rewrite (sm_end _ _ G1); done|done| |lia|done].
    eapply ref_array_kept; [exact Hra|]. intros k Hk. apply F1; lia. }
  cbv beta. intros [] s2 (objs & L2 & G2 & T2 & F2 & V2). exists (t :: objs).
  split_and!; [simpl; lia|by eapply same_manager_trans|lia| |].
  - intros k K1 K2. rewrite F2 by lia. apply F1; lia.
  - intros [|j] a Hj; cbn in Hj.
    + injection Hj as <-. rewrite Z.add_0_r. split.
      * rewrite <- R1. apply (rd_ext 8). intros k Hk. apply F2; lia.
      * destruct (module_obj_in (ram s1) (ram s2) t (cur_end s1) t i) as [M2 (_ & _ & N2)]; [done| | |].
        -- split_and!; [lia|unfold sizeof_km; lia|done].
        -- intros k Hk. apply F2; lia.
        -- split; [done|]. split_and!; [lia|unfold sizeof_km; lia|done].
    + replace (i + Z.of_nat (S j)) with (i + 1 + Z.of_nat j) by lia. destruct (V2 j a Hj) as (V3 & V4 & V5 & V6 & V7).
      split_and!; [done|done|]. split_and!; [lia|done|done].
Qed.

(** The modules the kernel is told of. *)
Definition kif_modules (m : mem) (kif : Z) : Prop :=
  ∃ objs, Z.of_nat (length objs) = mods_count h m0 ∧ lists m (rd64 m (kif + kh_modules)) objs ∧
    ∀ i a, objs !! i = Some a → module_obj m a (Z.of_nat i).

Definition modules_bytes (kif b e : Z) (m m' : mem) : Prop :=
  ∀ a, kif + kh_modules <= a < kif + kh_heap_start ∨ b <= a < e → rd8 m' a = rd8 m a.

Definition modules_size : Z :=
  array_room + 8 + 8 * mods_count h m0 + modules_room (Z.to_nat (mods_count h m0)) 0.

Lemma write_modules_spec fuel kif s :
  heap_ok s → ram s = m0 → heap_end s = hi → 0 < lo <= kif → kif + sizeof_kh <= cur_end s →
  (Z.to_nat (mods_count h m0) < fuel)%nat → cur_end s + modules_size <= hi →
  wp (write_kif_modules gen fuel kif h) (λ _ s', same_manager s s' ∧ cur_end s' <= cur_end s + modules_size ∧
    (∀ k, k < cur_end s ∨ cur_end s' <= k → k < kif + kh_modules ∨ kif + kh_heap_start <= k → rd8 (ram s') k = rd8 m0 k) ∧
    ∀ m, modules_bytes kif (cur_end s) (cur_end s') (ram s') m → kif_modules m kif) s.
Proof.
  intros Hh Em Eh Hlo Hk Hf Hroom. unfold modules_size, sizeof_kh, kh_modules, kh_heap_start in *.
  pose proof Hh as (A1 & A2 & A3 & A4). set (cnt := mods_count h m0) in *. assert (0 <= cnt) as C0 by apply (rd_range 4).
  pose proof (modules_room_nonneg (Z.to_nat cnt) 0) as Hmr.
  unfold write_kif_modules, kh_modules. wp_step.
  eapply wp_mono; [apply (new_ref_array_spec (mods_count h) cnt s Hh C0); [lia|]|].
  { intros m Hm. rewrite Em in Hm. apply (outside_header m). intros k Hk'. apply Hm. lia. }
  cbv beta. intros arr s1 (inner & G1 & F1 & R1 & P1 & P2 & P3). unfold fresh_only in F1. rewrite Em in F1.
  pose proof (ra_order _ _ _ _ R1) as P4. unfold sizeof_ka in P4. wp_step. apply wp_store64.
  assert (heap_end s1 = hi) as He1 by (rewrite (sm_end _ _ G1); done).
  assert (heap_ok s1) as (B1 & B2 & B3 & _) by apply G1. assert (0 <= arr < 2 ^ 32) as Ba by lia.
  set (s2 := with_ram _ s1). set (t := cur_end s) in *.
  assert (∀ k, k < kif + 28 ∨ kif + 36 <= k → rd8 (ram s2) k = rd8 (ram s1) k) as F2.
  { intros k Hk'. cbn [ram s2 with_ram]. unfold wr64. by rewrite rd8_wr_outside by lia. }
  assert (module_ready arr inner s2) as Hr.
  { split; [apply G1|done|lia| |change (inner + 8 * cnt <= cur_end s1); lia|].
    - eapply ref_array_kept; [exact R1|]. intros k Hk'. apply F2. lia.
    - intros k Hk'. rewrite F2 by lia. apply F1. lia. }
  eapply wp_mono; [apply (modules_loop_spec fuel (Z.to_nat cnt) 0 arr inner s2 Hr); cbn [cur_end s2 with_ram]; fold cnt; lia|].
  cbn [cur_end s2 with_ram]. fold cnt. cbv beta. intros [] s3 (objs & L3 & G3 & T3 & F3 & V3).
  assert (rd64 (ram s3) (kif + 28) = arr) as Ea.
  { transitivity (rd64 (ram s2) (kif + 28)); [apply (rd_ext 8); intros k Hk'; apply F3; lia|].
    cbn [ram s2 with_ram]. rewrite rd64_wr64_eq. apply u64_small. lia. }
  split_and!.
  - eapply same_manager_trans; [exact G1|]. destruct G3. by split.
  - lia.
  - intros k K1 K2. rewrite F3, F2 by lia. apply F1. lia.
  - intros m Hmb. unfold modules_bytes, kh_modules, kh_heap_start in Hmb. exists objs. unfold kh_modules.
    replace (rd64 m (kif + 28)) with arr by (rewrite <- Ea; symmetry; apply (rd_ext 8); intros k Hk'; apply Hmb; lia).
    split_and!; [lia|exists inner; split|].
    + rewrite L3, Z2Nat.id by done. eapply ref_array_kept; [apply (mr_array _ _ _ Hr)|]. intros k Hk'.
      rewrite Hmb by lia. apply F3; lia.
    + intros i a Hi. pose proof (lookup_lt_Some _ _ _ Hi). destruct (V3 i a Hi) as (<- & _). rewrite Z.add_0_l.
      apply (rd_ext 8). intros k Hk'. apply Hmb. lia.
    + intros i a Hi. destruct (V3 i a Hi) as (_ & V4 & V5). rewrite Z.add_0_l in V4, V5.
      apply (module_obj_in (ram s3) m (cur_end s1) (cur_end s3) a _ V4 V5). intros k Hk'. apply Hmb. lia.
Qed.
End mods.
End specs.
