(* ===== verification/Kmain.v ===== *)
(** * The boot loader from start to jump

    [kmain] of src/tload/main.c without the EFI variant, and
    [uncompress_bzipped_kernel] of src/tload/decompress.c: set up memory,
    read the command line, find the kernel among the modules, load and map it,
    map the loader, describe the machine to the kernel and enter it.  [detect64]
    (bootstrap.asm), [BZ2_bzBuffToBuffDecompress] (libbz2) and tloadkif.c are
    parameters; [go64] ends the run.  The [_DEBUG] and [_PROFILE] output is left
    out. *)

From stdpp Require Import base numbers list gmap strings.
From Stdlib Require Import Lia.
From S2P Require Import Prelude Mem Console MemMgr PageTable VMem TloadStdlib TloadKif CmdLine.
From S2P Require Import TloadSegs TloadElf TloadImage Boot BootMap KifBoot.
Open Scope Z_scope.

(** ** State *)
Record kst := Kst { ldr : loader; vars : cmdvars }.
Definition on_loader {A} (c : M loader A) : M kst A := λ s,
  obind (c (ldr s)) (λ p, Done (p.1, Kst p.2 (vars s))).
Definition on_tload {A} (c : M tload A) : M kst A := on_loader (on_mm c).

(** How a run ends: [kmain] returns, loops for ever in its [while(1)], or [go64]
    enters the kernel with the given page tables at the given address and hands
    it the global [kif]. *)
Inductive result :=
| Stopped (r : Z)
| Halted
| Entered (pml4t e_point kif : Z).

(** Symbols of the linker script and of the program. *)
Record symbols := Symbols {
  tload_start : Z; tload_end : Z; bda_addr : Z; gdt64 : Z;
  tysos_heap_start : Z; tysos_heap_end : Z;
  lit_kernel : Z; lit_debug : Z; lit_strtab : Z; lit_start : Z; def_k_name : Z
}.

Definition MB_ID : Z := 0x2BADB002.
Definition mb_cmdline (h : Z) (m : mem) : Z := rd32 m (h + 16).

(** ** The code *)
Definition DEST_LEN : Z := 0xA00000.
Definition BZ_OK : Z := 0.

Section code.
(** [BZ2_bzBuffToBuffDecompress dest destLen source sourceLen]. *)
Context (fuel : nat) (ad : symbols) (gen : kif_code) (detect64 : Z) (decompress : Z → Z → Z → Z → M tload Z).

Definition uncompress_bzipped_kernel (compressed_data len : Z) : M tload Z :=
  dest ← malloc_align DEST_LEN 0x100000 Tysos 1;
  say "Decompressing kernel..." ;;
  ret ← decompress dest DEST_LEN compressed_data len;
  if ret =? BZ_OK then mret dest
  else
    modify (with_con (λ c, _puts [] 1 (puthex ret (_puts (cstr "Error: decompressing error ") 0 c)))) ;;
    mret compressed_data.

Definition parse_line (h : Z) : M kst unit :=
  s ← get;
  line ← on_tload (peekm (mb_cmdline h));
  v ← on_tload (parse_cmd_line (lit_kernel ad) (lit_debug ad) fuel fuel line (vars s));
  modify (λ s, Kst (ldr s) v).

(** The last module with the kernel's name: address and length. *)
Fixpoint find_module (n : nat) (h name i : Z) (found : Z * Z) : M tload (Z * Z) :=
  match n with
  | O => hang
  | S n =>
      m ← peekm id;
      if i <? mods_count h m then
        let md := u32 (mods_addr h m + sizeof_mb_mod * i) in
        c ← lift (strcmp fuel m name (mod_string md m));
        find_module n h name (u32 (i + 1))
          (if negb (truth c) then (mod_start md m, u32 (mod_end md m - mod_start md m)) else found)
      else mret found
  end.

Definition find_kernel (h : Z) : M kst (Z * Z) :=
  modify (λ s, if kernel_name (vars s) =? 0
               then Kst (ldr s) (CmdVars (def_k_name ad) (tysos_debug (vars s))) else s) ;;
  s ← get;
  m ← on_tload (peekm id);
  if truth (Z.land (flags h m) 0x8) then on_tload (find_module fuel h (kernel_name (vars s)) 0 (0, 0))
  else mret (0, 0).

(** Clear the root table and point it back at itself. *)
Definition clear_root (pml4t : Z) : M tload unit :=
  modify (with_ram (λ m, (memset m pml4t 0 4096).2)) ;;
  modify (with_ram (λ m, wr64 m (pml4t + 8 * 511) (Z.lor pml4t 3))).

(** The kernel's description of the machine: what it says of the kernel... *)
Definition write_kernel_fields (kif kmod kmod_length : Z) : M kst unit :=
  s ← get;
  let sy := symtab (ldr s) in
  let st := strtab (ldr s) in
  on_tload (store64 (kif + kh_max_tysos) (u64 (load_offset (ldr s) + kernel_vsize (ldr s)))) ;;
  on_tload (store64 (kif + kh_gdt) (gdt64 ad)) ;;
  on_tload (store64 (kif + kh_tysos_paddr) kmod) ;;
  on_tload (store64 (kif + kh_tysos_size) kmod_length) ;;
  on_tload (store64 (kif + kh_tysos_virtaddr) (u32 (load_offset (ldr s)))) ;;
  if (sy =? 0) || (st =? 0) then undef
  else
    m ← on_tload (peekm id);
    on_tload (store64 (kif + kh_tysos_sym_tab_paddr) (u64 (kmod + TloadSegs.sh_offset sy m))) ;;
    m ← on_tload (peekm id);
    on_tload (store64 (kif + kh_tysos_sym_tab_size) (TloadSegs.sh_size sy m)) ;;
    m ← on_tload (peekm id);
    on_tload (store64 (kif + kh_tysos_sym_tab_entsize) (TloadSegs.sh_entsize sy m)) ;;
    m ← on_tload (peekm id);
    on_tload (store64 (kif + kh_tysos_str_tab_paddr) (u64 (kmod + TloadSegs.sh_offset st m))) ;;
    m ← on_tload (peekm id);
    on_tload (store64 (kif + kh_tysos_str_tab_size) (TloadSegs.sh_size st m)) ;;
    on_tload (modify (with_ram (λ m, wr8 m (kif + kh_debug) (tysos_debug (vars s))))).

(** ...and the rest.  Returns the header, the global [kif]. *)
Definition write_kif (h kmod kmod_length : Z) : M kst Z :=
  on_tload (memmgr_init_linked_list gen) ;;
  kif ← on_tload (make_kif gen (tysos_heap_start ad) (tysos_heap_end ad) (bda_addr ad));
  write_kernel_fields kif kmod kmod_length ;;
  on_tload (write_kif_modules gen fuel kif h) ;;
  line ← on_tload (peekm (mb_cmdline h));
  cmd_line ← on_tload (CreateString gen line);
  on_tload (store64 (kif + kh_cmdline) cmd_line) ;;
  mret kif.

Definition stop (msg : string) : M kst result := on_tload (say msg) ;; mret (Stopped (-1)).

(** From the kernel's module to the jump. *)
Definition boot_kernel (h kmod kmod_length pml4t : Z) : M kst result :=
  b ← on_tload (peekm (λ m, rd8 m kmod));
  kmod ← (if b =? 66 then on_tload (uncompress_bzipped_kernel kmod kmod_length) else mret kmod);
  r ← on_loader (load_elf64_kernel (lit_strtab ad) (lit_start ad) fuel kmod pml4t);
  if r <? 0 then stop "Error: interpreting elf64 kernel"
  else
    r ← on_tload (identity_map_tload fuel h pml4t (tload_start ad) (tload_end ad));
    if r <? 0 then stop "Error: could not identity map tload"
    else
      on_tload (create_virtual_mapping_from_page (bda_addr ad) pml4t (Z.lor PF_R PF_W) 1 0 BiosDataArea) ;;
      on_tload (create_virtual_mapping_from_page 0xb8000 pml4t (Z.lor PF_R PF_W) 1 0xb8000 VideoHardware) ;;
      kif ← write_kif h kmod kmod_length;
      s ← get;
      mret (Entered pml4t (e_point (ldr s)) kif).

(** The multiboot part, up to the kernel's module and the root table. *)
Definition multiboot_main (mbid h : Z) : M kst result :=
  if negb (mbid =? MB_ID) then stop "Invalid multiboot magic number"
  else
    on_tload (setup_mm fuel h (tload_start ad) (tload_end ad)) ;;
    parse_line h ;;
    k ← find_kernel h;
    if k.1 =? 0 then stop "Error: could not find kernel module"
    else
      pml4t ← on_tload (malloc_align 4096 4096 PagingStructure 1);
      if pml4t =? 0 then stop "Error: could not allocate page map level 4 table"
      else on_tload (clear_root pml4t) ;; boot_kernel h k.1 k.2 pml4t.

Definition kmain (mbid h : Z) : M kst result :=
  on_tload (say "TLoad starting...") ;;
  if negb (truth detect64) then
    on_tload (say "Error: 64-bit processor not detected.  Boot cannot continue.") ;; mret Halted
  else multiboot_main mbid h.
End code.

(** ** Running the components *)
Definition with_mm (x : tload) (s : kst) : kst :=
  Kst (Loader x (pie_base (ldr s)) (k (ldr s)) (ehdr (ldr s)) (strtab (ldr s)) (shstrtab (ldr s))
    (symtab (ldr s)) (dynstrtab (ldr s)) (dynsymtab (ldr s)) (dyntab (ldr s)) (prev_matching_sym (ldr s))
    (e_point (ldr s)) (load_offset (ldr s)) (kernel_vsize (ldr s))) (vars s).
Definition mem_of (s : kst) : tload := mm (ldr s).

Lemma wp_on_loader {A} (c : M loader A) (Q : A → kst → Prop) s :
  wp c (λ a l, Q a (Kst l (vars s))) (ldr s) → wp (on_loader c) Q s.
Proof. unfold wp, on_loader. by destruct (c (ldr s)) as [[a l]| |]. Qed.

Lemma wp_on_tload {A} (c : M tload A) (Q : A → kst → Prop) s :
  wp c (λ a x, Q a (with_mm x s)) (mem_of s) → wp (on_tload c) Q s.
Proof. intros H. apply wp_on_loader, wp_on_mm. exact H. Qed.

Lemma wp_peekk {A} (f : mem → A) (Q : A → kst → Prop) s : Q (f (ram (mem_of s))) s → wp (on_tload (peekm f)) Q s.
Proof. intros HQ. apply wp_on_tload, wp_peekm. by destruct s as [[] ?]. Qed.

(** ** What the boot loader of the machine has to provide *)
Section boot.
Context (fuel : nat) (ad : symbols) (h : Z) (es : list (Z * Z * Z)) (s0 : kst).
(** The command line, the names of the modules and the kernel's image. *)
Context (line : list Z) (names : Z → list Z) (K len : Z).
Let x0 := mem_of s0.
Let m0 := ram x0.

(** The frame of [a] is in use from the start. *)
Definition kept (a : Z) : Prop := occupied h (tload_start ad) (tload_end ad) es x0 (a / 4096).
Definition kept_range (a n : Z) : Prop := ∀ b, a <= b < a + n → kept b.
Definition kept_string (a : Z) (l : list Z) : Prop := cstring m0 a l ∧ kept_range a (Z.of_nat (length l) + 1).

(** The module the command line asks for, "kernel" by default: the last one
    with that name. *)
Definition wanted : list Z := match (meaning line).1 with Some (Some n) => n | _ => cstr "kernel" end.
Fixpoint last_module (n : nat) (i : Z) (old : Z * Z) : Z * Z :=
  match n with
  | O => old
  | S n => last_module n (i + 1) (if bool_decide (names i = wanted) then module_of h m0 i else old)
  end.
Definition kernel_module : Z * Z := last_module (Z.to_nat (mods_count h m0)) 0 (0, 0).

(** Where the loader itself is, apart from its heap. *)
Definition loader_ranges : list (Z * Z) :=
  (section_range h m0 <$> seqZ 0 (elf_num h m0)) ++ [(tload_start ad, tload_end ad)].
Definition heap_pages : nat := Z.to_nat (HEAP_SIZE / 4096).
(** Pages that are mapped: the kernel's, the loader's, two more. *)
Definition boot_pages : nat := (kernel_pages m0 K + (total loader_ranges + heap_pages + 2))%nat.
Definition line_room : nat := S (length line / 56).

(** Modules with addresses, a terminated name each, out of the way. *)
Definition modules_kept : Prop :=
  ∀ i, 0 <= i < mods_count h m0 →
    kept_range (module_at h m0 i) 12 ∧ mod_string (module_at h m0 i) m0 ≠ 0 ∧
    kept_string (mod_string (module_at h m0 i) m0) (names i).

(** The kernel's pages are none that are mapped for another reason. *)
Definition kernel_apart : Prop :=
  ∃ t, heap_fits h (tload_start ad) (tload_end ad) es x0 t ∧
    ∀ v c, loaded_bytes K m0 (phnum K m0) v c →
      t + HEAP_SIZE <= pageof v ∧ ¬ mapped_pages loader_ranges (v / 4096) ∧
      v / 4096 ≠ bda_addr ad / 4096 ∧ v / 4096 ≠ 0xb8.

(** Modules are only told of with bit 3 of the flags. *)
Definition kernel_found : Z * Z := if has 0x8 h m0 then kernel_module else (0, 0).

(** A machine on which [kmain] gets as far as looking for the kernel, with
    [room] entries' worth of heap and [pages] frames left. *)
Record provided (room pages : nat) : Prop := Provided {
  pr_info : boot_info h (tload_start ad) (tload_end ad) es x0 fuel (line_room + room);
  pr_header : kept_range h 52;
  pr_line : kept_string (mb_cmdline h m0) line ∧ (length line < fuel)%nat;
  pr_literals : kept_string (lit_kernel ad) (cstr "kernel") ∧ kept_string (lit_debug ad) (cstr "debug") ∧
    kept_string (def_k_name ad) (cstr "kernel");
  pr_name : kernel_name (vars s0) = 0;
  pr_modules : has 0x8 h m0 = true → modules_kept;
  pr_fuel : (7 < fuel)%nat;
  pr_free : ∃ l, NoDup l ∧ (heap_pages + pages <= length l)%nat ∧
    ∀ x, x ∈ l → 0 <= x < 0x100000 ∧ ¬ occupied h (tload_start ad) (tload_end ad) es x0 x
}.

(** [sp] entries' worth of heap are left for the kernel's information. *)
Record bootable (sp : nat) : Prop := Bootable {
  bo_info : boot_info h (tload_start ad) (tload_end ad) es x0 fuel (line_room + (1 + 4 * boot_pages + sp));
  bo_header : kept_range h 52;
  bo_line : kept_string (mb_cmdline h m0) line ∧ (length line < fuel)%nat;
  bo_literals : kept_string (lit_kernel ad) (cstr "kernel") ∧ kept_string (lit_debug ad) (cstr "debug") ∧
    kept_string (lit_strtab ad) (cstr ".strtab") ∧ kept_string (lit_start ad) (cstr "_start") ∧
    kept_string (def_k_name ad) (cstr "kernel");
  bo_globals : kernel_name (vars s0) = 0 ∧ symtab (ldr s0) = 0 ∧ strtab (ldr s0) = 0;
  bo_modules : has 0x8 h m0 = true ∧ modules_kept;
  bo_found : kernel_module = (K, len);
  bo_image : exec_image m0 K len ∧ kept_range K len ∧ enough_fuel m0 K fuel;
  bo_tables : symh_of m0 K ≠ 0 ∧ strh_of m0 K ≠ 0;
  bo_sections i : 0 <= i < elf_num h m0 → kept_range (section_at h m0 i) 40;
  bo_ranges : Forall (range_fits fuel) loader_ranges ∧ (heap_pages < fuel)%nat;
  bo_free : ∃ l, NoDup l ∧ (heap_pages + (1 + 4 * boot_pages) <= length l)%nat ∧
    ∀ x, x ∈ l → 0 <= x < 0x100000 ∧ ¬ occupied h (tload_start ad) (tload_end ad) es x0 x;
  bo_apart : kernel_apart;
  bo_bda : 0 < bda_addr ad < 2 ^ 32 ∧ bda_addr ad / 4096 ≠ 0xb8;
  bo_heap : 0 <= tysos_heap_start ad < 2 ^ 32 ∧ 0 <= tysos_heap_end ad < 2 ^ 32
}.

Lemma bootable_provided sp : bootable sp → provided (1 + 4 * boot_pages + sp) (1 + 4 * boot_pages).
Proof.
  intros [B1 B2 B3 (L1 & L2 & _ & _ & L3) (G & _) [_ B6] _ (_ & _ & F & _) _ _ _ B12 _ _ _]. split; try done.
Qed.

(** ** Up to the kernel's module *)
Section front.
Context (room pages : nat).
Hypothesis HF : provided room pages.
Let occ := occupied h (tload_start ad) (tload_end ad) es x0.

(** The heap is at [hp]. *)
Record heap_place (hp : Z) : Prop := HeapPlace {
  hl_low : 0 < hp ∧ hp + HEAP_SIZE <= 0xfffff000;
  hl_align : hp mod 4096 = 0;
  hl_min t : heap_fits h (tload_start ad) (tload_end ad) es x0 t → hp <= t;
  hl_free y : in_pages hp HEAP_SIZE y → ¬ occ y
}.
Definition in_heap (hp a : Z) : Prop := hp <= a < hp + HEAP_SIZE.

(** The memory manager of a run: its heap, what it keeps taken and what of
    memory is as it was. *)
Record stage (hp : Z) (x : tload) : Prop := Stage {
  sg_heap : heap_start x = hp ∧ heap_end x = hp + HEAP_SIZE;
  sg_used a : kept a ∨ in_heap hp a → tload_used x a;
  sg_kept a : kept a → rd8 (ram x) a = rd8 m0 a
}.

Lemma heap_not_kept hp a : heap_place hp → in_heap hp a → ¬ kept a.
Proof.
  intros [_ H2 _ H4] Ha. apply H4. unfold in_pages, in_heap, HEAP_SIZE in *. dlia.
Qed.

(** A range that is kept is on one side of the heap. *)
Lemma kept_away hp lo a n :
  heap_place hp → hp <= lo <= hp + HEAP_SIZE → 0 < n → kept_range a n → a + n <= lo ∨ hp + HEAP_SIZE <= a.
Proof.
  intros Hp Hlo Hn Ha. destruct (Z.le_gt_cases (a + n) lo) as [|Hgt]; [by left|right].
  destruct (Z.le_gt_cases (hp + HEAP_SIZE) a) as [|Hlt]; [done|exfalso].
  assert (in_heap hp (Z.max a hp)) as Hin by (unfold in_heap, HEAP_SIZE in *; lia).
  apply (heap_not_kept _ _ Hp Hin), Ha. lia.
Qed.

Lemma filter_away (l l2 : list Z) :
  NoDup l → (length l <= length l2 + length (filter (λ x, x ∉ l2) l))%nat.
Proof.
  intros Hl. rewrite <- length_app. apply submseteq_length, NoDup_submseteq; [done|]. intros x Hx.
  apply elem_of_app. destruct (decide (x ∈ l2)); [by left|right]. by apply list_elem_of_filter.
Qed.

Lemma setup_stage f :
  wp (setup_mm fuel h (tload_start ad) (tload_end ad)) (λ _ x, ∃ hp, heap_place hp ∧ stage hp x ∧ ram x = m0 ∧
    tload_inv (line_room + room) x ∧ tload_free pages x) (with_con f x0).
Proof.
  eapply wp_mono; [apply (setup_mm_spec fuel (line_room + room) h _ _ es)|].
  { destruct (pr_info _ _ HF) as [B1 B2 B3 B4 B5 B6 B7 B8 B9].
    split; [exact B1|exact B2|exact B3|exact B4|exact B5|exact B6|exact B7|exact B8|exact B9]. }
  cbv beta. intros [] x (hp & l & Hu & Hf & _ & _ & _ & Hr & Hs & He & H0 & Ha & Ht & Hm & Hi).
  assert (hp mod 4096 = 0) as Hal by (unfold HEAP_ALIGN in Ha; dlia). exists hp.
  assert (heap_place hp) as Hp by (split; [done|done|exact Hm|exact Hf]). split_and!; [done| |exact Hr|exact Hi|].
  - split; [done| |by intros a _; rewrite Hr]. intros a [Hk|Hh]; apply Hu; [by left|right].
    unfold in_pages, in_heap, HEAP_SIZE in *. dlia.
  - destruct (pr_free _ _ HF) as (fl & F1 & F2 & F3). set (hl := seqZ (hp / 4096) (HEAP_SIZE / 4096)).
    exists (filter (λ y, y ∉ hl) fl). split_and!; [by apply NoDup_filter| |].
    + pose proof (filter_away fl hl F1) as Hl. unfold hl in Hl at 1. rewrite length_seqZ in Hl. unfold heap_pages in F2. lia.
    + intros y [Hy Hin]%list_elem_of_filter. destruct (F3 y Hin) as [G1 G2]. split; [done|].
      apply not_true_is_false. intros Hy'. apply Hu in Hy' as [?|[P1 P2]]; [done|]. apply Hy. unfold hl.
      apply elem_of_seqZ. unfold HEAP_SIZE in *. dlia.
Qed.

(** ** The command line and the kernel's module *)
Lemma inv_bump c n j f x :
  tload_inv (c + n) x → 0 <= j <= 56 * Z.of_nat c →
  tload_inv n (with_ram f (with_heap (cur_end x + j) (heap_start x) (heap_end x) x)).
Proof.
  intros [(R & l & Hm & Hl & Hh & Hr & Hc) Hu] Hj. split; [|exact Hu]. exists R, l.
  unfold heap_ok in *. cbn [cur_end heap_start heap_end with_ram with_heap]. split_and!; try done; try lia.
  destruct Hm as [Q1 Q2 Q3 Q4 Q5 Q6 Q7 Q8]. split; try done. eapply Forall_impl; [exact Q5|]. cbn. lia.
Qed.

(** The name [v] says is [wanted], or it is null and "kernel" is wanted. *)
Definition name_found (m : mem) (v : cmdvars) : Prop :=
  (kernel_name v = 0 ∧ wanted = cstr "kernel") ∨ (kernel_name v ≠ 0 ∧ cstring m (kernel_name v) wanted).

Lemma wanted_length : (length wanted < fuel)%nat.
Proof.
  destruct (pr_line _ _ HF) as [_ Hl]. pose proof (pr_fuel _ _ HF) as Hf. unfold wanted.
  destruct (meaning line).1 as [[nm|]|] eqn:E; [|cbn; lia|cbn; lia].
  apply meaning_length in E. lia.
Qed.

Lemma parse_stage hp n s :
  heap_place hp → stage hp (mem_of s) → ram (mem_of s) = m0 → vars s = vars s0 →
  tload_inv (line_room + n) (mem_of s) →
  wp (parse_line fuel ad h) (λ _ s', ∃ x v, s' = Kst (ldr (with_mm x s)) v ∧ stage hp x ∧ tload_inv n x ∧
    (∀ j, tload_free j (mem_of s) → tload_free j x) ∧ name_found (ram x) v ∧
    tysos_debug v = if (meaning line).2 then 1 else tysos_debug (vars s0)) s.
Proof.
  intros Hp Hs Em Ev Hi. destruct (pr_line _ _ HF) as [[L1 L2] L3]. set (x := mem_of s) in *.
  set (j := Z.of_nat (length line) + 1). pose proof (pr_literals _ _ HF) as ([A1 A2] & [B1 B2] & _).
  assert (heap_ok x ∧ cur_end x + 56 * Z.of_nat (line_room + n) <= heap_end x) as [Hh Hroom]
    by (destruct Hi as [(R & l & _ & _ & ? & ? & _) _]; done).
  destruct (sg_heap _ _ Hs) as [E1 E2]. pose proof Hh as (C1 & C2 & C3 & C4).
  assert (j <= 56 * Z.of_nat line_room) as Hj by (unfold j, line_room; pose proof (Nat.div_mod_eq (length line) 56);
      pose proof (Nat.mod_upper_bound (length line) 56); lia).
  assert (∀ a l, kept_string a l → a + (Z.of_nat (length l) + 1) <= cur_end x ∨ cur_end x + j <= a) as Haway.
  { intros a l [_ Hk]. destruct (kept_away hp (cur_end x) a (Z.of_nat (length l) + 1) Hp); [lia|lia|done|by left|right; lia]. }
  unfold parse_line. wp_step. apply wp_get. wp_step. apply wp_peekk. fold x. rewrite Em, Ev. wp_step. apply wp_on_tload. fold x.
  eapply wp_mono; [apply (parse_cmd_line_keeps (St := tload) (lit_kernel ad) (lit_debug ad) line fuel fuel _ (vars s0) x
    (λ x', ∃ m, x' = with_ram (λ _, m) (with_heap (cur_end x + j) (heap_start x) (heap_end x) x))); cbn [hp_top hp_mem hp_limit tload_heap_ops]; fold j|].
  - exact Hh.
  - by rewrite Em.
  - lia.
  - lia.
  - destruct (Haway _ _ (conj L1 L2)); [left|right]; unfold j in *; lia.
  - rewrite Em. split_and!; [done|done| |].
    + destruct (Haway _ _ (conj A1 A2)) as [H|H]; [left|right]; cbn in H; lia.
    + destruct (Haway _ _ (conj B1 B2)) as [H|H]; [left|right]; cbn in H; lia.
  - done.
  - done.
  - pose proof (pr_fuel _ _ HF). lia.
  - eapply wp_intro; [apply malloc_bump; [done|lia|lia]|]. intros m. by exists m.
  - cbn [hp_top hp_mem tload_heap_ops]. cbv beta. fold j. intros v x' (Hr & Ho & m & ->). apply wp_modify.
    eexists _, v. split; [reflexivity|]. cbn [ram with_ram] in Hr, Ho. split_and!.
    + split; [done|apply Hs|]. intros a Ha. cbn [ram with_ram]. rewrite Ho; [by apply Hs|].
      destruct (kept_away hp (cur_end x) a 1 Hp); [lia|lia| |lia|lia]. intros b Hb. by replace b with a by lia.
    + apply (inv_bump line_room); [exact Hi|lia].
    + intros i. by apply tload_free_rest.
    + destruct Hr as [Hk _]. unfold name_found, wanted. cbn [ram with_ram].
      destruct (meaning line).1 as [[nm|]|]; [right|left; done|left; split; [|done]].
      * split; [lia|apply Hk].
      * rewrite Hk. apply (pr_name _ _ HF).
    + apply Hr.
Qed.

Lemma kept_rd hp x n a : stage hp x → kept_range a (Z.of_nat n) → rd n (ram x) a = rd n m0 a.
Proof. intros Hs Ha. apply rd_ext. intros b Hb. by apply (sg_kept _ _ Hs), Ha. Qed.

Lemma kept_cstring hp x a l : stage hp x → kept_string a l → cstring (ram x) a l.
Proof.
  intros Hs [Hl Hk]. eapply cstring_agree; [|exact Hl]. intros b Hb. symmetry. apply (sg_kept _ _ Hs), Hk. lia.
Qed.

Lemma header_field hp x o : stage hp x → 0 <= o → o + 4 <= 52 → rd32 (ram x) (h + o) = rd32 m0 (h + o).
Proof. intros Hs H0 H1. apply (kept_rd hp x 4 _ Hs). intros b Hb. apply (pr_header _ _ HF). lia. Qed.

Lemma header_mods hp x : stage hp x → mods_count h (ram x) = mods_count h m0 ∧ mods_addr h (ram x) = mods_addr h m0.
Proof. intros Hs. split; apply (header_field hp x); done. Qed.

Lemma module_same hp x i : modules_kept → stage hp x → 0 <= i < mods_count h m0 →
  mod_start (module_at h m0 i) (ram x) = mod_start (module_at h m0 i) m0 ∧
  mod_end (module_at h m0 i) (ram x) = mod_end (module_at h m0 i) m0 ∧
  mod_string (module_at h m0 i) (ram x) = mod_string (module_at h m0 i) m0.
Proof.
  intros Hmods Hs Hi. destruct (Hmods i Hi) as (Hm & _).
  split_and!; apply (kept_rd hp x 4 _ Hs); intros b Hb; apply Hm; lia.
Qed.

Lemma find_module_spec loops n i name old hp x :
  modules_kept → stage hp x → cstring (ram x) name wanted → 0 <= i → i + Z.of_nat n = mods_count h m0 → (n < loops)%nat →
  wp (find_module fuel loops h name i old) (λ r x', r = last_module n i old ∧ x' = x) x.
Proof.
  intros Hmods Hs Hn. assert (mods_count h m0 < 2 ^ 32) as Hmax by apply (rd_range 4). revert n i old.
  induction loops as [|loops IH]; intros n i old Hi Hc Hf; [lia|]. cbn [find_module]. wp_step. apply wp_peekm. unfold id.
  destruct (header_mods _ _ Hs) as [-> ->]. destruct n as [|n].
  { destruct (Z.ltb_spec i (mods_count h m0)); [lia|]. wp_step. done. }
  destruct (Z.ltb_spec i (mods_count h m0)) as [Hlt|]; [|lia]. unfold sizeof_mb_mod. rewrite (Z.mul_comm 16 i).
  fold (module_at h m0 i). cbv zeta. destruct (module_same _ _ i Hmods Hs ltac:(lia)) as (-> & -> & ->).
  destruct (Hmods i ltac:(lia)) as (_ & _ & Hstr). pose proof (kept_cstring _ _ _ _ Hs Hstr) as Hstr'.
  destruct (tstrcmp_spec wanted (names i) fuel (ram x) name (mod_string (module_at h m0 i) m0) Hn Hstr' wanted_length)
    as (r & E & Hr). wp_step. eapply wp_lift; [exact E|]. rewrite u32_small by lia.
  eapply wp_mono; [apply (IH n (i + 1)); lia|]. cbv beta. intros p x' [-> ->]. split; [|done]. cbn [last_module].
  unfold module_of, sizeof_mb_mod. rewrite (Z.mul_comm 16 i). fold (module_at h m0 i). unfold truth. f_equal.
  destruct (Z.eqb_spec r 0) as [E0|E0]; cbn [negb].
  - by rewrite bool_decide_true by (symmetry; by apply Hr).
  - rewrite bool_decide_false; [done|]. intros E1. by apply E0, Hr.
Qed.

Lemma find_stage hp s :
  stage hp (mem_of s) → name_found (ram (mem_of s)) (vars s) →
  wp (find_kernel fuel ad h) (λ r s', r = kernel_found ∧ ∃ v, s' = Kst (ldr s) v ∧ tysos_debug v = tysos_debug (vars s)) s.
Proof.
  intros Hs Hn. unfold find_kernel. wp_step. apply wp_modify. wp_step. apply wp_get. wp_step. apply wp_peekk. unfold id.
  set (s1 := if kernel_name (vars s) =? 0 then _ else s).
  assert (mem_of s1 = mem_of s ∧ cstring (ram (mem_of s)) (kernel_name (vars s1)) wanted ∧
    ∃ v, s1 = Kst (ldr s) v ∧ tysos_debug v = tysos_debug (vars s)) as (E1 & Hname & v & Ev & Hv).
  { unfold s1. destruct Hn as [[-> Hw]|[Hne Hc]].
    - cbn [Z.eqb]. split_and!; [done| |by eexists]. cbn [vars kernel_name]. rewrite Hw.
      apply (kept_cstring _ _ _ _ Hs), (pr_literals _ _ HF).
    - destruct (Z.eqb_spec (kernel_name (vars s)) 0); [done|]. split_and!; [done|done|]. exists (vars s). by destruct s. }
  clearbody s1. rewrite E1. assert (flags h (ram (mem_of s)) = flags h m0) as ->
    by (unfold flags; rewrite <- (Z.add_0_r h); by apply (header_field hp)).
  unfold kernel_found. pose proof (pr_modules _ _ HF) as Hmods. unfold has in *. fold m0 in Hmods |- *.
  destruct (truth (Z.land (flags h m0) 0x8)); [|wp_step; split; [done|by exists v]]. specialize (Hmods eq_refl).
  apply wp_on_tload. rewrite E1.
  destruct (pr_info _ _ HF) as [_ _ (_ & Hfu & _) _ _ _ _ _ _]. fold m0 in Hfu.
  assert (0 <= mods_count h m0) by apply (rd_range 4).
  eapply wp_mono; [apply (find_module_spec _ (Z.to_nat (mods_count h m0)) 0 _ (0, 0) hp); [done|done|done|lia|lia|done]|].
  cbv beta. intros r x [-> ->]. split; [done|]. exists v. split; [|done].
  rewrite <- E1, Ev. by destruct s as [[] ?].
Qed.

(** Without the kernel's module nothing but the loader's own set-up is done. *)
Lemma kmain_no_kernel gen detect64 decompress :
  truth detect64 = true → kernel_found.1 = 0 →
  wp (kmain fuel ad gen detect64 decompress MB_ID h) (λ r s', r = Stopped (-1) ∧
    ∃ hp c, heap_place hp ∧ stage hp (mem_of s') ∧ con (mem_of s') = puts (cstr "Error: could not find kernel module") c) s0.
Proof.
  intros H64 Hk. unfold kmain, multiboot_main. wp_step. apply wp_on_tload, wp_modify. rewrite H64. cbn [negb].
  change (MB_ID =? MB_ID) with true. cbn [negb]. wp_step. apply wp_on_tload.
  eapply wp_mono; [exact (setup_stage (puts (cstr "TLoad starting...")))|]. cbv beta.
  intros [] x1 (hp & Hp & Hs1 & Hr1 & Hi1 & Hf1). wp_step. set (s1 := with_mm x1 _).
  eapply wp_mono; [exact (parse_stage hp room s1 Hp Hs1 Hr1 eq_refl Hi1)|]. cbv beta.
  intros [] s2 (x2 & v2 & -> & Hs2 & Hi2 & Hf2 & Hn2 & Hd2). wp_step. set (s2 := Kst _ v2).
  eapply wp_mono; [exact (find_stage hp s2 Hs2 Hn2)|]. cbv beta. intros r s3 (-> & v3 & -> & Hd3). rewrite Hk. cbn [Z.eqb].
  unfold stop. wp_step. apply wp_on_tload, wp_modify. wp_step. split; [done|]. exists hp. eexists. split; [done|]. split; [|done].
  by destruct Hs2; split.
Qed.

Lemma last_module_none n i : (∀ j, i <= j < i + Z.of_nat n → names j ≠ wanted) → last_module n i (0, 0) = (0, 0).
Proof.
  revert i. induction n as [|n IH]; intros i Hi; [done|]. cbn [last_module]. rewrite bool_decide_eq_false_2 by (apply Hi; lia).
  apply IH. intros j Hj. apply Hi. lia.
Qed.

Lemma kernel_not_found : has 0x8 h m0 = false ∨ (∀ i, 0 <= i < mods_count h m0 → names i ≠ wanted) → kernel_found.1 = 0.
Proof.
  unfold kernel_found. intros [-> | Hn]; [done|]. destruct (has 0x8 h m0); [|done]. unfold kernel_module.
  rewrite last_module_none; [done|]. intros j Hj. apply Hn. assert (0 <= mods_count h m0) by apply (rd_range 4). lia.
Qed.
End front.

Section run.
Context (sp : nat).
Hypothesis HB : bootable sp.
Let HF : provided (1 + 4 * boot_pages + sp) (1 + 4 * boot_pages) := bootable_provided sp HB.

(** ** The root table *)
(** A tree of page tables apart from all that is kept and from the heap. *)
Record paged (hp root : Z) (T : gmap (list Z) Z) (x : tload) : Prop := Paged {
  pd_stage : stage hp x;
  pd_tree : tree (ram x) root T;
  pd_tables : tables_used x T;
  pd_data a : kept a ∨ in_heap hp a → data x T a
}.

Lemma cleared_root m root b :
  low_page root →
  let m' := wr64 (memset m root 0 4096).2 (root + 8 * 511) (Z.lor root 3) in
  (∀ i, index i → i ≠ 511 → present (entry m' root i) = false) ∧
  (b < root ∨ root + 4096 <= b → rd8 m' b = rd8 m b).
Proof.
  intros [Hr H32] m'. pose proof Hr as (R0 & R1 & R2).
  assert (∀ k, rd8 (memset m root 0 4096).2 k = if decide (root <= k < root + 4096) then 0 else rd8 m k) as Hm.
  { intros k. unfold memset. cbn [snd]. rewrite memset_loop_spec by lia. rewrite Z.add_0_r. done. }
  split.
  - intros i Hi Hne. unfold m'. rewrite entry_store by (done || (unfold index; lia)).
    rewrite decide_False by (intros [_ ?]; done). unfold entry, index in *. replace (rd64 _ _) with 0; [done|].
    symmetry. apply (rd_zero 8). intros k Hk. by rewrite Hm, decide_True by lia.
  - intros Hb. unfold m', wr64. rewrite rd8_wr_outside, Hm by lia. by rewrite decide_False by lia.
Qed.

Lemma root_stage hp n j x :
  stage hp x → tload_inv (S n) x → tload_free (S j) x →
  wp (malloc_align 4096 4096 PagingStructure 1) (λ root x1, root ≠ 0 ∧ wp (clear_root root) (λ _ x2,
    paged hp root {[ [] := root ]} x2 ∧ (∀ v, va_ok v → leaf (ram x2) root v = None) ∧
    tload_inv n x2 ∧ tload_free j x2) x1) x.
Proof.
  intros Hs Hi Hf. eapply wp_mono; [exact (tload_alloc_heap n PagingStructure x Hi)|]. cbv beta.
  intros root x1 ([S1 S2] & I1 & M1 & U1 & P1 & F1). destruct (F1 j Hf) as [Hr F2]. split; [done|].
  destruct P1 as [?|(Hlow & Hn & Hu)]; [done|]. pose proof Hlow as [(R0 & R1 & R2) R3].
  unfold clear_root. wp_step. apply wp_modify. apply wp_modify.
  set (x2 := with_ram _ _). assert (∀ b, (b < root ∨ root + 4096 <= b) → rd8 (ram x2) b = rd8 (ram x) b) as Hb.
  { intros b Hb. rewrite <- M1. by apply (cleared_root (ram x1) root b Hlow). }
  assert (∀ a, kept a ∨ in_heap hp a → pageof a ≠ root) as Hne.
  { intros a Ha E. apply Hn. rewrite <- E. apply (sg_used _ _ Hs) in Ha. unfold tload_used, pageof in *.
    by assert ((a - a mod 4096) / 4096 = a / 4096) as -> by dlia. }
  assert (tree (ram x2) root {[ [] := root ]}) as HT
    by (apply tree_fresh; [apply Hlow|]; by apply (cleared_root (ram x1) root 0 Hlow)).
  split_and!; [split| | |].
  - split.
    + destruct (sg_heap _ _ Hs) as [<- <-]. done.
    + intros a Ha. apply U1, (sg_used _ _ Hs), Ha.
    + intros a Ha. rewrite Hb; [by apply Hs|]. specialize (Hne a (or_introl Ha)). unfold pageof in Hne. dlia.
  - exact HT.
  - intros p a Hp. apply lookup_singleton_Some in Hp as [_ <-]. split; [exact Hu|done].
  - intros a Ha. split.
    + apply U1. apply (sg_used _ _ Hs) in Ha. unfold tload_used, pageof in *.
      by assert ((a - a mod 4096) / 4096 = a / 4096) as -> by dlia.
    + intros q Hq. apply lookup_singleton_Some in Hq as [_ Hq]. by apply (Hne a Ha).
  - intros v Hv. rewrite (tree_leaf _ _ _ _ HT) by apply Hv. by rewrite lookup_singleton_ne.
  - apply (tload_inv_rest n x1); [done|reflexivity..].
  - by apply (tload_free_rest j x1).
Qed.

(** ** The kernel's pages *)
(** Every byte of the kernel is mapped to memory that is neither a table nor
    part of the heap. *)
Definition kernel_at (hp root : Z) (T : gmap (list Z) Z) (x : tload) : Prop :=
  ∀ v c, loaded_bytes K m0 (phnum K m0) v c → ∃ pa, translate (ram x) root v = Some pa ∧
    rd8 (ram x) pa = c ∧ data x T pa ∧ ¬ in_heap hp pa.
Definition kernel_page (y : Z) : Prop := ∃ v c, v / 4096 = y ∧ loaded_bytes K m0 (phnum K m0) v c.
Definition frames_low (root : Z) (x : tload) : Prop :=
  ∀ v e, va_ok v → leaf (ram x) root v = Some e → frame_of e < 2 ^ 32.

Lemma image_agrees hp x a : stage hp x → in_image K len a → rd8 (ram x) a = rd8 m0 a.
Proof. intros Hs Ha. apply (sg_kept _ _ Hs). by apply (bo_image _ HB). Qed.

(** What [load_elf64_kernel] leaves in the loader's globals. *)
Record kernel_info (l : loader) : Prop := KernelInfo {
  ki_entry : e_point l = entry_of m0 K;
  ki_offset : load_offset l = 0;
  ki_size : ∃ lo hi, image_range K m0 (phnum K m0) lo hi ∧ kernel_vsize l = image_len lo hi;
  ki_tables : symtab l = symh_of m0 K ∧ strtab l = strh_of m0 K
}.

Section loaded.
Context (hp root : Z) (n : nat) (s : kst).
Let T : gmap (list Z) Z := {[ [] := root ]}.
Hypothesis Hp : heap_place hp.
Hypothesis Hd : paged hp root T (mem_of s).
Hypothesis Hnone : ∀ v, va_ok v → leaf (ram (mem_of s)) root v = None.
Hypothesis Hinv : tload_inv (4 * (kernel_pages m0 K + n) + sp) (mem_of s).
Hypothesis Hfree : tload_free (4 * (kernel_pages m0 K + n)) (mem_of s).
Hypothesis Hglob : symtab (ldr s) = 0 ∧ strtab (ldr s) = 0.
Let Hag : ∀ a, in_image K len a → rd8 (ram (mem_of s)) a = rd8 m0 a := λ a, image_agrees hp _ a (pd_stage _ _ _ _ Hd).
Let Hex : exec_image m0 K len := proj1 (bo_image _ HB).

Lemma load_ready_here : load_ready (lit_strtab ad) (lit_start ad) K len root T n sp (ldr s).
Proof.
  pose proof (bo_literals _ HB) as (_ & _ & L1 & L2 & _). pose proof (pd_stage _ _ _ _ Hd) as Hs.
  assert (kernel_pages (ram (mem_of s)) K = kernel_pages m0 K) as Ep by exact (same_pages K len m0 _ Hag Hex).
  split; change (mm (ldr s)) with (mem_of s); rewrite ?Ep; try done; try apply Hd.
  - intros a Ha. apply Hd. left. by apply (bo_image _ HB).
  - split; [exact (kept_cstring _ _ _ _ Hs L1)|]. intros a Ha. apply Hd. left. apply L1. cbn. lia.
  - split; [exact (kept_cstring _ _ _ _ Hs L2)|]. intros a Ha. apply Hd. left. apply L2. cbn. lia.
Qed.

Lemma kernel_low s' : exec_loaded K len root T n sp (ldr s) s' → frames_low root (mm s').
Proof.
  intros Hl v e Hv He. destruct (pl_tree _ _ _ _ _ _ _ _ (el_paging _ _ _ _ _ _ _ _ Hl)) as (T' & _ & _ & _ & Ht).
  destruct (Ht v (frame_of e + GET_PAGE_OFFSET v) Hv) as (H1 & _); [unfold translate; by rewrite He|].
  pose proof (offset_range v). lia.
Qed.

Lemma load_stage :
  wp (on_loader (load_elf64_kernel (lit_strtab ad) (lit_start ad) fuel K root)) (λ r s', r = 0 ∧ vars s' = vars s ∧
    kernel_info (ldr s') ∧ tload_inv (4 * n + sp) (mem_of s') ∧ tload_free (4 * n) (mem_of s') ∧
    frames_low root (mem_of s') ∧ ∃ T', paged hp root T' (mem_of s') ∧ kernel_at hp root T' (mem_of s') ∧
      ∀ v, va_ok v → ¬ kernel_page (v / 4096) → leaf (ram (mem_of s')) root v = None) s.
Proof.
  pose proof (pd_stage _ _ _ _ Hd) as Hs. apply wp_on_loader.
  eapply wp_mono; [apply (load_exec_spec (lit_strtab ad) (lit_start ad) K len root T fuel n sp (ldr s))|].
  - by apply (same_image K len m0).
  - exact load_ready_here.
  - apply (same_fuel K len m0); [done|done|]. apply (bo_image _ HB).
  - cbv beta. intros r l [-> Hl]. pose proof (kernel_low l Hl) as Hlow. destruct Hl as [L1 L2 L3 L4 L5 (L6 & L7 & _)].
    change (mm (ldr s)) with (mem_of s) in *. destruct L2 as [[P1 P1'] P2 P3 (T' & Q1 & Q2 & Q3 & Q4)].
    destruct (same_ehdr K len m0 _ Hag Hex) as (_ & _ & _ & En & Ep).
    split; [done|]. split; [done|]. cbn [ldr]. change (mem_of {| ldr := l; vars := vars s |}) with (mm l).
    split; [|split; [exact P2|split; [exact P3|split; [exact Hlow|exists T'; split; [|split]]]]].
    + split.
      * rewrite L3. exact (same_entry K len m0 _ Hag Hex).
      * exact L4.
      * destruct L5 as (lo & hi & E1 & E2). exists lo, hi. split; [|done]. by apply (same_range K len m0 _ Hag Hex).
      * destruct (same_tables K len m0 _ Hag Hex) as [<- <-]. done.
    + split; [split|done|done|intros a Ha; apply Q3, Hd, Ha].
      * rewrite P1, P1'. apply Hs.
      * intros a Ha. destruct (Q3 a (pd_data _ _ _ _ Hd a Ha)) as [[U _] _]. change (tload_used (mm l) (pageof a)) in U.
        unfold tload_used, pageof in *. by assert ((a - a mod 4096) / 4096 = a / 4096) as <- by dlia.
      * intros a Ha. destruct (Q3 a (pd_data _ _ _ _ Hd a (or_introl Ha))) as [_ E]. etransitivity; [exact E|]. by apply Hs.
    + intros v c (i & Hi & Hl & j & Hj & -> & ->).
      destruct (L1 i j) as (pa & E1 & E2).
      { by rewrite En. } { rewrite Ep, (same_loads K len m0) by done. done. }
      { rewrite Ep. destruct (same_phdr K len m0 _ Hag Hex i Hi) as (_ & -> & _). done. }
      rewrite Ep in E1, E2. destruct (same_phdr K len m0 _ Hag Hex i Hi) as (_ & _ & _ & Ev & _). rewrite Ev in E1.
      rewrite (same_seg_byte K len m0 _ Hag Hex) in E2 by (done || lia). exists pa.
      destruct (ex_segs _ _ _ Hex i Hi Hl) as (_ & _ & _ & Hv). destruct (seg_nonneg m0 (phdr K m0 i)) as (_ & _ & V0).
      assert (va_ok (p_vaddr (phdr K m0 i) m0 + j)) as Hva by (apply va_ok_low; lia).
      destruct (Q4 _ _ Hva E1) as (_ & D1 & D2 & _). split_and!; [done|done|done|]. intros Hin. destruct D2 as [D2|D2].
      * apply (heap_not_kept hp pa Hp Hin). by apply (bo_image _ HB).
      * apply D2, (sg_used _ _ Hs). by right.
    + intros v Hv Hk. destruct (leaf (ram (mm l)) root v) as [e|] eqn:El; [|done]. exfalso. apply Hk.
      destruct (Q4 v (frame_of e + GET_PAGE_OFFSET v) Hv) as (_ & _ & _ & w & c & Hw & Hc); [unfold translate; by rewrite El|].
      exists w, c. split; [done|]. by apply (same_loaded K len m0 _ Hag Hex).
Qed.
End loaded.

(** ** The loader's own pages *)
Definition loader_page (hp y : Z) : Prop := mapped_pages loader_ranges y ∨ pages_of (hp, hp + HEAP_SIZE) y.

Lemma paged_kept hp root T x T' x' :
  paged hp root T x → same_heap x x' → tree (ram x') root T' → tables_used x' T' → data_kept x T x' T' →
  paged hp root T' x'.
Proof.
  intros [[[S1 S1'] S2 S3] _ _ D4] [H1 H2] HT Hu Hk. split; [split|done|done|by intros a Ha; apply Hk, D4].
  - rewrite H1, H2. done.
  - intros a Ha. destruct (Hk a (D4 a Ha)) as [[U _] _]. change (tload_used x' (pageof a)) in U.
    unfold tload_used, pageof in *. by assert ((a - a mod 4096) / 4096 = a / 4096) as <- by dlia.
  - intros a Ha. destruct (Hk a (D4 a (or_introl Ha))) as [_ E]. etransitivity; [exact E|]. by apply S3.
Qed.

Lemma section_same hp x i : stage hp x → 0 <= i < elf_num h m0 →
  section_at h (ram x) i = section_at h m0 i ∧ section_range h (ram x) i = section_range h m0 i.
Proof.
  intros Hs Hi. assert (section_at h (ram x) i = section_at h m0 i) as Ea.
  { unfold section_at, elf_addr, elf_size. by rewrite !(header_field _ _ HF hp x) by (done || lia). }
  split; [done|]. unfold section_range. rewrite Ea. pose proof (bo_sections _ HB i Hi) as Hk. fold m0 in Hk.
  assert (Boot.sh_addr (section_at h m0 i) (ram x) = Boot.sh_addr (section_at h m0 i) m0) as ->
    by (apply (kept_rd hp x 4 _ Hs); intros b Hb; apply Hk; lia).
  assert (Boot.sh_size (section_at h m0 i) (ram x) = Boot.sh_size (section_at h m0 i) m0) as ->
    by (apply (kept_rd hp x 4 _ Hs); intros b Hb; apply Hk; lia).
  done.
Qed.

Lemma ranges_here hp x : stage hp x →
  ident_ranges h x (tload_start ad) (tload_end ad) =
  (section_range h m0 <$> seqZ 0 (elf_num h m0)) ++ [(hp, hp + HEAP_SIZE); (tload_start ad, tload_end ad)].
Proof.
  intros Hs. unfold ident_ranges. destruct (sg_heap _ _ Hs) as [-> ->].
  assert (elf_num h (ram x) = elf_num h m0) as -> by (by apply (header_field _ _ HF hp x)). f_equal.
  apply list_fmap_ext. intros i y Hy. apply list_elem_of_lookup_2, elem_of_seqZ in Hy. apply (section_same hp); [done|lia].
Qed.

Lemma heap_range_pages hp : heap_place hp → page_count (hp, hp + HEAP_SIZE) = heap_pages.
Proof.
  intros [_ Ha _ _]. unfold page_count, heap_pages, pageof. cbn [fst snd]. rewrite Ha. f_equal. unfold HEAP_SIZE. dlia.
Qed.

Lemma total_here hp x : heap_place hp → stage hp x →
  total (ident_ranges h x (tload_start ad) (tload_end ad)) = (total loader_ranges + heap_pages)%nat.
Proof.
  intros Hp Hs. rewrite (ranges_here hp) by done. unfold loader_ranges. fold m0. rewrite !total_app.
  assert (∀ a l, total (a :: l) = (page_count a + total l)%nat) as E by done.
  rewrite (E (hp, hp + HEAP_SIZE)), (heap_range_pages hp Hp). lia.
Qed.

Lemma pages_here hp x y : stage hp x →
  mapped_pages (ident_ranges h x (tload_start ad) (tload_end ad)) y ↔ loader_page hp y.
Proof.
  intros Hs. rewrite (ranges_here hp) by done. unfold loader_page, mapped_pages, loader_ranges. fold m0. split.
  - intros (r & Hr & Hy). rewrite elem_of_app, !elem_of_cons in Hr. destruct Hr as [Hr|[->|Hr]]; [left|by right|left];
      exists r; (split; [|done]); apply elem_of_app; [by left|right]. apply elem_of_cons. tauto.
  - intros [(r & Hr & Hy)|Hy]; [exists r|exists (hp, hp + HEAP_SIZE)]; (split; [|done]); rewrite elem_of_app, !elem_of_cons in *; tauto.
Qed.

Lemma ident_ready_here hp root T n x :
  heap_place hp → paged hp root T x → frames_low root x →
  tload_inv (4 * (total loader_ranges + heap_pages + n) + sp) x →
  tload_free (4 * (total loader_ranges + heap_pages + n)) x →
  ident_ready root T h (tload_start ad) (tload_end ad) fuel n sp x.
Proof.
  intros Hp Hd Hlow Hi Hf. pose proof (pd_stage _ _ _ _ Hd) as Hs. destruct (bo_ranges _ HB) as [R1 R2].
  assert (elf_num h (ram x) = elf_num h m0) as En by (by apply (header_field _ _ HF hp x)).
  destruct (bo_info _ HB) as [_ _ (_ & _ & Hfu) _ _ _ _ _ _]. fold m0 in Hfu.
  split; rewrite ?(total_here hp) by done; try done; try apply Hd.
  - rewrite (proj1 (sg_heap _ _ Hs)). apply Hp.
  - split.
    + intros a Ha. apply Hd. left. by apply (bo_header _ HB).
    + intros i a Hin Ha. rewrite En in Hin. destruct (section_same hp x i Hs Hin) as [E _]. rewrite E in Ha.
      apply Hd. left. by apply (bo_sections _ HB i).
  - rewrite (ranges_here hp) by done. unfold loader_ranges in R1. apply Forall_app in R1 as [A1 A2]. fold m0 in A1.
    apply Forall_app. split; [done|]. constructor; [|done]. destruct (hl_low _ Hp) as [H0 H1]. unfold range_fits.
    rewrite (heap_range_pages hp Hp). cbn [fst snd]. unfold HEAP_SIZE in *. lia.
  - by rewrite En.
Qed.

Lemma ident_stage hp root T n x :
  heap_place hp → paged hp root T x → frames_low root x →
  tload_inv (4 * (total loader_ranges + heap_pages + n) + sp) x →
  tload_free (4 * (total loader_ranges + heap_pages + n)) x →
  wp (identity_map_tload fuel h root (tload_start ad) (tload_end ad)) (λ r x', r = 0 ∧
    tload_inv (4 * n + sp) x' ∧ tload_free (4 * n) x' ∧ frames_low root x' ∧
    (∃ T', paged hp root T' x' ∧ data_kept x T x' T') ∧
    (∀ v, va_ok v → loader_page hp (v / 4096) → ident root (ram x') v) ∧
    (∀ v, va_ok v → ¬ loader_page hp (v / 4096) → leaf (ram x') root v = leaf (ram x) root v)) x.
Proof.
  intros Hp Hd Hlow Hi Hf. pose proof (pd_stage _ _ _ _ Hd) as Hs.
  eapply wp_mono; [apply (identity_map_spec root T h _ _ fuel n sp x), (ident_ready_here hp); done|].
  cbv beta. intros r x' [-> [(G1 & G1' & G1'') G2 (T' & HT & Hu & Hk) G4 G5 G6]]. split_and!; [done|exact G1|done|done| | |].
  - exists T'. split; [|exact Hk]. eapply (paged_kept hp root T x); [done|split; congruence|done|exact Hu|exact Hk].
  - intros v Hv Hy. apply G5; [done|]. by apply (pages_here hp).
  - intros v Hv Hy. apply G6; [done|]. by rewrite (pages_here hp).
Qed.

(** ** The BIOS data area and the screen *)
Definition shown_at (root : Z) (m : mem) (v pa : Z) : Prop :=
  translate m root v = Some pa ∧ ∃ e, leaf m root v = Some e ∧ Z.testbit e 1 = true.

Lemma map_one hp root T v page type n x :
  paged hp root T x → frames_low root x → 0 <= v < 2 ^ 32 → low_page page ∨ page = 0 →
  tload_inv (4 * S n + sp) x → tload_free (4 * S n) x →
  wp (create_virtual_mapping_from_page v root (Z.lor PF_R PF_W) 1 page type) (λ _ x',
    tload_inv (4 * n + sp) x' ∧ tload_free (4 * n) x' ∧ frames_low root x' ∧
    (∃ T', paged hp root T' x' ∧ data_kept x T x' T') ∧
    (∀ w, va_ok w → w / 4096 = v / 4096 → shown_at root (ram x') w (page + w mod 4096)) ∧
    (∀ w, va_ok w → w / 4096 ≠ v / 4096 → leaf (ram x') root w = leaf (ram x) root w)) x.
Proof.
  intros Hd Hlow Hv Hpg Hi Hf. pose proof (low_va v Hv) as Hva.
  eapply wp_mono; [apply (create_mapping_spec (H0 := pager_at (heap_start x) (heap_end x) sp) root T v _ 1 page type (4 * n) x)|].
  - apply Hd.
  - exact (pd_tables _ _ _ _ Hd).
  - exact Hva.
  - replace (4 + 4 * n)%nat with (4 * S n)%nat by lia. done.
  - done.
  - intros e. by apply Hlow.
  - intros r x' ((G1 & G1' & G1'') & [_ G2] & G3 & T' & GT & Gu & _ & Gd & [(Gt & Ge & Gr)|(_ & _ & Gf)]).
    2: { exfalso. apply Gf. apply (pg_free_le 4 (4 * S n)); [lia|exact Hf]. }
    cbn in Gr. destruct Ge as (e & He & Hw). change (pg_ram x') with (ram x') in *. change (pg_ram x) with (ram x) in *.
    assert (∀ w, va_ok w → w / 4096 = v / 4096 → leaf (ram x') root w = Some e) as Hp
      by (intros w _ E; rewrite <- He; apply vpn_leaf; unfold vpn; by rewrite E).
    assert (frame_of e = page) as Hfe.
    { unfold translate in Gt. rewrite He in Gt. cbn in Gt. injection Gt as Gt. unfold GET_PAGE_OFFSET in Gt.
      rewrite land_fff in Gt. lia. }
    split_and!.
    + exact G1.
    + apply G2. by replace (4 + 4 * n)%nat with (4 * S n)%nat by lia.
    + intros w e' Hw' He'. destruct (decide (w / 4096 = v / 4096)) as [E|Hne].
      * rewrite (Hp w Hw' E) in He'. injection He' as <-. rewrite Hfe. destruct Hpg as [[_ ?]| ->]; lia.
      * rewrite G3 in He' by done. by eapply Hlow.
    + exists T'. split; [|exact Gd]. eapply (paged_kept hp root T x); [done|by split|done|exact Gu|exact Gd].
    + intros w Hw' E. specialize (Hp w Hw' E). split; [|exists e; split; [done|by apply Hw]].
      unfold translate. rewrite Hp. cbn. unfold GET_PAGE_OFFSET. by rewrite land_fff, Hfe.
    + intros w Hw' Hne. by apply G3.
Qed.

(** The address space the kernel is entered with. *)
Record address_space (hp root : Z) (T : gmap (list Z) Z) (x : tload) : Prop := AddressSpace {
  as_paged : paged hp root T x;
  as_kernel : kernel_at hp root T x;
  as_loader v : va_ok v → loader_page hp (v / 4096) → v / 4096 ≠ bda_addr ad / 4096 → ident root (ram x) v;
  as_bda v : va_ok v → v / 4096 = bda_addr ad / 4096 → shown_at root (ram x) v (v mod 4096);
  as_screen v : va_ok v → v / 4096 = 0xb8 → ident root (ram x) v;
  as_only v : va_ok v → ¬ kernel_page (v / 4096) → ¬ loader_page hp (v / 4096) →
    v / 4096 ≠ bda_addr ad / 4096 → v / 4096 ≠ 0xb8 → leaf (ram x) root v = None
}.

Lemma kernel_page_apart hp v c :
  heap_place hp → loaded_bytes K m0 (phnum K m0) v c →
  va_ok v ∧ ¬ loader_page hp (v / 4096) ∧ v / 4096 ≠ bda_addr ad / 4096 ∧ v / 4096 ≠ 0xb8.
Proof.
  intros Hp Hc. destruct (bo_apart _ HB) as (t & Ht & Ha). destruct (Ha v c Hc) as (H1 & H2 & H3 & H4).
  split_and!; [|intros [?|[_ Hy]]; [done|]|done|done].
  - destruct Hc as (i & Hi & Hl & j & Hj & -> & _). destruct (ex_segs _ _ _ (proj1 (bo_image _ HB)) i Hi Hl) as (_ & _ & _ & Hv).
    destruct (seg_nonneg m0 (phdr K m0 i)) as (_ & _ & V0). apply va_ok_low. lia.
  - cbn in Hy. pose proof (hl_min _ Hp t Ht). unfold pageof, HEAP_SIZE in *. dlia.
Qed.

(** The mapping of a kernel byte outlives what maps other pages. *)
Lemma kernel_kept hp root T x T' x' :
  kernel_at hp root T x → data_kept x T x' T' →
  (∀ v c, loaded_bytes K m0 (phnum K m0) v c → leaf (ram x') root v = leaf (ram x) root v) → kernel_at hp root T' x'.
Proof.
  intros Hk Hd Hl v c Hc. destruct (Hk v c Hc) as (pa & E1 & E2 & E3 & E4). destruct (Hd pa E3) as [D1 D2]. exists pa.
  split_and!; [|etransitivity; [exact D2|exact E2]|done|done]. unfold translate in *. by rewrite (Hl v c Hc).
Qed.

Section mapping.
Context (hp root : Z) (T : gmap (list Z) Z) (x : tload).
Hypothesis Hp : heap_place hp.
Hypothesis Hd : paged hp root T x.
Hypothesis Hk : kernel_at hp root T x.
Hypothesis Hnone : ∀ v, va_ok v → ¬ kernel_page (v / 4096) → leaf (ram x) root v = None.

(** From the mapping of each page, step by step, to the address space. *)
Lemma address_space_built x1 T1 x2 T2 x3 T3 :
  data_kept x T x1 T1 → data_kept x1 T1 x2 T2 → data_kept x2 T2 x3 T3 → paged hp root T3 x3 →
  (∀ v, va_ok v → loader_page hp (v / 4096) → ident root (ram x1) v) →
  (∀ v, va_ok v → ¬ loader_page hp (v / 4096) → leaf (ram x1) root v = leaf (ram x) root v) →
  (∀ v, va_ok v → v / 4096 = bda_addr ad / 4096 → shown_at root (ram x2) v (0 + v mod 4096)) →
  (∀ v, va_ok v → v / 4096 ≠ bda_addr ad / 4096 → leaf (ram x2) root v = leaf (ram x1) root v) →
  (∀ v, va_ok v → v / 4096 = 0xb8 → shown_at root (ram x3) v (0xb8000 + v mod 4096)) →
  (∀ v, va_ok v → v / 4096 ≠ 0xb8 → leaf (ram x3) root v = leaf (ram x2) root v) →
  address_space hp root T3 x3.
Proof.
  intros K1 K2 K3 Hd3 I1 O1 I2 O2 I3 O3. destruct (bo_bda _ HB) as [_ Hne].
  assert (∀ v, va_ok v → v / 4096 = 0xb8 → ident root (ram x3) v) as Hscreen.
  { intros v Hv E. destruct (I3 v Hv E) as [H1 H2]. split; [|done]. rewrite H1. f_equal. dlia. }
  split; try done.
  - eapply (kernel_kept hp root T2 x2); [|done|]; [eapply (kernel_kept hp root T1 x1); [|done|];
      [eapply (kernel_kept hp root T x); [done|done|]|]|];
      intros v c Hc; destruct (kernel_page_apart hp v c Hp Hc) as (A1 & A2 & A3 & A4); [by apply O1|by apply O2|by apply O3].
  - intros v Hv Hy Hb. destruct (decide (v / 4096 = 0xb8)) as [E|Hn]; [by apply Hscreen|].
    destruct (I1 v Hv Hy) as [H1 H2]. split; [unfold translate in *|]; by rewrite O3, O2.
  - intros v Hv E. destruct (I2 v Hv E) as [H1 H2]. rewrite Z.add_0_l in H1.
    split; [unfold translate in *|]; by rewrite O3 by (done || congruence).
  - intros v Hv H1 H2 H3 H4. rewrite O3, O2, O1 by done. by apply Hnone.
Qed.

Lemma map_stage :
  frames_low root x → tload_inv (4 * (total loader_ranges + heap_pages + 2) + sp) x →
  tload_free (4 * (total loader_ranges + heap_pages + 2)) x →
  wp (identity_map_tload fuel h root (tload_start ad) (tload_end ad)) (λ r x1, r = 0 ∧
    wp (create_virtual_mapping_from_page (bda_addr ad) root (Z.lor PF_R PF_W) 1 0 BiosDataArea) (λ _ x2,
      wp (create_virtual_mapping_from_page 0xb8000 root (Z.lor PF_R PF_W) 1 0xb8000 VideoHardware) (λ _ x3,
        tload_inv sp x3 ∧ ∃ T3, address_space hp root T3 x3) x2) x1) x.
Proof.
  intros Hlow Hi Hf. eapply wp_mono; [by apply (ident_stage hp root T 2 x)|]. cbv beta.
  intros r x1 (-> & Hi1 & Hf1 & Hl1 & (T1 & Hd1 & K1) & I1 & O1). split; [done|]. destruct (bo_bda _ HB) as [Hb _].
  eapply wp_mono; [apply (map_one hp root T1 (bda_addr ad) 0 BiosDataArea 1 x1); try done; [lia|by right]|]. cbv beta.
  intros _ x2 (Hi2 & Hf2 & Hl2 & (T2 & Hd2 & K2) & I2 & O2).
  eapply wp_mono; [apply (map_one hp root T2 0xb8000 0xb8000 VideoHardware 0 x2); try done; left; split; [split_and!|]; lia || done|].
  cbv beta. intros _ x3 (Hi3 & _ & _ & (T3 & Hd3 & K3) & I3 & O3). split; [exact Hi3|]. exists T3.
  by apply (address_space_built x1 T1 x2 T2 x3 T3).
Qed.
End mapping.

(** ** The information for the kernel *)
Definition kept_mem (m : mem) : Prop := ∀ a, kept a → rd8 m a = rd8 m0 a.

Lemma kept_mem_wr hp n m a v :
  heap_place hp → kept_mem m → hp <= a → a + Z.of_nat n <= hp + HEAP_SIZE → kept_mem (wr n m a v).
Proof.
  intros Hp Hm H1 H2 b Hb. rewrite <- (Hm b Hb). apply rd8_wr_outside.
  destruct (decide (a <= b < a + Z.of_nat n)); [exfalso|lia]. apply (heap_not_kept hp b Hp); [unfold in_heap; lia|done].
Qed.

(** Headers of sections of the image. *)
Lemma kept_shdr m sh : kept_mem m → K <= sh → sh + 64 <= K + len →
  TloadSegs.sh_offset sh m = TloadSegs.sh_offset sh m0 ∧ TloadSegs.sh_size sh m = TloadSegs.sh_size sh m0 ∧
  TloadSegs.sh_entsize sh m = TloadSegs.sh_entsize sh m0.
Proof.
  intros Hm H1 H2. destruct (shdr_fields K len m0 m) with (sh := sh) as (_ & _ & ? & ? & ?); [|done|done|done].
  intros a Ha. apply Hm. by apply (bo_image _ HB).
Qed.

(** What the header at [kif] says of the kernel. *)
Record kernel_fields (kif dbg vsize : Z) (m : mem) : Prop := KernelFields {
  kf_max : rd64 m (kif + kh_max_tysos) = u64 vsize;
  kf_gdt : rd64 m (kif + kh_gdt) = u64 (gdt64 ad);
  kf_image : rd64 m (kif + kh_tysos_paddr) = u64 K ∧ rd64 m (kif + kh_tysos_size) = u64 len ∧
    rd64 m (kif + kh_tysos_virtaddr) = 0;
  kf_symbols : rd64 m (kif + kh_tysos_sym_tab_paddr) = u64 (K + TloadSegs.sh_offset (symh_of m0 K) m0) ∧
    rd64 m (kif + kh_tysos_sym_tab_size) = TloadSegs.sh_size (symh_of m0 K) m0 ∧
    rd64 m (kif + kh_tysos_sym_tab_entsize) = TloadSegs.sh_entsize (symh_of m0 K) m0;
  kf_strings : rd64 m (kif + kh_tysos_str_tab_paddr) = u64 (K + TloadSegs.sh_offset (strh_of m0 K) m0) ∧
    rd64 m (kif + kh_tysos_str_tab_size) = TloadSegs.sh_size (strh_of m0 K) m0;
  kf_debug : rd8 m (kif + kh_debug) = u8 dbg
}.

Ltac kh_unfold := unfold kh_max_tysos, kh_gdt, kh_tysos_paddr, kh_tysos_size, kh_tysos_virtaddr, kh_tysos_sym_tab_paddr,
  kh_tysos_sym_tab_size, kh_tysos_sym_tab_entsize, kh_tysos_str_tab_paddr, kh_tysos_str_tab_size, kh_debug in *.

Lemma kernel_fields_kept kif dbg vsize m m' :
  kernel_fields kif dbg vsize m → (∀ a, kif + 68 <= a < kif + 148 ∨ a = kif + 156 → rd8 m' a = rd8 m a) →
  kernel_fields kif dbg vsize m'.
Proof.
  intros [H1 H2 H3 H4 H5 H6] Hm. assert (∀ o, 68 <= o → o + 8 <= 148 → rd64 m' (kif + o) = rd64 m (kif + o)) as E
    by (intros o O1 O2; apply (rd_ext 8); intros a Ha; apply Hm; lia).
  kh_unfold. split; kh_unfold; rewrite ?E by lia; try done. rewrite Hm by (right; lia). done.
Qed.

Lemma wp_storek a v (Q : unit → kst → Prop) m x s :
  Q tt (with_mm (with_ram (λ _, wr64 m a v) x) s) →
  wp (on_tload (store64 a v)) Q (with_mm (with_ram (λ _, m) x) s).
Proof. done. Qed.

Lemma wp_pokek f (Q : unit → kst → Prop) m x s :
  Q tt (with_mm (with_ram (λ _, f m) x) s) →
  wp (on_tload (modify (with_ram f))) Q (with_mm (with_ram (λ _, m) x) s).
Proof. done. Qed.

(** Read a field of a section header of the image, then store. *)
Ltac kept_store Hp :=
  wp_step; apply wp_peekk; unfold id; cbn [mem_of mm ldr with_mm ram with_ram];
  match goal with
  | |- context [on_tload (store64 _ ?v)] =>
      match v with
      | context [TloadSegs.sh_offset ?sh ?m] => destruct (kept_shdr m sh) as (-> & _ & _)
      | context [TloadSegs.sh_size ?sh ?m] => destruct (kept_shdr m sh) as (_ & -> & _)
      | context [TloadSegs.sh_entsize ?sh ?m] => destruct (kept_shdr m sh) as (_ & _ & ->)
      end
  end; [solve [repeat (eapply (kept_mem_wr _ 8); [exact Hp| |lia|lia]); assumption]|assumption|assumption|];
  wp_step; apply wp_storek.

Lemma kernel_fields_run hp kif m x s :
  heap_place hp → kept_mem m → hp <= kif → kif + sizeof_kh <= hp + HEAP_SIZE → kernel_info (ldr s) →
  wp (write_kernel_fields ad kif K len) (λ _ s', ∃ m', s' = with_mm (with_ram (λ _, m') x) s ∧
    same_outside (kif + 68) 89 m m' ∧
    kernel_fields kif (tysos_debug (vars s)) (kernel_vsize (ldr s)) m') (with_mm (with_ram (λ _, m) x) s).
Proof.
  intros Hp M0 K1 K2 [_ I2 _ [I4 I5]]. unfold sizeof_kh in K2. destruct (bo_tables _ HB) as [T1 T2]. fold m0 in T1, T2.
  pose proof (proj1 (bo_image _ HB)) as Hex. fold m0 in Hex.
  assert (K <= symh_of m0 K ∧ symh_of m0 K + 64 <= K + len) as [A1 A2] by exact (header_in K len m0 Hex _ T1).
  assert (K <= strh_of m0 K ∧ strh_of m0 K + 64 <= K + len) as [B1 B2] by exact (header_in K len m0 Hex _ T2).
  unfold write_kernel_fields. wp_step. apply wp_get. cbv zeta.
  cbn [ldr vars with_mm symtab strtab load_offset kernel_vsize]. rewrite I2, I4, I5.
  set (vs := kernel_vsize (ldr s)). set (dbg := tysos_debug (vars s)).
  kh_unfold. do 5 (wp_step; apply wp_storek).
  destruct (Z.eqb_spec (symh_of m0 K) 0); [done|]. destruct (Z.eqb_spec (strh_of m0 K) 0); [done|]. cbn [orb].
  rewrite Z.add_0_l. do 5 kept_store Hp. apply wp_pokek.
  match goal with |- context [wr8 ?m (kif + 156) dbg] => set (m1 := m) end.
  exists (wr8 m1 (kif + 156) dbg). split; [reflexivity|]. split.
  - intros k Hk. rewrite rd8_wr8, decide_False by lia. unfold m1, wr64. by rewrite !rd8_wr_outside by lia.
  - assert (∀ o, 0 <= o → o + 8 <= 148 → rd64 (wr8 m1 (kif + 156) dbg) (kif + o) = rd64 m1 (kif + o)) as E1.
    { intros o O1 O2. apply (rd_ext 8). intros a Ha. rewrite rd8_wr8, decide_False by lia. done. }
    assert (∀ v, u64 (u64 v) = u64 v) as U1 by (intros v; apply u64_small, u64_range).
    assert (∀ a, u64 (rd64 m0 a) = rd64 m0 a) as U2 by (intros a; apply u64_small, rd64_range).
    split; kh_unfold; rewrite ?E1 by lia; unfold m1; split_and?;
      repeat first [rewrite rd64_wr64_eq | rewrite rd64_wr64_ne by lia]; try done; try apply U1; try apply U2.
    by rewrite rd8_wr8, decide_True.
Qed.


(** Writing to the heap leaves the address space alone. *)
Lemma space_kept hp root T x x' :
  heap_place hp → address_space hp root T x → same_manager x x' →
  (∀ a, ¬ in_heap hp a → rd8 (ram x') a = rd8 (ram x) a) → address_space hp root T x'.
Proof.
  intros Hp [[[S1 S2 S3] D2 D3 D4] A2 A3 A4 A5 A6] [_ _ Eb _ _ _ Es Ee] Hm.
  assert (∀ a, tload_used x a → tload_used x' a) as Hu by (unfold tload_used; by rewrite Eb).
  destruct (tree_self (ram x) (ram x') root T D2) as [HT Hl].
  { intros q t j Hq Hj _. destruct (tr_table _ _ _ D2 q t Hq) as [_ (T0 & T1 & T2)]. unfold entry, index in *.
    apply (rd_ext 8). intros a Ha. apply Hm. intros Hin. destruct (D4 a (or_intror Hin)) as [_ Hn]. apply (Hn q).
    rewrite Hq. f_equal. unfold pageof. dlia. }
  assert (∀ v, va_ok v → leaf (ram x') root v = leaf (ram x) root v) as Hl' by (intros v [_ Hv]; by apply Hl).
  assert (∀ v, va_ok v → translate (ram x') root v = translate (ram x) root v) as Ht
    by (intros v Hv; unfold translate; by rewrite Hl').
  split; [split; [split|..]|..].
  - by rewrite Es, Ee.
  - intros a Ha. by apply Hu, S2.
  - intros a Ha. rewrite Hm; [by apply S3|]. intros Hin. by apply (heap_not_kept hp a Hp).
  - done.
  - intros p a Ha. destruct (D3 p a Ha) as [U ?]. split; [by apply Hu|done].
  - intros a Ha. destruct (D4 a Ha) as [U ?]. split; [by apply Hu|done].
  - intros v c Hc. destruct (A2 v c Hc) as (pa & E1 & E2 & [E3 E3'] & E4). exists pa.
    destruct (kernel_page_apart hp v c Hp Hc) as (Hv & _). rewrite Ht, Hm by done. split_and!; try done. split; [by apply Hu|done].
  - intros v Hv H1 H2. unfold ident. rewrite Ht, Hl' by done. by apply A3.
  - intros v Hv H1. unfold shown_at. rewrite Ht, Hl' by done. by apply A4.
  - intros v Hv H1. unfold ident. rewrite Ht, Hl' by done. by apply A5.
  - intros v Hv H1 H2 H3 H4. rewrite Hl' by done. by apply A6.
Qed.

Section kif.
Context (gen : kif_code) (array_room : Z) (str_room : list Z → Z) (is_string : mem → Z → list Z → Prop).
Hypothesis laws : kif_laws gen array_room str_room is_string.
Let nm (i : Z) : option (list Z) := Some (names i).

(** The heap has room for all of it, however long the memory map got. *)
Definition kif_fits : Prop :=
  sizeof_kh + array_room + 8 + HEAP_SIZE / 7 + modules_size array_room str_room h m0 nm + str_room line <= 56 * Z.of_nat sp.
Hypothesis Hfits : kif_fits.

(** What the kernel is told: the memory map [l], the modules, where the kernel
    and its symbols are, and the command line. *)
Record kif_told (kif dbg vsize : Z) (l : list Z) (m : mem) : Prop := KifTold {
  kt_map : kif_map m kif (tysos_heap_start ad) (tysos_heap_end ad) (bda_addr ad) l;
  kt_kernel : kernel_fields kif dbg vsize m;
  kt_modules : kif_modules is_string h m0 nm m kif;
  kt_line : is_string m (rd64 m (kif + kh_cmdline)) line
}.

Lemma kept_mods m : kept_mem m →
  mods_count h m = mods_count h m0 ∧ ∀ i, module_at h m i = module_at h m0 i.
Proof.
  intros Hm. assert (∀ o, 0 <= o → o + 4 <= 52 → rd32 m (h + o) = rd32 m0 (h + o)) as E.
  { intros o O1 O2. apply (rd_ext 4). intros a Ha. apply Hm, (bo_header _ HB). lia. }
  split; [by apply E|]. intros i. unfold module_at, mods_addr. by rewrite E by lia.
Qed.

Lemma kept_mod m i : kept_mem m → 0 <= i < mods_count h m0 →
  mod_start (module_at h m0 i) m = mod_start (module_at h m0 i) m0 ∧
  mod_end (module_at h m0 i) m = mod_end (module_at h m0 i) m0 ∧
  mod_string (module_at h m0 i) m = mod_string (module_at h m0 i) m0.
Proof.
  intros Hm Hi. destruct (proj2 (bo_modules _ HB) i Hi) as (Hk & _).
  split_and!; apply (rd_ext 4); intros b Hb; apply Hm, Hk; lia.
Qed.

Lemma modules_away_here hp lo m :
  heap_place hp → kept_mem m → hp <= lo <= hp + HEAP_SIZE → modules_away h m lo (hp + HEAP_SIZE) nm.
Proof.
  intros Hp Hm Hlo. destruct (kept_mods m Hm) as [Ec Ea].
  split; unfold away; rewrite ?Ec.
  - apply (kept_away hp lo h 28 Hp Hlo); [lia|]. intros b Hb. apply (bo_header _ HB). lia.
  - intros i Hi. rewrite Ea. apply (kept_away hp lo _ 12 Hp Hlo); [lia|]. by apply (bo_modules _ HB).
  - intros i Hi. rewrite Ea. destruct (kept_mod m i Hm Hi) as (_ & _ & ->).
    change (nm i) with (Some (names i)). cbv iota.
    destruct (proj2 (bo_modules _ HB) i Hi) as (_ & Hne & Hs & Hk). split_and!; [done| |].
    + eapply cstring_agree; [|exact Hs]. intros b Hb. symmetry. apply Hm, Hk. lia.
    + apply (kept_away hp lo _ _ Hp Hlo); [lia|done].
Qed.

Lemma modules_told m m1 kif : kept_mem m1 → kif_modules is_string h m1 nm m kif → kif_modules is_string h m0 nm m kif.
Proof.
  intros Hm (objs & H1 & H2 & H3). destruct (kept_mods m1 Hm) as [Ec Ea]. exists objs. rewrite <- Ec. split_and!; [done|done|].
  intros i a Hi. destruct (H3 i a Hi) as (G1 & G2 & G3). apply lookup_lt_Some in Hi. rewrite Ec in H1.
  unfold module_obj. rewrite Ea in G1, G2. destruct (kept_mod m1 (Z.of_nat i) Hm) as (E1 & E2 & _); [lia|].
  rewrite E1 in G1, G2. rewrite E2 in G2. done.
Qed.

Lemma modules_size_same m : kept_mem m → modules_size array_room str_room h m nm = modules_size array_room str_room h m0 nm.
Proof. intros Hm. unfold modules_size. by destruct (kept_mods m Hm) as [-> _]. Qed.

Definition heap_only (hp : Z) (m m' : mem) : Prop := ∀ a, ¬ in_heap hp a → rd8 m' a = rd8 m a.

Lemma heap_only_kept hp m m' : heap_place hp → kept_mem m → heap_only hp m m' → kept_mem m'.
Proof. intros Hp Hm Hh a Ha. rewrite Hh; [by apply Hm|]. intros Hin. by apply (heap_not_kept hp a Hp). Qed.

Section stages.
Context (hp : Z) (x : tload).
Hypothesis Hp : heap_place hp.
Hypothesis Hheap : heap_start x = hp ∧ heap_end x = hp + HEAP_SIZE.
Hypothesis Hmem : kept_mem (ram x).
Hypothesis Hok : heap_ok x.

(** The headers of the memory map, and the array that lists it. *)
Lemma kif_map_stage l :
  map_ok x l → cur_end x + 56 * Z.of_nat sp <= heap_end x →
  wp (memmgr_init_linked_list gen) (λ _ x1,
    wp (make_kif gen (tysos_heap_start ad) (tysos_heap_end ad) (bda_addr ad)) (λ kif x2,
      same_manager x x2 ∧ heap_only hp (ram x) (ram x2) ∧ map_ok x2 l ∧ hp <= kif ∧ kif + sizeof_kh <= cur_end x2 ∧
      cur_end x2 <= cur_end x + (sizeof_kh + array_room + 8 + HEAP_SIZE / 7) ∧
      ∀ m, map_bytes kif (cur_end x2) (ram x2) m →
        kif_map m kif (tysos_heap_start ad) (tysos_heap_end ad) (bda_addr ad) l) x1) x.
Proof.
  intros Hm Hroom. destruct Hheap as [E1 E2]. pose proof Hok as (A1 & A2 & A3 & A4).
  pose proof (map_ok_length x l Hok Hm) as Hlen.
  assert (8 * Z.of_nat (length l) <= HEAP_SIZE / 7) as Hl by (change (HEAP_SIZE / 7) with 1048576; lia).
  unfold kif_fits in Hfits.
  assert (0 <= modules_size array_room str_room h m0 nm + str_room line) as Hpos.
  { pose proof (kl_room _ _ _ _ laws line). pose proof (modules_room_nonneg gen array_room str_room is_string laws nm (Z.to_nat (mods_count h m0)) 0).
    pose proof (kl_array_room _ _ _ _ laws). assert (0 <= mods_count h m0) by apply (rd_range 4).
    unfold modules_size, sizeof_ka in *. lia. }
  eapply wp_mono; [by apply (init_list_spec gen array_room str_room is_string laws l x)|]. cbv beta.
  intros [] x1 (G1 & T1 & F1). pose proof (same_manager_map _ _ _ G1 Hm) as Hm1.
  destruct (bo_bda _ HB) as [Hb _]. destruct (bo_heap _ HB) as [Hb1 Hb2].
  eapply wp_mono; [apply (make_kif_spec gen array_room str_room is_string laws _ _ _ l x1); try done; [apply G1| |lia]|].
  { rewrite (sm_end _ _ G1). unfold map_room. lia. }
  cbv beta. intros kif x2 (-> & G2 & F2 & P1 & P2 & P3). unfold fresh_only in F2. rewrite T1 in *. unfold map_room in P2.
  assert (heap_ok x2) as (B1 & B2 & _) by apply G2. pose proof (same_manager_trans _ _ _ G1 G2) as G.
  rewrite (sm_end _ _ G) in B2. split_and!; [done| |by eapply same_manager_map|lia|done|lia|done].
  intros a Ha. unfold in_heap in Ha. rewrite F2 by lia. apply F1. intros b Hbl.
  pose proof (mo_addr _ _ Hm) as Had. rewrite Forall_forall in Had. specialize (Had b Hbl). lia.
Qed.

(** The modules and the command line. *)
Lemma kif_rest_stage kif :
  hp <= kif → kif + sizeof_kh <= cur_end x →
  cur_end x + (modules_size array_room str_room h m0 nm + str_room line) <= heap_end x →
  wp (write_kif_modules gen fuel kif h) (λ _ x1, mb_cmdline h (ram x1) = mb_cmdline h m0 ∧
    wp (CreateString gen (mb_cmdline h m0)) (λ p x2, ∀ x3, x3 = with_ram (λ m, wr64 m (kif + kh_cmdline) p) x2 →
      same_manager x x3 ∧ heap_only hp (ram x) (ram x3) ∧
      (∀ a, a < cur_end x → a < kif + kh_modules ∨ kif + kh_heap_start <= a → a < kif + kh_cmdline ∨ kif + kh_debug <= a →
         rd8 (ram x3) a = rd8 (ram x) a) ∧
      kif_modules is_string h m0 nm (ram x3) kif ∧ is_string (ram x3) (rd64 (ram x3) (kif + kh_cmdline)) line) x1) x.
Proof.
  intros K1 K2 Hroom. destruct Hheap as [E1 E2]. pose proof Hok as (A1 & A2 & A3 & A4).
  destruct (hl_low _ Hp) as [H0 _]. pose proof (kl_room _ _ _ _ laws line) as Hsr. pose proof (modules_size_same _ Hmem) as Ems.
  destruct (bo_info _ HB) as [_ _ (_ & Hfu & _) _ _ _ _ _ _]. fold m0 in Hfu. unfold sizeof_kh in *.
  eapply wp_mono; [apply (write_modules_spec gen array_room str_room is_string laws h (ram x) kif (hp + HEAP_SIZE) nm) with (s := x)|].
  { apply (modules_away_here hp); [done|done|lia]. }
  { done. } { done. } { done. } { lia. } { done. } { by rewrite (proj1 (kept_mods _ Hmem)). } { rewrite Ems. lia. }
  cbv beta. intros [] x1 (G1 & P1 & F1 & M1). unfold kh_modules, kh_heap_start, kh_cmdline, kh_debug in *.
  pose proof (sm_top _ _ G1) as Ht1. assert (heap_ok x1) as (B1 & B2 & B3 & _) by apply G1. rewrite (sm_end _ _ G1) in B2, B3.
  assert (heap_only hp (ram x) (ram x1)) as Hh1 by (intros a Ha; unfold in_heap in Ha; apply F1; lia).
  pose proof (heap_only_kept _ _ _ Hp Hmem Hh1) as Hm1. destruct (bo_line _ HB) as [[L1 L2] _]. fold m0 in L1, L2. split.
  { apply (rd_ext 4). intros a Ha. apply Hm1, (bo_header _ HB). lia. }
  eapply wp_mono; [apply (kl_string _ _ _ _ laws _ line x1); [apply G1| | |rewrite (sm_end _ _ G1); lia]|].
  { eapply cstring_agree; [|exact L1]. intros a Ha. symmetry. apply Hm1, L2. lia. }
  { rewrite (sm_end _ _ G1), E2. apply (kept_away hp); [done|lia|lia|done]. }
  cbv beta. intros p x2 (G2 & F2 & -> & T2 & S2) x3 ->. unfold fresh_only in F2. rewrite T2 in F2. cbn [ram with_ram].
  assert (∀ a, a < kif + 148 ∨ kif + 156 <= a → rd8 (wr64 (ram x2) (kif + 148) (cur_end x1)) a = rd8 (ram x2) a) as F3
    by (intros a Ha; unfold wr64; by rewrite rd8_wr_outside by lia).
  split_and!.
  - pose proof (same_manager_trans _ _ _ G1 G2) as G. by destruct G.
  - intros a Ha. unfold in_heap in Ha. rewrite F3, F2 by lia. apply F1; lia.
  - intros a C1 C2 C3. rewrite F3, F2 by lia. apply F1; lia.
  - apply (modules_told _ (ram x)); [done|]. apply M1. intros a Ha. unfold kh_modules, kh_heap_start in Ha.
    rewrite F3, F2 by lia. done.
  - rewrite rd64_wr64_eq, u64_small by lia. eapply (kl_string_bytes _ _ _ _ laws); [exact S2|]. intros a Ha. apply F3. lia.
Qed.
End stages.

Lemma kif_stage hp root T s :
  heap_place hp → address_space hp root T (mem_of s) → tload_inv sp (mem_of s) → kernel_info (ldr s) →
  wp (write_kif fuel ad gen h K len) (λ kif s', ∃ x l, s' = with_mm x s ∧ address_space hp root T x ∧ map_ok x l ∧
    in_heap hp kif ∧ kif_told kif (tysos_debug (vars s)) (kernel_vsize (ldr s)) l (ram x)) s.
Proof.
  intros Hp Hsp Hi Hki. pose proof (pd_stage _ _ _ _ (as_paged _ _ _ _ Hsp)) as Hs.
  destruct Hi as [(R & l & Hm & _ & Hok & Hroom & _) _]. destruct (sg_heap _ _ Hs) as [E1 E2]. set (x := mem_of s) in *.
  assert (kept_mem (ram x)) as M0 by exact (sg_kept _ _ Hs). unfold write_kif. wp_step. apply wp_on_tload. fold x.
  eapply wp_mono; [exact (kif_map_stage hp x (conj E1 E2) Hok l Hm Hroom)|]. cbv beta. intros [] x1 H1. wp_step.
  apply wp_on_tload. eapply wp_mono; [exact H1|]. cbv beta. clear H1.
  intros kif x2 (G2 & O2 & M2 & K1 & K2 & K3 & Hmap). pose proof (heap_only_kept _ _ _ Hp M0 O2) as N2.
  assert (heap_ok x2) as Hok2 by apply G2. pose proof Hok2 as (B1 & B2 & B3 & _). rewrite (sm_end _ _ G2), E2 in B2, B3.
  wp_step. replace (with_mm x2 (with_mm _ s)) with (with_mm (with_ram (λ _, ram x2) x2) s) by (by destruct x2).
  eapply wp_mono; [apply (kernel_fields_run hp kif (ram x2) x2 s); [done|done|done|lia|done]|]. cbv beta.
  intros [] s3 (m3 & -> & F3 & Hkf). set (x3 := with_ram (λ _, m3) x2). unfold kif_fits, sizeof_kh in *.
  assert (heap_only hp (ram x2) m3) as O3 by (intros a Ha; unfold in_heap in Ha; apply F3; lia).
  wp_step. apply wp_on_tload. change (mem_of (with_mm x3 s)) with x3.
  eapply wp_mono; [apply (kif_rest_stage hp x3 Hp) with (kif := kif)|].
  { cbn. rewrite (sm_start _ _ G2), (sm_end _ _ G2). done. } { exact (heap_only_kept _ _ _ Hp N2 O3). } { exact Hok2. }
  { done. } { cbn. unfold sizeof_kh. lia. } { cbn [cur_end heap_end x3 with_ram]. rewrite (sm_end _ _ G2). lia. }
  cbv beta. intros [] x4 [Hline H4]. wp_step. apply wp_peekk. change (ram (mem_of (with_mm x4 (with_mm x3 s)))) with (ram x4).
  rewrite Hline. wp_step. apply wp_on_tload. eapply wp_mono; [exact H4|]. cbv beta. clear H4 Hline.
  intros p x5 H5. destruct (H5 _ eq_refl) as (G6 & O6 & F6 & Hmod & Hstr). clear H5. wp_step. apply wp_on_tload, wp_store64. wp_step.
  change (mem_of (with_mm x5 _)) with x5. set (x6 := with_ram _ x5) in *.
  change (with_ram (λ _, wr64 (ram x5) (kif + kh_cmdline) p) x5) with x6. exists x6, l.
  cbn [ram cur_end x3 with_ram] in F6, O6. unfold kh_modules, kh_heap_start, kh_cmdline, kh_debug in F6.
  assert (same_manager x x6) as G by (eapply same_manager_trans; [exact G2|]; by destruct G6).
  split_and!; [reflexivity| |by eapply same_manager_map|unfold in_heap; lia|].
  - eapply space_kept; [done|exact Hsp|exact G|]. intros a Ha. fold x. rewrite O6, O3, O2 by done. done.
  - split; [| |exact Hmod|exact Hstr].
    + apply Hmap. intros a Ha. unfold kh_mmap, kh_modules, kh_heap_start, kh_max_tysos, sizeof_kh in Ha.
      rewrite F6, F3 by lia. done.
    + eapply kernel_fields_kept; [exact Hkf|]. intros a Ha. apply F6; lia.
Qed.

(** ** The whole run *)
(** The kernel is entered at its entry point, in an address space with the
    kernel, the loader, the BIOS data area and the screen, and can read what
    it is told in the loader's heap. *)
Definition booted (r : result) (s : kst) : Prop :=
  ∃ hp root T kif l vsize lo hi,
    r = Entered root (entry_of m0 K) kif ∧ heap_place hp ∧ address_space hp root T (mem_of s) ∧
    map_ok (mem_of s) l ∧ in_heap hp kif ∧ image_range K m0 (phnum K m0) lo hi ∧ vsize = image_len lo hi ∧
    kif_told kif (if (meaning line).2 then 1 else tysos_debug (vars s0)) vsize l (ram (mem_of s)).

Context (decompress : Z → Z → Z → Z → M tload Z).

Lemma boot_kernel_spec hp root s :
  let T := {[ [] := root ]} in
  heap_place hp → paged hp root T (mem_of s) → (∀ v, va_ok v → leaf (ram (mem_of s)) root v = None) →
  tload_inv (4 * boot_pages + sp) (mem_of s) → tload_free (4 * boot_pages) (mem_of s) →
  symtab (ldr s) = 0 ∧ strtab (ldr s) = 0 →
  tysos_debug (vars s) = (if (meaning line).2 then 1 else tysos_debug (vars s0)) →
  wp (boot_kernel fuel ad gen decompress h K len root) booted s.
Proof.
  intros T Hp Hd Hnone Hi Hf Hg Hdbg. pose proof (pd_stage _ _ _ _ Hd) as Hs. unfold boot_kernel. wp_step. apply wp_peekk.
  pose proof (proj1 (bo_image _ HB)) as Hex. fold m0 in Hex.
  assert (rd8 (ram (mem_of s)) K = 0x7f) as ->.
  { destruct (ex_ident _ _ _ Hex) as (E & _). unfold e_ident in E. rewrite Z.add_0_r in E. rewrite <- E.
    apply (image_agrees hp _ K Hs). destruct (ex_low _ _ _ Hex). unfold in_image. lia. }
  cbn [Z.eqb Pos.eqb]. wp_step. wp_step. wp_step.
  eapply wp_mono; [apply (load_stage hp root (total loader_ranges + heap_pages + 2) s); done|]. cbv beta.
  intros r s1 (-> & Ev & Hki & Hi1 & Hf1 & Hl1 & T1 & Hd1 & Hk1 & Hn1). cbn [Z.ltb Z.compare]. wp_step. apply wp_on_tload.
  eapply wp_mono; [apply (map_stage hp root T1 (mem_of s1)); done|]. cbv beta. intros r x2 [-> H2].
  cbn [Z.ltb Z.compare]. wp_step. apply wp_on_tload. eapply wp_mono; [exact H2|]. cbv beta. clear H2. intros r2 x3 H3.
  wp_step. apply wp_on_tload. eapply wp_mono; [exact H3|]. cbv beta. clear H3. intros r3 x4 (Hi4 & T4 & Hsp).
  set (s4 := with_mm x4 _). wp_step.
  eapply wp_mono; [apply (kif_stage hp root T4 s4); [done|exact Hsp|exact Hi4|by destruct Hki]|]. cbv beta.
  intros kif s5 (x5 & l & -> & Hsp5 & Hm5 & Hin & Ht). wp_step. apply wp_get. wp_step.
  destruct (ki_size _ Hki) as (lo & hi & Hr & Hv). exists hp, root, T4, kif, l, (kernel_vsize (ldr s1)), lo, hi.
  split_and!; try done.
  - f_equal. exact (ki_entry _ Hki).
  - rewrite <- Hdbg, <- Ev. exact Ht.
Qed.

Lemma kmain_spec detect64 :
  truth detect64 = true → wp (kmain fuel ad gen detect64 decompress MB_ID h) booted s0.
Proof.
  intros H64. unfold kmain, multiboot_main. wp_step. apply wp_on_tload, wp_modify. rewrite H64. cbn [negb].
  change (MB_ID =? MB_ID) with true. cbn [negb]. wp_step. apply wp_on_tload.
  eapply wp_mono; [exact (setup_stage _ _ HF (puts (cstr "TLoad starting...")))|]. cbv beta.
  intros [] x1 (hp & Hp & Hs1 & Hr1 & Hi1 & Hf1). wp_step. set (s1 := with_mm x1 _).
  eapply wp_mono; [exact (parse_stage _ _ HF hp (1 + 4 * boot_pages + sp) s1 Hp Hs1 Hr1 eq_refl Hi1)|]. cbv beta.
  intros [] s2 (x2 & v2 & -> & Hs2 & Hi2 & Hf2 & Hn2 & Hd2). wp_step. set (s2 := Kst _ v2).
  eapply wp_mono; [exact (find_stage _ _ HF hp s2 Hs2 Hn2)|]. cbv beta.
  assert (kernel_found = (K, len)) as -> by (unfold kernel_found; rewrite (proj1 (bo_modules _ HB)); apply (bo_found _ HB)).
  intros r s3 (-> & v3 & -> & Hd3). cbn [fst snd].
  destruct (ex_low _ _ _ (proj1 (bo_image _ HB))) as (HK & _). destruct (Z.eqb_spec K 0); [lia|]. wp_step.
  apply wp_on_tload. eapply wp_mono; [exact (root_stage hp (4 * boot_pages + sp) (4 * boot_pages) x2 Hs2 Hi2 (Hf2 _ Hf1))|].
  cbv beta. intros root x4 [Hr4 H4]. destruct (Z.eqb_spec root 0); [done|]. wp_step. apply wp_on_tload.
  eapply wp_mono; [exact H4|]. cbv beta. clear H4. intros [] x5 (Hp5 & Hn5 & Hi5 & Hf5). destruct (bo_globals _ HB) as (_ & G1 & G2).
  apply (boot_kernel_spec hp root); try done. cbn [vars with_mm]. by rewrite Hd3.
Qed.
End kif.
End run.
End boot.
