(* ===== verification/KmainBoots.v ===== *)
(** * Booting a kernel, end to end

    The theorems on [kmain] of src/tload/main.c, and machines on which they
    apply: a multiboot header with a memory map, one module and one section
    of the loader, the module being the small kernel of TloadElf, under its
    name or another.  The functions
    of tloadkif.c are replaced by ones that keep their laws. *)

From stdpp Require Import base numbers list gmap strings.
From Stdlib Require Import Lia.
From S2P Require Import Prelude Mem Console MemMgr PageTable VMem TloadStdlib TloadKif CmdLine.
From S2P Require Import TloadSegs TloadElf TloadImage Boot BootMap KifBoot Kmain.
Open Scope Z_scope.

(** C1. On a 64-bit processor and with the right magic number, [kmain] runs to
    the jump into the kernel: no undefined behaviour, no endless loop, no error
    exit.  [bootable] asks of the multiboot loader a header with a memory map,
    terminated strings and modules, all in memory that stays reserved; a module
    with the name the command line gives ("kernel" by default; of several the
    last) that is a well-formed uncompressed executable linked away from the
    loader; and enough free frames, heap and fuel.  [kif_laws] is what
    tloadkif.c is relied on for, [kif_fits] leaves it room on the heap.  Then
    ([booted]) the kernel is entered at its last "_start" symbol, or the entry
    of the ELF header, and in the address space it gets every byte of a loadable
    segment is the byte of the image or 0; the loader and its heap are mapped to
    themselves, except that the page of [bda_addr] shows frame 0; the text
    screen is mapped to itself, and nothing else is mapped.  The header it is
    handed lies in the mapped heap and lists the entries of the memory map and
    all modules with address, length and name, says where the kernel image, its
    symbol and string tables, the kernel heap and the page tables are, whether
    the command line asks for debugging, and the command line itself. *)
Theorem kmain_boots fuel ad gen detect64 decompress h es s line names K len sp array_room str_room is_string :
  bootable fuel ad h es s line names K len sp →
  kif_laws gen array_room str_room is_string →
  kif_fits h s line names sp array_room str_room →
  truth detect64 = true →
  wp (kmain fuel ad gen detect64 decompress MB_ID h)
     (booted ad h es s line names K len is_string) s.
Proof.
  intros HB Hl Hf. exact (kmain_spec fuel ad h es s line names K len sp HB gen array_room str_room is_string Hl Hf decompress detect64).
Qed.

(** C25. When [kmain] does not boot, it says why and touches nothing.  Without a
    64-bit processor it prints that none was detected and stops for good in an
    endless loop; under a magic number that is not multiboot's it prints that
    and returns -1; in both cases all it has done is to print this line and the
    one before it, and everything else, memory included, is as it was; and on a machine that provides all but the module the command line
    asks for (no modules, or none of that name) it returns -1 with the message
    about the module last on the screen, every reserved frame still reserved
    and its bytes as the boot loader left them. *)
Theorem kmain_refuses fuel ad gen detect64 decompress mbid h es s line names room pages :
  (truth detect64 = false → kmain fuel ad gen detect64 decompress mbid h s =
    Done (Halted, with_mm (with_con (λ c, puts (cstr "Error: 64-bit processor not detected.  Boot cannot continue.")
      (puts (cstr "TLoad starting...") c)) (mem_of s)) s)) ∧
  (truth detect64 = true → mbid ≠ MB_ID → kmain fuel ad gen detect64 decompress mbid h s =
    Done (Stopped (-1), with_mm (with_con (λ c, puts (cstr "Invalid multiboot magic number") (puts (cstr "TLoad starting...") c)) (mem_of s)) s)) ∧
  (truth detect64 = true → mbid = MB_ID → provided fuel ad h es s line names room pages →
    has 0x8 h (ram (mem_of s)) = false ∨ (∀ i, 0 <= i < mods_count h (ram (mem_of s)) → names i ≠ wanted line) →
    wp (kmain fuel ad gen detect64 decompress mbid h) (λ r s', r = Stopped (-1) ∧
      (∃ c, con (mem_of s') = puts (cstr "Error: could not find kernel module") c) ∧
      ∀ a, kept ad h es s a → tload_used (mem_of s') a ∧ rd8 (ram (mem_of s')) a = rd8 (ram (mem_of s)) a) s).
Proof.
  split_and!.
  - intros H64. unfold kmain. rewrite H64. by destruct s as [[[]] ?].
  - intros H64 Hid. unfold kmain, multiboot_main. rewrite H64, (proj2 (Z.eqb_neq mbid MB_ID)) by done. by destruct s as [[[]] ?].
  - intros H64 -> HF Hnone. apply (kernel_not_found h s line names) in Hnone.
    eapply wp_mono; [by apply (kmain_no_kernel fuel ad h es s line names room pages HF)|]. cbv beta.
    intros r s' (-> & hp & c & _ & [_ S2 S3] & Hc). split_and!; [done|by exists c|]. intros a Ha. split; [apply S2; by left|by apply S3].
Qed.

(** ** Functions like those of tloadkif.c *)
Definition demo_header_of (obj : Z) : M tload unit :=
  store64 obj 0x40000000 ;; store32 (obj + 8) 0 ;; store64 (obj + 12) 0.
Definition demo_string (str : Z) : M tload Z :=
  s ← get;
  len ← lift (strlen (Z.to_nat 0x800000) (ram s) str);
  p ← malloc (u32 (24 + (len + 1)));
  modify (with_ram (λ m, wr8 (strncpy m (p + 24) str len).2 (p + 24 + len) 0)) ;;
  mret p.
Definition demo_gen : kif_code := KifCode (malloc sizeof_ka) demo_header_of demo_header_of demo_string.
Definition demo_room (l : list Z) : Z := 24 + (Z.of_nat (length l) + 1).
Definition demo_is_string (m : mem) (p : Z) (l : list Z) : Prop := cstring m (p + 24) l.

Lemma demo_header_ok obj s : heap_ok s →
  wp (demo_header_of obj) (λ _ s', same_manager s s' ∧ cur_end s' = cur_end s ∧ same_outside obj 20 (ram s) (ram s')) s.
Proof.
  intros Hh. unfold demo_header_of. wp_step. apply wp_store64. wp_step. apply wp_store32. apply wp_store64.
  split_and!; [by split|done|]. intros a Ha. cbn [ram with_ram]. unfold wr64, wr32. by rewrite !rd8_wr_outside by lia.
Qed.

Lemma bumped n s : heap_ok s → 0 <= n → cur_end s + n <= heap_end s →
  same_manager s (with_heap (cur_end s + n) (heap_start s) (heap_end s) s).
Proof.
  intros (A1 & A2 & A3 & A4) Hn Hr. split; unfold heap_ok; cbn [cur_end heap_start heap_end with_heap]; try done; lia.
Qed.

Lemma demo_laws : kif_laws demo_gen sizeof_ka demo_room demo_is_string.
Proof.
  split.
  - intros s Hh Hr. unfold sizeof_ka in *. apply wp_malloc; [done|done|done|].
    split_and!; [apply (bumped 64 s Hh); [lia|exact Hr]|done|cbn [cur_end with_heap]; unfold sizeof_ka; lia..].
  - apply demo_header_ok.
  - apply demo_header_ok.
  - intros str l s Hh Hs Haway Hr. pose proof Hh as (A1 & A2 & A3 & A4). unfold demo_room in *. cbn [CreateString demo_gen].
    unfold demo_string. wp_step. apply wp_get. wp_step. unfold strlen.
    eapply wp_lift; [apply (tstrlen_loop_spec l); [done|lia|lia|lia]|]. rewrite Z.add_0_l, u32_small by lia. wp_step.
    apply wp_malloc; [done|lia|lia|]. wp_step. apply wp_modify. wp_step. cbn [ram cur_end with_ram with_heap].
    destruct (copied_line (ram s) str (cur_end s + 24) l Hs) as [C1 C2]; [lia|].
    split_and!; [destruct (bumped (24 + (Z.of_nat (length l) + 1)) s Hh) as []; [lia|done|by split]| |done|lia|exact C1].
    intros a Ha. cbn [ram cur_end with_ram with_heap] in *. apply C2. lia.
  - done.
  - intros l. unfold demo_room. lia.
  - intros m m' p l Hs Hm. unfold demo_is_string, demo_room in *. eapply cstring_agree; [|exact Hs].
    intros a Ha. symmetry. apply Hm. lia.
Qed.

(** ** A machine *)
Definition boot_line : list Z := cstr "debug,kernel=tysos".
Definition boot_header : list Z :=
  le_bytes 4 0x68 ++ le_bytes 4 0x280 ++ le_bytes 4 0x7c00 ++ le_bytes 4 0 ++ le_bytes 4 0xa300 ++
  le_bytes 4 1 ++ le_bytes 4 0xa000 ++ le_bytes 4 1 ++ le_bytes 4 40 ++ le_bytes 4 0xa100 ++
  le_bytes 4 0 ++ le_bytes 4 72 ++ le_bytes 4 0xa200.
Definition boot_mem : mem := Eval vm_compute in
  put_bytes (put_bytes (put_bytes (put_bytes (put_bytes (put_bytes (put_bytes exec_mem 0x9000 boot_header)
    0xa000 (le_bytes 4 demo_K ++ le_bytes 4 (demo_K + demo_len) ++ le_bytes 4 0xa500 ++ le_bytes 4 0))
    0xa100 (replicate 12 0 ++ le_bytes 4 0x100000 ++ le_bytes 4 0 ++ le_bytes 4 0x5000))
    0xa200 (demo_entries ≫= demo_entry))
    0xa300 (boot_line ++ [0]))
    0xa400 (cstr "kernel" ++ [0] ++ cstr "debug" ++ [0]))
    0xa500 (cstr "tysos" ++ [0]).
Definition boot_tload : tload := TLoadState ∅ 0 0 ∅ 0 0 0 console0 boot_mem.
Definition boot_state : kst := Kst (Loader boot_tload 0 0 0 0 0 0 0 0 0 0 0 0 0) (CmdVars 0 0).
(** The BIOS data area is shown inside the loader, as in the linker script. *)
Definition boot_symbols : symbols :=
  Symbols 0x100000 0x106000 0x104000 0x102000 0x101000 0x102000 0xa400 0xa407 0x20000 0x20008 0xa400.
Definition boot_names (i : Z) : list Z := cstr "tysos".
Definition boot_spare : nat := Z.to_nat 19000.

#[local] Opaque exec_mem.

Lemma boot_mem_image a : in_image demo_K demo_len a → rd8 boot_mem a = rd8 exec_mem a.
Proof.
  unfold in_image, demo_K, demo_len. intros Ha.
  assert (forallb (λ b, rd8 boot_mem b =? rd8 exec_mem b) (seqZ 0x10000 528) = true) as E by (vm_compute; reflexivity).
  apply Z.eqb_eq, (forallb_elem _ _ a E), elem_of_seqZ. lia.
Qed.

Lemma boot_exec : exec_image boot_mem demo_K demo_len.
Proof. exact (same_image demo_K demo_len exec_mem boot_mem boot_mem_image demo_exec). Qed.
Lemma boot_fuel : enough_fuel boot_mem demo_K 2000.
Proof.
  apply (same_fuel demo_K demo_len exec_mem boot_mem boot_mem_image demo_exec).
  destruct demo_fuel as (F1 & F2 & F3). split_and!; [lia|intros Hy; specialize (F2 Hy); lia|].
  intros i Hi. specialize (F3 i Hi). lia.
Qed.

(** The frames the boot loader has reserved. *)
Definition boot_ranges_of (x : tload) : Prop :=
  reserved 0x9000 0x100000 0x106000 x = [(0, 0x100000); (0x10000, 528); (0x100000, 0x5000); (0x100000, 0x6000)].

Lemma boot_reserved : boot_ranges_of (mem_of boot_state).
Proof. unfold boot_ranges_of. vm_compute. reflexivity. Qed.

Section machine.
Context (s : kst).
Hypothesis Hres : boot_ranges_of (mem_of s).

(** The first megabyte is kept. *)
Lemma boot_low a : 0 <= a < 0x100000 → kept boot_symbols 0x9000 demo_entries s a.
Proof.
  intros Ha. left. exists (0, 0x100000). split.
  - cbn [tload_start tload_end boot_symbols]. rewrite Hres. by apply elem_of_cons; left.
  - unfold in_pages. cbn [fst snd]. dlia.
Qed.

Lemma boot_free x : 0x106 <= x < 0x8000 → ¬ occupied 0x9000 0x100000 0x106000 demo_entries (mem_of s) x.
Proof.
  intros Hx [(r & Hr & H1 & H2)|Hs].
  - rewrite Hres in Hr. repeat (apply elem_of_cons in Hr as [->|Hr]; [cbn in *; dlia|]).
    by apply not_elem_of_nil in Hr.
  - unfold mmap_status, status, marked in Hs. cbn -[used in_pages Z.eqb] in Hs. revert Hs.
    repeat case_bool_decide; try done; unfold in_pages in *; try dlia.
Qed.

Lemma boot_string a l : cstring (ram (mem_of s)) a l → 0 <= a → a + Z.of_nat (length l) < 0x100000 →
  kept_string boot_symbols 0x9000 demo_entries s a l.
Proof. intros Hl H0 H1. split; [exact Hl|]. intros b Hb. apply boot_low. lia. Qed.

Lemma boot_heap t : t = 0x200000 → heap_fits 0x9000 0x100000 0x106000 demo_entries (mem_of s) t.
Proof.
  intros ->. split_and!; [lia|lia|done|]. intros j Hj Hl. unfold HEAP_SIZE in Hl.
  apply boot_free. rewrite u32_small by lia. dlia.
Qed.

Lemma boot_frames n : (n <= Z.to_nat 0x7e00)%nat → ∃ l, NoDup l ∧ (n <= length l)%nat ∧
  ∀ x, x ∈ l → 0 <= x < 0x100000 ∧ ¬ occupied 0x9000 0x100000 0x106000 demo_entries (mem_of s) x.
Proof.
  intros Hn. exists (seqZ 0x106 0x7e00). split_and!; [apply NoDup_seqZ|by rewrite length_seqZ|].
  intros x Hx. apply elem_of_seqZ in Hx. split; [lia|]. apply boot_free. lia.
Qed.
End machine.

(** A header with the map [demo_entries]. *)
Ltac boot_info_tac s x m Hres :=
  split;
  [ by vm_compute
  | repeat (apply (mmap_entry m); [by vm_compute|]); apply (mmap_end m); by vm_compute
  | split_and!; apply Nat.ltb_lt; by vm_compute
  | rewrite (Hres : boot_ranges_of x); repeat constructor; cbn; lia
  | split_and!; reflexivity
  | right; vm_compute; reflexivity
  | exists 0x200000; by apply (boot_heap s Hres)
  | apply Z.leb_le; by vm_compute
  | repeat constructor; vm_compute; discriminate || reflexivity ].

Lemma boot_ranges : loader_ranges boot_symbols 0x9000 boot_state = [(0x100000, 0x105000); (0x100000, 0x106000)].
Proof. vm_compute. reflexivity. Qed.

Lemma boot_page_count : boot_pages boot_symbols 0x9000 boot_state demo_K = 1808%nat.
Proof.
  unfold boot_pages. rewrite boot_ranges. change (ram (mem_of boot_state)) with boot_mem.
  rewrite (same_pages demo_K demo_len exec_mem boot_mem boot_mem_image demo_exec), demo_pages. reflexivity.
Qed.

Lemma boot_boot_info :
  boot_info 0x9000 0x100000 0x106000 demo_entries boot_tload 2000 (1 + (1 + 4 * 1808 + boot_spare)).
Proof. boot_info_tac boot_state boot_tload boot_mem boot_reserved. Qed.

Lemma boot_bytes v c : loaded_bytes demo_K boot_mem (phnum demo_K boot_mem) v c → 0x40000 <= v / 4096 < 0x40010.
Proof.
  intros Hb. apply (same_loaded demo_K demo_len exec_mem boot_mem boot_mem_image demo_exec) in Hb.
  destruct Hb as (i & Hi & _ & j & Hj & -> & _). assert (phnum demo_K exec_mem = 2) as E by by vm_compute.
  rewrite E in Hi. revert Hj. assert (p_vaddr (phdr demo_K exec_mem 0) exec_mem = 0x40000010 ∧
    p_memsz (phdr demo_K exec_mem 0) exec_mem = 8 ∧ p_vaddr (phdr demo_K exec_mem 1) exec_mem = 0x40000ff8 ∧
    p_memsz (phdr demo_K exec_mem 1) exec_mem = 0x20) as (A1 & A2 & A3 & A4) by (vm_compute; split_and!; reflexivity).
  assert (i = 0 ∨ i = 1) as [-> | ->] by lia; rewrite ?A1, ?A2, ?A3, ?A4; dlia.
Qed.

Lemma boot_bootable :
  bootable 2000 boot_symbols 0x9000 demo_entries boot_state boot_line boot_names demo_K demo_len boot_spare.
Proof.
  split; rewrite ?boot_page_count; change (ram (mem_of boot_state)) with boot_mem; change (mem_of boot_state) with boot_tload;
    cbn [tload_start tload_end bda_addr tysos_heap_start tysos_heap_end boot_symbols].
  - exact boot_boot_info.
  - intros b Hb. apply (boot_low _ boot_reserved). lia.
  - split; [|apply Nat.ltb_lt; by vm_compute]. replace (mb_cmdline 0x9000 boot_mem) with 0xa300 by by vm_compute.
    apply (boot_string _ boot_reserved); [repeat constructor; by vm_compute|lia|by vm_compute].
  - split_and!; (apply (boot_string _ boot_reserved); [repeat constructor; by vm_compute|done|by vm_compute]).
  - done.
  - split; [by vm_compute|]. intros i Hi. change (ram (mem_of boot_state)) with boot_mem in *.
    assert (mods_count 0x9000 boot_mem = 1) as E by by vm_compute. rewrite E in Hi. assert (i = 0) as -> by lia.
    replace (module_at 0x9000 boot_mem 0) with 0xa000 by by vm_compute.
    replace (mod_string 0xa000 boot_mem) with 0xa500 by by vm_compute. split_and!; [|done|].
    + intros b Hb. apply (boot_low _ boot_reserved). lia.
    + apply (boot_string _ boot_reserved); [repeat constructor; by vm_compute|lia|by vm_compute].
  - by vm_compute.
  - split_and!; [exact boot_exec| |exact boot_fuel]. intros b Hb. apply (boot_low _ boot_reserved). unfold demo_K, demo_len in Hb. lia.
  - split; by vm_compute.
  - intros i Hi. assert (elf_num 0x9000 boot_mem = 1) as E by by vm_compute. rewrite E in Hi. assert (i = 0) as -> by lia.
    replace (section_at 0x9000 boot_mem 0) with 0xa100 by by vm_compute. intros b Hb. apply (boot_low _ boot_reserved). lia.
  - rewrite boot_ranges. split; [|apply Nat.ltb_lt; by vm_compute]. unfold range_fits.
    repeat (apply Forall_cons; split); [..|by apply Forall_nil]; (split_and!; [done|done|done|apply Nat.ltb_lt; by vm_compute]).
  - apply (boot_frames boot_state boot_reserved). apply Nat.leb_le. by vm_compute.
  - exists 0x200000. split; [by apply (boot_heap boot_state boot_reserved)|]. intros v c Hv.
    change (ram (mem_of boot_state)) with boot_mem in Hv. apply boot_bytes in Hv. rewrite boot_ranges.
    cbn [bda_addr boot_symbols]. split_and!; [unfold HEAP_SIZE, pageof; dlia| |dlia|lia].
    intros (r & Hr & H1 & H2). repeat (apply elem_of_cons in Hr as [->|Hr]; [cbn in *; lia|]). by apply not_elem_of_nil in Hr.
  - done.
  - done.
Qed.

Lemma kmain_boots_witness :
  wp (kmain 2000 boot_symbols demo_gen 1 (λ _ _ _ _, mret 0) MB_ID 0x9000)
     (booted boot_symbols 0x9000 demo_entries boot_state boot_line boot_names demo_K demo_len demo_is_string) boot_state.
Proof.
  apply (kmain_boots 2000 boot_symbols demo_gen 1 (λ _ _ _ _, mret 0) 0x9000 demo_entries boot_state boot_line boot_names
    demo_K demo_len boot_spare sizeof_ka demo_room demo_is_string).
  - exact boot_bootable.
  - exact demo_laws.
  - apply Z.leb_le. by vm_compute.
  - reflexivity.
Defined.

(** ** The same machine without the kernel *)
(** The module is called "Xysos". *)
Definition lost_mem : mem := Eval vm_compute in wr8 boot_mem 0xa500 88.
Definition lost_tload : tload := TLoadState ∅ 0 0 ∅ 0 0 0 console0 lost_mem.
Definition lost_state : kst := Kst (Loader lost_tload 0 0 0 0 0 0 0 0 0 0 0 0 0) (CmdVars 0 0).
Definition lost_names (i : Z) : list Z := cstr "Xysos".

Lemma lost_reserved : boot_ranges_of (mem_of lost_state).
Proof. unfold boot_ranges_of. vm_compute. reflexivity. Qed.

Lemma lost_boot_info : boot_info 0x9000 0x100000 0x106000 demo_entries lost_tload 2000 1.
Proof. boot_info_tac lost_state lost_tload lost_mem lost_reserved. Qed.

Lemma lost_provided : provided 2000 boot_symbols 0x9000 demo_entries lost_state boot_line lost_names 0 0.
Proof.
  split; change (ram (mem_of lost_state)) with lost_mem; change (mem_of lost_state) with lost_tload;
    cbn [tload_start tload_end boot_symbols].
  - exact lost_boot_info.
  - intros b Hb. apply (boot_low _ lost_reserved). lia.
  - split; [|apply Nat.ltb_lt; by vm_compute]. replace (mb_cmdline 0x9000 lost_mem) with 0xa300 by by vm_compute.
    apply (boot_string _ lost_reserved); [repeat constructor; by vm_compute|lia|by vm_compute].
  - split_and!; (apply (boot_string _ lost_reserved); [repeat constructor; by vm_compute|done|by vm_compute]).
  - done.
  - intros _ i Hi. change (ram (mem_of lost_state)) with lost_mem in *.
    assert (mods_count 0x9000 lost_mem = 1) as E by by vm_compute. rewrite E in Hi. assert (i = 0) as -> by lia.
    replace (module_at 0x9000 lost_mem 0) with 0xa000 by by vm_compute.
    replace (mod_string 0xa000 lost_mem) with 0xa500 by by vm_compute. split_and!; [|done|].
    + intros b Hb. apply (boot_low _ lost_reserved). lia.
    + apply (boot_string _ lost_reserved); [repeat constructor; by vm_compute|lia|by vm_compute].
  - apply Nat.ltb_lt. by vm_compute.
  - apply (boot_frames lost_state lost_reserved). apply Nat.leb_le. by vm_compute.
Qed.

Lemma kmain_refuses_witness :
  kmain 2000 boot_symbols demo_gen 0 (λ _ _ _ _, mret 0) MB_ID 0x9000 lost_state =
    Done (Halted, with_mm (with_con (λ c, puts (cstr "Error: 64-bit processor not detected.  Boot cannot continue.")
      (puts (cstr "TLoad starting...") c)) (mem_of lost_state)) lost_state) ∧
  kmain 2000 boot_symbols demo_gen 1 (λ _ _ _ _, mret 0) 7 0x9000 lost_state =
    Done (Stopped (-1), with_mm (with_con (λ c, puts (cstr "Invalid multiboot magic number") (puts (cstr "TLoad starting...") c)) (mem_of lost_state)) lost_state) ∧
  wp (kmain 2000 boot_symbols demo_gen 1 (λ _ _ _ _, mret 0) MB_ID 0x9000) (λ r s', r = Stopped (-1) ∧
    (∃ c, con (mem_of s') = puts (cstr "Error: could not find kernel module") c) ∧
    ∀ a, kept boot_symbols 0x9000 demo_entries lost_state a →
      tload_used (mem_of s') a ∧ rd8 (ram (mem_of s')) a = rd8 (ram (mem_of lost_state)) a) lost_state.
Proof.
  split; [|split].
  - exact (proj1 (kmain_refuses 2000 boot_symbols demo_gen 0 (λ _ _ _ _, mret 0) MB_ID 0x9000 demo_entries lost_state boot_line lost_names 0 0) eq_refl).
  - refine (proj1 (proj2 (kmain_refuses 2000 boot_symbols demo_gen 1 (λ _ _ _ _, mret 0) 7 0x9000 demo_entries lost_state boot_line lost_names 0 0)) eq_refl _).
    unfold MB_ID. lia.
  - refine (proj2 (proj2 (kmain_refuses 2000 boot_symbols demo_gen 1 (λ _ _ _ _, mret 0) MB_ID 0x9000 demo_entries lost_state boot_line lost_names 0 0)) eq_refl eq_refl _ _).
    + exact lost_provided.
    + right. intros i _. vm_compute. discriminate.
Defined.
