(* ===== verification/UDivMod.v ===== *)
(** * 64-bit division for the 32-bit GRUB loader

    src/grub-loader/udivmoddi4.c, udivdi3.c and umoddi3.c: the shift-and-subtract
    division on two 32-bit words.  The words of a [udwords] union are named
    by the macro [_YUGA_LITTLE_ENDIAN]; the model takes its value as the
    parameter [le], on a machine that stores the low word first. *)

From stdpp Require Import base numbers list.
From Stdlib Require Import Lia.
From S2P Require Import Prelude.
Open Scope Z_scope.

(** union udwords: the two words in the order the fields are declared. *)
Record udwords := Words { s_high : Z; s_low : Z }.

Definition n_uword_bits : Z := 32.
Definition n_udword_bits : Z := 64.

(** [__builtin_clz] and [__builtin_ctz] on non-zero 32-bit words. *)
Definition clz (x : Z) : Z := 31 - Z.log2 x.
Fixpoint pos_ctz (p : positive) : Z :=
  match p with
  | xO p => 1 + pos_ctz p
  | _ => 0
  end.
Definition ctz (x : Z) : Z := match x with Zpos p => pos_ctz p | _ => 0 end.

(** The fields overlay the 64-bit value: with [le] the first field is the low
    word and is called [low], without it it is called [high]. *)
Definition all (le : bool) (w : udwords) : Z :=
  if le then s_high w * 2 ^ 32 + s_low w else s_low w * 2 ^ 32 + s_high w.
Definition split (le : bool) (x : Z) : udwords :=
  if le then Words (x / 2 ^ 32) (x mod 2 ^ 32) else Words (x mod 2 ^ 32) (x / 2 ^ 32).

(** One iteration on the 128-bit register r:q. *)
Definition shift_subtract (le : bool) (d : Z) (q r : udwords) (carry : Z)
    : udwords * udwords * Z :=
  let r_high := Z.lor (u32 (Z.shiftl (s_high r) 1)) (Z.shiftr (s_low r) (n_uword_bits - 1)) in
  let r_low := Z.lor (u32 (Z.shiftl (s_low r) 1)) (Z.shiftr (s_high q) (n_uword_bits - 1)) in
  let q_high := Z.lor (u32 (Z.shiftl (s_high q) 1)) (Z.shiftr (s_low q) (n_uword_bits - 1)) in
  let q_low := Z.lor (u32 (Z.shiftl (s_low q) 1)) carry in
  let r_all := all le (Words r_high r_low) in
  let s := Z.shiftr (s64 (d - r_all - 1)) (n_udword_bits - 1) in
  (Words q_high q_low, split le (u64 (r_all - u64 (Z.land d s))), Z.land s 1).

Fixpoint divide_loop (sr : nat) (le : bool) (d : Z) (q r : udwords) (carry : Z)
    : udwords * udwords * Z :=
  match sr with
  | O => (q, r, carry)
  | S sr =>
      let '(q, r, carry) := shift_subtract le d q r carry in
      divide_loop sr le d q r carry
  end.

(** The common tail: [sr] iterations, then the last quotient bit. *)
Definition divide_tail (le : bool) (d sr : Z) (q r : udwords) : Z * Z :=
  let '(q, r, carry) := divide_loop (Z.to_nat sr) le d q r 0 in
  (Z.lor (u64 (Z.shiftl (all le q) 1)) carry, all le r).

(** The settings of q and r for 1 <= sr <= n_uword_bits - 1. *)
Definition q_short (n : udwords) (sr : Z) : udwords :=
  Words (u32 (Z.shiftl (s_low n) (n_uword_bits - sr))) 0.
Definition r_short (n : udwords) (sr : Z) : udwords :=
  Words (Z.shiftr (s_high n) sr)
    (Z.lor (u32 (Z.shiftl (s_high n) (n_uword_bits - sr))) (Z.shiftr (s_low n) sr)).

(** Returns the quotient and the value stored through [rem]. *)
Definition __udivmoddi4 (le : bool) (a b : Z) : outcome (Z * Z) :=
  let n := split le a in
  let d := split le b in
  if s_high n =? 0 then
    if s_high d =? 0 then
      if s_low d =? 0 then Undef
      else Done (s_low n / s_low d, s_low n mod s_low d)
    else Done (0, s_low n)
  else if s_low d =? 0 then
    if s_high d =? 0 then Undef
    else if s_low n =? 0 then
      Done (s_high n / s_high d, all le (Words (s_high n mod s_high d) 0))
    else if Z.land (s_high d) (s_high d - 1) =? 0 then
      Done (Z.shiftr (s_high n) (ctz (s_high d)),
            all le (Words (Z.land (s_high n) (s_high d - 1)) (s_low n)))
    else
      let sr := u32 (clz (s_high d) - clz (s_high n)) in
      if n_uword_bits - 2 <? sr then Done (0, a)
      else let sr := sr + 1 in
           Done (divide_tail le b sr (q_short n sr) (r_short n sr))
  else if s_high d =? 0 then
    if Z.land (s_low d) (s_low d - 1) =? 0 then
      let rem := Z.land (s_low n) (s_low d - 1) in
      if s_low d =? 1 then Done (a, rem)
      else let sr := ctz (s_low d) in Done (all le (r_short n sr), rem)
    else
      let sr := u32 (1 + n_uword_bits + clz (s_low d) - clz (s_high n)) in
      Done (if sr =? n_uword_bits then
              divide_tail le b sr (Words (s_low n) 0) (Words 0 (s_high n))
            else if sr <? n_uword_bits then
              divide_tail le b sr (q_short n sr) (r_short n sr)
            else
              divide_tail le b sr
                (Words (Z.lor (u32 (Z.shiftl (s_high n) (n_udword_bits - sr)))
                              (Z.shiftr (s_low n) (sr - n_uword_bits)))
                       (u32 (Z.shiftl (s_low n) (n_udword_bits - sr))))
                (Words 0 (Z.shiftr (s_high n) (sr - n_uword_bits))))
  else
    let sr := u32 (clz (s_high d) - clz (s_high n)) in
    if n_uword_bits - 1 <? sr then Done (0, a)
    else
      let sr := sr + 1 in
      Done (if sr =? n_uword_bits then
              divide_tail le b sr (Words (s_low n) 0) (Words 0 (s_high n))
            else divide_tail le b sr (q_short n sr) (r_short n sr)).

Definition __udivdi3 (le : bool) (a b : Z) : outcome Z :=
  obind (__udivmoddi4 le a b) (λ p, Done p.1).
Definition __umoddi3 (le : bool) (a b : Z) : outcome Z :=
  obind (__udivmoddi4 le a b) (λ p, Done p.2).

Definition word (x : Z) : Prop := 0 <= x < 2 ^ 32.

(** ** Bits and words *)
Lemma lor_add a b n : 0 <= n → a mod 2 ^ n = 0 → 0 <= b < 2 ^ n → Z.lor a b = a + b.
Proof.
  intros Hn Ha Hb. rewrite (Z.div_mod a (2 ^ n)) by lia. rewrite Ha, Z.add_0_r.
  rewrite Z.mul_comm, <- Z.shiftl_mul_pow2, lor_shiftl_small by done.
  by rewrite Z.shiftl_mul_pow2.
Qed.

Lemma ctz_pow2 x : 0 < x → Z.land x (x - 1) = 0 → 0 <= ctz x ∧ x = 2 ^ ctz x.
Proof.
  destruct x as [|p|]; [done| |done]. intros _. simpl ctz.
  induction p as [p IH|p IH|]; intros H; cbn [pos_ctz].
  - exfalso. assert (Z.land (Z.pos p~1) (Z.pos p~1 - 1) = Z.pos p~0) as E; [|by rewrite E in H].
    apply Z.bits_inj'. intros i Hi. rewrite Z.land_spec.
    replace (Z.pos p~1 - 1) with (2 * Z.pos p) by lia.
    replace (Z.pos p~1) with (2 * Z.pos p + 1) by lia.
    replace (Z.pos p~0) with (2 * Z.pos p) by lia.
    destruct (decide (i = 0)) as [->|]; [by rewrite Z.testbit_even_0, andb_false_r|].
    replace i with (Z.succ (i - 1)) by lia.
    rewrite Z.testbit_odd_succ, Z.testbit_even_succ by lia. apply andb_diag.
  - destruct IH as [H0 E].
    + assert (Z.land (Z.pos p~0) (Z.pos p~0 - 1) = 2 * Z.land (Z.pos p) (Z.pos p - 1)) as E;
        [|lia].
      apply Z.bits_inj'. intros i Hi. rewrite Z.land_spec.
      replace (Z.pos p~0 - 1) with (2 * (Z.pos p - 1) + 1) by lia.
      replace (Z.pos p~0) with (2 * Z.pos p) by lia.
      destruct (decide (i = 0)) as [->|]; [by rewrite !Z.testbit_even_0|].
      replace i with (Z.succ (i - 1)) by lia.
      rewrite Z.testbit_odd_succ, !Z.testbit_even_succ, Z.land_spec by lia. done.
    + split; [lia|]. rewrite Z.add_comm, Z.pow_add_r by lia. lia.
  - split; [lia|done].
Qed.

Lemma split_le x :
  0 <= x < 2 ^ 64 →
  word (s_high (split true x)) ∧ word (s_low (split true x)) ∧
  x = s_high (split true x) * 2 ^ 32 + s_low (split true x).
Proof. intros Hx. unfold word, split. simpl. dlia. Qed.

(** Shifting a double word right by less than a word. *)
Lemma short_shift h l sr :
  word h → word l → 0 <= sr <= 32 →
  let N := h * 2 ^ 32 + l in
  u32 (Z.shiftl l (32 - sr)) * 2 ^ 32 = (N mod 2 ^ sr) * 2 ^ (64 - sr) ∧
  Z.shiftr h sr * 2 ^ 32 + Z.lor (u32 (Z.shiftl h (32 - sr))) (Z.shiftr l sr) = N / 2 ^ sr ∧
  word (Z.lor (u32 (Z.shiftl h (32 - sr))) (Z.shiftr l sr)).
Proof.
  intros Hh Hl Hs N. unfold word in *. rewrite !Z.shiftl_mul_pow2, !Z.shiftr_div_pow2 by lia.
  assert (2 ^ sr * 2 ^ (32 - sr) = 2 ^ 32) as E by (rewrite <- Z.pow_add_r by lia; f_equal; lia).
  assert (2 ^ (64 - sr) = 2 ^ (32 - sr) * 2 ^ 32) as E2
    by (rewrite <- Z.pow_add_r by lia; f_equal; lia).
  set (P := 2 ^ sr) in *. set (Q := 2 ^ (32 - sr)) in *.
  assert (0 < P) by (apply Z.pow_pos_nonneg; lia).
  assert (0 < Q) by (apply Z.pow_pos_nonneg; lia).
  unfold u32. change 4294967296 with (2 ^ 32). rewrite <- E.
  rewrite !Zmult_mod_distr_r. unfold N. rewrite <- E.
  assert (0 <= l / P < Q) as Hq.
  { split; [apply Z.div_pos; lia|]. apply Z.div_lt_upper_bound; [lia|]. lia. }
  pose proof (Z.mod_pos_bound h P ltac:(lia)) as Hm.
  rewrite (lor_add _ _ (32 - sr)); [|lia|apply Z.mod_mul; lia|done].
  split_and!; [| |nia|nia].
  - rewrite E2, <- E. replace (h * (P * Q) + l) with (l + h * Q * P) by lia.
    rewrite Z.mod_add by lia. lia.
  - replace (h * (P * Q) + l) with (l + h * Q * P) by lia.
    rewrite Z.div_add by lia. rewrite (Z.div_mod h P) at 3 by lia. lia.
Qed.

(** ** The loop *)
Definition all_le (w : udwords) : Z := s_high w * 2 ^ 32 + s_low w.
Definition wordy (w : udwords) : Prop := word (s_high w) ∧ word (s_low w).

(** Shifting a word left by one, bringing in [b]. *)
Lemma shl1_word x b : word x → 0 <= b < 2 →
  Z.lor (u32 (Z.shiftl x 1)) b = (2 * x) mod 2 ^ 32 + b.
Proof.
  intros Hx Hb. rewrite (lor_add _ _ 1); [|lia| |done];
    rewrite Z.shiftl_mul_pow2 by lia; unfold u32; dlia.
Qed.

Lemma shl1_words h l b : word h → word l → 0 <= b < 2 →
  Z.lor (u32 (Z.shiftl h 1)) (Z.shiftr l 31) * 2 ^ 32 + Z.lor (u32 (Z.shiftl l 1)) b =
  2 * (h * 2 ^ 32 + l) mod 2 ^ 64 + b.
Proof.
  unfold word. intros Hh Hl Hb. rewrite Z.shiftr_div_pow2 by lia.
  rewrite !shl1_word by (unfold word; dlia). dlia.
Qed.

Lemma sign_mask d r :
  0 <= d → 0 <= r → - 2 ^ 63 <= d - r - 1 < 2 ^ 63 →
  Z.shiftr (s64 (d - r - 1)) 63 = if d <=? r then -1 else 0.
Proof.
  intros Hd Hr Hb. rewrite s64_small by lia. rewrite Z.shiftr_div_pow2 by lia.
  destruct (Z.leb_spec d r); dlia.
Qed.

Lemma subtract_mask d r :
  0 <= d < 2 ^ 64 → 0 <= r < 2 ^ 64 → - 2 ^ 63 <= d - r - 1 < 2 ^ 63 →
  let s := Z.shiftr (s64 (d - r - 1)) 63 in
  u64 (r - u64 (Z.land d s)) = (if d <=? r then r - d else r) ∧
  Z.land s 1 = (if d <=? r then 1 else 0).
Proof.
  intros Hd Hr Hb s. unfold s. rewrite sign_mask by lia.
  destruct (Z.leb_spec d r).
  - rewrite Z.land_m1_r, !u64_small by (rewrite ?u64_small; lia). done.
  - rewrite Z.land_0_r. rewrite (u64_small 0), Z.sub_0_r, u64_small by lia. done.
Qed.

(** The next bit of the dividend. *)
Lemma dividend_bit N s :
  0 <= N → 0 < s →
  let b := (N / 2 ^ (s - 1)) mod 2 in
  N / 2 ^ (s - 1) = 2 * (N / 2 ^ s) + b ∧
  N mod 2 ^ s = b * 2 ^ (s - 1) + N mod 2 ^ (s - 1).
Proof.
  intros HN Hs b. assert (2 ^ s = 2 ^ (s - 1) * 2) as Es
    by (rewrite Z.mul_comm, <- Z.pow_succ_r by lia; f_equal; lia).
  set (P := 2 ^ (s - 1)) in *. assert (0 < P) by (apply Z.pow_pos_nonneg; lia).
  assert (N / P = 2 * (N / 2 ^ s) + b) as E.
  { unfold b. rewrite Es, <- Z.div_div by lia. apply Z.div_mod. lia. }
  split; [exact E|].
  pose proof (Z.div_mod N P ltac:(lia)). pose proof (Z.div_mod N (2 ^ s) ltac:(lia)). nia.
Qed.

(** One step of long division. *)
Lemma long_division_step A d b :
  0 <= A → 0 < d → 0 <= b < 2 →
  let R := 2 * (A mod d) + b in
  (2 * A + b) / d = 2 * (A / d) + (if d <=? R then 1 else 0) ∧
  (2 * A + b) mod d = (if d <=? R then R - d else R).
Proof.
  intros HA Hd Hb R. pose proof (Z.div_mod A d ltac:(lia)).
  pose proof (Z.mod_pos_bound A d ltac:(lia)).
  assert (2 * A + b = d * (2 * (A / d) + (if d <=? R then 1 else 0)) +
                      (if d <=? R then R - d else R)) as E
    by (unfold R; destruct (Z.leb_spec d (2 * (A mod d) + b)); lia).
  assert (0 <= (if d <=? R then R - d else R) < d)
    by (unfold R; destruct (Z.leb_spec d (2 * (A mod d) + b)); lia).
  split; symmetry.
  - eapply Z.div_unique; [left; eassumption|exact E].
  - eapply Z.mod_unique; [left; eassumption|exact E].
Qed.

(** The quotient register: [s] unread bits above the quotient bits found. *)
Definition quotient_reg (N d s : Z) (q : udwords) (c : Z) : Prop :=
  ∃ ql, all_le q = (N mod 2 ^ s) * 2 ^ (64 - s) + ql ∧ 2 * ql + c = N / 2 ^ s / d.

Lemma quotient_reg_shift N d s q c :
  0 <= N < 2 ^ 64 → 0 < d → 0 < s < 64 → wordy q → 0 <= c < 2 → quotient_reg N d s q c →
  let b := (N / 2 ^ (s - 1)) mod 2 in
  Z.shiftr (s_high q) 31 = b ∧
  ∃ ql, 2 * all_le q mod 2 ^ 64 + c = (N mod 2 ^ (s - 1)) * 2 ^ (64 - (s - 1)) + ql ∧
        ql = N / 2 ^ s / d.
Proof.
  intros HN Hd Hs [Hqh Hql] Hc (ql & Eq & Equot) b.
  destruct (dividend_bit N s) as [EA EM]; [lia|lia|]. fold b in EA, EM.
  assert (0 <= b < 2) as Hb by (apply Z.mod_pos_bound; lia).
  assert (2 ^ (64 - (s - 1)) = 2 * 2 ^ (64 - s)) as Es2
    by (rewrite <- Z.pow_succ_r by lia; f_equal; lia).
  assert (2 ^ (s - 1) * 2 ^ (64 - s) = 2 ^ 63) as Es3
    by (rewrite <- Z.pow_add_r by lia; f_equal; lia).
  assert (2 ^ s * 2 ^ (64 - s) = 2 ^ 64) as Es4
    by (rewrite <- Z.pow_add_r by lia; f_equal; lia).
  set (P := 2 ^ (s - 1)) in *. set (Q := 2 ^ (64 - s)) in *.
  assert (0 < P) by (apply Z.pow_pos_nonneg; lia).
  assert (0 < Q) by (apply Z.pow_pos_nonneg; lia).
  assert (0 < 2 ^ s) by (apply Z.pow_pos_nonneg; lia).
  pose proof (Z.mod_pos_bound N P ltac:(lia)) as HMP.
  set (A := N / 2 ^ s) in *.
  assert (0 <= A < Q) as HA.
  { split; [apply Z.div_pos; lia|]. apply Z.div_lt_upper_bound; lia. }
  pose proof (Z.div_pos A d ltac:(lia) ltac:(lia)).
  assert (A / d <= A) by (apply Z.div_le_upper_bound; nia).
  split.
  - rewrite Z.shiftr_div_pow2 by lia.
    assert (all_le q / 2 ^ 63 = b).
    { rewrite Eq, EM. symmetry. apply (Z.div_unique _ _ _ (N mod P * Q + ql)); nia. }
    unfold all_le, word in *. dlia.
  - exists (2 * ql + c). split; [|lia]. rewrite Eq, EM, Es2.
    assert (2 * ((b * P + N mod P) * Q + ql) = (N mod P * (2 * Q) + 2 * ql) + b * 2 ^ 64) as ->
      by (change (2 ^ 64) with (2 * 2 ^ 63); rewrite <- Es3; ring).
    rewrite Z.mod_add, Z.mod_small by nia. lia.
Qed.

(** After the top bits [N / 2 ^ s] of the dividend have been consumed. *)
Record div_inv (N d : Z) (s : Z) (q r : udwords) (c : Z) : Prop := DivInv {
  di_q : wordy q;
  di_r : wordy r;
  di_carry : 0 <= c < 2;
  di_quot : quotient_reg N d s q c;
  di_rem : all_le r = (N / 2 ^ s) mod d
}.

Section loop.
Context (N d : Z).
Hypothesis HN : 0 <= N < 2 ^ 64.
Hypothesis Hd : 0 < d < 2 ^ 64.

(** Neither the shifted remainder nor the comparison overflows. *)
Lemma remainder_range s :
  0 < s → (d < 2 ^ 63 ∨ (s = 1 ∧ 2 ^ 63 <= N)) →
  let R := 2 * ((N / 2 ^ s) mod d) + (N / 2 ^ (s - 1)) mod 2 in
  0 <= R < 2 ^ 64 ∧ - 2 ^ 63 <= d - R - 1 < 2 ^ 63.
Proof.
  intros Hs Hcase R. destruct (dividend_bit N s) as [EA _]; [lia|lia|].
  set (b := (N / 2 ^ (s - 1)) mod 2) in *.
  assert (0 <= b < 2) as Hb by (apply Z.mod_pos_bound; lia).
  assert (0 < 2 ^ (s - 1)) by (apply Z.pow_pos_nonneg; lia).
  assert (0 < 2 ^ s) by (apply Z.pow_pos_nonneg; lia).
  assert (0 <= N / 2 ^ s) by (apply Z.div_pos; lia).
  assert (N / 2 ^ (s - 1) <= N) by (apply Z.div_le_upper_bound; nia).
  pose proof (Z.mod_pos_bound (N / 2 ^ s) d ltac:(lia)).
  assert ((N / 2 ^ s) mod d <= N / 2 ^ s) by (apply Z.mod_le; lia).
  unfold R. split; [lia|].
  destruct (Z.lt_ge_cases d (2 ^ 63)) as [|Hbig]; [lia|].
  destruct Hcase as [|[-> H63]]; [lia|]. change (2 ^ (1 - 1)) with 1 in *.
  rewrite Z.div_1_r in *.
  assert ((N / 2 ^ 1) mod d = N / 2 ^ 1) by (apply Z.mod_small; dlia). lia.
Qed.

Lemma shift_subtract_spec s q r c :
  0 < s < 64 → (d < 2 ^ 63 ∨ (s = 1 ∧ 2 ^ 63 <= N)) → div_inv N d s q r c →
  let '(q', r', c') := shift_subtract true d q r c in div_inv N d (s - 1) q' r' c'.
Proof.
  intros Hs Hcase [[Hqh Hql] [Hrh Hrl] Hc Hquot Erem].
  destruct (quotient_reg_shift N d s q c) as [Etop (ql & Eq' & Eql)];
    [lia|lia|lia|done|done|done|].
  destruct (remainder_range s) as [HR Hrange]; [lia|done|].
  destruct (dividend_bit N s) as [EA _]; [lia|lia|].
  set (b := (N / 2 ^ (s - 1)) mod 2) in *.
  assert (0 <= b < 2) as Hb by (apply Z.mod_pos_bound; lia).
  assert (0 <= N / 2 ^ s) as HA by (apply Z.div_pos; [lia|]; apply Z.pow_pos_nonneg; lia).
  destruct (long_division_step (N / 2 ^ s) d b) as [Ediv Emod]; [done|lia|done|].
  pose proof (Z.mod_pos_bound (2 * (N / 2 ^ s) + b) d ltac:(lia)) as Hmod.
  pose proof (Z.mod_pos_bound (N / 2 ^ s) d ltac:(lia)).
  unfold shift_subtract, n_uword_bits, n_udword_bits. cbn [all split s_high s_low].
  change (32 - 1) with 31. change (64 - 1) with 63. rewrite Etop.
  rewrite (shl1_words (s_high r) (s_low r) b) by done. fold (all_le r). rewrite Erem.
  rewrite (Z.mod_small (2 * _)) by lia.
  destruct (subtract_mask d (2 * ((N / 2 ^ s) mod d) + b)) as [-> ->]; [lia|lia|done|].
  rewrite <- Emod in *. rewrite <- EA in *.
  split.
  - unfold wordy, word in *. cbn [s_high s_low].
    rewrite !shl1_word by (unfold word; rewrite ?Z.shiftr_div_pow2 by lia; dlia).
    rewrite Z.shiftr_div_pow2 by lia. dlia.
  - unfold wordy, word. cbn [s_high s_low]. dlia.
  - destruct (d <=? _); lia.
  - exists ql. split; [|lia]. unfold all_le. cbn [s_high s_low].
    rewrite shl1_words by done. exact Eq'.
  - unfold all_le. cbn [s_high s_low]. dlia.
Qed.

Lemma divide_loop_spec n q r c :
  Z.of_nat n < 64 → (d < 2 ^ 63 ∨ ((n <= 1)%nat ∧ 2 ^ 63 <= N)) →
  div_inv N d (Z.of_nat n) q r c →
  let '(q', r', c') := divide_loop n true d q r c in div_inv N d 0 q' r' c'.
Proof.
  revert q r c. induction n as [|n IH]; intros q r c Hn Hcase Hinv; [done|].
  cbn [divide_loop].
  assert (let '(q', r', c') := shift_subtract true d q r c in
          div_inv N d (Z.of_nat (S n) - 1) q' r' c') as Hstep
    by (apply shift_subtract_spec; [lia|lia|done]).
  destruct (shift_subtract true d q r c) as [[q' r'] c'].
  replace (Z.of_nat (S n) - 1) with (Z.of_nat n) in Hstep by lia.
  apply IH; [lia|lia|done].
Qed.

Lemma divide_tail_spec sr q r :
  0 < sr < 64 → (d < 2 ^ 63 ∨ (sr = 1 ∧ 2 ^ 63 <= N)) → wordy q → wordy r →
  all_le q = (N mod 2 ^ sr) * 2 ^ (64 - sr) → all_le r = N / 2 ^ sr → N / 2 ^ sr < d →
  divide_tail true d sr q r = (N / d, N mod d).
Proof.
  intros Hsr Hcase Hq Hr Eq Er Hlt. unfold divide_tail.
  assert (0 < 2 ^ sr) by (apply Z.pow_pos_nonneg; lia).
  assert (0 <= N / 2 ^ sr) by (apply Z.div_pos; lia).
  assert (div_inv N d (Z.of_nat (Z.to_nat sr)) q r 0) as Hinv.
  { rewrite Z2Nat.id by lia. split; [done|done|lia| |].
    - exists 0. rewrite (Z.div_small (N / 2 ^ sr)) by lia. lia.
    - rewrite Z.mod_small by lia. done. }
  pose proof (divide_loop_spec (Z.to_nat sr) q r 0 ltac:(lia) ltac:(lia) Hinv) as Hend.
  destruct (divide_loop (Z.to_nat sr) true d q r 0) as [[q' r'] c'].
  destruct Hend as [Hq' Hr' Hc' (ql & Eq' & Equot) Erem].
  change (2 ^ 0) with 1 in *. rewrite Z.mod_1_r, Z.div_1_r in *.
  change (all true q') with (all_le q'). change (all true r') with (all_le r').
  assert (0 <= N / d <= N)
    by (split; [apply Z.div_pos; lia|apply Z.div_le_upper_bound; nia]).
  rewrite Erem, Eq', Z.mul_0_l, Z.add_0_l, Z.shiftl_mul_pow2 by lia.
  rewrite u64_small by lia. rewrite (lor_add _ _ 1); [f_equal; lia|lia| |lia].
  apply Z.mod_mul. lia.
Qed.
End loop.

(** ** The choice of the shift *)
Lemma log2_word x : 0 < x → word x → 0 <= Z.log2 x <= 31 ∧ 2 ^ Z.log2 x <= x < 2 ^ (Z.log2 x + 1).
Proof.
  intros H0 Hx. split.
  - split; [apply Z.log2_nonneg|]. assert (Z.log2 x < 32); [|lia].
    apply Z.log2_lt_pow2; unfold word in *; lia.
  - pose proof (Z.log2_spec x H0). by replace (Z.log2 x + 1) with (Z.succ (Z.log2 x)) by lia.
Qed.

Lemma dividend_top h l : 0 < h → word h → word l → h * 2 ^ 32 + l < 2 ^ (Z.log2 h + 33).
Proof.
  intros H0 Hh Hl. destruct (log2_word h H0 Hh) as [? [_ Hlt]].
  replace (Z.log2 h + 33) with ((Z.log2 h + 1) + 32) by lia.
  rewrite Z.pow_add_r by lia. unfold word in *. lia.
Qed.

Lemma shifted_below N m sr k d :
  N < 2 ^ m → 0 <= sr → 0 <= k → m - sr = k → 2 ^ k <= d → N / 2 ^ sr < d.
Proof.
  intros HN Hs Hk <- Hd. eapply Z.lt_le_trans; [|exact Hd].
  apply Z.div_lt_upper_bound; [apply Z.pow_pos_nonneg; lia|].
  rewrite <- Z.pow_add_r by lia. by replace (sr + (m - sr)) with m by lia.
Qed.

Section cases.
Context (nh nl d : Z).
Hypothesis Hnh : word nh.
Hypothesis Hnl : word nl.
Hypothesis Hnh0 : 0 < nh.
Hypothesis Hd : 0 < d < 2 ^ 64.
Let N := nh * 2 ^ 32 + nl.

Lemma cases_N : 0 <= N < 2 ^ 64.
Proof. unfold N, word in *. lia. Qed.

Lemma divide_short sr :
  0 < sr < 32 → (d < 2 ^ 63 ∨ (sr = 1 ∧ 2 ^ 63 <= N)) → N / 2 ^ sr < d →
  divide_tail true d sr (q_short (Words nh nl) sr) (r_short (Words nh nl) sr) = (N / d, N mod d).
Proof.
  intros Hs Hcase Hlt. pose proof cases_N as HN.
  destruct (short_shift nh nl sr) as (Eq & Er & Hw); [done|done|lia|].
  apply divide_tail_spec; try done; try lia; unfold q_short, r_short, all_le, n_uword_bits;
    cbn [s_high s_low]; try (rewrite ?Z.add_0_r; done).
  - split; cbn [s_high s_low]; unfold word;
      [pose proof (u32_range (Z.shiftl nl (32 - sr)))|]; lia.
  - split; cbn [s_high s_low]; [|done]. rewrite Z.shiftr_div_pow2 by lia.
    assert (0 < 2 ^ sr) by (apply Z.pow_pos_nonneg; lia). unfold word in *.
    split; [apply Z.div_pos; lia|]. apply Z.div_lt_upper_bound; nia.
Qed.

Lemma divide_word :
  d < 2 ^ 63 → N / 2 ^ 32 < d →
  divide_tail true d 32 (Words nl 0) (Words 0 nh) = (N / d, N mod d).
Proof.
  intros Hcase Hlt. pose proof cases_N as HN. unfold word in *.
  apply divide_tail_spec; try lia; unfold wordy, word, all_le; cbn [s_high s_low]; try lia;
    unfold N in *; dlia.
Qed.

Lemma divide_long sr :
  32 < sr < 64 → d < 2 ^ 63 → N / 2 ^ sr < d →
  divide_tail true d sr
    (Words (Z.lor (u32 (Z.shiftl nh (n_udword_bits - sr))) (Z.shiftr nl (sr - n_uword_bits)))
           (u32 (Z.shiftl nl (n_udword_bits - sr))))
    (Words 0 (Z.shiftr nh (sr - n_uword_bits))) = (N / d, N mod d).
Proof.
  intros Hs Hcase Hlt. pose proof cases_N as HN. unfold n_udword_bits, n_uword_bits.
  (* the low 64 bits of [nh:nl:0] shifted right by [sr - 32] *)
  destruct (short_shift nh nl (sr - 32)) as (Eq & Er & Hw); [done|done|lia|].
  replace (32 - (sr - 32)) with (64 - sr) in * by lia.
  replace (64 - (sr - 32)) with (96 - sr) in * by lia.
  assert (0 < 2 ^ (sr - 32)) by (apply Z.pow_pos_nonneg; lia).
  assert (2 ^ sr = 2 ^ (sr - 32) * 2 ^ 32) as Es
    by (rewrite <- Z.pow_add_r by lia; f_equal; lia).
  assert (2 ^ (sr - 32) * 2 ^ (64 - sr) = 2 ^ 32) as Es2
    by (rewrite <- Z.pow_add_r by lia; f_equal; lia).
  assert (2 ^ (96 - sr) = 2 ^ (64 - sr) * 2 ^ 32) as Es3
    by (rewrite <- Z.pow_add_r by lia; f_equal; lia).
  rewrite Z.shiftr_div_pow2 in Er by lia. rewrite (Z.shiftr_div_pow2 nh) by lia.
  assert (0 <= nh / 2 ^ (sr - 32) < 2 ^ 32) as Hh.
  { unfold word in *. split; [apply Z.div_pos; lia|]. apply Z.div_lt_upper_bound; nia. }
  pose proof (u32_range (Z.shiftl nl (64 - sr))).
  apply divide_tail_spec; [done|done|lia|by left| | | | |done]; unfold all_le; cbn [s_high s_low].
  - split; cbn [s_high s_low]; [done|unfold word; lia].
  - split; cbn [s_high s_low]; unfold word; lia.
  - fold N in Eq, Er. set (L := Z.lor _ _) in *. set (P := 2 ^ (sr - 32)) in *.
    set (Q := 2 ^ (64 - sr)) in *. unfold word in *.
    assert (u32 (Z.shiftl nl (64 - sr)) = N mod P * Q) as -> by nia.
    (* N / P = (nh / P) * 2^32 + L *)
    assert (N mod 2 ^ sr = L * P + N mod P) as ->; [|nia].
    rewrite Es. symmetry. apply (Z.mod_unique _ _ (nh / P)).
    + left. pose proof (Z.mod_pos_bound N P). nia.
    + rewrite (Z.div_mod N P) at 1 by lia. rewrite <- Er. nia.
  - rewrite Z.mul_0_l, Z.add_0_l, Es, (Z.mul_comm (2 ^ (sr - 32))), <- Z.div_div by lia.
    f_equal. unfold N, word in *. dlia.
Qed.
End cases.

Lemma clz_diff x y : word x → word y → 0 < x → 0 < y →
  u32 (clz x - clz y) = if Z.log2 x <=? Z.log2 y then Z.log2 y - Z.log2 x
                        else 2 ^ 32 + Z.log2 y - Z.log2 x.
Proof.
  intros Hx Hy Hx0 Hy0. destruct (log2_word x), (log2_word y); [done..|].
  unfold clz, u32. destruct (Z.leb_spec (Z.log2 x) (Z.log2 y)); dlia.
Qed.

(** The dividend is shorter than a divisor with a longer high word. *)
Lemma shorter_dividend nh nl dh dl :
  word nh → word nl → word dl → 0 < nh → Z.log2 nh < Z.log2 dh → 0 < dh → word dh →
  nh * 2 ^ 32 + nl < dh * 2 ^ 32 + dl.
Proof.
  intros Hnh Hnl Hdl H0 Hlog Hdh0 Hdh. destruct (log2_word nh), (log2_word dh); try done.
  assert (2 ^ (Z.log2 nh + 1) <= 2 ^ Z.log2 dh) by (apply Z.pow_le_mono_r; lia).
  unfold word in *. lia.
Qed.

Lemma small_quotient N d : 0 <= N < d → (0, N) = (N / d, N mod d).
Proof. intros H. by rewrite Z.div_small, Z.mod_small. Qed.

(** Divisors with a high word: [sr = log2 nh - log2 dh + 1]. *)
Lemma udivmod_high nh nl dh dl :
  word nh → word nl → word dh → word dl → 0 < nh → 0 < dh → Z.log2 dh <= Z.log2 nh →
  let N := nh * 2 ^ 32 + nl in
  let d := dh * 2 ^ 32 + dl in
  let sr := Z.log2 nh - Z.log2 dh + 1 in
  N / 2 ^ sr < d ∧ (d < 2 ^ 63 ∨ (sr = 1 ∧ 2 ^ 63 <= N)) ∧ 0 < sr <= 32.
Proof.
  intros Hnh Hnl Hdh Hdl Hn0 Hd0 Hlog N d sr.
  destruct (log2_word nh Hn0 Hnh) as [Hln [Hnlo Hnhi]].
  destruct (log2_word dh Hd0 Hdh) as [Hld [Hdlo Hdhi]].
  pose proof (dividend_top nh nl Hn0 Hnh Hnl) as Htop. unfold N, d, word in *.
  split_and!; [| |lia|lia].
  - apply (shifted_below _ _ sr (Z.log2 dh + 32) _ Htop); [lia|lia|lia|].
    rewrite Z.pow_add_r by lia. lia.
  - destruct (decide (Z.log2 dh = 31)) as [E|Hne].
    + right. assert (Z.log2 nh = 31) as E' by lia. rewrite E' in Hnlo. lia.
    + left. assert (2 ^ (Z.log2 dh + 1) <= 2 ^ 31) by (apply Z.pow_le_mono_r; lia). lia.
Qed.

(** The cases of the code, by which words are zero. *)
Section udivmod_cases.
Context (nh nl dh dl : Z).
Hypothesis Hnh : word nh.
Hypothesis Hnl : word nl.
Hypothesis Hdh : word dh.
Hypothesis Hdl : word dl.
Let N := nh * 2 ^ 32 + nl.
Let d := dh * 2 ^ 32 + dl.

Lemma split_N : split true N = Words nh nl.
Proof. unfold split, N, word in *. f_equal; dlia. Qed.
Lemma split_d : split true d = Words dh dl.
Proof. unfold split, d, word in *. f_equal; dlia. Qed.

Ltac unfold_udivmod :=
  unfold __udivmoddi4, n_uword_bits, n_udword_bits; rewrite split_N, split_d;
  cbn [s_high s_low all].

Lemma udivmod_0X : nh = 0 → 0 < d → __udivmoddi4 true N d = Done (N / d, N mod d).
Proof.
  intros E Hd. unfold_udivmod. unfold N, d, word in *. rewrite E in *. simpl (0 =? 0).
  cbn iota. destruct (Z.eqb_spec dh 0) as [E'|].
  - rewrite E'. destruct (Z.eqb_spec dl 0); [lia|done].
  - f_equal. apply small_quotient. lia.
Qed.

Lemma udivmod_KX_K0_pow2 :
  0 < dh → dl = 0 → Z.land dh (dh - 1) = 0 →
  Z.shiftr nh (ctz dh) = N / d ∧ Z.land nh (dh - 1) * 2 ^ 32 + nl = N mod d.
Proof.
  intros Hd0 E Hp. destruct (ctz_pow2 dh) as [Hc0 Hc]; [lia|done|].
  rewrite Z.shiftr_div_pow2, <- Hc by lia.
  replace (dh - 1) with (Z.ones (ctz dh)) by (rewrite Z.ones_equiv; lia).
  rewrite Z.land_ones, <- Hc by lia. pose proof (Z.div_mod nh dh ltac:(lia)).
  pose proof (Z.mod_pos_bound nh dh ltac:(lia)). unfold N, d, word in *. rewrite E, Z.add_0_r.
  split.
  - apply (Z.div_unique _ _ _ (nh mod dh * 2 ^ 32 + nl)); nia.
  - apply (Z.mod_unique _ _ (nh / dh)); nia.
Qed.

(** The shift is large exactly when the quotient is 0. *)
Lemma udivmod_shift (lim : Z) (t : Z * Z) :
  0 < nh → 0 < dh → 30 <= lim <= 31 → (lim = 30 → Z.log2 dh ≠ 0) →
  let sr := u32 (clz dh - clz nh) in
  (sr <= lim → 0 < sr + 1 <= lim + 1 → N / 2 ^ (sr + 1) < d →
     (d < 2 ^ 63 ∨ (sr + 1 = 1 ∧ 2 ^ 63 <= N)) → t = (N / d, N mod d)) →
  (if lim <? sr then Done (0, N) else Done t) = Done (N / d, N mod d).
Proof.
  intros Hn0 Hd0 Hlim Hpow sr Ht. unfold sr in *. clear sr. revert Ht.
  rewrite clz_diff by done.
  destruct (log2_word nh), (log2_word dh); [done..|].
  destruct (Z.leb_spec (Z.log2 dh) (Z.log2 nh)) as [Hle|Hgt]; intros Ht.
  - destruct (Z.ltb_spec lim (Z.log2 nh - Z.log2 dh)); [lia|]. f_equal.
    destruct (udivmod_high nh nl dh dl) as (Hlt & Hc & Hsr); [done..|]. apply Ht; lia || done.
  - destruct (Z.ltb_spec lim (2 ^ 32 + Z.log2 nh - Z.log2 dh)); [|lia]. f_equal.
    apply small_quotient. split; [unfold N, word in *; lia|]. by apply shorter_dividend.
Qed.

Lemma udivmod_KX_K0 :
  0 < nh → 0 < dh → dl = 0 → __udivmoddi4 true N d = Done (N / d, N mod d).
Proof.
  intros Hn0 Hd0 E. unfold_udivmod. destruct (Z.eqb_spec nh 0); [lia|].
  destruct (Z.eqb_spec dl 0); [|done]. destruct (Z.eqb_spec dh 0); [lia|].
  destruct (Z.eqb_spec nl 0) as [E'|];
    [|destruct (Z.eqb_spec (Z.land dh (dh - 1)) 0) as [Hp|Hp]].
  - unfold N, d. rewrite E, E', !Z.add_0_r, Z.div_mul_cancel_r, Zmult_mod_distr_r by lia. done.
  - by destruct udivmod_KX_K0_pow2 as [-> ->].
  - apply (udivmod_shift (32 - 2)); [done|done|lia| |].
    + intros _ Elog. apply Hp. destruct (log2_word dh) as [_ Hb]; [done..|].
      rewrite Elog in Hb. assert (dh = 1) as -> by lia. done.
    + intros Hle Hsr Hlt Hc. apply divide_short; try done; try lia.
      unfold d, word in *. lia.
Qed.

Lemma udivmod_KX_0K_pow2 :
  0 < nh → dh = 0 → 0 < dl → Z.land dl (dl - 1) = 0 →
  Z.land nl (dl - 1) = N mod d ∧ (dl ≠ 1 → all true (r_short (Words nh nl) (ctz dl)) = N / d).
Proof.
  intros Hn0 E Hd0 Hp. destruct (ctz_pow2 dl) as [Hc0 Hc]; [lia|done|].
  assert (ctz dl < 32) as Hc32.
  { apply (Z.pow_lt_mono_r_iff 2); [lia|lia|]. rewrite <- Hc. unfold word in *; lia. }
  unfold d. rewrite E, Z.mul_0_l, Z.add_0_l. split.
  - replace (dl - 1) with (Z.ones (ctz dl)) by (rewrite Z.ones_equiv; lia).
    rewrite Z.land_ones by lia. rewrite Hc at 2.
    unfold N. replace (2 ^ 32) with (2 ^ (32 - ctz dl) * 2 ^ ctz dl)
      by (rewrite <- Z.pow_add_r by lia; f_equal; lia).
    rewrite Z.mul_assoc, Z.add_comm, Z.mod_add; [done|]. apply Z.pow_nonzero; lia.
  - intros _. destruct (short_shift nh nl (ctz dl)) as (_ & Er & _); [done|done|lia|].
    unfold r_short, n_uword_bits. cbn [all s_high s_low]. rewrite Er. by rewrite <- Hc.
Qed.

Lemma udivmod_KX_0K :
  0 < nh → dh = 0 → 0 < dl → __udivmoddi4 true N d = Done (N / d, N mod d).
Proof.
  intros Hn0 E Hd0. unfold_udivmod. destruct (Z.eqb_spec nh 0); [lia|].
  destruct (Z.eqb_spec dl 0); [lia|]. destruct (Z.eqb_spec dh 0); [|done].
  destruct (Z.eqb_spec (Z.land dl (dl - 1)) 0) as [Hp|Hp].
  - destruct udivmod_KX_0K_pow2 as [-> Hq]; [done..|].
    destruct (Z.eqb_spec dl 1) as [E1|Hne1].
    + unfold d at 2. rewrite E, E1. by rewrite Z.div_1_r.
    + f_equal. f_equal. by apply Hq.
  - destruct (log2_word nh Hn0 Hnh) as [Hln _]. destruct (log2_word dl Hd0 Hdl) as [Hld Hb].
    pose proof (dividend_top nh nl Hn0 Hnh Hnl) as Htop.
    assert (Z.log2 dl ≠ 0).
    { intros El. apply Hp. rewrite El in Hb. assert (dl = 1) as -> by lia. done. }
    assert (u32 (1 + 32 + clz dl - clz nh) = 33 + Z.log2 nh - Z.log2 dl) as Esr
      by (unfold clz; rewrite u32_small by lia; lia).
    rewrite Esr. set (sr := 33 + Z.log2 nh - Z.log2 dl).
    assert (d = dl) as Ed by (unfold d; lia).
    assert (N / 2 ^ sr < d) as Hlt.
    { rewrite Ed. apply (shifted_below _ _ sr (Z.log2 dl) _ Htop); lia. }
    unfold word in *. f_equal. destruct (Z.eqb_spec sr 32) as [E32|Hne].
    + rewrite E32 in *. apply divide_word; done || lia.
    + destruct (Z.ltb_spec sr 32).
      * apply divide_short; done || lia.
      * apply divide_long; done || lia.
Qed.

Lemma udivmod_KX_KK :
  0 < nh → 0 < dh → 0 < dl → __udivmoddi4 true N d = Done (N / d, N mod d).
Proof.
  intros Hn0 Hd0 Hl0. unfold_udivmod. destruct (Z.eqb_spec nh 0); [lia|].
  destruct (Z.eqb_spec dl 0); [lia|]. destruct (Z.eqb_spec dh 0); [lia|].
  apply (udivmod_shift (32 - 1)); [done|done|lia|lia|].
  intros Hle Hsr Hlt Hc. assert (0 < d < 2 ^ 64) by (unfold d, word in *; lia).
  destruct (Z.eqb_spec (u32 (clz dh - clz nh) + 1) 32) as [E|Hne].
  - rewrite E in *. apply divide_word; done || lia.
  - apply divide_short; done || lia.
Qed.
End udivmod_cases.

Lemma udivmod_spec a b :
  0 <= a < 2 ^ 64 → 0 < b < 2 ^ 64 → __udivmoddi4 true a b = Done (a / b, a mod b).
Proof.
  intros Ha Hb. destruct (split_le a Ha) as (Hnh & Hnl & Ea).
  destruct (split_le b ltac:(lia)) as (Hdh & Hdl & Eb).
  set (nh := s_high (split true a)) in *. set (nl := s_low (split true a)) in *.
  set (dh := s_high (split true b)) in *. set (dl := s_low (split true b)) in *.
  rewrite Ea, Eb. unfold word in *.
  destruct (decide (nh = 0)); [apply udivmod_0X; unfold word; lia|].
  destruct (decide (dl = 0)); [apply udivmod_KX_K0; unfold word; lia|].
  destruct (decide (dh = 0)); [apply udivmod_KX_0K; unfold word; lia|].
  apply udivmod_KX_KK; unfold word; lia.
Qed.

(** C18. With the union laid out for a little-endian machine, the word-level
    division returns the quotient and remainder of every pair of 64-bit
    values with a non-zero divisor; [__udivdi3] and [__umoddi3] return one
    each. *)
Theorem udivmoddi4_correct a b :
  0 <= a < 2 ^ 64 → 0 < b < 2 ^ 64 →
  __udivmoddi4 true a b = Done (a / b, a mod b) ∧
  __udivdi3 true a b = Done (a / b) ∧ __umoddi3 true a b = Done (a mod b).
Proof.
  intros Ha Hb. unfold __udivdi3, __umoddi3. by rewrite udivmod_spec.
Qed.

Lemma udivmoddi4_correct_witness :
  __udivmoddi4 true 0xfedcba9876543210 0x123456789 =
    Done (0xfedcba9876543210 / 0x123456789, 0xfedcba9876543210 mod 0x123456789) ∧
  __udivdi3 true 0xfedcba9876543210 0x123456789 = Done (0xfedcba9876543210 / 0x123456789) ∧
  __umoddi3 true 0xfedcba9876543210 0x123456789 = Done (0xfedcba9876543210 mod 0x123456789).
Proof. apply (udivmoddi4_correct 0xfedcba9876543210 0x123456789); lia. Defined.

(** C39. The sources never define [_YUGA_LITTLE_ENDIAN], so on x86 the field
    named [high] is the low word: every dividend that is a multiple of 2^32
    then divides to 0 (with its high word as remainder) by every divisor whose
    low word is not 0. *)
Theorem udivmoddi4_without_endian_macro k b :
  0 <= k < 2 ^ 32 → 0 <= b < 2 ^ 64 → b mod 2 ^ 32 ≠ 0 →
  __udivmoddi4 false (k * 2 ^ 32) b = Done (0, k).
Proof.
  intros Hk Hb Hlow. unfold __udivmoddi4, split. cbn [s_high s_low].
  rewrite Z.mod_mul by lia. simpl (0 =? 0). cbn iota.
  destruct (Z.eqb_spec (b mod 2 ^ 32) 0); [done|].
  by rewrite Z.div_mul.
Qed.

Lemma udivmoddi4_without_endian_macro_witness :
  __udivmoddi4 false (6 * 2 ^ 32) 3 = Done (0, 6) ∧ 6 * 2 ^ 32 / 3 = 2 * 2 ^ 32.
Proof. split; [apply (udivmoddi4_without_endian_macro 6 3); [lia|lia|done]|reflexivity]. Defined.
