(* ===== verification/Crc32.v ===== *)
(** * The CRC of GUID partition table headers

    src/tload/mkgpt/crc32.c: the table-driven CRC-32, the bit-at-a-time
    definition it implements, and what the checksum detects. *)

From stdpp Require Import base numbers list.
From Stdlib Require Import Lia.
From S2P Require Import Prelude.
Open Scope Z_scope.

Definition mCrcTable : list Z :=
  [0x00000000; 0x77073096; 0xEE0E612C; 0x990951BA; 0x076DC419; 0x706AF48F;
   0xE963A535; 0x9E6495A3; 0x0EDB8832; 0x79DCB8A4; 0xE0D5E91E; 0x97D2D988;
   0x09B64C2B; 0x7EB17CBD; 0xE7B82D07; 0x90BF1D91; 0x1DB71064; 0x6AB020F2;
   0xF3B97148; 0x84BE41DE; 0x1ADAD47D; 0x6DDDE4EB; 0xF4D4B551; 0x83D385C7;
   0x136C9856; 0x646BA8C0; 0xFD62F97A; 0x8A65C9EC; 0x14015C4F; 0x63066CD9;
   0xFA0F3D63; 0x8D080DF5; 0x3B6E20C8; 0x4C69105E; 0xD56041E4; 0xA2677172;
   0x3C03E4D1; 0x4B04D447; 0xD20D85FD; 0xA50AB56B; 0x35B5A8FA; 0x42B2986C;
   0xDBBBC9D6; 0xACBCF940; 0x32D86CE3; 0x45DF5C75; 0xDCD60DCF; 0xABD13D59;
   0x26D930AC; 0x51DE003A; 0xC8D75180; 0xBFD06116; 0x21B4F4B5; 0x56B3C423;
   0xCFBA9599; 0xB8BDA50F; 0x2802B89E; 0x5F058808; 0xC60CD9B2; 0xB10BE924;
   0x2F6F7C87; 0x58684C11; 0xC1611DAB; 0xB6662D3D; 0x76DC4190; 0x01DB7106;
   0x98D220BC; 0xEFD5102A; 0x71B18589; 0x06B6B51F; 0x9FBFE4A5; 0xE8B8D433;
   0x7807C9A2; 0x0F00F934; 0x9609A88E; 0xE10E9818; 0x7F6A0DBB; 0x086D3D2D;
   0x91646C97; 0xE6635C01; 0x6B6B51F4; 0x1C6C6162; 0x856530D8; 0xF262004E;
   0x6C0695ED; 0x1B01A57B; 0x8208F4C1; 0xF50FC457; 0x65B0D9C6; 0x12B7E950;
   0x8BBEB8EA; 0xFCB9887C; 0x62DD1DDF; 0x15DA2D49; 0x8CD37CF3; 0xFBD44C65;
   0x4DB26158; 0x3AB551CE; 0xA3BC0074; 0xD4BB30E2; 0x4ADFA541; 0x3DD895D7;
   0xA4D1C46D; 0xD3D6F4FB; 0x4369E96A; 0x346ED9FC; 0xAD678846; 0xDA60B8D0;
   0x44042D73; 0x33031DE5; 0xAA0A4C5F; 0xDD0D7CC9; 0x5005713C; 0x270241AA;
   0xBE0B1010; 0xC90C2086; 0x5768B525; 0x206F85B3; 0xB966D409; 0xCE61E49F;
   0x5EDEF90E; 0x29D9C998; 0xB0D09822; 0xC7D7A8B4; 0x59B33D17; 0x2EB40D81;
   0xB7BD5C3B; 0xC0BA6CAD; 0xEDB88320; 0x9ABFB3B6; 0x03B6E20C; 0x74B1D29A;
   0xEAD54739; 0x9DD277AF; 0x04DB2615; 0x73DC1683; 0xE3630B12; 0x94643B84;
   0x0D6D6A3E; 0x7A6A5AA8; 0xE40ECF0B; 0x9309FF9D; 0x0A00AE27; 0x7D079EB1;
   0xF00F9344; 0x8708A3D2; 0x1E01F268; 0x6906C2FE; 0xF762575D; 0x806567CB;
   0x196C3671; 0x6E6B06E7; 0xFED41B76; 0x89D32BE0; 0x10DA7A5A; 0x67DD4ACC;
   0xF9B9DF6F; 0x8EBEEFF9; 0x17B7BE43; 0x60B08ED5; 0xD6D6A3E8; 0xA1D1937E;
   0x38D8C2C4; 0x4FDFF252; 0xD1BB67F1; 0xA6BC5767; 0x3FB506DD; 0x48B2364B;
   0xD80D2BDA; 0xAF0A1B4C; 0x36034AF6; 0x41047A60; 0xDF60EFC3; 0xA867DF55;
   0x316E8EEF; 0x4669BE79; 0xCB61B38C; 0xBC66831A; 0x256FD2A0; 0x5268E236;
   0xCC0C7795; 0xBB0B4703; 0x220216B9; 0x5505262F; 0xC5BA3BBE; 0xB2BD0B28;
   0x2BB45A92; 0x5CB36A04; 0xC2D7FFA7; 0xB5D0CF31; 0x2CD99E8B; 0x5BDEAE1D;
   0x9B64C2B0; 0xEC63F226; 0x756AA39C; 0x026D930A; 0x9C0906A9; 0xEB0E363F;
   0x72076785; 0x05005713; 0x95BF4A82; 0xE2B87A14; 0x7BB12BAE; 0x0CB61B38;
   0x92D28E9B; 0xE5D5BE0D; 0x7CDCEFB7; 0x0BDBDF21; 0x86D3D2D4; 0xF1D4E242;
   0x68DDB3F8; 0x1FDA836E; 0x81BE16CD; 0xF6B9265B; 0x6FB077E1; 0x18B74777;
   0x88085AE6; 0xFF0F6A70; 0x66063BCA; 0x11010B5C; 0x8F659EFF; 0xF862AE69;
   0x616BFFD3; 0x166CCF45; 0xA00AE278; 0xD70DD2EE; 0x4E048354; 0x3903B3C2;
   0xA7672661; 0xD06016F7; 0x4969474D; 0x3E6E77DB; 0xAED16A4A; 0xD9D65ADC;
   0x40DF0B66; 0x37D83BF0; 0xA9BCAE53; 0xDEBB9EC5; 0x47B2CF7F; 0x30B5FFE9;
   0xBDBDF21C; 0xCABAC28A; 0x53B39330; 0x24B4A3A6; 0xBAD03605; 0xCDD70693;
   0x54DE5729; 0x23D967BF; 0xB3667A2E; 0xC4614AB8; 0x5D681B02; 0x2A6F2B94;
   0xB40BBE37; 0xC30C8EA1; 0x5A05DF1B; 0x2D02EF8D].

(** The body of the loop; the index is a byte, so the table access is in range. *)
Definition crc_step (Crc byte : Z) : Z :=
  Z.lxor (Z.shiftr Crc 8) (nth (Z.to_nat (Z.lxor (u8 Crc) byte)) mCrcTable 0).

(** [Data] is the buffer of [DataSize] bytes, [None] the null pointer; the
    result is the return value and what is stored through [CrcOut]. *)
Definition CalculateCrc32 (Data : option (list Z)) (CrcOut : bool) : Z * option Z :=
  match Data with
  | Some data =>
      if (length data =? 0)%nat || negb CrcOut then (-1, None)
      else (0, Some (Z.lxor (foldl crc_step 0xffffffff data) 0xffffffff))
  | None => (-1, None)
  end.

(** ** The definition of the checksum: a shift register with feedback *)
Definition crc_bit (c : Z) : Z :=
  if Z.odd c then Z.lxor (Z.shiftr c 1) 0xEDB88320 else Z.shiftr c 1.
Definition crc_byte (c byte : Z) : Z := Nat.iter 8 crc_bit (Z.lxor c byte).
Definition crc32_ref (data : list Z) : Z :=
  Z.lxor (foldl crc_byte 0xffffffff data) 0xffffffff.

Definition byte_ok (b : Z) : Prop := 0 <= b < 256.
Definition crc_ok (c : Z) : Prop := 0 <= c < 2 ^ 32.

(** ** Linearity *)
Lemma lxor_bound n x y : 0 <= n → 0 <= x < 2 ^ n → 0 <= y < 2 ^ n → 0 <= Z.lxor x y < 2 ^ n.
Proof.
  intros Hn Hx Hy. split; [apply Z.lxor_nonneg; lia|].
  assert (Z.lxor x y = (Z.lxor x y) mod 2 ^ n) as ->; [|apply Z.mod_pos_bound; lia].
  apply Z.bits_inj'. intros i Hi. destruct (Z.ltb_spec i n).
  - by rewrite Z.mod_pow2_bits_low by lia.
  - rewrite Z.mod_pow2_bits_high, Z.lxor_spec, !(testbit_high _ n) by lia. done.
Qed.

Lemma crc_bit_lxor x y : crc_bit (Z.lxor x y) = Z.lxor (crc_bit x) (crc_bit y).
Proof.
  unfold crc_bit. rewrite <- !Z.bit0_odd, Z.lxor_spec, Z.shiftr_lxor.
  destruct (Z.testbit x 0), (Z.testbit y 0); cbn [xorb]; apply Z.bits_inj'; intros i Hi;
    rewrite !Z.lxor_spec; by destruct (Z.testbit (Z.shiftr x 1) i),
      (Z.testbit (Z.shiftr y 1) i), (Z.testbit 0xEDB88320 i).
Qed.

Lemma crc_bits_lxor n x y :
  Nat.iter n crc_bit (Z.lxor x y) = Z.lxor (Nat.iter n crc_bit x) (Nat.iter n crc_bit y).
Proof. induction n as [|n IH]; simpl; [done|]. by rewrite IH, crc_bit_lxor. Qed.

Lemma crc_bit_ok c : crc_ok c → crc_ok (crc_bit c).
Proof.
  unfold crc_ok, crc_bit. intros Hc. rewrite Z.shiftr_div_pow2 by lia.
  destruct (Z.odd c); [apply lxor_bound|]; dlia.
Qed.

Lemma crc_bits_ok n c : crc_ok c → crc_ok (Nat.iter n crc_bit c).
Proof. intros Hc. induction n; simpl; auto using crc_bit_ok. Qed.

(** Bits shifted in from above pass through unchanged. *)
Lemma crc_bits_shiftl n y : Nat.iter n crc_bit (Z.shiftl y (Z.of_nat n)) = y.
Proof.
  induction n as [|n IH]; [apply Z.shiftl_0_r|].
  rewrite Nat.iter_succ_r. unfold crc_bit at 2. rewrite <- Z.bit0_odd.
  rewrite Z.shiftl_spec_low by lia. rewrite Z.shiftr_shiftl_l by lia.
  replace (Z.of_nat (S n) - 1) with (Z.of_nat n) by lia. exact IH.
Qed.

Lemma crc_bits_shiftl8 y : Nat.iter 8 crc_bit (Z.shiftl y 8) = y.
Proof. exact (crc_bits_shiftl 8 y). Qed.

(** A step can be undone: the top bit tells whether the feedback was added. *)
Lemma crc_bit_inj x y : crc_ok x → crc_ok y → crc_bit x = crc_bit y → x = y.
Proof.
  unfold crc_ok. intros Hx Hy E.
  assert (∀ c, 0 <= c < 2 ^ 32 → Z.testbit (crc_bit c) 31 = Z.odd c) as Htop.
  { intros c Hc. unfold crc_bit. rewrite Z.shiftr_div_pow2 by lia.
    destruct (Z.odd c); [rewrite Z.lxor_spec|]; rewrite (testbit_high (c / 2 ^ 1) 31) by dlia; done. }
  assert (Z.odd x = Z.odd y) as Eo by (rewrite <- !Htop by done; by rewrite E).
  assert (Z.shiftr x 1 = Z.shiftr y 1) as Es.
  { unfold crc_bit in E. rewrite Eo in E. destruct (Z.odd y); [|done].
    apply (f_equal (λ z, Z.lxor z 0xEDB88320)) in E.
    by rewrite !Z.lxor_assoc, Z.lxor_nilpotent, !Z.lxor_0_r in E. }
  rewrite !Z.shiftr_div_pow2 in Es by lia.
  assert (x mod 2 = y mod 2) by (rewrite !Zmod_odd; by rewrite Eo). dlia.
Qed.

Lemma crc_bits_inj n x y :
  crc_ok x → crc_ok y → Nat.iter n crc_bit x = Nat.iter n crc_bit y → x = y.
Proof.
  intros Hx Hy. induction n as [|n IH]; simpl; [done|]. intros E.
  apply crc_bit_inj in E; auto using crc_bits_ok.
Qed.

(** ** The table *)
Lemma table_spec i : byte_ok i → nth (Z.to_nat i) mCrcTable 0 = Nat.iter 8 crc_bit i.
Proof.
  intros Hi. assert (forallb (λ k, nth k mCrcTable 0 =? Nat.iter 8 crc_bit (Z.of_nat k))
    (seq 0 256) = true) as H by by vm_compute.
  rewrite forallb_forall in H. specialize (H (Z.to_nat i)).
  rewrite Z2Nat.id in H by (unfold byte_ok in Hi; lia). apply Z.eqb_eq, H.
  apply in_seq. unfold byte_ok in Hi. lia.
Qed.

Lemma low_byte c : c = Z.lxor (Z.shiftl (Z.shiftr c 8) 8) (u8 c).
Proof.
  apply Z.bits_inj'. intros i Hi. unfold u8. change 256 with (2 ^ 8).
  rewrite Z.lxor_spec. destruct (Z.ltb_spec i 8).
  - rewrite Z.shiftl_spec_low, Z.mod_pow2_bits_low by lia. by destruct (Z.testbit c i).
  - rewrite Z.shiftl_spec_high, Z.shiftr_spec, Z.mod_pow2_bits_high, xorb_false_r by lia.
    f_equal. lia.
Qed.

Lemma crc_step_byte c b : byte_ok b → crc_step c b = crc_byte c b.
Proof.
  intros Hb. unfold crc_step, crc_byte. rewrite table_spec.
  - rewrite (low_byte c) at 3. rewrite Z.lxor_assoc.
    by rewrite (crc_bits_lxor 8 (Z.shiftl (Z.shiftr c 8) 8)), crc_bits_shiftl8.
  - apply (lxor_bound 8); [lia|unfold u8; dlia|done].
Qed.

Lemma crc_steps_bytes data c : Forall byte_ok data → foldl crc_step c data = foldl crc_byte c data.
Proof.
  revert c. induction data as [|b data IH]; intros c Hd; [done|].
  apply Forall_cons in Hd as [Hb Hd]. simpl. rewrite crc_step_byte by done. by apply IH.
Qed.

Lemma byte_crc_ok b : byte_ok b → crc_ok b.
Proof. unfold byte_ok, crc_ok. lia. Qed.

Lemma crc_bytes_ok data c : crc_ok c → Forall byte_ok data → crc_ok (foldl crc_byte c data).
Proof.
  revert c. induction data as [|b data IH]; intros c Hc Hd; [done|].
  apply Forall_cons in Hd as [Hb Hd]. apply IH; [|done].
  apply crc_bits_ok, (lxor_bound 32); [lia|done|by apply byte_crc_ok].
Qed.

(** ** A window of up to four bytes acts as one word *)
Fixpoint le_word (w : list Z) : Z :=
  match w with
  | [] => 0
  | b :: w => b + 256 * le_word w
  end.

Lemma le_word_bound w : Forall byte_ok w → 0 <= le_word w < 2 ^ (8 * Z.of_nat (length w)).
Proof.
  induction w as [|b w IH]; intros Hw; [simpl; lia|].
  apply Forall_cons in Hw as [Hb Hw]. specialize (IH Hw). unfold byte_ok in Hb.
  cbn [le_word length]. replace (8 * Z.of_nat (S (length w))) with (8 + 8 * Z.of_nat (length w)) by lia.
  rewrite Z.pow_add_r by lia. lia.
Qed.

Lemma le_word_inj w w' :
  Forall byte_ok w → Forall byte_ok w' → length w = length w' → le_word w = le_word w' → w = w'.
Proof.
  revert w'. induction w as [|b w IH]; intros [|b' w'] Hw Hw' Hl E; try done.
  apply Forall_cons in Hw as [Hb Hw], Hw' as [Hb' Hw']. unfold byte_ok in *.
  cbn [le_word] in E. simpl in Hl. f_equal; [lia|]. apply IH; auto; lia.
Qed.

Lemma crc_window w c :
  Forall byte_ok w → foldl crc_byte c w = Nat.iter (8 * length w) crc_bit (Z.lxor c (le_word w)).
Proof.
  revert c. induction w as [|b w IH]; intros c Hw.
  - cbn. by rewrite Z.lxor_0_r.
  - apply Forall_cons in Hw as [Hb Hw]. cbn [foldl length le_word]. rewrite IH by done.
    replace (8 * S (length w))%nat with (8 * length w + 8)%nat by lia.
    rewrite Nat.iter_add. f_equal. unfold crc_byte.
    replace (b + 256 * le_word w) with (Z.lxor b (Z.shiftl (le_word w) 8)).
    + by rewrite <- Z.lxor_assoc, (crc_bits_lxor 8 _ (Z.shiftl _ 8)), crc_bits_shiftl8.
    + rewrite <- Z.add_nocarry_lxor.
      * rewrite Z.shiftl_mul_pow2 by lia. lia.
      * rewrite Z.land_comm. apply land_shiftl_small; [lia|done].
Qed.

Lemma crc_bytes_inj data c c' :
  crc_ok c → crc_ok c' → Forall byte_ok data →
  foldl crc_byte c data = foldl crc_byte c' data → c = c'.
Proof.
  revert c c'. induction data as [|b data IH]; intros c c' Hc Hc' Hd; [done|].
  apply Forall_cons in Hd as [Hb Hd]. cbn [foldl]. apply byte_crc_ok in Hb. intros E.
  assert (∀ x, crc_ok x → crc_ok (Z.lxor x b)) as Hx by (intros; by apply (lxor_bound 32)).
  apply IH in E; [|by apply crc_bits_ok, Hx..|done].
  apply crc_bits_inj in E; [|by apply Hx..].
  apply (f_equal (λ z, Z.lxor z b)) in E.
  by rewrite !Z.lxor_assoc, Z.lxor_nilpotent, !Z.lxor_0_r in E.
Qed.

Lemma lxor_cancel_l a x y : Z.lxor a x = Z.lxor a y → x = y.
Proof.
  intros E. apply (f_equal (Z.lxor a)) in E.
  by rewrite <- !Z.lxor_assoc, Z.lxor_nilpotent, !Z.lxor_0_l in E.
Qed.

Lemma crc32_ref_window pre w w' post :
  Forall byte_ok (pre ++ w ++ post) → Forall byte_ok w' →
  length w = length w' → (length w <= 4)%nat →
  crc32_ref (pre ++ w ++ post) = crc32_ref (pre ++ w' ++ post) → w = w'.
Proof.
  rewrite !Forall_app. intros (Hpre & Hw & Hpost) Hw' Hl H4 E.
  unfold crc32_ref in E. rewrite !(Z.lxor_comm _ 0xffffffff) in E.
  apply lxor_cancel_l in E. rewrite !foldl_app in E.
  assert (crc_ok (foldl crc_byte 0xffffffff pre)) as Hc
    by (apply crc_bytes_ok; [unfold crc_ok; lia|done]).
  apply crc_bytes_inj in E; [|by apply crc_bytes_ok|by apply crc_bytes_ok|done].
  assert (∀ v, Forall byte_ok v → (length v <= 4)%nat → crc_ok (le_word v)) as Hle.
  { intros v Hv Hv4. pose proof (le_word_bound v Hv). unfold crc_ok.
    assert (2 ^ (8 * Z.of_nat (length v)) <= 2 ^ 32) by (apply Z.pow_le_mono_r; lia). lia. }
  rewrite (crc_window w), (crc_window w'), <- Hl in E by done.
  assert (∀ v, crc_ok (le_word v) → crc_ok (Z.lxor (foldl crc_byte 0xffffffff pre) (le_word v)))
    as Hx by (intros v Hv; apply (lxor_bound 32); [lia|exact Hc|exact Hv]).
  apply crc_bits_inj in E; [|by apply Hx, Hle|apply Hx, Hle; [done|lia]].
  apply lxor_cancel_l in E. by apply le_word_inj.
Qed.

(** C19. The table-driven routine computes CRC-32: on every non-empty buffer
    of bytes it stores the checksum of the bit-at-a-time shift register with
    the reflected polynomial 0xEDB88320; it fails exactly on the null and
    empty arguments, storing nothing. *)
Theorem CalculateCrc32_is_crc32 data out :
  Forall byte_ok data →
  CalculateCrc32 (Some data) out =
    (if bool_decide (data = []) || negb out then (-1, None) else (0, Some (crc32_ref data))) ∧
  CalculateCrc32 None out = (-1, None).
Proof.
  intros Hd. split; [|done]. unfold CalculateCrc32, crc32_ref.
  rewrite crc_steps_bytes by done. destruct data; done.
Qed.

(** The check value of the algorithm: the digits 1 to 9. *)
Lemma CalculateCrc32_is_crc32_witness :
  CalculateCrc32 (Some [49; 50; 51; 52; 53; 54; 55; 56; 57]) true =
    (0, Some (crc32_ref [49; 50; 51; 52; 53; 54; 55; 56; 57])) ∧
  crc32_ref [49; 50; 51; 52; 53; 54; 55; 56; 57] = 0xCBF43926.
Proof.
  split; [|by vm_compute].
  apply (CalculateCrc32_is_crc32 [49; 50; 51; 52; 53; 54; 55; 56; 57] true).
  repeat constructor; done.
Defined.

(** C35. Corruption confined to four consecutive bytes is detected: two
    buffers that differ only inside such a window never get the same
    checksum. *)
Theorem CalculateCrc32_detects_window pre w w' post r :
  Forall byte_ok (pre ++ w ++ post) → Forall byte_ok w' →
  length w = length w' → (length w <= 4)%nat → w ≠ w' →
  CalculateCrc32 (Some (pre ++ w ++ post)) true = (0, Some r) →
  CalculateCrc32 (Some (pre ++ w' ++ post)) true ≠ (0, Some r).
Proof.
  intros Hd Hw' Hl H4 Hne E E'. apply Hne, (crc32_ref_window pre w w' post); try done.
  assert (Forall byte_ok (pre ++ w' ++ post)) as Hd'
    by (rewrite !Forall_app in *; tauto).
  unfold CalculateCrc32 in E, E'. repeat case_match; simplify_eq.
  unfold crc32_ref. rewrite <- !crc_steps_bytes by done. congruence.
Qed.

Lemma CalculateCrc32_detects_window_witness :
  CalculateCrc32 (Some ([1; 2] ++ [3; 4; 9; 6] ++ [7])) true ≠
    (0, (CalculateCrc32 (Some ([1; 2] ++ [3; 4; 5; 6] ++ [7])) true).2).
Proof.
  apply (CalculateCrc32_detects_window [1; 2] [3; 4; 5; 6] [3; 4; 9; 6] [7]);
    [repeat constructor; done|repeat constructor; done|done|simpl; lia|done|by vm_compute].
Defined.
