(* ===== verification/Guid.v ===== *)
(** * GUIDs and partition types of [mkgpt]

    src/tload/mkgpt/guid.c and fstypes.c.  The program runs on a hosted C
    library: [sprintf] and [sscanf] are modelled for the one format the code
    uses, and the values of [rand()] are a stream. *)

From stdpp Require Import base numbers list gmap strings.
From Stdlib Require Import Lia.
From S2P Require Import Prelude Mem.
Open Scope Z_scope.

Record GUID := Guid { data1 : Z; data2 : Z; data3 : Z; data4 : list Z }.

#[export] Instance GUID_eq_dec : EqDecision GUID.
Proof. solve_decision. Defined.

Definition guid_wf (g : GUID) : Prop :=
  0 <= data1 g < 2 ^ 32 ∧ 0 <= data2 g < 2 ^ 16 ∧ 0 <= data3 g < 2 ^ 16 ∧
  length (data4 g) = 8%nat ∧ Forall (λ b, 0 <= b < 256) (data4 g).

(** ** Hexadecimal conversions of the C library *)
Definition hex_upper (d : Z) : Z := if d <? 10 then 48 + d else 55 + d.

(** [%0nX] for a value below 16^n. *)
Fixpoint print_X (n : nat) (v : Z) : list Z :=
  match n with
  | O => []
  | S n => print_X n (v / 16) ++ [hex_upper (v mod 16)]
  end.

Definition hex_value (c : Z) : option Z :=
  if (48 <=? c) && (c <=? 57) then Some (c - 48)
  else if (65 <=? c) && (c <=? 70) then Some (c - 55)
  else if (97 <=? c) && (c <=? 102) then Some (c - 87)
  else None.

Definition isspace (c : Z) : bool := (c =? 32) || ((9 <=? c) && (c <=? 13)).

Fixpoint skip_space (s : list Z) : list Z :=
  match s with
  | c :: s' => if isspace c then skip_space s' else s
  | [] => []
  end.

Fixpoint scan_digits (w : nat) (acc : Z) (s : list Z) : Z * list Z :=
  match w, s with
  | S w, c :: s' =>
      match hex_value c with
      | Some d => scan_digits w (acc * 16 + d) s'
      | None => (acc, s)
      end
  | _, _ => (acc, s)
  end.

(** [%nX]: white space, then at most [w] characters of the form
    [+-]?(0[xX])?[0-9a-fA-F]+ ; [None] is a matching failure. *)
Definition scan_X (w : nat) (s : list Z) : option (Z * list Z) :=
  let s := skip_space s in
  let '(neg, w, s) :=
    match s with
    | c :: s' => if c =? 45 then (true, pred w, s')
                 else if c =? 43 then (false, pred w, s') else (false, w, s)
    | [] => (false, w, s)
    end in
  let '(w, s) :=
    match s with
    | z :: x :: s' =>
        if (z =? 48) && ((x =? 120) || (x =? 88)) && (2 <=? w)%nat
        then (w - 2, s')%nat else (w, s)
    | _ => (w, s)
    end in
  let '(v, s') := scan_digits w 0 s in
  if (length s' =? length s)%nat then None
  else Some (if neg then - v else v, s').

(** A conversion or a literal character of a format. *)
Inductive directive := X (width : nat) | Lit (c : Z).

(** The values assigned before the first failure. *)
Fixpoint sscanf (fmt : list directive) (s : list Z) : list Z :=
  match fmt with
  | [] => []
  | X w :: fmt =>
      match scan_X w s with
      | Some (v, s') => v :: sscanf fmt s'
      | None => []
      end
  | Lit c :: fmt =>
      match s with
      | d :: s' => if c =? d then sscanf fmt s' else []
      | [] => []
      end
  end.

Fixpoint sprintf (fmt : list directive) (args : list Z) : list Z :=
  match fmt, args with
  | X w :: fmt, v :: args => print_X w v ++ sprintf fmt args
  | Lit c :: fmt, _ => c :: sprintf fmt args
  | _, _ => []
  end.

Definition GUID_FMT : list directive :=
  [X 8; Lit 45; X 4; Lit 45; X 4; Lit 45; X 2; X 2; Lit 45; X 2; X 2; X 2; X 2; X 2; X 2].

Definition guid_fields (g : GUID) : list Z := data1 g :: data2 g :: data3 g :: data4 g.

(** Pointers are options; the result is the return value and what is stored. *)
Definition guid_to_string (str : bool) (guid : option GUID) : Z * option (list Z) :=
  match guid with
  | None => (-1, None)
  | Some g => if str then (0, Some (sprintf GUID_FMT (guid_fields g))) else (-1, None)
  end.

(** The assignments of [sscanf] to the eleven fields; those it does not reach
    keep their value. *)
Definition assign_fields (g : GUID) (vs : list Z) : GUID :=
  let old := guid_fields g in
  let at_ (i : nat) := match vs !! i with Some v => Some v | None => old !! i end in
  Guid (default 0 (u32 <$> at_ 0%nat)) (default 0 (u16 <$> at_ 1%nat))
    (default 0 (u16 <$> at_ 2%nat))
    ((λ i, default 0 (u8 <$> at_ (3 + i)%nat)) <$> seq 0 8).

Definition string_to_guid (guid : option GUID) (str : option (list Z)) : Z * option GUID :=
  match guid with
  | None => (-1, None)
  | Some g =>
      match str with
      | None => (-1, Some g)
      | Some s => (0, Some (assign_fields g (sscanf GUID_FMT s)))
      end
  end.

(** The stores of [guid_to_bytestring], at offset [off] of a buffer. *)
Definition put_guid (bytes : mem) (off : Z) (g : GUID) : mem :=
  let bytes := wr32 bytes off (data1 g) in
  let bytes := wr16 bytes (off + 4) (data2 g) in
  let bytes := wr16 bytes (off + 6) (data3 g) in
  for_up 8 0 (λ i b, wr8 b (off + 8 + i) (nth (Z.to_nat i) (data4 g) 0)) bytes.

(** [bytes] points into a buffer, or is null. *)
Definition guid_to_bytestring (bytes : option (mem * Z)) (guid : option GUID)
    : Z * option mem :=
  match guid with
  | None => (-1, fst <$> bytes)
  | Some g =>
      match bytes with
      | None => (-1, None)
      | Some (b, off) => (0, Some (put_guid b off g))
      end
  end.

Definition guid_is_zero (g : GUID) : bool :=
  if negb (data1 g =? 0) then false
  else if negb (data2 g =? 0) then false
  else if negb (data3 g =? 0) then false
  else forallb (λ i, nth i (data4 g) 0 =? 0) (seq 0 8).

(** ** Random GUIDs: [rand] is the stream of values [rand()] returns *)
Definition rnd_byte (rand : nat → Z) (k : nat) : Z := Z.land (rand k) 0xff.

(** Consumes 16 values from position [k]. *)
Definition random_guid (rand : nat → Z) (k : nat) : GUID :=
  let b i := rnd_byte rand (k + i) in
  Guid
    (Z.lor (Z.lor (Z.lor (b 0%nat) (u32 (Z.shiftl (b 1%nat) 8)))
              (u32 (Z.shiftl (b 2%nat) 16))) (u32 (Z.shiftl (b 3%nat) 24)))
    (u16 (Z.lor (b 4%nat) (Z.shiftl (b 5%nat) 8)))
    (u16 (Z.lor (b 6%nat) (Z.shiftl (Z.lor (Z.land (b 7%nat) 0x0f) 0x40) 8)))
    ((λ i, b (8 + i)%nat) <$> seq 0 8).

(** ** Partition types by MBR number and by name *)
Definition FSTYPE_EFI_SYSTEM : Z := 256.
Definition FSTYPE_BIOS_BOOT : Z := 257.

Record fstab := FsTab { fstypes : gmap Z GUID; fsnames : gmap Z (list Z) }.

Definition guid0 : GUID := Guid 0 0 0 (replicate 8 0).

(** [string_to_guid(&fstypes[i], "...")], on the table's current entry. *)
Definition set_fstype (i : Z) (s : string) (t : fstab) : fstab :=
  match string_to_guid (Some (default guid0 (fstypes t !! i))) (Some (cstr s)) with
  | (_, Some g) => FsTab (<[i := g]> (fstypes t)) (fsnames t)
  | _ => t
  end.
Definition set_fsname (i : Z) (s : string) (t : fstab) : fstab :=
  FsTab (fstypes t) (<[i := cstr s]> (fsnames t)).

Definition init_fstypes (t : fstab) : fstab :=
  let t := for_up 512 0 (λ i t,
             let t := set_fstype i "00000000-0000-0000-0000-000000000000" t in
             FsTab (fstypes t) (delete i (fsnames t))) t in
  let t := set_fstype FSTYPE_EFI_SYSTEM "C12A7328-F81F-11D2-BA4B-00A0C93EC93B" t in
  let t := set_fsname FSTYPE_EFI_SYSTEM "system" t in
  let t := set_fstype FSTYPE_BIOS_BOOT "21686148-6449-6E6F-744E-656564454649" t in
  let t := set_fsname FSTYPE_BIOS_BOOT "bios" t in
  let t := set_fstype 0x01 "EBD0A0A2-B9E5-4433-87C0-68B6B72699C7" t in
  let t := set_fsname 0x01 "fat12" t in
  let t := set_fstype 0x04 "EBD0A0A2-B9E5-4433-87C0-68B6B72699C7" t in
  let t := set_fsname 0x04 "fat16" t in
  let t := set_fstype 0x06 "EBD0A0A2-B9E5-4433-87C0-68B6B72699C7" t in
  let t := set_fsname 0x06 "fat16b" t in
  let t := set_fstype 0x07 "EBD0A0A2-B9E5-4433-87C0-68B6B72699C7" t in
  let t := set_fsname 0x07 "ntfs" t in
  let t := set_fstype 0x0b "EBD0A0A2-B9E5-4433-87C0-68B6B72699C7" t in
  let t := set_fsname 0x0b "fat32" t in
  let t := set_fstype 0x0c "EBD0A0A2-B9E5-4433-87C0-68B6B72699C7" t in
  let t := set_fsname 0x0c "fat32x" t in
  let t := set_fstype 0x0e "EBD0A0A2-B9E5-4433-87C0-68B6B72699C7" t in
  let t := set_fsname 0x0e "fat16x" t in
  let t := set_fstype 0x28 "EBD0A0A2-B9E5-4433-87C0-68B6B72699C7" t in
  let t := set_fsname 0x28 "fat16+" t in
  let t := set_fstype 0x29 "EBD0A0A2-B9E5-4433-87C0-68B6B72699C7" t in
  let t := set_fsname 0x29 "fat32+" t in
  let t := set_fstype 0x83 "0FC63DAF-8483-4772-8E79-3D69D8477DE4" t in
  set_fsname 0x83 "linux" t.

(** ** Printing and scanning *)
Lemma hex_value_upper d : 0 <= d < 16 → hex_value (hex_upper d) = Some d.
Proof.
  intros Hd. unfold hex_upper, hex_value. bdestr; simpl; try lia; f_equal; lia.
Qed.

(** An upper-case digit is no white space, sign, or [x]. *)
Lemma hex_upper_plain d :
  0 <= d < 16 → let c := hex_upper d in
  isspace c = false ∧ c ≠ 45 ∧ c ≠ 43 ∧ c ≠ 120 ∧ c ≠ 88.
Proof.
  intros Hd c. unfold c, hex_upper, isspace. destruct (Z.ltb_spec d 10); split_and!; try lia; bdestr; lia.
Qed.

Lemma length_print_X n v : length (print_X n v) = n.
Proof. revert v. induction n as [|n IH]; intros v; simpl; [done|]. rewrite length_app, IH. simpl. lia. Qed.

(** [acc] followed by the digits of [v]. *)
Lemma scan_digits_print n k v acc rest :
  0 <= v < 16 ^ Z.of_nat n → scan_digits (n + k) acc (print_X n v ++ rest) =
  scan_digits k (acc * 16 ^ Z.of_nat n + v) rest.
Proof.
  revert k v acc rest. induction n as [|n IH]; intros k v acc rest Hv.
  - simpl in *. f_equal. lia.
  - cbn [print_X]. rewrite <- app_assoc. replace (S n + k)%nat with (n + S k)%nat by lia.
    rewrite Nat2Z.inj_succ, Z.pow_succ_r in Hv by lia.
    rewrite IH by (split; [apply Z.div_pos; lia|apply Z.div_lt_upper_bound; lia]).
    cbn [app scan_digits]. rewrite hex_value_upper by (apply Z.mod_pos_bound; lia).
    f_equal. rewrite Nat2Z.inj_succ, Z.pow_succ_r by lia.
    pose proof (Z.div_mod v 16 ltac:(lia)). lia.
Qed.

Lemma print_X_cons2 n v :
  ∃ a b l, 0 <= a < 16 ∧ 0 <= b < 16 ∧ print_X (S (S n)) v = hex_upper a :: hex_upper b :: l.
Proof.
  revert v. induction n as [|n IH]; intros v.
  - exists (v / 16 mod 16), (v mod 16), []. split_and!; [dlia..|done].
  - destruct (IH (v / 16)) as (a & b & l & Ha & Hb & E).
    exists a, b, (l ++ [hex_upper (v mod 16)]). split_and!; [lia..|].
    cbn [print_X] in *. by rewrite E.
Qed.

Lemma scan_X_print n v rest :
  0 <= v < 16 ^ Z.of_nat (S (S n)) →
  scan_X (S (S n)) (print_X (S (S n)) v ++ rest) = Some (v, rest).
Proof.
  intros Hv. destruct (print_X_cons2 n v) as (a & b & l & Ha & Hb & E).
  destruct (hex_upper_plain a Ha) as (Hs & H1 & H2 & _).
  destruct (hex_upper_plain b Hb) as (_ & _ & _ & H3 & H4).
  pose proof (scan_digits_print (S (S n)) 0 v 0 rest Hv) as Hd.
  rewrite Nat.add_0_r in Hd. pose proof (length_print_X (S (S n)) v) as Hl.
  rewrite E in *. cbn [app] in *. unfold scan_X. cbn [skip_space]. rewrite Hs.
  destruct (Z.eqb_spec (hex_upper a) 45); [done|].
  destruct (Z.eqb_spec (hex_upper a) 43); [done|].
  destruct (Z.eqb_spec (hex_upper b) 120); [done|].
  destruct (Z.eqb_spec (hex_upper b) 88); [done|].
  rewrite andb_false_r. cbn [andb]. rewrite Hd. cbn [scan_digits].
  cbn [length]. rewrite length_app. destruct (Nat.eqb_spec (length rest) (S (S (length l + length rest)))); [lia|].
  f_equal.
Qed.

(** Every value fits the conversion it is printed with. *)
Fixpoint fmt_fits (fmt : list directive) (args : list Z) : Prop :=
  match fmt, args with
  | X w :: fmt, v :: args => (2 <= w)%nat ∧ 0 <= v < 16 ^ Z.of_nat w ∧ fmt_fits fmt args
  | Lit _ :: fmt, _ => fmt_fits fmt args
  | [], [] => True
  | _, _ => False
  end.

Lemma sscanf_sprintf fmt args : fmt_fits fmt args → sscanf fmt (sprintf fmt args) = args.
Proof.
  revert args. induction fmt as [|[w|c] fmt IH]; intros args Hf.
  - by destruct args.
  - destruct args as [|v args]; [done|]. destruct Hf as (Hw & Hv & Hf).
    cbn [sprintf sscanf]. destruct w as [|[|w]]; [lia|lia|].
    rewrite scan_X_print by done. by rewrite IH.
  - cbn [sprintf sscanf]. rewrite Z.eqb_refl. apply IH. destruct args; done.
Qed.

Lemma guid_fits g : guid_wf g → fmt_fits GUID_FMT (guid_fields g).
Proof.
  intros (H1 & H2 & H3 & H4 & H5). unfold guid_fields.
  destruct (data4 g) as [|b0 [|b1 [|b2 [|b3 [|b4 [|b5 [|b6 [|b7 [|]]]]]]]]]; try done.
  rewrite !Forall_cons in H5. cbn [fmt_fits GUID_FMT].
  change (16 ^ Z.of_nat 8) with (2 ^ 32). change (16 ^ Z.of_nat 4) with (2 ^ 16).
  change (16 ^ Z.of_nat 2) with 256. lia.
Qed.

Lemma assign_all g0 g : guid_wf g → assign_fields g0 (guid_fields g) = g.
Proof.
  intros (H1 & H2 & H3 & H4 & H5). destruct g as [d1 d2 d3 d4]. unfold guid_fields. simpl in *.
  destruct d4 as [|b0 [|b1 [|b2 [|b3 [|b4 [|b5 [|b6 [|b7 [|]]]]]]]]]; try done.
  rewrite !Forall_cons in H5. unfold assign_fields. simpl.
  rewrite u32_small, !u16_small, !u8_small by lia. done.
Qed.

Lemma string_to_guid_print g0 g :
  guid_wf g → string_to_guid (Some g0) (Some (sprintf GUID_FMT (guid_fields g))) = (0, Some g).
Proof.
  intros Hg. unfold string_to_guid. rewrite sscanf_sprintf by by apply guid_fits.
  by rewrite assign_all.
Qed.

(** C36. The text form of a GUID is 36 characters long, and scanning it gives
    the GUID back whatever the target held before. *)
Theorem guid_string_roundtrip g g0 :
  guid_wf g → ∃ s, guid_to_string true (Some g) = (0, Some s) ∧ length s = 36%nat ∧
    string_to_guid (Some g0) (Some s) = (0, Some g).
Proof.
  intros Hg. eexists. split; [done|]. split; [|by apply string_to_guid_print].
  destruct Hg as (_ & _ & _ & H4 & _). unfold guid_fields.
  destruct (data4 g) as [|b0 [|b1 [|b2 [|b3 [|b4 [|b5 [|b6 [|b7 [|]]]]]]]]]; try done.
Qed.

Definition efi_system_guid : GUID :=
  Guid 0xC12A7328 0xF81F 0x11D2 [0xBA; 0x4B; 0x00; 0xA0; 0xC9; 0x3E; 0xC9; 0x3B].

Lemma efi_system_guid_wf : guid_wf efi_system_guid.
Proof. unfold guid_wf. simpl. split_and!; try lia. repeat constructor; lia. Qed.

Lemma guid_string_roundtrip_witness :
  ∃ s, guid_to_string true (Some efi_system_guid) = (0, Some s) ∧ length s = 36%nat ∧
    string_to_guid (Some guid0) (Some s) = (0, Some efi_system_guid).
Proof. apply (guid_string_roundtrip efi_system_guid guid0). exact efi_system_guid_wf. Defined.
