(* ===== verification/MkGpt.v ===== *)
(** * [mkgpt]: building a GPT disk image

    src/tload/mkgpt/mkgpt.c.  Options become the globals and the list of
    partitions ([parse_opts]), the partitions are laid out ([check_parts]) and
    the image is written ([write_output]).

    The host's files are parameters: what opening a name for reading or
    writing gives.  Writes succeed (the code asserts that they do), [long]
    and [size_t] are 64 bits wide, and the text of messages on [stderr] is
    left out.  The linked list of partitions is a list in its order. *)

From stdpp Require Import base numbers list gmap strings.
From Stdlib Require Import Lia.
From S2P Require Import Prelude Mem Guid Crc32.
Open Scope Z_scope.

(** struct _part; [src] is the content of the opened image file. *)
Record PART := Part {
  p_type : GUID;
  p_uuid : GUID;
  p_id : Z;
  p_attrs : Z;
  sect_start : Z;
  sect_length : Z;
  p_name : option (list Z);
  p_src : list Z
}.

(** The globals of mkgpt.c; [rnd_pos] counts the calls of [rand()]. *)
Record mkgpt := MkGpt {
  sect_size : Z;
  image_sects : Z;
  min_image_sects : Z;
  parts : list PART;
  output : option (list Z);
  disk_guid : GUID;
  rnd_pos : nat;
  part_count : Z;
  header_sectors : Z;
  first_usable_sector : Z;
  secondary_headers_sect : Z;
  secondary_gpt_sect : Z
}.

Definition mkgpt_init : mkgpt :=
  MkGpt 512 0 2048 [] None guid0 0 0 0 0 0 0.

Definition set_sect_size (v : Z) (s : mkgpt) : mkgpt :=
  MkGpt v (image_sects s) (min_image_sects s) (parts s) (output s) (disk_guid s) (rnd_pos s)
    (part_count s) (header_sectors s) (first_usable_sector s) (secondary_headers_sect s)
    (secondary_gpt_sect s).
Definition set_image_sects (v : Z) (s : mkgpt) : mkgpt :=
  MkGpt (sect_size s) v (min_image_sects s) (parts s) (output s) (disk_guid s) (rnd_pos s)
    (part_count s) (header_sectors s) (first_usable_sector s) (secondary_headers_sect s)
    (secondary_gpt_sect s).
Definition set_min_image_sects (v : Z) (s : mkgpt) : mkgpt :=
  MkGpt (sect_size s) (image_sects s) v (parts s) (output s) (disk_guid s) (rnd_pos s)
    (part_count s) (header_sectors s) (first_usable_sector s) (secondary_headers_sect s)
    (secondary_gpt_sect s).
Definition set_parts (v : list PART) (s : mkgpt) : mkgpt :=
  MkGpt (sect_size s) (image_sects s) (min_image_sects s) v (output s) (disk_guid s) (rnd_pos s)
    (part_count s) (header_sectors s) (first_usable_sector s) (secondary_headers_sect s)
    (secondary_gpt_sect s).
Definition set_output (v : option (list Z)) (s : mkgpt) : mkgpt :=
  MkGpt (sect_size s) (image_sects s) (min_image_sects s) (parts s) v (disk_guid s) (rnd_pos s)
    (part_count s) (header_sectors s) (first_usable_sector s) (secondary_headers_sect s)
    (secondary_gpt_sect s).
Definition set_disk_guid (v : GUID) (s : mkgpt) : mkgpt :=
  MkGpt (sect_size s) (image_sects s) (min_image_sects s) (parts s) (output s) v (rnd_pos s)
    (part_count s) (header_sectors s) (first_usable_sector s) (secondary_headers_sect s)
    (secondary_gpt_sect s).
Definition set_rnd_pos (v : nat) (s : mkgpt) : mkgpt :=
  MkGpt (sect_size s) (image_sects s) (min_image_sects s) (parts s) (output s) (disk_guid s) v
    (part_count s) (header_sectors s) (first_usable_sector s) (secondary_headers_sect s)
    (secondary_gpt_sect s).
Definition set_layout (pc hs fu sh sg im : Z) (s : mkgpt) : mkgpt :=
  MkGpt (sect_size s) im (min_image_sects s) (parts s) (output s) (disk_guid s) (rnd_pos s)
    pc hs fu sh sg.

(** ** [strtol] and [atoi] of the host C library *)
Definition digit_value (c : Z) : option Z :=
  if (48 <=? c) && (c <=? 57) then Some (c - 48)
  else if (65 <=? c) && (c <=? 90) then Some (c - 55)
  else if (97 <=? c) && (c <=? 122) then Some (c - 87)
  else None.

Fixpoint digits_value (base acc : Z) (s : list Z) : Z :=
  match s with
  | c :: s' =>
      match digit_value c with
      | Some d => if d <? base then digits_value base (acc * base + d) s' else acc
      | None => acc
      end
  | [] => acc
  end.

Definition starts_hex_digit (s : list Z) : bool :=
  match s with
  | c :: _ => match digit_value c with Some d => d <? 16 | None => false end
  | [] => false
  end.

Definition strtol_unsigned (base : Z) (s : list Z) : Z :=
  match s with
  | z :: x :: s' =>
      if (z =? 48) && ((x =? 120) || (x =? 88)) && starts_hex_digit s' &&
         ((base =? 0) || (base =? 16))
      then digits_value 16 0 s'
      else digits_value (if base =? 0 then if z =? 48 then 8 else 10 else base) 0 s
  | _ => digits_value (if base =? 0 then 10 else base) 0 s
  end.

Definition LONG_MAX : Z := 2 ^ 63 - 1.
Definition LONG_MIN : Z := - 2 ^ 63.
Definition clamp_long (v : Z) : Z := Z.max LONG_MIN (Z.min LONG_MAX v).

Definition strtol (base : Z) (s : list Z) : Z :=
  match skip_space s with
  | c :: s' =>
      if c =? 45 then clamp_long (- strtol_unsigned base s')
      else if c =? 43 then clamp_long (strtol_unsigned base s')
      else clamp_long (strtol_unsigned base (c :: s'))
  | [] => 0
  end.

Definition atoi (s : list Z) : Z := s32 (strtol 10 s).

(** [!strcmp(a, "...")] *)
Definition streq (a : list Z) (b : string) : bool := bool_decide (a = cstr b).
Definition starts_dash (a : list Z) : bool :=
  match a with c :: _ => c =? 45 | [] => false end.

Section mkgpt.
(** [rand] is what [rand()] returns; [fopen_w] and [fopen_r] say whether a
    name can be created and what an existing file contains. *)
Context (rand : nat → Z) (fopen_w : list Z → bool) (fopen_r : list Z → option (list Z)).
Context (fs : fstab).

Definition find_name (str : list Z) : option Z :=
  head (filter (λ i, fsnames fs !! i = Some str) (seqZ 0 512)).

(** The return value, the GUID stored (when it is) and the new position in
    the random stream. *)
Definition parse_guid (str : list Z) (guid : GUID) (pos : nat) : Z * GUID * nat :=
  if streq str "random" || streq str "rnd" then (0, random_guid rand pos, (pos + 16)%nat)
  else
    let mbr_id := strtol 0 str in
    let mbr_id := if (mbr_id =? LONG_MIN) || (mbr_id =? LONG_MAX) then -1 else mbr_id in
    let mbr_id := match find_name str with Some i => i | None => mbr_id end in
    if (0 <=? mbr_id) && (mbr_id <=? 511) then
      let t := default guid0 (fstypes fs !! mbr_id) in
      if guid_is_zero t then (-1, guid, pos) else (0, t, pos)
    else
      match string_to_guid (Some guid) (Some str) with
      | (r, Some g) => (r, g, pos)
      | (r, None) => (r, guid, pos)
      end.

(** The first loop of [parse_opts]: global options up to the first [--part].
    [inl] is an early return, [inr] the state with the arguments left. *)
Fixpoint parse_globals (i : Z) (args : list (list Z)) (s : mkgpt)
    : (Z * mkgpt) + (Z * list (list Z) * mkgpt) :=
  match args with
  | [] => inr (i, [], s)
  | a :: rest =>
      if streq a "--output" || streq a "-o" then
        match rest with
        | [] => inl (-1, s)
        | v :: rest' =>
            if starts_dash v then inl (-1, s)
            else if fopen_w v then parse_globals (i + 2) rest' (set_output (Some v) s)
            else inl (-1, s)
        end
      else if streq a "--disk-guid" then
        match rest with
        | [] => inl (-1, s)
        | v :: rest' =>
            if starts_dash v then inl (-1, s)
            else
              let '(r, g, pos) := parse_guid v (disk_guid s) (rnd_pos s) in
              if r =? 0 then parse_globals (i + 2) rest' (set_rnd_pos pos (set_disk_guid g s))
              else inl (-1, s)
        end
      else if streq a "--help" || streq a "-h" then inl (-1, s)
      else if streq a "--sector-size" then
        match rest with
        | [] => inl (-1, s)
        | v :: rest' =>
            if starts_dash v then inl (-1, s)
            else
              let sz := u64 (atoi v) in
              if (sz <? 512) || (4096 <? sz) || truth (sz mod 512) then inl (-1, s)
              else parse_globals (i + 2) rest' (set_sect_size sz s)
        end
      else if streq a "--minimum-image-size" || streq a "-s" then
        match rest with
        | [] => inl (-1, s)
        | v :: rest' =>
            if starts_dash v then inl (-1, s)
            else if atoi v <? 2048 then inl (-1, s)
            else parse_globals (i + 2) rest' (set_min_image_sects (atoi v) s)
        end
      else if streq a "--image-size" then
        match rest with
        | [] => inl (-1, s)
        | v :: rest' =>
            if starts_dash v then inl (-1, s)
            else parse_globals (i + 2) rest' (set_image_sects (atoi v) s)
        end
      else if streq a "--part" || streq a "-p" then inr (i, args, s)
      else inl (i, s)
  end.

Definition store_part (cur : option PART) (s : mkgpt) : mkgpt :=
  match cur with Some p => set_parts (parts s ++ [p]) s | None => s end.

Definition new_part (id : Z) (src : list Z) : PART := Part guid0 guid0 id 0 0 0 None src.
Definition with_name (n : list Z) (p : PART) : PART :=
  Part (p_type p) (p_uuid p) (p_id p) (p_attrs p) (sect_start p) (sect_length p) (Some n) (p_src p).
Definition with_type (g : GUID) (p : PART) : PART :=
  Part g (p_uuid p) (p_id p) (p_attrs p) (sect_start p) (sect_length p) (p_name p) (p_src p).
Definition with_uuid (g : GUID) (p : PART) : PART :=
  Part (p_type p) g (p_id p) (p_attrs p) (sect_start p) (sect_length p) (p_name p) (p_src p).
Definition with_sects (a n : Z) (p : PART) : PART :=
  Part (p_type p) (p_uuid p) (p_id p) (p_attrs p) a n (p_name p) (p_src p).

(** The second loop: partition definitions.  [cur] is [cur_part]. *)
Fixpoint parse_parts (i : Z) (args : list (list Z)) (cur_part_id : Z) (cur : option PART)
    (s : mkgpt) : Z * mkgpt :=
  match args with
  | [] => (0, store_part cur s)
  | a :: rest =>
      if streq a "--part" || streq a "-p" then
        let s := store_part cur s in
        match rest with
        | [] => (-1, s)
        | v :: rest' =>
            if starts_dash v then (-1, s)
            else match fopen_r v with
                 | None => (-1, s)
                 | Some src =>
                     parse_parts (i + 2) rest' (cur_part_id + 1)
                       (Some (new_part (cur_part_id + 1) src)) s
                 end
        end
      else if streq a "--name" || streq a "-n" then
        match cur, rest with
        | None, _ | _, [] => (-1, s)
        | Some p, v :: rest' =>
            if starts_dash v then (-1, s)
            else parse_parts (i + 2) rest' cur_part_id (Some (with_name v p)) s
        end
      else if streq a "--type" || streq a "-t" then
        match cur, rest with
        | None, _ | _, [] => (-1, s)
        | Some p, v :: rest' =>
            if starts_dash v then (-1, s)
            else
              let '(r, g, pos) := parse_guid v (p_type p) (rnd_pos s) in
              if r =? 0 then
                parse_parts (i + 2) rest' cur_part_id (Some (with_type g p)) (set_rnd_pos pos s)
              else (-1, s)
        end
      else if streq a "--uuid" || streq a "-u" then
        match cur, rest with
        | None, _ | _, [] => (-1, s)
        | Some p, v :: rest' =>
            if starts_dash v then (-1, s)
            else
              let '(r, g, pos) := parse_guid v (p_uuid p) (rnd_pos s) in
              if r =? 0 then
                parse_parts (i + 2) rest' cur_part_id (Some (with_uuid g p)) (set_rnd_pos pos s)
              else (-1, s)
        end
      else (i, s)
  end.

(** [args] is [argv] from index 1 on. *)
Definition parse_opts (args : list (list Z)) (s : mkgpt) : Z * mkgpt :=
  match parse_globals 1 args s with
  | inl r => r
  | inr (i, rest, s) => parse_parts i rest 0 None s
  end.

(** ** Laying out the partitions *)
Definition part_name (id : Z) : list Z := cstr "part" ++ print_dec id.

(** The loop of [check_parts] over the partitions from sector [cur_sect]: [None]
    is the early return, after which the program exits (what it stored in the
    partitions before is not kept). *)
Fixpoint place_parts (ss : Z) (ps : list PART) (cur_part_id cur_sect : Z) (pos : nat)
    : option (list PART * Z * nat) :=
  match ps with
  | [] => Some ([], cur_sect, pos)
  | p :: ps =>
      let cur_part_id := cur_part_id + 1 in
      if guid_is_zero (p_type p) then None
      else
        let '(p, pos) := if guid_is_zero (p_uuid p)
                         then (with_uuid (random_guid rand pos) p, pos + 16)%nat
                         else (p, pos) in
        if (sect_start p =? 0) || (cur_sect <=? sect_start p) then
          let start := if sect_start p =? 0 then cur_sect else sect_start p in
          let p := match p_name p with
                   | None => with_name (part_name cur_part_id) p
                   | Some _ => p
                   end in
          let cur_part_file_len := Z.of_nat (length (p_src p)) in
          let len :=
            if sect_length p =? 0 then
              let n := s32 (cur_part_file_len / ss) in
              if truth (cur_part_file_len mod ss) then s32 (n + 1) else n
            else sect_length p in
          match place_parts ss ps cur_part_id (s32 (start + len)) pos with
          | Some (ps, cur_sect, pos) => Some (with_sects start len p :: ps, cur_sect, pos)
          | None => None
          end
        else None
  end.

Definition check_parts (s : mkgpt) : Z * mkgpt :=
  let ss := sect_size s in
  let part_count := s32 (Z.of_nat (length (parts s))) in
  let header_length := s32 (part_count * 128) in
  let hs := s32 (u64 header_length / ss) in
  let hs := if truth (u64 header_length mod ss) then s32 (hs + 1) else hs in
  let hs := if hs <? 16384 / ss then 16384 / ss else hs in
  let first_usable := s32 (2 + hs) in
  match place_parts ss (parts s) 0 first_usable (rnd_pos s) with
  | None => (-1, set_layout part_count hs first_usable (secondary_headers_sect s)
                   (secondary_gpt_sect s) (image_sects s) s)
  | Some (ps, cur_sect, pos) =>
      let s := set_rnd_pos pos (set_parts ps s) in
      let needed := s32 (cur_sect + 1 + hs) in
      if (image_sects s =? 0) || (needed <=? image_sects s) then
        let im := if image_sects s =? 0
                  then (if min_image_sects s <? needed then needed else min_image_sects s)
                  else image_sects s in
        (0, set_layout part_count hs first_usable (s32 (im - 1 - hs)) (s32 (im - 1)) im s)
      else (-1, set_layout part_count hs first_usable (secondary_headers_sect s)
                  (secondary_gpt_sect s) (image_sects s) s)
  end.
End mkgpt.

(** ** Writing the image

    A file open for writing: its bytes and the position.  [fseek] past the end
    leaves a hole that reads as 0. *)
Record file := File { f_data : mem; f_pos : Z }.

Definition fseek (pos : Z) (f : file) : file := File (f_data f) pos.
Definition fwrite (l : list Z) (f : file) : file :=
  File (put_bytes (f_data f) (f_pos f) l) (f_pos f + Z.of_nat (length l)).

(** Buffers: [malloc] and [memset] to 0. *)
Definition buf0 : mem := ∅.
Definition buf_bytes (n : Z) (b : mem) : list Z := rdbytes (Z.to_nat n) b 0.

Definition mbr_sector (s : mkgpt) : mem :=
  let mbr := wr32 buf0 446 0x00020000 in
  let mbr := wr8 mbr (446 + 4) 0xee in
  let mbr := wr8 mbr (446 + 5) 0xff in
  let mbr := wr8 mbr (446 + 6) 0xff in
  let mbr := wr8 mbr (446 + 7) 0xff in
  let mbr := wr32 mbr (446 + 8) 0x1 in
  let mbr := if 0xffffffff <? image_sects s
             then wr32 mbr (446 + 12) 0xffffffff
             else wr32 mbr (446 + 12) (u32 (u32 (image_sects s) - 1)) in
  wr8 (wr8 mbr 510 0x55) 511 0xaa.

(** [CalculateCrc32] of the first [n] bytes of [b] into [dst] at [off], which
    it stores only on success. *)
Definition store_crc (b : mem) (n : Z) (dst : mem) (off : Z) : mem :=
  match (CalculateCrc32 (Some (buf_bytes n b)) true).2 with
  | Some c => wr32 dst off c
  | None => dst
  end.

Definition gpt_header (s : mkgpt) : mem :=
  let gpt := wr64 buf0 0 0x5452415020494645 in
  let gpt := wr32 gpt 8 0x00010000 in
  let gpt := wr32 gpt 12 96 in
  let gpt := wr32 gpt 16 0 in
  let gpt := wr32 gpt 20 0 in
  let gpt := wr64 gpt 24 0x1 in
  let gpt := wr64 gpt 32 (u64 (secondary_gpt_sect s)) in
  let gpt := wr64 gpt 40 (u64 (first_usable_sector s)) in
  let gpt := wr64 gpt 48 (u64 (s32 (secondary_headers_sect s - 1))) in
  let gpt := put_guid gpt 56 (disk_guid s) in
  let gpt := wr64 gpt 72 0x2 in
  let gpt := wr32 gpt 80 (u32 (part_count s)) in
  let gpt := wr32 gpt 84 128 in
  wr32 gpt 88 0.

(** One 128-byte entry; [name[char_id]] is a signed [char]. *)
Definition put_entry (b : mem) (off : Z) (p : PART) : mem :=
  let name := default [] (p_name p) in
  let b := put_guid b off (p_type p) in
  let b := put_guid b (off + 16) (p_uuid p) in
  let b := wr64 b (off + 32) (u64 (sect_start p)) in
  let b := wr64 b (off + 40) (u64 (s32 (sect_start p + sect_length p - 1))) in
  let b := wr64 b (off + 48) (p_attrs p) in
  for_up (Nat.min (length name) 35) 0
    (λ k b, wr16 b (off + 56 + k * 2) (u16 (s8 (nth (Z.to_nat k) name 0)))) b.

Fixpoint put_entries (b : mem) (i : Z) (ps : list PART) : mem :=
  match ps with
  | [] => b
  | p :: ps => put_entries (put_entry b (i * 128) p) (i + 1) ps
  end.

(** The inner loop: sector by sector from the source, never past the
    partition's length. *)
Fixpoint copy_part (fuel : nat) (ss len bytes_written : Z) (src : list Z) (f : file) : file :=
  match fuel with
  | O => f
  | S fuel =>
      let chunk := take (Z.to_nat ss) src in
      let bytes_read := Z.of_nat (length chunk) in
      if bytes_read =? 0 then f
      else
        let n := if len <? bytes_written + bytes_read then len - bytes_written else bytes_read in
        copy_part fuel ss len (bytes_written + n) (drop (Z.to_nat ss) src)
          (fwrite (take (Z.to_nat n) chunk) f)
  end.

Definition write_part (ss : Z) (p : PART) (f : file) : file :=
  copy_part (S (length (p_src p))) ss (u64 (sect_length p * ss)) 0 (p_src p)
    (fseek (u64 (sect_start p * ss)) f).

Definition gpt_primary (s : mkgpt) (entries : mem) : mem :=
  let gpt := store_crc entries (part_count s * 128) (gpt_header s) 88 in
  store_crc gpt 96 gpt 16.

Definition gpt_secondary (s : mkgpt) (gpt : mem) : mem :=
  let gpt2 := put_bytes buf0 0 (buf_bytes 96 gpt) in
  let gpt2 := wr32 gpt2 16 0 in
  let gpt2 := wr64 gpt2 24 (u64 (secondary_gpt_sect s)) in
  let gpt2 := wr64 gpt2 32 0x1 in
  let gpt2 := wr64 gpt2 72 (u64 (secondary_headers_sect s)) in
  store_crc gpt2 96 gpt2 16.

Definition write_output (s : mkgpt) : file :=
  let ss := sect_size s in
  let entries := put_entries buf0 0 (parts s) in
  let gpt := gpt_primary s entries in
  let gpt2 := gpt_secondary s gpt in
  let f := fwrite (buf_bytes ss (mbr_sector s)) (File ∅ 0) in
  let f := fwrite (buf_bytes ss gpt) f in
  let f := fwrite (buf_bytes (header_sectors s * ss) entries) f in
  let f := foldl (λ f p, write_part ss p f) f (parts s) in
  let f := fseek (u64 (secondary_headers_sect s * ss)) f in
  let f := fwrite (buf_bytes (header_sectors s * ss) entries) f in
  let f := fseek (u64 (secondary_gpt_sect s * ss)) f in
  fwrite (buf_bytes ss gpt2) f.

(** [main]: the return value and, on success, the image. *)
Definition main (rand : nat → Z) (fopen_w : list Z → bool) (fopen_r : list Z → option (list Z))
    (args : list (list Z)) : Z * option file :=
  let fs := init_fstypes (FsTab ∅ ∅) in
  let s := set_rnd_pos 16 (set_disk_guid (random_guid rand 0) mkgpt_init) in
  match parse_opts rand fopen_w fopen_r fs args s with
  | (0, s) =>
      match output s, parts s with
      | None, _ | _, [] => (-1, None)
      | Some _, _ =>
          match check_parts rand s with
          | (0, s) => (0, Some (write_output s))
          | _ => (-1, None)
          end
      end
  | _ => (-1, None)
  end.

(** ** Layout *)
Definition sect_ok (ss : Z) : Prop := 512 <= ss <= 4096 ∧ ss mod 512 = 0.

Definition ceil_div (n d : Z) : Z := (n + d - 1) / d.

(** Sectors a partition's image file needs. *)
Definition sects_of (ss : Z) (p : PART) : Z := ceil_div (Z.of_nat (length (p_src p))) ss.
Definition total_sects (ss : Z) (ps : list PART) : Z :=
  foldr (λ p n, sects_of ss p + n) 0 ps.

(** As [parse_opts] leaves them: place and size still open. *)
Definition unplaced (p : PART) : Prop := sect_start p = 0 ∧ sect_length p = 0.

(** [p'] is [p] placed at [start]; a missing UUID and a missing name were filled in. *)
Definition placed_from (ss start : Z) (p p' : PART) : Prop :=
  p_type p' = p_type p ∧ p_src p' = p_src p ∧ p_id p' = p_id p ∧ p_attrs p' = p_attrs p ∧
  guid_is_zero (p_type p') = false ∧ guid_is_zero (p_uuid p') = false ∧
  (guid_is_zero (p_uuid p) = false → p_uuid p' = p_uuid p) ∧
  is_Some (p_name p') ∧ (is_Some (p_name p) → p_name p' = p_name p) ∧
  sect_start p' = start ∧ sect_length p' = sects_of ss p.

(** Consecutive partitions from [start] to [stop]. *)
Inductive placed (ss : Z) : Z → list PART → list PART → Z → Prop :=
| placed_nil start : placed ss start [] [] start
| placed_cons start p p' ps ps' stop :
    placed_from ss start p p' → placed ss (start + sects_of ss p) ps ps' stop →
    placed ss start (p :: ps) (p' :: ps') stop.

Lemma sects_of_nonneg ss p : 0 < ss → 0 <= sects_of ss p.
Proof. intros. unfold sects_of, ceil_div. apply Z.div_pos; lia. Qed.

Lemma total_sects_nonneg ss ps : 0 < ss → 0 <= total_sects ss ps.
Proof.
  intros. induction ps as [|p ps IH]; simpl; [lia|]. pose proof (sects_of_nonneg ss p). lia.
Qed.

(** The code's rounding up. *)
Lemma round_up n ss :
  0 <= n → 0 < ss → ceil_div n ss < 2 ^ 31 →
  (let q := s32 (n / ss) in if truth (n mod ss) then s32 (q + 1) else q) = ceil_div n ss.
Proof.
  intros Hn Hss Hlim. unfold ceil_div in *.
  pose proof (Z.div_mod n ss ltac:(lia)) as E. pose proof (Z.mod_pos_bound n ss ltac:(lia)) as Hb.
  assert (0 <= n / ss) by (apply Z.div_pos; lia).
  assert ((n + ss - 1) / ss = n / ss + (if truth (n mod ss) then 1 else 0)) as Ec.
  { symmetry. unfold truth. destruct (Z.eqb_spec (n mod ss) 0) as [E0|Hne]; cbn [negb].
    - apply (Z.div_unique _ _ _ (ss - 1)); lia.
    - apply (Z.div_unique _ _ _ (n mod ss - 1)); lia. }
  rewrite Ec in *. cbv zeta. revert Hlim.
  destruct (truth (n mod ss)); intros; rewrite ?(s32_small (n / ss)), ?s32_small; lia.
Qed.

Lemma random_guid_nonzero rand pos : guid_is_zero (random_guid rand pos) = false.
Proof.
  unfold guid_is_zero, random_guid. cbn [data1 data2 data3 data4].
  repeat match goal with |- context [Z.lor (Z.lor (Z.lor ?a ?b) ?c) ?d =? 0] =>
    destruct (Z.lor (Z.lor (Z.lor a b) c) d =? 0); [|done] end. cbn [negb].
  match goal with |- context [u16 (Z.lor ?a ?b) =? 0] =>
    destruct (u16 (Z.lor a b) =? 0); [|done] end. cbn [negb].
  destruct (Z.eqb_spec (u16 (Z.lor (rnd_byte rand (pos + 6))
    (Z.shiftl (Z.lor (Z.land (rnd_byte rand (pos + 7)) 15) 64) 8))) 0) as [E|]; [|done].
  exfalso. apply (f_equal (λ z, Z.testbit z 14)) in E. revert E. unfold u16.
  change 65536 with (2 ^ 16). rewrite Z.mod_pow2_bits_low, Z.lor_spec, Z.shiftl_spec by lia.
  change (14 - 8) with 6. rewrite Z.lor_spec. change (Z.testbit 64 6) with true.
  rewrite Z.bits_0, !orb_true_r. done.
Qed.

Lemma place_parts_spec rand ss ps id cur pos :
  0 < ss → Forall unplaced ps → Forall (λ p, guid_is_zero (p_type p) = false) ps →
  0 < cur → cur + total_sects ss ps < 2 ^ 31 →
  ∃ ps' pos', place_parts rand ss ps id cur pos = Some (ps', cur + total_sects ss ps, pos') ∧
    placed ss cur ps ps' (cur + total_sects ss ps).
Proof.
  intros Hss. revert id cur pos. induction ps as [|p ps IH]; intros id cur pos Hun Hty Hcur Hlim.
  - exists [], pos. cbn. rewrite Z.add_0_r. split; [done|constructor].
  - apply Forall_cons in Hun as [[Hst Hln] Hun]. apply Forall_cons in Hty as [Hty Htys].
    cbn [place_parts total_sects foldr] in *. fold (total_sects ss ps) in *. rewrite Hty.
    pose proof (sects_of_nonneg ss p Hss). pose proof (total_sects_nonneg ss ps Hss).
    set (pp := if guid_is_zero (p_uuid p) then _ else _).
    assert (∃ q pos1, pp = (q, pos1) ∧ p_type q = p_type p ∧ p_src q = p_src p ∧
      p_id q = p_id p ∧ p_attrs q = p_attrs p ∧ sect_start q = 0 ∧ sect_length q = 0 ∧
      p_name q = p_name p ∧ guid_is_zero (p_uuid q) = false ∧
      (guid_is_zero (p_uuid p) = false → p_uuid q = p_uuid p)) as (q & pos1 & -> & Hq).
    { unfold pp. destruct (guid_is_zero (p_uuid p)) eqn:Eu.
      - eexists _, _. split_and!; try done. simpl. apply random_guid_nonzero.
      - eexists p, pos. split_and!; done. }
    destruct Hq as (Q1 & Q2 & Q3 & Q4 & Q5 & Q6 & Q7 & Q8 & Q9). rewrite Q5.
    simpl (0 =? 0). cbn [orb]. set (q' := match p_name q with Some _ => q | None => _ end).
    assert (p_type q' = p_type q ∧ p_src q' = p_src q ∧ p_id q' = p_id q ∧
      p_attrs q' = p_attrs q ∧ p_uuid q' = p_uuid q ∧ sect_length q' = 0 ∧
      is_Some (p_name q') ∧ (is_Some (p_name q) → p_name q' = p_name q)) as Hq'.
    { unfold q'. destruct (p_name q) eqn:En; split_and!; try done; simpl; intros [? ?]; done. }
    destruct Hq' as (R1 & R2 & R3 & R4 & R5 & R6 & R7 & R8). rewrite R6. simpl (0 =? 0). cbn iota.
    assert (sects_of ss p < 2 ^ 31) as Hs by lia.
    rewrite R2, Q2. pose proof (round_up (Z.of_nat (length (p_src p))) ss ltac:(lia) Hss Hs) as Er.
    cbv zeta in Er. rewrite Er. fold (sects_of ss p). rewrite s32_small by lia.
    destruct (IH (id + 1) (cur + sects_of ss p) pos1) as (ps' & pos' & E & Hpl); [done|done|lia|lia|].
    rewrite E. exists (with_sects cur (sects_of ss p) q' :: ps'), pos'.
    replace (cur + sects_of ss p + total_sects ss ps)
      with (cur + (sects_of ss p + total_sects ss ps)) in * by lia.
    split; [done|]. constructor; [|done].
    unfold placed_from. simpl. rewrite R1, R2, R3, R4, R5, Q1, Q2, Q3, Q4.
    split_and!; try done. intros Hsome. rewrite R8, Q7; [done|by rewrite Q7].
Qed.

(** The sectors of one copy of the entry array. *)
Definition entry_sects (ss n : Z) : Z := Z.max (ceil_div (n * 128) ss) (16384 / ss).
Definition needed_sects (ss : Z) (ps : list PART) : Z :=
  2 + 2 * entry_sects ss (Z.of_nat (length ps)) + total_sects ss ps + 1.

(** A finished layout of [ps]: tables, partitions, tables, without overlap. *)
Record layout (ps : list PART) (s : mkgpt) : Prop := Layout {
  lo_sect : sect_ok (sect_size s);
  lo_count : part_count s = Z.of_nat (length ps);
  lo_entries : header_sectors s = entry_sects (sect_size s) (part_count s);
  lo_room : part_count s * 128 <= header_sectors s * sect_size s ∧
            16384 <= header_sectors s * sect_size s + 4095;
  lo_first : first_usable_sector s = 2 + header_sectors s;
  lo_placed : placed (sect_size s) (first_usable_sector s) ps (parts s)
                (first_usable_sector s + total_sects (sect_size s) ps);
  lo_fits : first_usable_sector s + total_sects (sect_size s) ps <= secondary_headers_sect s;
  lo_secondary : secondary_headers_sect s + header_sectors s = secondary_gpt_sect s;
  lo_last : secondary_gpt_sect s = image_sects s - 1 ∧ image_sects s < 2 ^ 31
}.

(** What [parse_opts] produces, without overflow of the sector counts. *)
Record layout_input (s : mkgpt) : Prop := LayoutInput {
  li_sect : sect_ok (sect_size s);
  li_unplaced : Forall unplaced (parts s);
  li_image : 0 <= image_sects s < 2 ^ 31;
  li_min : 2048 <= min_image_sects s < 2 ^ 31;
  li_room : needed_sects (sect_size s) (parts s) < 2 ^ 31;
  li_count : Z.of_nat (length (parts s)) < 2 ^ 23
}.

Lemma entry_sects_room ss n : sect_ok ss → 0 <= n →
  n * 128 <= entry_sects ss n * ss ∧ 16384 <= entry_sects ss n * ss + 4095 ∧ 0 < entry_sects ss n.
Proof.
  intros [Hss _] Hn. unfold entry_sects, ceil_div.
  pose proof (Z.div_mod (n * 128 + ss - 1) ss ltac:(lia)).
  pose proof (Z.mod_pos_bound (n * 128 + ss - 1) ss ltac:(lia)).
  pose proof (Z.div_mod 16384 ss ltac:(lia)).
  pose proof (Z.mod_pos_bound 16384 ss ltac:(lia)). nia.
Qed.

Lemma header_sects_code ss n :
  sect_ok ss → 0 <= n < 2 ^ 23 →
  let hl := s32 (n * 128) in
  let hs := s32 (u64 hl / ss) in
  let hs := if truth (u64 hl mod ss) then s32 (hs + 1) else hs in
  (if hs <? 16384 / ss then 16384 / ss else hs) = entry_sects ss n.
Proof.
  intros [Hss _] Hn hl. unfold hl. rewrite (s32_small (n * 128)), u64_small by lia.
  assert (ceil_div (n * 128) ss < 2 ^ 31).
  { unfold ceil_div. apply Z.div_lt_upper_bound; lia. }
  pose proof (round_up (n * 128) ss ltac:(lia) ltac:(lia) ltac:(done)) as Er.
  cbv zeta in *. rewrite Er. unfold entry_sects.
  destruct (Z.ltb_spec (ceil_div (n * 128) ss) (16384 / ss)); lia.
Qed.

Lemma check_parts_ok rand s :
  layout_input s → Forall (λ p, guid_is_zero (p_type p) = false) (parts s) →
  image_sects s = 0 ∨ needed_sects (sect_size s) (parts s) <= image_sects s →
  ∃ s', check_parts rand s = (0, s') ∧ layout (parts s) s' ∧
    sect_size s' = sect_size s ∧ disk_guid s' = disk_guid s ∧
    (image_sects s ≠ 0 → image_sects s' = image_sects s) ∧
    needed_sects (sect_size s) (parts s) <= image_sects s'.
Proof.
  intros [Hss Hun Him Hmin Hneed Hcount] Hty Himg. pose proof Hss as [Hss1 _].
  destruct (entry_sects_room (sect_size s) (Z.of_nat (length (parts s))) Hss) as (R1 & R2 & R3);
    [lia|].
  pose proof (total_sects_nonneg (sect_size s) (parts s) ltac:(lia)) as Ht.
  unfold check_parts. rewrite (s32_small (Z.of_nat (length (parts s)))) by lia.
  rewrite header_sects_code by (done || lia). unfold needed_sects in *.
  set (hs := entry_sects _ _) in *. rewrite (s32_small (2 + hs)) by lia.
  destruct (place_parts_spec rand (sect_size s) (parts s) 0 (2 + hs) (rnd_pos s))
    as (ps' & pos' & -> & Hpl); [lia|done|done|lia|lia|].
  set (tot := total_sects _ _) in *. cbn [image_sects min_image_sects set_parts set_rnd_pos].
  rewrite (s32_small (2 + hs + tot + 1 + hs)) by lia.
  set (im := if image_sects s =? 0 then _ else _).
  assert (2 + 2 * hs + tot + 1 <= im < 2 ^ 31 ∧ (image_sects s ≠ 0 → im = image_sects s)) as [Hi Hi'].
  { unfold im. destruct (Z.eqb_spec (image_sects s) 0); [|lia].
    destruct (Z.ltb_spec (min_image_sects s) (2 + hs + tot + 1 + hs)); lia. }
  destruct ((image_sects s =? 0) || (2 + hs + tot + 1 + hs <=? image_sects s)) eqn:Eok.
  - eexists. split; [done|]. rewrite !s32_small by lia. split; [|split_and!; done || (simpl; lia)].
    split; cbn; try done; try lia.
  - exfalso. apply orb_false_iff in Eok as [E1 E2]. bdestr; lia.
Qed.

Lemma place_parts_no_type rand ss ps id cur pos :
  Exists (λ p, guid_is_zero (p_type p) = true) ps →
  place_parts rand ss ps id cur pos = None.
Proof.
  intros Hex. revert id cur pos. induction Hex as [p ps Hp|p ps Hex IH]; intros id cur pos.
  - cbn [place_parts]. by rewrite Hp.
  - cbn [place_parts]. destruct (guid_is_zero (p_type p)); [done|].
    destruct (guid_is_zero (p_uuid p)); cbv zeta; by destruct (_ || _); rewrite ?IH.
Qed.

Lemma check_parts_too_small rand s :
  layout_input s → Forall (λ p, guid_is_zero (p_type p) = false) (parts s) →
  image_sects s ≠ 0 → image_sects s < needed_sects (sect_size s) (parts s) →
  (check_parts rand s).1 = -1.
Proof.
  intros [Hss Hun Him Hmin Hneed Hcount] Hty Hne Hlt. pose proof Hss as [Hss1 _].
  destruct (entry_sects_room (sect_size s) (Z.of_nat (length (parts s))) Hss) as (R1 & R2 & R3);
    [lia|].
  pose proof (total_sects_nonneg (sect_size s) (parts s) ltac:(lia)) as Ht.
  unfold check_parts. rewrite (s32_small (Z.of_nat (length (parts s)))) by lia.
  rewrite header_sects_code by (done || lia). unfold needed_sects in *.
  set (hs := entry_sects _ _) in *. rewrite (s32_small (2 + hs)) by lia.
  destruct (place_parts_spec rand (sect_size s) (parts s) 0 (2 + hs) (rnd_pos s))
    as (ps' & pos' & -> & Hpl); [lia|done|done|lia|lia|].
  set (tot := total_sects _ _) in *. cbn [image_sects set_parts set_rnd_pos].
  rewrite (s32_small (2 + hs + tot + 1 + hs)) by lia.
  destruct (Z.eqb_spec (image_sects s) 0); [done|].
  destruct (Z.leb_spec (2 + hs + tot + 1 + hs) (image_sects s)); [lia|done].
Qed.

(** C14. [check_parts] lays out every partition list whose sector counts fit an
    [int]: it fails exactly when a partition has no type or a requested image
    size is too small; otherwise partitions follow each other from the first
    usable sector, each just large enough for its file, and neither copy of
    the tables overlaps them. *)
Theorem check_parts_layout rand s :
  layout_input s →
  let fits := image_sects s = 0 ∨ needed_sects (sect_size s) (parts s) <= image_sects s in
  let typed := Forall (λ p, guid_is_zero (p_type p) = false) (parts s) in
  let '(r, s') := check_parts rand s in
  (r = 0 ∧ typed ∧ fits ∧ layout (parts s) s') ∨ (r = -1 ∧ ¬ (typed ∧ fits)).
Proof.
  intros Hin fits typed. unfold typed, fits.
  destruct (decide (Forall (λ p, guid_is_zero (p_type p) = false) (parts s))) as [Hty|Hno].
  - destruct (decide (image_sects s = 0 ∨ needed_sects (sect_size s) (parts s) <= image_sects s))
      as [Hf|Hf].
    + destruct (check_parts_ok rand s Hin Hty Hf) as (s' & -> & Hl & _). by left.
    + pose proof (check_parts_too_small rand s Hin Hty ltac:(lia) ltac:(lia)) as E.
      destruct (check_parts rand s) as [r s']. simpl in E. right. tauto.
  - unfold check_parts. rewrite place_parts_no_type; [right; tauto|].
    apply (not_Forall_Exists _) in Hno. eapply Exists_impl; [exact Hno|].
    intros p Hp. destruct (guid_is_zero (p_type p)) eqn:E; [done|]. by destruct (Hp E).
Qed.

Definition demo_part (id : Z) (n : nat) : PART :=
  with_type efi_system_guid (new_part id (replicate n 7)).
Definition demo : mkgpt := set_parts [demo_part 1 600; demo_part 2 0; demo_part 3 512] mkgpt_init.

Lemma demo_input : layout_input demo.
Proof.
  split; try (simpl; lia); try done.
  repeat constructor.
Qed.

Lemma check_parts_layout_witness :
  let fits := image_sects demo = 0 ∨ needed_sects (sect_size demo) (parts demo) <= image_sects demo in
  let typed := Forall (λ p, guid_is_zero (p_type p) = false) (parts demo) in
  let '(r, s') := check_parts (λ k, Z.of_nat k) demo in
  (r = 0 ∧ typed ∧ fits ∧ layout (parts demo) s') ∨ (r = -1 ∧ ¬ (typed ∧ fits)).
Proof. apply (check_parts_layout (λ k, Z.of_nat k) demo). exact demo_input. Defined.

(** ** The image *)
Lemma put_bytes_app m a l1 l2 :
  put_bytes m a (l1 ++ l2) = put_bytes (put_bytes m a l1) (a + Z.of_nat (length l1)) l2.
Proof.
  revert m a. induction l1 as [|b l1 IH]; intros m a; simpl; [by rewrite Z.add_0_r|].
  rewrite IH. f_equal. lia.
Qed.

Lemma rdbytes_nth n m a i : (i < n)%nat → nth i (rdbytes n m a) 0 = rd8 m (a + Z.of_nat i).
Proof.
  revert a i. induction n as [|n IH]; intros a i Hi; [lia|].
  destruct i as [|i]; cbn [rdbytes nth]; [by rewrite Z.add_0_r|].
  rewrite IH by lia. f_equal. lia.
Qed.

Lemma length_rdbytes n m a : length (rdbytes n m a) = n.
Proof. revert a. induction n; intros a; simpl; auto. Qed.

Lemma rdbytes_bytes n m a : Forall byte_ok (rdbytes n m a).
Proof.
  revert a. induction n as [|n IH]; intros a; constructor; [apply rd8_range|done].
Qed.

Lemma rdbytes_ext n m1 m2 a b :
  (∀ i, 0 <= i < Z.of_nat n → rd8 m1 (a + i) = rd8 m2 (b + i)) → rdbytes n m1 a = rdbytes n m2 b.
Proof.
  revert a b. induction n as [|n IH]; intros a b H; [done|]. cbn [rdbytes]. f_equal.
  - specialize (H 0). rewrite !Z.add_0_r in H. apply H. lia.
  - apply IH. intros i Hi. replace (a + 1 + i) with (a + (i + 1)) by lia.
    replace (b + 1 + i) with (b + (i + 1)) by lia. apply H. lia.
Qed.

(** Writing bytes and reading them back. *)
Lemma rdbytes_put_bytes m a l : Forall byte_ok l → rdbytes (length l) (put_bytes m a l) a = l.
Proof.
  intros Hl. apply nth_ext with 0 0; [apply length_rdbytes|]. rewrite length_rdbytes.
  intros i Hi. rewrite rdbytes_nth by done. rewrite rd8_put_bytes, decide_True by lia.
  replace (Z.to_nat (a + Z.of_nat i - a)) with i by lia. apply u8_small.
  rewrite Forall_forall in Hl. apply Hl. apply list_elem_of_In, nth_In. done.
Qed.

(** A file content as a sequence of writes, each before the next. *)
Definition run_writes (ws : list (Z * list Z)) (m : mem) : mem :=
  foldl (λ m w, put_bytes m w.1 w.2) m ws.

Inductive ordered : Z → list (Z * list Z) → Prop :=
| ordered_nil lo : ordered lo []
| ordered_cons lo a l ws :
    lo <= a → ordered (a + Z.of_nat (length l)) ws → ordered lo ((a, l) :: ws).

Lemma run_writes_below lo ws m k : ordered lo ws → k < lo → rd8 (run_writes ws m) k = rd8 m k.
Proof.
  intros Ho. revert m k. induction Ho as [|lo a l ws Hle Ho IH]; intros m k Hk; [done|].
  cbn [run_writes foldl fst snd]. fold (run_writes ws (put_bytes m a l)).
  rewrite IH by lia. rewrite rd8_put_bytes, decide_False by lia. done.
Qed.

Lemma run_writes_read lo ws m a l :
  ordered lo ws → (a, l) ∈ ws → Forall byte_ok l →
  rdbytes (length l) (run_writes ws m) a = l.
Proof.
  intros Ho. revert m. induction Ho as [|lo b l' ws Hle Ho IH]; intros m Hin Hl.
  - by apply not_elem_of_nil in Hin.
  - cbn [run_writes foldl fst snd]. fold (run_writes ws (put_bytes m b l')).
    apply elem_of_cons in Hin as [Heq|Hin]; [|by apply IH]. injection Heq as <- <-.
    transitivity (rdbytes (length l) (put_bytes m a l) a); [|by apply rdbytes_put_bytes].
    apply rdbytes_ext.
    intros i Hi. eapply run_writes_below; [exact Ho|lia].
Qed.

(** [copy_part] writes the whole source when it fits. *)
Lemma copy_part_spec fuel ss len written src f :
  0 < ss → (length src < fuel)%nat → 0 <= written →
  written + Z.of_nat (length src) <= len →
  copy_part fuel ss len written src f =
  File (put_bytes (f_data f) (f_pos f) src) (f_pos f + Z.of_nat (length src)).
Proof.
  intros Hss. revert written src f. induction fuel as [|fuel IH]; intros w src f Hf Hw Hlen; [lia|].
  cbn [copy_part]. rewrite length_take. set (n := Nat.min (Z.to_nat ss) (length src)).
  destruct (Z.eqb_spec (Z.of_nat n) 0) as [E|Hne].
  - assert (src = []) as -> by (destruct src; [done|unfold n in E; simpl in E; lia]).
    destruct f. simpl. by rewrite Z.add_0_r.
  - destruct (Z.ltb_spec len (w + Z.of_nat n)); [unfold n in *; lia|].
    rewrite Nat2Z.id. assert (take n (take (Z.to_nat ss) src) = take (Z.to_nat ss) src) as ->.
    { rewrite take_take. unfold n. destruct (decide (Z.to_nat ss <= length src)%nat).
      - by replace (Nat.min _ (Z.to_nat ss)) with (Z.to_nat ss) by lia.
      - rewrite !take_ge by lia. done. }
    rewrite IH; [|rewrite ?length_drop; unfold n in *; lia..].
    unfold fwrite. cbn [f_data f_pos]. rewrite length_drop, length_take. fold n. f_equal.
    + rewrite <- (take_drop (Z.to_nat ss) src) at 3. rewrite put_bytes_app, length_take. done.
    + unfold n. lia.
Qed.

Definition part_bytes (ss : Z) (p : PART) : Z * list Z := (sect_start p * ss, p_src p).

Lemma write_part_spec ss p f :
  0 < ss → 0 <= sect_start p → sect_start p * ss < 2 ^ 64 →
  Z.of_nat (length (p_src p)) <= sect_length p * ss < 2 ^ 64 →
  f_data (write_part ss p f) = put_bytes (f_data f) (sect_start p * ss) (p_src p).
Proof.
  intros Hss H0 H1 H2. unfold write_part. rewrite copy_part_spec by (rewrite ?u64_small; lia).
  unfold fseek. cbn [f_data f_pos]. by rewrite u64_small by nia.
Qed.

Definition image_writes (s : mkgpt) : list (Z * list Z) :=
  let ss := sect_size s in
  let entries := put_entries buf0 0 (parts s) in
  let gpt := gpt_primary s entries in
  [(0, buf_bytes ss (mbr_sector s)); (ss, buf_bytes ss gpt);
   (2 * ss, buf_bytes (header_sectors s * ss) entries)] ++
  (part_bytes ss <$> parts s) ++
  [(secondary_headers_sect s * ss, buf_bytes (header_sectors s * ss) entries);
   (secondary_gpt_sect s * ss, buf_bytes ss (gpt_secondary s gpt))].

Lemma length_buf_bytes n b : 0 <= n → Z.of_nat (length (buf_bytes n b)) = n.
Proof. intros. unfold buf_bytes. rewrite length_rdbytes. lia. Qed.

Lemma sects_hold ss p : 0 < ss → Z.of_nat (length (p_src p)) <= sects_of ss p * ss.
Proof.
  intros Hss. unfold sects_of, ceil_div. set (n := Z.of_nat _).
  pose proof (Z.div_mod (n + ss - 1) ss ltac:(lia)).
  pose proof (Z.mod_pos_bound (n + ss - 1) ss ltac:(lia)). lia.
Qed.

(** What a placed partition has: its file fits, inside the usable area. *)
Definition part_fits (ss lo hi : Z) (p : PART) : Prop :=
  lo <= sect_start p ∧ 0 <= sect_length p ∧ sect_start p + sect_length p <= hi ∧
  Z.of_nat (length (p_src p)) <= sect_length p * ss.

Lemma placed_mono ss start ps ps' stop : 0 < ss → placed ss start ps ps' stop → start <= stop.
Proof.
  intros Hss H. induction H as [|start p p' ps ps' stop _ _ IH]; [lia|].
  pose proof (sects_of_nonneg ss p Hss). lia.
Qed.

Lemma placed_fits ss start ps ps' stop :
  0 < ss → placed ss start ps ps' stop → Forall (part_fits ss start stop) ps'.
Proof.
  intros Hss H. induction H as [|start p p' ps ps' stop Hp Hpl IH]; [constructor|].
  pose proof (placed_mono _ _ _ _ _ Hss Hpl). pose proof (sects_of_nonneg ss p Hss).
  pose proof (sects_hold ss p Hss).
  destruct Hp as (_ & Es & _ & _ & _ & _ & _ & _ & _ & E1 & E2).
  constructor.
  - unfold part_fits. rewrite E1, E2, Es. split_and!; lia.
  - eapply Forall_impl; [exact IH|]. intros q (? & ? & ? & ?). split_and!; lia.
Qed.

Lemma placed_ordered ss start ps ps' stop ws :
  0 < ss → placed ss start ps ps' stop → ordered (stop * ss) ws →
  ordered (start * ss) ((part_bytes ss <$> ps') ++ ws).
Proof.
  intros Hss H Hws. induction H as [|start p p' ps ps' stop Hp Hpl IH]; [done|].
  pose proof (sects_hold ss p Hss).
  destruct Hp as (_ & Es & _ & _ & _ & _ & _ & _ & _ & E1 & E2).
  cbn [fmap list_fmap app part_bytes]. unfold part_bytes at 1. rewrite E1, Es.
  constructor; [lia|]. specialize (IH Hws). revert IH.
  generalize ((part_bytes ss <$> ps') ++ ws). intros l Hl.
  inversion Hl; subst; constructor; [lia|done].
Qed.

Lemma write_parts_spec ss ps f :
  0 < ss → Forall (part_fits ss 0 (2 ^ 31)) ps → ss <= 4096 →
  f_data (foldl (λ f p, write_part ss p f) f ps) = run_writes (part_bytes ss <$> ps) (f_data f).
Proof.
  intros Hss Hps H4. revert f. induction Hps as [|p ps (H1 & H2 & H3 & H4') Hps IH]; intros f; [done|].
  cbn [foldl fmap list_fmap run_writes]. rewrite IH.
  rewrite write_part_spec by (try nia). done.
Qed.

Lemma run_writes_app ws1 ws2 m : run_writes (ws1 ++ ws2) m = run_writes ws2 (run_writes ws1 m).
Proof. apply foldl_app. Qed.

Section image.
Context (ps : list PART) (s : mkgpt).
Hypothesis Hl : layout ps s.

Lemma image_bounds :
  512 <= sect_size s <= 4096 ∧ 0 < header_sectors s ∧
  2 + header_sectors s <= secondary_headers_sect s ∧
  secondary_headers_sect s + header_sectors s = secondary_gpt_sect s ∧
  secondary_gpt_sect s < 2 ^ 31.
Proof.
  destruct Hl as [[Hss Hmod] Hc He Hr Hf Hp Hfit Hsec Hla].
  pose proof (total_sects_nonneg (sect_size s) ps ltac:(lia)).
  destruct (entry_sects_room (sect_size s) (part_count s)) as (_ & _ & Hpos); [done|lia|].
  rewrite <- He in Hpos. lia.
Qed.

Lemma image_parts_fit : Forall (part_fits (sect_size s) 0 (2 ^ 31)) (parts s).
Proof.
  pose proof image_bounds. eapply Forall_impl.
  - eapply placed_fits; [|apply (lo_placed _ _ Hl)]. lia.
  - intros p (? & ? & ? & ?). pose proof (lo_fits _ _ Hl). pose proof (lo_first _ _ Hl).
    split_and!; lia.
Qed.

Lemma write_output_writes : f_data (write_output s) = run_writes (image_writes s) ∅.
Proof.
  pose proof image_bounds as (B1 & B2 & B3 & B4 & B5).
  unfold write_output, image_writes. set (ss := sect_size s) in *.
  set (entries := put_entries buf0 0 (parts s)). set (gpt := gpt_primary s entries).
  rewrite !run_writes_app. unfold fwrite at 1. cbn [f_data f_pos fseek].
  unfold fwrite at 1. cbn [f_data f_pos fseek]. rewrite !u64_small by nia.
  unfold run_writes at 1. cbn [foldl fst snd].
  rewrite write_parts_spec; [|lia|apply image_parts_fit|lia].
  unfold run_writes at 3. cbn [foldl fst snd]. unfold fwrite. cbn [f_data f_pos].
  rewrite !length_buf_bytes by lia. rewrite Z.add_0_l. by replace (ss + ss) with (2 * ss) by lia.
Qed.

Lemma image_ordered : ordered 0 (image_writes s).
Proof.
  pose proof image_bounds as (B1 & B2 & B3 & B4 & B5). unfold image_writes. cbn [app].
  constructor; [lia|]. rewrite length_buf_bytes by lia.
  constructor; [lia|]. rewrite length_buf_bytes by lia.
  constructor; [lia|]. rewrite length_buf_bytes by lia.
  replace (2 * sect_size s + header_sectors s * sect_size s)
    with (first_usable_sector s * sect_size s) by (rewrite (lo_first _ _ Hl); lia).
  eapply placed_ordered; [lia|apply (lo_placed _ _ Hl)|].
  pose proof (lo_fits _ _ Hl).
  constructor; [nia|]. rewrite length_buf_bytes by lia.
  constructor; [nia|]. constructor.
Qed.

Lemma image_read a l :
  (a, l) ∈ image_writes s → Forall byte_ok l →
  rdbytes (length l) (f_data (write_output s)) a = l.
Proof.
  intros Hin Hb. rewrite write_output_writes.
  eapply run_writes_read; [apply image_ordered|done|done].
Qed.
End image.

(** ** The headers *)
Lemma for_up_same_outside n i a len (f : Z → mem → mem) m :
  (∀ k b, i <= k < i + Z.of_nat n → same_outside a len b (f k b)) →
  same_outside a len m (for_up n i f m).
Proof.
  intros Hf. apply (for_up_ind (λ _ b, same_outside a len m b) f n i m);
    [apply same_outside_refl|].
  intros k b Hk Hb. eapply same_outside_trans; [exact Hb|]. by apply Hf.
Qed.

Lemma wr_outside n m a v b k :
  b <= a → a + Z.of_nat n <= b + k → same_outside b k m (wr n m a v).
Proof. intros. eapply same_outside_weaken; [apply wr_same_outside|done|done]. Qed.

Lemma wr8_outside m a v b k : b <= a → a + 1 <= b + k → same_outside b k m (wr8 m a v).
Proof. apply (wr_outside 1). Qed.

Lemma put_guid_outside m off g : same_outside off 16 m (put_guid m off g).
Proof.
  unfold put_guid, wr32, wr16.
  eapply same_outside_trans; [apply (wr_outside 4 m off (data1 g)); lia|].
  eapply same_outside_trans; [apply (wr_outside 2 _ (off + 4) (data2 g)); lia|].
  eapply same_outside_trans; [apply (wr_outside 2 _ (off + 6) (data3 g)); lia|].
  apply for_up_same_outside. intros k b Hk. apply wr8_outside; lia.
Qed.

Lemma rd_put_guid_ne n m off g a :
  a + Z.of_nat n <= off ∨ off + 16 <= a → rd n (put_guid m off g) a = rd n m a.
Proof. intros. eapply rd_same_outside; [apply put_guid_outside|done]. Qed.

(** Read a field of a buffer built by a chain of stores. *)
Ltac field :=
  unfold rd64, rd32, wr64, wr32;
  repeat first
    [ rewrite rd_wr_eq
    | rewrite rd_wr_ne by lia
    | rewrite rd_put_guid_ne by lia ].

Lemma rd_zero_inv n m a :
  rd n m a = 0 → ∀ k, a <= k < a + Z.of_nat n → rd8 m k = 0.
Proof.
  revert a. induction n as [|n IH]; intros a H k Hk; [lia|].
  cbn [rd] in H. pose proof (rd8_range m a). pose proof (rd_range n m (a + 1)).
  destruct (decide (k = a)) as [->|]; [lia|]. apply (IH (a + 1)); lia.
Qed.

Lemma store_crc_eq b n dst off :
  0 < n → store_crc b n dst off = wr32 dst off (crc32_ref (buf_bytes n b)).
Proof.
  intros Hn. unfold store_crc, CalculateCrc32. unfold buf_bytes at 1.
  rewrite length_rdbytes. destruct (Nat.eqb_spec (Z.to_nat n) 0); [lia|]. simpl.
  unfold crc32_ref. by rewrite crc_steps_bytes by apply rdbytes_bytes.
Qed.

Lemma crc32_ref_range l : Forall byte_ok l → 0 <= crc32_ref l < 2 ^ 32.
Proof.
  intros Hl. apply (lxor_bound 32); [lia| |lia]. by apply crc_bytes_ok; [unfold crc_ok; lia|].
Qed.

(** ** The entry array

    What the specification of the format puts into an entry, as bytes. *)
Definition guid_bytes (g : GUID) : list Z :=
  le_bytes 4 (data1 g) ++ le_bytes 2 (data2 g) ++ le_bytes 2 (data3 g) ++
  ((λ i, u8 (nth i (data4 g) 0)) <$> seq 0 8).

(** 36 characters of 16 bits; the name is cut so that a 0 ends it. *)
Definition name_unit (name : list Z) (k : nat) : Z :=
  if (k <? Nat.min (length name) 35)%nat then u16 (s8 (nth k name 0)) else 0.

Definition entry_bytes (p : PART) : list Z :=
  guid_bytes (p_type p) ++ guid_bytes (p_uuid p) ++
  le_bytes 8 (sect_start p) ++ le_bytes 8 (sect_start p + sect_length p - 1) ++
  le_bytes 8 (p_attrs p) ++
  (seq 0 36 ≫= λ k, le_bytes 2 (name_unit (default [] (p_name p)) k)).

Lemma le_bytes_mod n v : le_bytes n (v mod 256 ^ Z.of_nat n) = le_bytes n v.
Proof.
  revert v. induction n as [|n IH]; intros v; [done|]. cbn [le_bytes].
  rewrite Nat2Z.inj_succ, Z.pow_succ_r by lia.
  pose proof (Z.pow_pos_nonneg 256 (Z.of_nat n) ltac:(lia) ltac:(lia)).
  rewrite Z.rem_mul_r by lia. f_equal.
  - rewrite Z.mul_comm, Z.mod_add, Z.mod_mod by lia. done.
  - rewrite Z.mul_comm, Z.div_add, Z.div_small by (lia || apply Z.mod_pos_bound; lia).
    by rewrite Z.add_0_l, IH.
Qed.

Lemma length_le_bytes n v : length (le_bytes n v) = n.
Proof. revert v. induction n; intros v; simpl; auto. Qed.

(** Bytes as numbers, and in pieces. *)
Lemma rdbytes_le n m a : rdbytes n m a = le_bytes n (rd n m a).
Proof.
  revert a. induction n as [|n IH]; intros a; [done|]. cbn [rdbytes rd le_bytes].
  pose proof (rd8_range m a). rewrite IH. f_equal; [|f_equal]; dlia.
Qed.

Lemma rdbytes_field n m a v : rd n m a = v mod 256 ^ Z.of_nat n → rdbytes n m a = le_bytes n v.
Proof. intros E. by rewrite rdbytes_le, E, le_bytes_mod. Qed.

Lemma rdbytes_app n k m a : rdbytes (n + k) m a = rdbytes n m a ++ rdbytes k m (a + Z.of_nat n).
Proof.
  revert a. induction n as [|n IH]; intros a; [by rewrite Z.add_0_r|].
  cbn [Nat.add rdbytes app]. rewrite IH. do 3 f_equal. lia.
Qed.

Lemma rdbytes_split n k m a b :
  b = a + Z.of_nat n → rdbytes (n + k) m a = rdbytes n m a ++ rdbytes k m b.
Proof. intros ->. apply rdbytes_app. Qed.

Lemma rdbytes_units i n m a f :
  (∀ k, (i <= k < i + n)%nat → rd 2 m (a + 2 * Z.of_nat k) = f k mod 256 ^ 2) →
  rdbytes (2 * n) m (a + 2 * Z.of_nat i) = seq i n ≫= λ k, le_bytes 2 (f k).
Proof.
  revert i. induction n as [|n IH]; intros i H; [done|].
  replace (2 * S n)%nat with (2 + 2 * n)%nat by lia. rewrite rdbytes_app. cbn [seq].
  rewrite bind_cons. f_equal; [apply rdbytes_field, H; lia|].
  replace (a + 2 * Z.of_nat i + Z.of_nat 2) with (a + 2 * Z.of_nat (S i)) by lia.
  apply IH. intros k Hk. apply H. lia.
Qed.

Lemma rdbytes_zero n m a : (∀ k, a <= k < a + Z.of_nat n → rd8 m k = 0) → rdbytes n m a = replicate n 0.
Proof.
  revert a. induction n as [|n IH]; intros a H; [done|]. cbn [rdbytes replicate].
  rewrite H by lia. f_equal. apply IH. intros k Hk. apply H. lia.
Qed.

Lemma rdbytes_same n m1 m2 a b k :
  same_outside b k m1 m2 → a + Z.of_nat n <= b ∨ b + k <= a → rdbytes n m2 a = rdbytes n m1 a.
Proof. intros H Ha. apply rdbytes_ext. intros i Hi. apply H. lia. Qed.

Lemma put_guid_bytes m off g : rdbytes 16 (put_guid m off g) off = guid_bytes g.
Proof.
  unfold put_guid. set (m0 := wr16 _ (off + 6) _).
  pose (P := λ (i : Z) b, same_outside (off + 8) 8 m0 b ∧
    ∀ j, 0 <= j < i → rd8 b (off + 8 + j) = u8 (nth (Z.to_nat j) (data4 g) 0)).
  assert (P (0 + Z.of_nat 8) (for_up 8 0 (λ i b, wr8 b (off + 8 + i) (nth (Z.to_nat i) (data4 g) 0)) m0)) as [H1 H2].
  { apply for_up_ind.
    - split; [apply same_outside_refl|lia].
    - intros i b Hi [I1 I2]. split.
      + eapply same_outside_trans; [exact I1|]. apply wr8_outside; lia.
      + intros j Hj. rewrite rd8_wr8. case_decide; [by replace j with i by lia|]. apply I2. lia. }
  set (m1 := for_up _ _ _ _) in *. change 16%nat with (4 + (2 + (2 + 8)))%nat.
  rewrite (rdbytes_split 4 _ _ _ (off + 4)), (rdbytes_split 2 _ _ _ (off + 6)), (rdbytes_split 2 _ _ _ (off + 8)) by lia.
  unfold guid_bytes. f_equal; [|f_equal; [|f_equal]].
  1-3: rewrite (rdbytes_same _ _ _ _ _ _ H1) by lia; apply rdbytes_field; unfold m0, wr32, wr16;
    repeat (rewrite rd_wr_ne by lia); apply rd_wr_eq.
  apply nth_ext with 0 0; [done|]. rewrite length_rdbytes. intros i Hi.
  rewrite rdbytes_nth by done. rewrite H2, Nat2Z.id by lia.
  symmetry. apply nth_lookup_Some. rewrite list_lookup_fmap, lookup_seq_lt by done. done.
Qed.

Lemma put_name_bytes n b a name :
  n = Nat.min (length name) 35 → (∀ k, a <= k < a + 72 → rd8 b k = 0) →
  let b' := for_up n 0 (λ k b, wr16 b (a + k * 2) (u16 (s8 (nth (Z.to_nat k) name 0)))) b in
  rdbytes 72 b' a = (seq 0 36 ≫= λ k, le_bytes 2 (name_unit name k)) ∧ same_outside a 72 b b'.
Proof.
  intros Hn Hz b'.
  pose (P := λ (i : Z) m, same_outside a 72 b m ∧ ∀ k, (k < 36)%nat →
    rd 2 m (a + 2 * Z.of_nat k) = if Z.of_nat k <? i then u16 (s8 (nth k name 0)) else 0).
  assert (P (0 + Z.of_nat n) b') as [H1 H2].
  { apply for_up_ind.
    - split; [apply same_outside_refl|]. intros k Hk. destruct (Z.ltb_spec (Z.of_nat k) 0); [lia|].
      cbn [rd]. rewrite !Hz by lia. done.
    - intros i m Hi [I1 I2]. split.
      + eapply same_outside_trans; [exact I1|]. apply (wr_outside 2); lia.
      + intros k Hk. unfold wr16. destruct (decide (Z.of_nat k = i)) as [E|].
        * replace (a + i * 2) with (a + 2 * Z.of_nat k) by lia. rewrite rd_wr_eq.
          rewrite (proj2 (Z.ltb_lt _ _)), <- E, Nat2Z.id by lia. apply Z.mod_small, u16_range.
        * rewrite rd_wr_ne by lia. rewrite I2 by done.
          destruct (Z.ltb_spec (Z.of_nat k) i), (Z.ltb_spec (Z.of_nat k) (i + 1)); try lia; done. }
  split; [|done]. rewrite <- (Z.add_0_r a) at 1. apply (rdbytes_units 0 36). intros k Hk.
  rewrite H2 by lia. unfold name_unit. rewrite <- Hn, Z.add_0_l.
  destruct (Z.ltb_spec (Z.of_nat k) (Z.of_nat n)), (Nat.ltb_spec k n); try lia; [|done].
  symmetry. apply Z.mod_small, u16_range.
Qed.

Lemma put_entry_bytes b off p :
  (∀ k, off <= k < off + 128 → rd8 b k = 0) → 0 <= sect_start p < 2 ^ 31 → 0 <= sect_length p →
  0 < sect_start p + sect_length p <= 2 ^ 31 →
  rdbytes 128 (put_entry b off p) off = entry_bytes p ∧ same_outside off 128 b (put_entry b off p).
Proof.
  intros Hz H1 H2 H3. unfold put_entry. rewrite s32_small, !u64_small by lia.
  set (g1 := put_guid b off (p_type p)). set (g2 := put_guid g1 (off + 16) (p_uuid p)).
  set (w1 := wr64 g2 (off + 32) _). set (w2 := wr64 w1 (off + 40) _). set (w3 := wr64 w2 (off + 48) _).
  assert (same_outside off 16 b g1) as G1 by apply put_guid_outside.
  assert (same_outside (off + 16) 16 g1 g2) as G2 by apply put_guid_outside.
  assert (same_outside (off + 32) 8 g2 w1) as W1 by (apply (wr_outside 8); lia).
  assert (same_outside (off + 40) 8 w1 w2) as W2 by (apply (wr_outside 8); lia).
  assert (same_outside (off + 48) 8 w2 w3) as W3 by (apply (wr_outside 8); lia).
  destruct (put_name_bytes _ w3 (off + 56) (default [] (p_name p)) eq_refl) as [N1 N2].
  { intros k Hk. rewrite (W3 k), (W2 k), (W1 k), (G2 k), (G1 k) by lia. apply Hz. lia. }
  set (w4 := for_up _ _ _ _) in *. split.
  - change 128%nat with (16 + (16 + (8 + (8 + (8 + 72)))))%nat. 
    rewrite (rdbytes_split 16 _ _ _ (off + 16)), (rdbytes_split 16 _ _ _ (off + 32)), (rdbytes_split 8 _ _ _ (off + 40)),
      (rdbytes_split 8 _ _ _ (off + 48)), (rdbytes_split 8 _ _ _ (off + 56)), N1 by lia.
    rewrite !(rdbytes_same _ _ _ _ _ _ N2), !(rdbytes_same 16 _ _ _ _ _ W3), !(rdbytes_same 16 _ _ _ _ _ W2),
      !(rdbytes_same 16 _ _ _ _ _ W1), (rdbytes_same 16 _ _ off _ _ G2) by lia.
    unfold entry_bytes. f_equal; [apply put_guid_bytes|]. f_equal; [apply put_guid_bytes|].
    f_equal; [|f_equal; [|f_equal]]; apply rdbytes_field; unfold w3, w2, w1, wr64;
      repeat (rewrite rd_wr_ne by lia); apply rd_wr_eq.
  - do 5 (eapply same_outside_trans; [eapply same_outside_weaken; [eassumption|lia|lia]|]).
    eapply same_outside_weaken; [exact N2|lia|lia].
Qed.

(** A partition whose sectors are numbers of the entry. *)
Definition entry_ok (p : PART) : Prop :=
  0 < sect_start p < 2 ^ 31 ∧ 0 <= sect_length p ∧ sect_start p + sect_length p <= 2 ^ 31.

Lemma put_entries_bytes ps b i :
  (∀ k, i * 128 <= k → rd8 b k = 0) → Forall entry_ok ps →
  rdbytes (128 * length ps) (put_entries b i ps) (i * 128) = (ps ≫= entry_bytes) ∧
  same_outside (i * 128) (128 * Z.of_nat (length ps)) b (put_entries b i ps).
Proof.
  intros Hz Hok. revert b i Hz. induction Hok as [|p ps (O1 & O2 & O3) Hok IH]; intros b i Hz.
  { split; [done|apply same_outside_refl]. }
  cbn [put_entries length]. rewrite bind_cons.
  destruct (put_entry_bytes b (i * 128) p) as [E1 E2]; [intros k Hk; apply Hz; lia|lia..|].
  destruct (IH (put_entry b (i * 128) p) (i + 1)) as [F1 F2].
  { intros k Hk. rewrite (E2 k) by lia. apply Hz. lia. }
  split.
  - replace (128 * S (length ps))%nat with (128 + 128 * length ps)%nat by lia. rewrite rdbytes_app.
    rewrite (rdbytes_same _ _ _ _ _ _ F2), E1 by lia. f_equal. rewrite <- F1. f_equal. lia.
  - eapply same_outside_trans; (eapply same_outside_weaken; [eassumption|lia|lia]).
Qed.

Lemma length_entry_bytes p : length (entry_bytes p) = 128%nat.
Proof. unfold entry_bytes, guid_bytes. rewrite !length_app, !length_le_bytes, !length_fmap. done. Qed.
Lemma length_entries ps : length (ps ≫= entry_bytes) = (128 * length ps)%nat.
Proof. induction ps as [|p ps IH]; [done|]. rewrite bind_cons, length_app, length_entry_bytes, IH. cbn [length]. lia. Qed.

(** The array in a buffer of [n] bytes. *)
Definition entry_table (n : Z) (ps : list PART) : list Z :=
  (ps ≫= entry_bytes) ++ replicate (Z.to_nat n - 128 * length ps) 0.

Lemma put_entries_table n ps : Forall entry_ok ps → 128 * Z.of_nat (length ps) <= n →
  buf_bytes n (put_entries buf0 0 ps) = entry_table n ps.
Proof.
  intros Hok Hn. destruct (put_entries_bytes ps buf0 0) as [H1 H2]; [done|done|].
  unfold buf_bytes, entry_table.
  replace (Z.to_nat n) with (128 * length ps + (Z.to_nat n - 128 * length ps))%nat at 1 by lia.
  rewrite rdbytes_app. f_equal; [exact H1|]. apply rdbytes_zero. intros k Hk. rewrite H2 by lia. done.
Qed.

(** What a reader of the table checks of a header in the sector [hdr]: the
    signature, the header's own checksum (with its field taken as 0), its
    address, the number and size of the entries, of which [arr] is the array,
    and their checksum. *)
Definition header_valid (hdr : mem) (arr : list Z) (lba : Z) : Prop :=
  rd64 hdr 0 = 0x5452415020494645 ∧ rd32 hdr 8 = 0x00010000 ∧ rd32 hdr 12 = 96 ∧ rd32 hdr 20 = 0 ∧
  rd64 hdr 24 = lba ∧ rd32 hdr 16 = crc32_ref (buf_bytes 96 (wr32 hdr 16 0)) ∧
  rd32 hdr 84 = 128 ∧ rd32 hdr 80 * 128 = Z.of_nat (length arr) ∧ rd32 hdr 88 = crc32_ref arr.

(** Storing a checksum computed while its field was 0. *)
Lemma header_crc_valid hdr :
  rd32 hdr 16 = 0 →
  let h := wr32 hdr 16 (crc32_ref (buf_bytes 96 hdr)) in
  rd32 h 16 = crc32_ref (buf_bytes 96 (wr32 h 16 0)).
Proof.
  intros H0 h. unfold h. unfold rd32 at 1, wr32 at 1. rewrite rd_wr_eq.
  change (256 ^ Z.of_nat 4) with (2 ^ 32).
  rewrite Z.mod_small by apply crc32_ref_range, rdbytes_bytes.
  f_equal. apply rdbytes_ext. intros i Hi. rewrite !Z.add_0_l.
  destruct (decide (16 <= i < 20)) as [H|H].
  - rewrite (rd_zero_inv 4 hdr 16 H0) by lia. symmetry.
    apply (rd_zero_inv 4 _ 16); [|lia]. unfold wr32. by rewrite rd_wr_eq.
  - unfold wr32. rewrite !rd8_wr_outside by lia. done.
Qed.

#[local] Opaque crc32_ref.
Section headers.
Context (ps : list PART) (s : mkgpt).
Hypothesis Hl : layout ps s.
Hypothesis Hne : 0 < part_count s < 2 ^ 23.
Let entries := put_entries buf0 0 (parts s).
Let arr := buf_bytes (part_count s * 128) entries.
Let ecrc := crc32_ref arr.
Let hdr := wr32 (gpt_header s) 88 ecrc.

Lemma gpt_primary_eq : gpt_primary s entries = wr32 hdr 16 (crc32_ref (buf_bytes 96 hdr)).
Proof. unfold gpt_primary. rewrite !store_crc_eq by lia. done. Qed.

Lemma ecrc_range : 0 <= ecrc < 2 ^ 32.
Proof. apply crc32_ref_range, rdbytes_bytes. Qed.

Lemma length_arr : Z.of_nat (length arr) = part_count s * 128.
Proof. apply length_buf_bytes. lia. Qed.

Lemma hdr_fields :
  rd64 hdr 0 = 0x5452415020494645 ∧ rd32 hdr 12 = 96 ∧ rd32 hdr 16 = 0 ∧ rd64 hdr 24 = 1 ∧
  rd64 hdr 32 = secondary_gpt_sect s ∧ rd64 hdr 40 = first_usable_sector s ∧
  rd64 hdr 48 = secondary_headers_sect s - 1 ∧ rd64 hdr 72 = 2 ∧
  rd32 hdr 80 = part_count s ∧ rd32 hdr 84 = 128 ∧ rd32 hdr 88 = ecrc ∧
  rd32 hdr 8 = 0x00010000 ∧ rd32 hdr 20 = 0 ∧ rdbytes 16 hdr 56 = guid_bytes (disk_guid s).
Proof.
  pose proof (image_bounds ps s Hl) as (B1 & B2 & B3 & B4 & B5).
  pose proof (lo_first _ _ Hl). pose proof ecrc_range.
  unfold hdr, gpt_header. rewrite !u64_small, s32_small, u32_small by (rewrite ?s32_small; lia).
  split_and!; [field; try done; apply Z.mod_small; change (256 ^ Z.of_nat 8) with (2 ^ 64);
    change (256 ^ Z.of_nat 4) with (2 ^ 32); lia..|].
  rewrite rdbytes_le. unfold wr64, wr32. rewrite !rd_wr_ne by lia. rewrite <- rdbytes_le. apply put_guid_bytes.
Qed.

Lemma primary_valid :
  header_valid (gpt_primary s entries) arr 1 ∧
  rd64 (gpt_primary s entries) 32 = secondary_gpt_sect s ∧
  rd64 (gpt_primary s entries) 40 = first_usable_sector s ∧
  rd64 (gpt_primary s entries) 48 = secondary_headers_sect s - 1 ∧
  rd64 (gpt_primary s entries) 72 = 2 ∧ rd32 (gpt_primary s entries) 80 = part_count s ∧
  rdbytes 16 (gpt_primary s entries) 56 = guid_bytes (disk_guid s).
Proof.
  destruct hdr_fields as (F0 & F12 & F16 & F24 & F32 & F40 & F48 & F72 & F80 & F84 & F88 & F8 & F20 & F56).
  rewrite gpt_primary_eq. set (c := crc32_ref (buf_bytes 96 hdr)).
  assert (∀ n a, (a + Z.of_nat n <= 16 ∨ 20 <= a) → rd n (wr32 hdr 16 c) a = rd n hdr a) as E.
  { intros n a Ha. unfold wr32. apply rd_wr_ne. lia. }
  pose proof (header_crc_valid hdr F16) as Hcrc. fold c in Hcrc.
  unfold header_valid, rd64, rd32 in *.
  rewrite rdbytes_le in *. rewrite !(E 8%nat), (E 16%nat), (E 4%nat 8), (E 4%nat 12), (E 4%nat 20), (E 4%nat 80), (E 4%nat 84),
    (E 4%nat 88) by lia.
  rewrite F80, F84, F88, length_arr. split_and!; try assumption; reflexivity.
Qed.

(** The first 96 bytes of the secondary header before its checksum. *)
Let gpt := gpt_primary s entries.
Let hdr2 := wr64 (wr64 (wr64 (wr32 (put_bytes buf0 0 (buf_bytes 96 gpt)) 16 0)
              24 (u64 (secondary_gpt_sect s))) 32 0x1) 72 (u64 (secondary_headers_sect s)).

Lemma hdr2_copy n a : 0 <= a → a + Z.of_nat n <= 96 →
  rd n (put_bytes buf0 0 (buf_bytes 96 gpt)) a = rd n gpt a.
Proof.
  intros H0 H1. apply rd_ext. intros k Hk. rewrite rd8_put_bytes, length_buf_bytes by lia.
  rewrite decide_True by lia. unfold buf_bytes. rewrite rdbytes_nth by lia.
  rewrite Z.sub_0_r, Z2Nat.id by lia. apply u8_idemp.
Qed.

Lemma secondary_valid :
  header_valid (gpt_secondary s gpt) arr (secondary_gpt_sect s) ∧
  rd64 (gpt_secondary s gpt) 32 = 1 ∧
  rd64 (gpt_secondary s gpt) 40 = first_usable_sector s ∧
  rd64 (gpt_secondary s gpt) 48 = secondary_headers_sect s - 1 ∧
  rd64 (gpt_secondary s gpt) 72 = secondary_headers_sect s ∧
  rd32 (gpt_secondary s gpt) 80 = part_count s ∧
  rdbytes 16 (gpt_secondary s gpt) 56 = guid_bytes (disk_guid s).
Proof.
  pose proof (image_bounds ps s Hl) as (B1 & B2 & B3 & B4 & B5).
  destruct hdr_fields as (F0 & F12 & F16 & F24 & F32 & F40 & F48 & F72 & F80 & F84 & F88 & F8 & F20 & F56).
  assert (gpt_secondary s gpt = wr32 hdr2 16 (crc32_ref (buf_bytes 96 hdr2))) as ->
    by (unfold gpt_secondary; rewrite store_crc_eq by lia; done).
  assert (rd 4 hdr2 16 = 0) as Z16 by (unfold hdr2; by field).
  pose proof (header_crc_valid hdr2 Z16) as Hcrc. set (c := crc32_ref (buf_bytes 96 hdr2)) in *.
  cbv zeta in Hcrc.
  assert (∀ n a, (a + Z.of_nat n <= 16 ∨ 20 <= a) → rd n (wr32 hdr2 16 c) a = rd n hdr2 a) as E.
  { intros n a Ha. unfold wr32. apply rd_wr_ne. lia. }
  assert (∀ n a, (0 <= a ∧ a + Z.of_nat n <= 16 ∨ 20 <= a ∧ a + Z.of_nat n <= 24 ∨ 40 <= a ∧ a + Z.of_nat n <= 72 ∨
                  80 <= a ∧ a + Z.of_nat n <= 96) → rd n hdr2 a = rd n hdr a) as C.
  { intros n a Ha. unfold hdr2, wr64, wr32. rewrite !rd_wr_ne by lia. rewrite hdr2_copy by lia.
    unfold gpt. rewrite gpt_primary_eq. unfold wr32. rewrite rd_wr_ne by lia. done. }
  assert (rd 8 hdr2 24 = secondary_gpt_sect s ∧ rd 8 hdr2 32 = 1 ∧
          rd 8 hdr2 72 = secondary_headers_sect s) as (G24 & G32 & G72).
  { unfold hdr2. rewrite !u64_small by lia. split_and!; field;
      change (256 ^ Z.of_nat 8) with (2 ^ 64); apply Z.mod_small; lia. }
  unfold header_valid, rd64, rd32 in *.
  rewrite rdbytes_le in *. rewrite !(E 8%nat), (E 16%nat), (E 4%nat 8), (E 4%nat 12), (E 4%nat 20), (E 4%nat 80), (E 4%nat 84),
    (E 4%nat 88) by lia.
  rewrite (C 8%nat 0), (C 8%nat 40), (C 8%nat 48), (C 16%nat 56), !(C 4%nat) by lia.
  rewrite F80, F84, F88, length_arr. split_and!; try assumption; reflexivity.
Qed.
End headers.

(** The protective MBR of a disk: one partition of type 0xee from sector 1 to the
    last sector. *)
Definition protective_mbr (sects : Z) (disk : mem) : Prop :=
  rd8 disk 446 = 0 ∧ rd8 disk 450 = 0xee ∧ rd32 disk 454 = 1 ∧ rd32 disk 458 = sects - 1 ∧
  rd8 disk 510 = 0x55 ∧ rd8 disk 511 = 0xaa.

Lemma rd_wr8_ne n m a v b : b + Z.of_nat n <= a ∨ a + 1 <= b → rd n (wr8 m a v) b = rd n m b.
Proof. intros Hb. apply rd_ext. intros k Hk. rewrite rd8_wr8, decide_False by lia. done. Qed.

Lemma mbr_sector_ok s : 0 < image_sects s < 2 ^ 31 → protective_mbr (image_sects s) (mbr_sector s).
Proof.
  intros Hi. unfold mbr_sector. destruct (Z.ltb_spec 0xffffffff (image_sects s)); [lia|].
  rewrite (u32_small (image_sects s)), u32_small by lia. unfold protective_mbr, wr32, rd32.
  split_and!; repeat first
    [ rewrite rd8_wr8, decide_False by lia
    | rewrite rd8_wr8, decide_True by done
    | rewrite rd8_wr_outside by (cbn; lia)
    | rewrite rd_wr8_ne by (cbn; lia)
    | rewrite rd_wr_eq
    | rewrite rd_wr_ne by (cbn; lia) ]; try done.
  change (256 ^ Z.of_nat 4) with (2 ^ 32). apply Z.mod_small. lia.
Qed.

(** The bytes of a disk of [image_sects s] sectors that is partitioned as [s]
    tells: a protective MBR, the partitions' contents, a header in sector 1 and
    one in the last sector that point at each other, and the entries twice, where
    the headers say. *)
Definition gpt_disk (s : mkgpt) (disk : mem) : Prop :=
  let ss := sect_size s in
  let hs := header_sectors s * ss in
  let arr := parts s ≫= entry_bytes in
  protective_mbr (image_sects s) disk ∧
  (∀ p, p ∈ parts s → Forall byte_ok (p_src p) →
     rdbytes (length (p_src p)) disk (sect_start p * ss) = p_src p) ∧
  (∃ gpt gpt2,
     rdbytes (Z.to_nat ss) disk ss = buf_bytes ss gpt ∧
     rdbytes (Z.to_nat ss) disk (secondary_gpt_sect s * ss) = buf_bytes ss gpt2 ∧
     header_valid gpt arr 1 ∧ header_valid gpt2 arr (image_sects s - 1) ∧
     rd64 gpt 32 = image_sects s - 1 ∧ rd64 gpt2 32 = 1 ∧
     rd64 gpt 40 = rd64 gpt2 40 ∧ rd64 gpt 48 = rd64 gpt2 48 ∧
     (∀ p, p ∈ parts s → rd64 gpt 40 <= sect_start p ∧ sect_start p + sect_length p - 1 <= rd64 gpt 48) ∧
     rdbytes 16 gpt 56 = guid_bytes (disk_guid s) ∧ rdbytes 16 gpt2 56 = guid_bytes (disk_guid s) ∧
     rd64 gpt 72 = 2 ∧ rd64 gpt2 72 = secondary_headers_sect s ∧
     rdbytes (Z.to_nat hs) disk (rd64 gpt 72 * ss) = entry_table hs (parts s) ∧
     rdbytes (Z.to_nat hs) disk (rd64 gpt2 72 * ss) = entry_table hs (parts s)).

Section image_valid.
Context (ps : list PART) (s : mkgpt).
Hypothesis Hl : layout ps s.
Let ss := sect_size s.
Let disk := f_data (write_output s).
Let entries := put_entries buf0 0 (parts s).
Let hs := header_sectors s * ss.

Lemma placed_length start qs qs' stop : placed ss start qs qs' stop → length qs' = length qs.
Proof. induction 1; cbn; congruence. Qed.

Lemma parts_count : part_count s = Z.of_nat (length (parts s)).
Proof. rewrite (lo_count _ _ Hl). by rewrite (placed_length _ _ _ _ (lo_placed _ _ Hl)). Qed.

Lemma parts_usable : Forall (part_fits ss (first_usable_sector s) (secondary_headers_sect s)) (parts s).
Proof.
  pose proof (image_bounds ps s Hl). eapply Forall_impl.
  - eapply placed_fits; [|apply (lo_placed _ _ Hl)]. lia.
  - intros p (? & ? & ? & ?). pose proof (lo_fits _ _ Hl). unfold ss in *. split_and!; lia.
Qed.

Lemma parts_entry_ok : Forall entry_ok (parts s).
Proof.
  pose proof (image_bounds ps s Hl) as (B1 & B2 & B3 & B4 & B5). pose proof (lo_first _ _ Hl).
  eapply Forall_impl; [apply parts_usable|]. intros p (? & ? & ? & ?). split_and!; lia.
Qed.

(** The bytes behind the checksums and on the disk. *)
Lemma entries_table : buf_bytes hs entries = entry_table hs (parts s).
Proof. apply put_entries_table; [apply parts_entry_ok|]. pose proof (lo_room _ _ Hl) as [? _]. rewrite <- parts_count. unfold hs, ss. lia. Qed.
Lemma entries_array : buf_bytes (part_count s * 128) entries = parts s ≫= entry_bytes.
Proof.
  rewrite parts_count. unfold entries. rewrite put_entries_table by (apply parts_entry_ok || lia). unfold entry_table.
  replace (Z.to_nat _ - _)%nat with 0%nat by lia. by rewrite app_nil_r.
Qed.

Lemma disk_buffer a n b : (a, buf_bytes n b) ∈ image_writes s → rdbytes (Z.to_nat n) disk a = buf_bytes n b.
Proof.
  intros Hin. rewrite <- (image_read ps s Hl a _ Hin) by apply rdbytes_bytes.
  unfold buf_bytes. by rewrite length_rdbytes.
Qed.

Lemma disk_mbr : protective_mbr (image_sects s) disk.
Proof.
  pose proof (image_bounds ps s Hl) as (B1 & B2 & B3 & B4 & B5). pose proof (lo_last _ _ Hl).
  assert (∀ k, 0 <= k < 512 → rd8 disk k = rd8 (mbr_sector s) k) as E.
  { intros k Hk. pose proof (disk_buffer 0 ss (mbr_sector s)) as Hd. unfold buf_bytes in Hd.
    apply (f_equal (λ l, nth (Z.to_nat k) l 0)) in Hd; [|apply elem_of_app; left; apply elem_of_cons; by left].
    unfold ss in Hd. rewrite !rdbytes_nth in Hd by lia. by rewrite Z.add_0_l, Z2Nat.id in Hd by lia. }
  destruct (mbr_sector_ok s ltac:(lia)) as (M1 & M2 & M3 & M4 & M5 & M6). unfold protective_mbr, rd32 in *.
  rewrite !E by lia. rewrite !(rd_ext 4 disk (mbr_sector s)) by (intros k Hk; apply E; lia). by split_and!.
Qed.
End image_valid.

(** C13. The image is a valid GPT disk that holds the partitions.  For every
    finished layout, the written file starts with a protective MBR over the whole
    disk; its bytes contain each partition's source file at its sectors; sector 1
    and the last sector hold headers with valid signatures, checksums and
    addresses that point at each other and agree on the disk's GUID and on a
    usable area that holds all partitions; and both say where a copy of the entry
    array is, which consists of the partitions' entries in order (type, GUID,
    first and last sector, attributes, name), byte for byte, followed by zeros,
    and which their counts and checksums cover. *)
Theorem write_output_valid_image ps s :
  layout ps s → ps ≠ [] → Z.of_nat (length ps) < 2 ^ 23 → gpt_disk s (f_data (write_output s)).
Proof.
  intros Hl Hne Hmax. unfold gpt_disk.
  pose proof (lo_count _ _ Hl) as Ec. pose proof (lo_last _ _ Hl) as [Ela _].
  assert (0 < part_count s < 2 ^ 23) as Hpc.
  { rewrite Ec. destruct ps; [done|]. simpl in *. lia. }
  split; [by apply (disk_mbr ps)|]. split.
  - intros p Hp Hb. apply (image_read ps s Hl); [|done]. unfold image_writes.
    apply elem_of_app. right. apply elem_of_app. left.
    apply list_elem_of_fmap. by exists p.
  - destruct (primary_valid ps s Hl Hpc) as (V1 & V2 & V3 & V4 & V5 & V6 & V7).
    destruct (secondary_valid ps s Hl Hpc) as (W1 & W2 & W3 & W4 & W5 & W6 & W7).
    rewrite (entries_array ps s Hl) in V1, W1. rewrite Ela in V2, W1.
    exists (gpt_primary s (put_entries buf0 0 (parts s))), (gpt_secondary s (gpt_primary s (put_entries buf0 0 (parts s)))).
    rewrite V3, V4, V5, W3, W4, W5, <- (entries_table ps s Hl). split_and!; try assumption; try reflexivity.
    3: { intros p Hp. pose proof (parts_usable ps s Hl) as Hu. rewrite Forall_forall in Hu.
         destruct (Hu p Hp) as (? & ? & ? & ?). lia. }
    all: apply (disk_buffer ps s Hl); unfold image_writes; rewrite !elem_of_app, !elem_of_cons; tauto.
Qed.

Definition demo_rand (k : nat) : Z := Z.of_nat k.
Definition demo_done : mkgpt := (check_parts demo_rand demo).2.

Lemma demo_layout : layout (parts demo) demo_done.
Proof.
  destruct (check_parts_ok demo_rand demo demo_input) as (s' & E & Hl & _).
  - repeat constructor.
  - by left.
  - unfold demo_done. by rewrite E.
Qed.

Lemma write_output_valid_image_witness : gpt_disk demo_done (f_data (write_output demo_done)).
Proof. apply (write_output_valid_image (parts demo) demo_done demo_layout); [discriminate|simpl; lia]. Defined.

(** ** Naming a type or UUID on the command line *)
Definition fs0 : fstab := init_fstypes (FsTab ∅ ∅).

Definition basic_data_guid : GUID :=
  Guid 0xEBD0A0A2 0xB9E5 0x4433 [0x87; 0xC0; 0x68; 0xB6; 0xB7; 0x26; 0x99; 0xC7].

Lemma fs0_names_short : map_Forall (λ _ n, (length n <= 6)%nat) (fsnames fs0).
Proof.
  apply (bool_decide_unpack (map_Forall (λ _ n, (length n <= 6)%nat) (fsnames fs0))).
  by vm_compute.
Qed.

Lemma fs0_type_0 : guid_is_zero (default guid0 (fstypes fs0 !! 0)) = true.
Proof. by vm_compute. Qed.
Lemma fs0_type_1 : default guid0 (fstypes fs0 !! 1) = basic_data_guid.
Proof. by vm_compute. Qed.

#[local] Opaque fs0.

Lemma find_name_long str : (6 < length str)%nat → find_name fs0 str = None.
Proof.
  intros Hl. unfold find_name.
  assert (∀ l, filter (λ i, fsnames fs0 !! i = Some str) l = []) as ->; [|done].
  intros l. induction l as [|i l IH]; [done|]. rewrite filter_cons_False; [exact IH|].
  intros E. pose proof (fs0_names_short i str E). simpl in *. lia.
Qed.

Lemma digit_value_nonneg c d : digit_value c = Some d → 0 <= d.
Proof. unfold digit_value. bdestr; cbn [andb]; intros; simplify_eq; lia. Qed.

(** The value read so far only grows, and every character adds at most one place. *)
Lemma digits_value_bounds l acc rest :
  0 <= acc → acc <= digits_value 10 acc (l ++ 45 :: rest) < (acc + 1) * 10 ^ Z.of_nat (length l).
Proof.
  revert acc. induction l as [|c l IH]; intros acc Ha.
  - cbn. lia.
  - cbn [app digits_value length]. rewrite Nat2Z.inj_succ, Z.pow_succ_r by lia.
    assert (0 < 10 ^ Z.of_nat (length l)) by (apply Z.pow_pos_nonneg; lia).
    destruct (digit_value c) as [d|] eqn:Ed; [|nia].
    apply digit_value_nonneg in Ed. destruct (Z.ltb_spec d 10); [|nia].
    specialize (IH (acc * 10 + d) ltac:(lia)). nia.
Qed.

Lemma digit_value_upper d : 0 <= d < 16 → digit_value (hex_upper d) = Some d.
Proof. intros Hd. unfold digit_value, hex_upper. bdestr; cbn [andb]; f_equal; lia. Qed.

(** The text of a GUID, from its leading digits. *)
Lemma guid_text g : ∃ rest,
  sprintf GUID_FMT (guid_fields g) = print_X 8 (data1 g) ++ 45 :: rest.
Proof. eexists. reflexivity. Qed.

Lemma print_X_8 v : ∃ l, length l = 4%nat ∧ print_X 8 v =
  hex_upper (v / 16 / 16 / 16 / 16 / 16 / 16 / 16 mod 16) ::
  hex_upper (v / 16 / 16 / 16 / 16 / 16 / 16 mod 16) ::
  hex_upper (v / 16 / 16 / 16 / 16 / 16 mod 16) ::
  hex_upper (v / 16 / 16 / 16 / 16 mod 16) :: l.
Proof. eexists. cbn [print_X app]. split; [|reflexivity]. reflexivity. Qed.

Lemma streq_length str c : length str ≠ String.length c → streq str c = false.
Proof.
  intros Hl. unfold streq. apply bool_decide_eq_false. intros ->. apply Hl.
  unfold cstr. rewrite length_fmap. clear. induction c; simpl; auto.
Qed.

(** What [parse_guid] does with a text that is a GUID: the number it starts
    with decides. *)
Lemma parse_guid_text rand g g0 pos :
  guid_wf g → let str := sprintf GUID_FMT (guid_fields g) in
  let id := strtol 0 str in
  parse_guid rand fs0 str g0 pos =
    if (0 <=? id) && (id <=? 511) then
      let t := default guid0 (fstypes fs0 !! id) in
      if guid_is_zero t then (-1, g0, pos) else (0, t, pos)
    else (0, g, pos).
Proof.
  intros Hg str id.
  assert (length str = 36%nat) as Hlen.
  { pose proof Hg as (_ & _ & _ & H4 & _). unfold str, guid_fields.
    destruct (data4 g) as [|b0 [|b1 [|b2 [|b3 [|b4 [|b5 [|b6 [|b7 [|]]]]]]]]]; done. }
  unfold parse_guid. rewrite !streq_length by (rewrite Hlen; done). cbn [orb].
  rewrite find_name_long by (rewrite Hlen; lia). fold id.
  pose proof (string_to_guid_print g0 g Hg) as Es. fold str in Es. rewrite Es.
  destruct (Z.eqb_spec id LONG_MIN) as [E|]; [rewrite E; done|].
  destruct (Z.eqb_spec id LONG_MAX) as [E|]; [rewrite E; done|]. done.
Qed.

(** The number a GUID text starts with. *)
Lemma strtol_guid_text g :
  guid_wf g → let str := sprintf GUID_FMT (guid_fields g) in
  let a := data1 g / 2 ^ 28 in let b := data1 g / 2 ^ 24 mod 16 in
  let c := data1 g / 2 ^ 20 mod 16 in let d := data1 g / 2 ^ 16 mod 16 in
  (10 <= a → strtol 0 str = 0) ∧
  (1 <= a <= 9 → 10 <= b → strtol 0 str = a) ∧
  (1 <= a <= 9 → b <= 9 → c <= 9 → d <= 9 → 1000 <= strtol 0 str < 10 ^ 8).
Proof.
  intros (H1 & _) str a b c d. unfold str. clear str.
  destruct (guid_text g) as [rest ->]. destruct (print_X_8 (data1 g)) as (l & Hl & ->).
  set (v := data1 g) in *.
  replace (v / 16 / 16 / 16 / 16 / 16 / 16 / 16 mod 16) with a by (unfold a; dlia).
  replace (v / 16 / 16 / 16 / 16 / 16 / 16 mod 16) with b by (unfold b; rewrite !Z.div_div by lia; done).
  replace (v / 16 / 16 / 16 / 16 / 16 mod 16) with c by (unfold c; rewrite !Z.div_div by lia; done).
  replace (v / 16 / 16 / 16 / 16 mod 16) with d by (unfold d; rewrite !Z.div_div by lia; done).
  assert (0 <= a < 16) as Ha by (unfold a; dlia).
  assert (0 <= b < 16) as Hb by (apply Z.mod_pos_bound; lia).
  assert (0 <= c < 16) as Hc by (apply Z.mod_pos_bound; lia).
  assert (0 <= d < 16) as Hd by (apply Z.mod_pos_bound; lia).
  clearbody a b c d v. clear H1.
  destruct (hex_upper_plain a Ha) as (Hs & Hm & Hp & _).
  destruct (hex_upper_plain b Hb) as (_ & _ & _ & Hx & HX).
  unfold strtol. cbn [app skip_space]. rewrite Hs.
  destruct (Z.eqb_spec (hex_upper a) 45); [done|]. destruct (Z.eqb_spec (hex_upper a) 43); [done|].
  unfold strtol_unsigned. destruct (Z.eqb_spec (hex_upper b) 120); [done|].
  destruct (Z.eqb_spec (hex_upper b) 88); [done|]. rewrite andb_false_r. cbn [andb].
  simpl (0 =? 0). cbn iota.
  assert (a ≠ 0 → (hex_upper a =? 48) = false) as Hz.
  { intros. apply Z.eqb_neq. unfold hex_upper. destruct (a <? 10); lia. }
  assert (∀ w, 0 <= w < 2 ^ 63 → w < 10 ^ 10 → clamp_long w = w) as Hcl.
  { intros w Hw Hw'. unfold clamp_long, LONG_MIN, LONG_MAX. lia. }
  split_and!.
  - intros H10. rewrite Hz by lia. cbn [digits_value]. rewrite digit_value_upper by done.
    destruct (Z.ltb_spec a 10); [lia|]. by apply Hcl.
  - intros H9 H10. rewrite Hz by lia. cbn [digits_value]. rewrite !digit_value_upper by done.
    destruct (Z.ltb_spec a 10); [|lia]. destruct (Z.ltb_spec b 10); [lia|].
    apply Hcl; lia.
  - intros H9 Hb9 Hc9 Hd9. rewrite Hz by lia. cbn [digits_value].
    rewrite !digit_value_upper by done.
    destruct (Z.ltb_spec a 10); [|lia]. destruct (Z.ltb_spec b 10); [|lia].
    destruct (Z.ltb_spec c 10); [|lia]. destruct (Z.ltb_spec d 10); [|lia].
    set (acc := (((0 * 10 + a) * 10 + b) * 10 + c) * 10 + d).
    pose proof (digits_value_bounds l acc rest ltac:(lia)) as Hv. rewrite Hl in Hv.
    change (10 ^ Z.of_nat 4) with 10000 in Hv. rewrite Hcl by lia. lia.
Qed.

(** How [--type], [--uuid] and [--disk-guid] read a GUID in its text form:
    one whose first four digits are decimal (the first not 0) is read as that
    GUID; one that starts with a letter is rejected, because [strtol] gives 0
    and 0 is taken for an MBR type; and one that starts with 1 and a letter
    is silently replaced by the type GUID of MBR type 1. *)
Lemma parse_guid_reads_leading_number rand g g0 pos :
  guid_wf g → let str := sprintf GUID_FMT (guid_fields g) in
  let digit k := data1 g / 2 ^ k mod 16 in
  (1 <= digit 28 <= 9 → digit 24 <= 9 → digit 20 <= 9 → digit 16 <= 9 →
     parse_guid rand fs0 str g0 pos = (0, g, pos)) ∧
  (10 <= digit 28 → parse_guid rand fs0 str g0 pos = (-1, g0, pos)) ∧
  (digit 28 = 1 → 10 <= digit 24 → parse_guid rand fs0 str g0 pos = (0, basic_data_guid, pos)).
Proof.
  intros Hg str digit.
  assert (digit 28 = data1 g / 2 ^ 28) as E28 by (destruct Hg as (H1 & _); unfold digit; dlia).
  destruct (strtol_guid_text g Hg) as (S1 & S2 & S3). fold str in S1, S2, S3.
  pose proof (parse_guid_text rand g g0 pos Hg) as Ep. fold str in Ep. cbv zeta in Ep. rewrite Ep.
  rewrite E28. unfold digit. split_and!.
  - intros. destruct (Z.leb_spec (strtol 0 str) 511); [lia|]. by rewrite andb_false_r.
  - intros. rewrite S1 by done. simpl (_ && _). cbn iota. by rewrite fs0_type_0.
  - intros E H10. rewrite S2 by lia. rewrite E. simpl (_ && _). cbn iota. by rewrite fs0_type_1.
Qed.

Lemma parse_guid_reads_leading_number_witness :
  parse_guid demo_rand fs0 (sprintf GUID_FMT (guid_fields efi_system_guid)) guid0 0
  = (-1, guid0, 0%nat).
Proof.
  apply (parse_guid_reads_leading_number demo_rand efi_system_guid guid0 0 efi_system_guid_wf).
  by vm_compute.
Defined.

(** ** Command lines *)
Record part_def := PartDef { pd_file : list Z; pd_type_arg : list Z; pd_src : list Z; pd_type : GUID }.

Definition part_args (d : part_def) : list (list Z) :=
  [cstr "--part"; pd_file d; cstr "--type"; pd_type_arg d].

Definition parsed_part (id : Z) (d : part_def) : PART :=
  with_type (pd_type d) (new_part id (pd_src d)).

Section command_line.
Context (rand : nat → Z) (fopen_w : list Z → bool) (fopen_r : list Z → option (list Z)).
Context (fs : fstab).

(** A definition the options can express: the file opens, the type is known. *)
Definition def_ok (d : part_def) : Prop :=
  starts_dash (pd_file d) = false ∧ fopen_r (pd_file d) = Some (pd_src d) ∧
  starts_dash (pd_type_arg d) = false ∧
  ∀ pos, parse_guid rand fs (pd_type_arg d) guid0 pos = (0, pd_type d, pos).

Lemma parse_part_args i d rest id cur s :
  def_ok d →
  parse_parts rand fopen_r fs i (part_args d ++ rest) id cur s =
  parse_parts rand fopen_r fs (i + 4) rest (id + 1) (Some (parsed_part (id + 1) d))
    (store_part cur s).
Proof.
  intros (Hf & Ho & Ht & Hg). unfold part_args. cbn [app parse_parts].
  change (streq (cstr "--part") "--part" || streq (cstr "--part") "-p") with true. cbn iota.
  rewrite Hf, Ho. cbn [parse_parts].
  change (streq (cstr "--type") "--part" || streq (cstr "--type") "-p") with false.
  change (streq (cstr "--type") "--name" || streq (cstr "--type") "-n") with false.
  change (streq (cstr "--type") "--type" || streq (cstr "--type") "-t") with true. cbn iota.
  rewrite Ht. unfold new_part at 1. cbn [p_type]. rewrite Hg. simpl (0 =? 0). cbn iota.
  replace (i + 2 + 2) with (i + 4) by lia. f_equal. by destruct (store_part cur s).
Qed.

Lemma parse_all_parts ds i id cur s :
  Forall def_ok ds →
  parse_parts rand fopen_r fs i (mjoin (part_args <$> ds)) id cur s =
  (0, set_parts (parts s ++ option_list cur ++
        imap (λ k d, parsed_part (id + 1 + Z.of_nat k) d) ds) s).
Proof.
  intros Hds. revert i id cur s. induction Hds as [|d ds Hd Hds IH]; intros i id cur s.
  - cbn. destruct cur; simpl; rewrite ?app_nil_r; [done|]. by destruct s.
  - cbn [fmap list_fmap]. cbn [mjoin list_join]; rewrite parse_part_args, IH by done. f_equal.
    cbn [imap option_list]. rewrite Z.add_0_r.
    assert (imap (λ k d, parsed_part (id + 1 + 1 + Z.of_nat k) d) ds =
            imap ((λ k d, parsed_part (id + 1 + Z.of_nat k) d) ∘ S) ds) as ->.
    { apply imap_ext. intros k x _. simpl. f_equal. lia. }
    destruct cur; simpl; by rewrite <- ?app_assoc.
Qed.

(** C37. [parse_opts] on a command line [-o out --part f1 --type t1 ...] whose
    files open and whose types are known records the output file and exactly
    the partitions named, in order, numbered from 1, each with its file's
    content and its type, and consumes no random numbers. *)
Theorem parse_opts_partitions out ds s :
  starts_dash out = false → fopen_w out = true → Forall def_ok ds →
  parse_opts rand fopen_w fopen_r fs ([cstr "-o"; out] ++ mjoin (part_args <$> ds)) s =
  (0, set_parts (parts s ++ imap (λ k d, parsed_part (1 + Z.of_nat k) d) ds)
        (set_output (Some out) s)).
Proof.
  intros Hd Hw Hds. unfold parse_opts. cbn [app parse_globals].
  change (streq (cstr "-o") "--output" || streq (cstr "-o") "-o") with true. cbn iota.
  rewrite Hd, Hw.
  assert (∀ i s, parse_globals rand fopen_w fs i (mjoin (part_args <$> ds)) s =
                 inr (i, mjoin (part_args <$> ds), s)) as ->.
  { intros i s'. destruct ds as [|d ds]; [done|]. cbn [fmap list_fmap mjoin list_join].
    reflexivity. }
  by rewrite parse_all_parts.
Qed.
End command_line.

Lemma parse_opts_partitions_witness :
  let d := PartDef (cstr "efi.img") (cstr "system") [1; 2; 3] efi_system_guid in
  parse_opts demo_rand (λ _, true) (λ _, Some [1; 2; 3]) fs0
    ([cstr "-o"; cstr "hdd.img"] ++ mjoin (part_args <$> [d])) mkgpt_init =
  (0, set_parts (parts mkgpt_init ++ imap (λ k d, parsed_part (1 + Z.of_nat k) d) [d])
        (set_output (Some (cstr "hdd.img")) mkgpt_init)).
Proof.
  intros d. apply (parse_opts_partitions demo_rand (λ _, true) (λ _, Some [1; 2; 3]) fs0
    (cstr "hdd.img") [d] mkgpt_init); [by vm_compute|done|].
  repeat constructor; by vm_compute.
Defined.
