(* ===== verification/LibcString.v ===== *)
(** * String and memory functions of the EFI C library

    src/tload/tloadefi/efilibc/string.c, on the byte memory.  [char] is
    signed, [wchar_t] is 16 and [size_t] 64 bits wide (the mingw target).
    Loops that run to a terminator take fuel, and hang without it. *)

From stdpp Require Import base numbers list gmap strings.
From Stdlib Require Import Lia.
From S2P Require Import Prelude Mem.
Open Scope Z_scope.

(** ** Lengths and comparisons *)
Fixpoint strlen_loop (fuel : nat) (m : mem) (s ret : Z) : outcome Z :=
  match fuel with
  | O => Hang
  | S fuel => if rd8 m s =? 0 then Done ret else strlen_loop fuel m (s + 1) (u64 (ret + 1))
  end.
Definition strlen (fuel : nat) (m : mem) (s : Z) : outcome Z := strlen_loop fuel m s 0.

(** The byte is read before the limit is tested. *)
Fixpoint strnlen_loop (k : nat) (m : mem) (s ret : Z) : Z :=
  if rd8 m s =? 0 then ret
  else match k with
       | O => ret
       | S k => strnlen_loop k m (s + 1) (u64 (ret + 1))
       end.
Definition strnlen (m : mem) (s maxlen : Z) : Z := strnlen_loop (Z.to_nat maxlen) m s 0.

Fixpoint wcslen_loop (fuel : nat) (m : mem) (s ret : Z) : outcome Z :=
  match fuel with
  | O => Hang
  | S fuel => if rd16 m s =? 0 then Done ret else wcslen_loop fuel m (s + 2) (u64 (ret + 1))
  end.
Definition wcslen (fuel : nat) (m : mem) (s : Z) : outcome Z := wcslen_loop fuel m s 0.

(** The difference is kept in a [char]. *)
Fixpoint strcmp (fuel : nat) (m : mem) (s1 s2 : Z) : outcome Z :=
  match fuel with
  | O => Hang
  | S fuel =>
      if truth (rd8 m s1) || truth (rd8 m s2) then
        let s := s8 (s8 (rd8 m s1) - s8 (rd8 m s2)) in
        if truth s then Done s else strcmp fuel m (s1 + 1) (s2 + 1)
      else Done 0
  end.

(** The difference is kept in a [uint8_t]. *)
Fixpoint memcmp_loop (k : nat) (m : mem) (a b : Z) : Z :=
  match k with
  | O => 0
  | S k =>
      let v := u8 (rd8 m a - rd8 m b) in
      if truth v then v else memcmp_loop k m (a + 1) (b + 1)
  end.
Definition memcmp (m : mem) (s1 s2 n : Z) : Z := memcmp_loop (Z.to_nat n) m s1 s2.

(** ** Filling and copying: [while(n--)] counts down, so the last byte is first *)
Fixpoint memset_loop (n : nat) (m : mem) (s c : Z) : mem :=
  match n with
  | O => m
  | S n => memset_loop n (wr8 m (s + Z.of_nat n) c) s c
  end.
Definition memset (m : mem) (s c n : Z) : mem := memset_loop (Z.to_nat n) m s c.

Fixpoint memcpy_loop (n : nat) (m : mem) (dest src : Z) : mem :=
  match n with
  | O => m
  | S n => memcpy_loop n (wr8 m (dest + Z.of_nat n) (rd8 m (src + Z.of_nat n))) dest src
  end.
Definition memcpy (m : mem) (dest src n : Z) : mem := memcpy_loop (Z.to_nat n) m dest src.

Fixpoint mbstowcs_loop (n : nat) (m : mem) (dest src conv : Z) : Z * mem :=
  match n with
  | O => (conv, m)
  | S n =>
      let c := rd8 m src in
      let m := wr16 m dest (u16 (s8 c)) in
      if c =? 0 then (s32 (conv + 1), m)
      else mbstowcs_loop n m (dest + 2) (src + 1) (s32 (conv + 1))
  end.
Definition mbstowcs (fuel : nat) (m : mem) (dest src n : Z) : outcome (Z * mem) :=
  if dest =? 0 then obind (strlen fuel m src) (λ r, Done (r, m))
  else let '(conv, m) := mbstowcs_loop (Z.to_nat n) m dest src 0 in Done (u64 conv, m).

Fixpoint wcstombs_loop (n : nat) (m : mem) (dest src conv : Z) : Z * mem :=
  match n with
  | O => (conv, m)
  | S n =>
      let c := rd16 m src in
      let m := wr8 m dest c in
      if c =? 0 then (u64 (conv + 1), m)
      else wcstombs_loop n m (dest + 1) (src + 2) (u64 (conv + 1))
  end.
Definition wcstombs (fuel : nat) (m : mem) (dest src n : Z) : outcome (Z * mem) :=
  if dest =? 0 then obind (wcslen fuel m src) (λ r, Done (r, m))
  else Done (wcstombs_loop (Z.to_nat n) m dest src 0).

(** ** Searching.  A null result is [None]. *)
Fixpoint strchr (fuel : nat) (m : mem) (s c : Z) : outcome (option Z) :=
  match fuel with
  | O => Hang
  | S fuel =>
      if rd8 m s =? u8 c then Done (Some s)
      else if rd8 m s =? 0 then Done None
      else strchr fuel m (s + 1) c
  end.

Definition getenv (name : Z) : option Z := None.

Fixpoint memchr_loop (n : nat) (m : mem) (src c : Z) : option Z :=
  match n with
  | O => None
  | S n => if rd8 m src =? u8 c then Some src else memchr_loop n m (src + 1) c
  end.
Definition memchr (m : mem) (s c n : Z) : option Z := memchr_loop (Z.to_nat n) m s c.

(** ** Copying strings *)
Fixpoint strcpy_loop (fuel : nat) (m : mem) (d src : Z) : outcome mem :=
  match fuel with
  | O => Hang
  | S fuel =>
      if rd8 m src =? 0 then Done (wr8 m d 0)
      else strcpy_loop fuel (wr8 m d (rd8 m src)) (d + 1) (src + 1)
  end.
Definition strcpy (fuel : nat) (m : mem) (dest src : Z) : outcome (Z * mem) :=
  obind (strcpy_loop fuel m dest src) (λ m, Done (dest, m)).

(** The loop runs while the source byte is not 0 and [n--]: on the exit
    through [n] it has wrapped. *)
Fixpoint strncpy_loop (n : nat) (m : mem) (d src : Z) : mem * Z * Z :=
  if rd8 m src =? 0 then (m, d, Z.of_nat n)
  else match n with
       | O => (m, d, u64 (-1))
       | S n => strncpy_loop n (wr8 m d (rd8 m src)) (d + 1) (src + 1)
       end.
Definition strncpy (m : mem) (dest src n : Z) : Z * mem :=
  let '(m, d, n) := strncpy_loop (Z.to_nat n) m dest src in
  (dest, if truth n then wr8 m d 0 else m).

Definition strcat (fuel : nat) (m : mem) (dest src : Z) : outcome (Z * mem) :=
  obind (strlen fuel m dest) (λ dlen,
    obind (strcpy fuel m (dest + dlen) src) (λ r, Done (dest, r.2))).

(** ** Character classes *)
Definition flag (b : bool) : Z := if b then 1 else 0.
Definition between (lo hi c : Z) : bool := (lo <=? c) && (c <=? hi).
Definition tolower (c : Z) : Z := if between 65 90 c then c - 65 + 97 else c.
Definition toupper (c : Z) : Z := if between 97 122 c then c - 97 + 65 else c.
Definition isdigit (c : Z) : Z := flag (between 48 57 c).
Definition isupper (c : Z) : Z := flag (between 65 90 c).
Definition islower (c : Z) : Z := flag (between 97 122 c).
Definition isalpha (c : Z) : Z := flag (truth (isupper c) || truth (islower c)).
Definition isalnum (c : Z) : Z := flag (truth (isalpha c) || truth (isdigit c)).
Definition isspace (c : Z) : Z :=
  flag ((c =? 12) || (c =? 10) || (c =? 13) || (c =? 9) || (c =? 11) || (c =? 32)).
Definition isgraph (c : Z) : Z := flag (between 33 126 c).
Definition isprint (c : Z) : Z := flag (between 32 126 c).

(** ** Spans *)
Fixpoint in_set (fuel : nat) (m : mem) (c a : Z) : outcome bool :=
  match fuel with
  | O => Hang
  | S fuel =>
      if rd8 m a =? 0 then Done false
      else if c =? rd8 m a then Done true
      else in_set fuel m c (a + 1)
  end.

Fixpoint span_loop (fuel : nat) (want : bool) (m : mem) (s set ret : Z) (setfuel : nat)
    : outcome Z :=
  match fuel with
  | O => Hang
  | S fuel =>
      if rd8 m s =? 0 then Done ret
      else obind (in_set setfuel m (rd8 m s) set) (λ found : bool,
             if eqb found want then span_loop fuel want m (s + 1) set (u64 (ret + 1)) setfuel
             else Done ret)
  end.
Definition strspn (fuel : nat) (m : mem) (s accept : Z) : outcome Z :=
  span_loop fuel true m s accept 0 fuel.
Definition strcspn (fuel : nat) (m : mem) (s reject : Z) : outcome Z :=
  span_loop fuel false m s reject 0 fuel.

(** ** Error messages *)
Definition EDOM : Z := -1.
Definition ERANGE : Z := -2.
Definition EILSEQ : Z := -3.
Definition EEXIST : Z := -4.
Definition EACCES : Z := -5.
Definition EFAULT : Z := -6.
Definition ENOENT : Z := -7.
Definition EINVAL : Z := -8.
Definition ENOMEM : Z := -9.
Definition EINTR : Z := -10.
Definition EBADF : Z := -11.
Definition EMFILE : Z := -12.

(** The message and the new [errno]; [room] says whether [malloc(30)] returns
    a buffer. *)
Definition strerror (room : bool) (errno errnum : Z) : list Z * Z :=
  if errnum =? 0 then (cstr "No error", errno)
  else if errnum =? EDOM then (cstr "Mathematics argument out of domain of function", errno)
  else if errnum =? ERANGE then (cstr "Result too large", errno)
  else if errnum =? EILSEQ then (cstr "Illegal byte sequence", errno)
  else if errnum =? EEXIST then (cstr "File exists", errno)
  else if errnum =? EACCES then (cstr "Permission denied", errno)
  else if errnum =? EFAULT then (cstr "Bad address", errno)
  else if errnum =? ENOENT then (cstr "No such file or directory", errno)
  else if errnum =? EINVAL then (cstr "Invalid argument", errno)
  else if errnum =? ENOMEM then (cstr "Not enough space", errno)
  else if errnum =? EINTR then (cstr "Interrupted function", errno)
  else if errnum =? EBADF then (cstr "Bad file descriptor", errno)
  else if errnum =? EMFILE then (cstr "File descriptor value too large", errno)
  else if room then (cstr "Error " ++ print_dec errnum ++ cstr " occurred", EINVAL)
  else (cstr "Result too large", ERANGE).

(** ** Queries *)
Lemma strlen_loop_spec l fuel m s ret :
  cstring m s l → (length l < fuel)%nat → 0 <= ret → ret + Z.of_nat (length l) < 2 ^ 64 →
  strlen_loop fuel m s ret = Done (ret + Z.of_nat (length l)).
Proof.
  revert fuel s ret. induction l as [|c l IH]; intros [|fuel] s ret Hs Hf Hr Hm;
    try (simpl in Hf; lia); cbn [strlen_loop cstring length] in *.
  - rewrite Hs. simpl. f_equal. lia.
  - destruct Hs as (-> & Hc & Hl). destruct (Z.eqb_spec c 0); [lia|].
    rewrite u64_small by lia. rewrite IH by (done || lia). f_equal. lia.
Qed.

Lemma char_diff a b :
  0 <= a < 256 → 0 <= b < 256 → (s8 (s8 a - s8 b) = 0 ↔ a = b).
Proof. intros Ha Hb. split; [|intros ->]; mlia. Qed.

Lemma strcmp_spec l1 l2 fuel m s1 s2 :
  cstring m s1 l1 → cstring m s2 l2 → (length l1 < fuel)%nat →
  ∃ r, strcmp fuel m s1 s2 = Done r ∧ (r = 0 ↔ l1 = l2).
Proof.
  revert l2 fuel s1 s2. induction l1 as [|c l1 IH]; intros l2 [|fuel] s1 s2 H1 H2 Hf;
    try (simpl in Hf; lia); cbn [strcmp].
  - destruct l2 as [|d l2]; cbn [cstring] in *.
    + rewrite H1, H2. simpl. by exists 0.
    + rewrite H1. destruct H2 as (-> & Hd & _). unfold truth.
      destruct (Z.eqb_spec d 0); [lia|]. cbn [negb orb Z.eqb].
      pose proof (char_diff 0 d). destruct (Z.eqb_spec (s8 (s8 0 - s8 d)) 0); [lia|].
      eexists. split; [done|]. split; [lia|done].
  - destruct H1 as (-> & Hc & H1). unfold truth. destruct (Z.eqb_spec c 0); [lia|].
    cbn [negb orb].
    assert (rd8 m s2 = default 0 (head l2)) as E2 by (destruct l2; [done|by destruct H2]).
    pose proof (rd8_range m s2) as Hr. pose proof (char_diff c (rd8 m s2) ltac:(lia) Hr) as Hd.
    destruct (Z.eqb_spec (s8 (s8 c - s8 (rd8 m s2))) 0) as [E|Hne]; cbn [negb].
    + apply Hd in E. destruct l2 as [|d l2]; [simpl in E2; lia|].
      destruct H2 as (Ed & _ & H2).
      destruct (IH l2 fuel (s1 + 1) (s2 + 1)) as (r & -> & Hrr); [done|done|simpl in Hf; lia|].
      exists r. split; [done|]. rewrite Hrr. split; [intros ->; congruence|congruence].
    + eexists. split; [done|]. split; [done|]. intros <-. destruct Hne. apply Hd. by rewrite E2.
Qed.

Lemma strchr_spec l fuel m s c :
  cstring m s l → (length l < fuel)%nat →
  strchr fuel m s c = Done
    (if u8 c =? 0 then Some (s + Z.of_nat (length l))
     else (λ p, s + Z.of_nat p.1) <$> list_find (λ x, x = u8 c) l).
Proof.
  revert fuel s. induction l as [|d l IH]; intros [|fuel] s Hs Hf; try (simpl in Hf; lia);
    cbn [strchr cstring length] in *.
  - rewrite Hs. rewrite (Z.eqb_sym 0). destruct (u8 c =? 0); [|done].
    by rewrite Z.add_0_r.
  - destruct Hs as (-> & Hd & Hl). cbn [list_find]. destruct (Z.eqb_spec d (u8 c)) as [E|Hne].
    + destruct (Z.eqb_spec (u8 c) 0); [lia|]. rewrite decide_True by done. simpl.
      by rewrite Z.add_0_r.
    + destruct (Z.eqb_spec d 0); [lia|]. rewrite IH by (done || lia).
      rewrite decide_False by done. f_equal. destruct (u8 c =? 0); [f_equal; lia|].
      destruct (list_find (λ x, x = u8 c) l) as [[i x]|]; simpl; [f_equal; lia|done].
Qed.

(** ** Copying *)
Lemma memset_loop_fill n m s c k : rd8 (memset_loop n m s c) k = rd8 (fill n m s c) k.
Proof.
  rewrite rd8_fill. revert m. induction n as [|n IH]; intros m; cbn [memset_loop].
  - by rewrite decide_False by lia.
  - rewrite IH, rd8_wr8. repeat case_decide; done || lia.
Qed.

(** Copying from the last byte down is right when the destination does not
    start inside the source. *)
Lemma memcpy_loop_spec n m dest src k :
  src <= dest ∨ dest + Z.of_nat n <= src →
  rd8 (memcpy_loop n m dest src) k =
    if decide (dest <= k < dest + Z.of_nat n) then rd8 m (src + (k - dest)) else rd8 m k.
Proof.
  revert m. induction n as [|n IH]; intros m Hd; cbn [memcpy_loop].
  - by rewrite decide_False by lia.
  - rewrite IH by lia. rewrite !rd8_wr8.
    destruct (decide (k = dest + Z.of_nat n)) as [->|Hne].
    + rewrite decide_False, (decide_True (P := _ = _)), decide_True by lia.
      rewrite u8_small by apply rd8_range. f_equal. lia.
    + destruct (decide (dest <= k < dest + Z.of_nat n)).
      * rewrite decide_False, decide_True by lia. done.
      * rewrite decide_False, decide_False by lia. done.
Qed.

Lemma strcpy_loop_spec l fuel m d src :
  cstring m src l → (length l < fuel)%nat →
  d + Z.of_nat (length l) < src ∨ src + Z.of_nat (length l) < d →
  ∃ m', strcpy_loop fuel m d src = Done m' ∧ cstring m' d l ∧
    same_outside d (Z.of_nat (length l) + 1) m m'.
Proof.
  revert fuel m d src. induction l as [|c l IH]; intros [|fuel] m d src Hs Hf Hdis;
    try (simpl in Hf; lia); cbn [strcpy_loop cstring length] in *.
  - rewrite Hs. eexists. split; [done|]. split.
    + cbn. rewrite rd8_wr8. by rewrite decide_True.
    + intros k Hk. rewrite rd8_wr8. by rewrite decide_False by lia.
  - destruct Hs as (Ec & Hc & Hl). rewrite Ec. destruct (Z.eqb_spec c 0); [lia|].
    destruct (IH fuel (wr8 m d c) (d + 1) (src + 1)) as (m' & E & Hm' & Hout); [|lia|lia|].
    + eapply cstring_agree; [|exact Hl]. intros k Hk. rewrite rd8_wr8. by rewrite decide_False by lia.
    + exists m'. split; [done|]. split.
      * cbn [cstring]. split_and!; [|lia|lia|done]. rewrite Hout by lia.
        rewrite rd8_wr8, decide_True by done. apply u8_small; lia.
      * intros k Hk. rewrite Hout by lia. rewrite rd8_wr8. by rewrite decide_False by lia.
Qed.

(** A string copied in front of [rest] continues the string before it. *)
Lemma cstring_glue m m' a l1 l2 :
  cstring m a l1 → (∀ k, a <= k < a + Z.of_nat (length l1) → rd8 m' k = rd8 m k) →
  cstring m' (a + Z.of_nat (length l1)) l2 → cstring m' a (l1 ++ l2).
Proof.
  intros H1 Hag H2. apply cstring_app. split; [|done]. intros i c Hi.
  pose proof (lookup_lt_Some _ _ _ Hi). rewrite Hag by lia.
  rewrite <- (app_nil_r l1) in H1. apply cstring_app in H1 as [H1 _]. by apply H1.
Qed.

Lemma strncpy_loop_full n m d src l :
  (∀ i c, l !! i = Some c → rd8 m (src + Z.of_nat i) = c ∧ 0 < c < 256) → (n < length l)%nat →
  d + Z.of_nat n <= src ∨ src + Z.of_nat (length l) <= d →
  ∃ m', strncpy_loop n m d src = (m', d + Z.of_nat n, u64 (-1)) ∧
    same_outside d (Z.of_nat n) m m'.
Proof.
  revert m d src l. induction n as [|n IH]; intros m d src l Hl Hn Hdis; cbn [strncpy_loop];
    destruct l as [|c l]; try (simpl in Hn; lia);
    destruct (Hl 0%nat c eq_refl) as [E0 Hc]; rewrite Z.add_0_r in E0; rewrite E0;
    destruct (Z.eqb_spec c 0); try lia.
  - exists m. rewrite Z.add_0_r. split; [done|]. by intros k _.
  - cbn [length] in *. destruct (IH (wr8 m d c) (d + 1) (src + 1) l) as (m' & -> & Hout).
    + intros i x Hi. destruct (Hl (S i) x Hi) as [E Hx]. rewrite rd8_wr8.
      pose proof (lookup_lt_Some _ _ _ Hi). rewrite decide_False by lia.
      by replace (src + 1 + Z.of_nat i) with (src + Z.of_nat (S i)) by lia.
    + lia.
    + lia.
    + exists m'. split; [f_equal; f_equal; lia|]. intros k Hk. rewrite Hout by lia.
      rewrite rd8_wr8. by rewrite decide_False by lia.
Qed.

(** ** Spans *)
Lemma in_set_spec l fuel m c a :
  cstring m a l → (length l < fuel)%nat → in_set fuel m c a = Done (bool_decide (c ∈ l)).
Proof.
  revert fuel a. induction l as [|d l IH]; intros [|fuel] a Hl Hf; try (simpl in Hf; lia);
    cbn [in_set cstring length] in *.
  - rewrite Hl. simpl (0 =? 0). cbn iota. by rewrite bool_decide_false by apply not_elem_of_nil.
  - destruct Hl as (-> & Hd & Hl). destruct (Z.eqb_spec d 0); [lia|].
    destruct (Z.eqb_spec c d) as [->|Hne].
    + by rewrite bool_decide_true by (apply elem_of_cons; by left).
    + rewrite IH by (done || lia). f_equal. apply bool_decide_ext.
      rewrite elem_of_cons. tauto.
Qed.

Fixpoint span (P : Z → bool) (l : list Z) : nat :=
  match l with
  | c :: l => if P c then S (span P l) else O
  | [] => O
  end.

Lemma span_loop_spec l set fuel setfuel want m s a ret :
  cstring m s l → cstring m a set → (length l < fuel)%nat → (length set < setfuel)%nat →
  0 <= ret → ret + Z.of_nat (length l) < 2 ^ 64 →
  span_loop fuel want m s a ret setfuel =
    Done (ret + Z.of_nat (span (λ c, eqb (bool_decide (c ∈ set)) want) l)).
Proof.
  revert fuel s ret. induction l as [|d l IH]; intros [|fuel] s ret Hl Hs Hf Hsf Hr Hm;
    try (simpl in Hf; lia); cbn [span_loop cstring length span] in *.
  - rewrite Hl. simpl. f_equal. lia.
  - destruct Hl as (-> & Hd & Hl). destruct (Z.eqb_spec d 0); [lia|].
    rewrite (in_set_spec set) by done. cbn [obind].
    destruct (eqb (bool_decide (d ∈ set)) want); [|f_equal; lia].
    rewrite u64_small by lia. rewrite IH by (done || lia). f_equal. lia.
Qed.

(** C38. The read-only string functions.  On terminated strings, with fuel
    beyond their lengths, [strlen] returns the length, [strcmp] returns 0
    exactly for equal strings, [strchr] finds the first occurrence (the
    terminator included), and [strspn] and [strcspn] return the length of
    the longest prefix inside and outside the set. *)
Theorem string_queries m s t l k fuel c :
  cstring m s l → cstring m t k → (length l < fuel)%nat → (length k < fuel)%nat →
  Z.of_nat (length l) < 2 ^ 64 →
  strlen fuel m s = Done (Z.of_nat (length l)) ∧
  (∃ r, strcmp fuel m s t = Done r ∧ (r = 0 ↔ l = k)) ∧
  strchr fuel m s c = Done
    (if u8 c =? 0 then Some (s + Z.of_nat (length l))
     else (λ p, s + Z.of_nat p.1) <$> list_find (λ x, x = u8 c) l) ∧
  strspn fuel m s t = Done (Z.of_nat (span (λ x, bool_decide (x ∈ k)) l)) ∧
  strcspn fuel m s t = Done (Z.of_nat (span (λ x, negb (bool_decide (x ∈ k))) l)).
Proof.
  intros Hl Hk Hf Hfk Hm.
  assert (∀ want, span (λ c, eqb (bool_decide (c ∈ k)) want) l =
    span (λ c, if want then bool_decide (c ∈ k) else negb (bool_decide (c ∈ k))) l) as Hsp.
  { intros want. clear. induction l as [|d l IH]; [done|]. cbn [span]. rewrite IH.
    by destruct want, (bool_decide (d ∈ k)). }
  split_and!.
  - unfold strlen. rewrite (strlen_loop_spec l) by (done || lia). done.
  - by apply strcmp_spec.
  - by apply strchr_spec.
  - unfold strspn. rewrite (span_loop_spec l k), Hsp by (done || lia). done.
  - unfold strcspn. rewrite (span_loop_spec l k), Hsp by (done || lia). done.
Qed.

Definition demo_mem : mem := list_to_map (zip (seqZ 16 6) [47; 97; 98; 47; 99; 0]).

Lemma string_queries_witness :
  strlen 10 demo_mem 16 = Done 5 ∧ strcmp 10 demo_mem 16 19 ≠ Done 0 ∧
  strchr 10 demo_mem 16 98 = Done (Some 18) ∧ strcspn 10 demo_mem 17 19 = Done 2.
Proof.
  assert (cstring demo_mem 16 [47; 97; 98; 47; 99]) as H1 by (vm_compute; split_and!; done).
  assert (cstring demo_mem 17 [97; 98; 47; 99]) as H2 by (vm_compute; split_and!; done).
  assert (cstring demo_mem 19 [47; 99]) as H3 by (vm_compute; split_and!; done).
  destruct (string_queries demo_mem 16 19 _ _ 10 98 H1 H3) as (E1 & (r & E2 & Hr) & E3 & _);
    [simpl; lia..|].
  destruct (string_queries demo_mem 17 19 _ _ 10 98 H2 H3) as (_ & _ & _ & _ & E4);
    [simpl; lia..|].
  split; [exact E1|]. split.
  - rewrite E2. intros [= ->]. destruct Hr as [Hr _]. specialize (Hr eq_refl). discriminate Hr.
  - split; [exact E3|exact E4].
Defined.

(** [memcpy] copies from the last byte down, so it is right whenever the
    destination does not start below an overlapping source: the destination
    gets the bytes the source had, and nothing else changes.  [memset] stores
    one byte value in exactly its range. *)
Lemma memcpy_memset_bytes m dest src n c k :
  0 <= n → src <= dest ∨ dest + n <= src →
  rd8 (memcpy m dest src n) k =
    (if decide (dest <= k < dest + n) then rd8 m (src + (k - dest)) else rd8 m k) ∧
  rd8 (memset m dest c n) k = (if decide (dest <= k < dest + n) then u8 c else rd8 m k).
Proof.
  intros Hn Hd. unfold memcpy, memset. split.
  - rewrite memcpy_loop_spec by lia. by rewrite Z2Nat.id.
  - rewrite memset_loop_fill, rd8_fill. by rewrite Z2Nat.id.
Qed.

Lemma memcpy_memset_bytes_witness :
  rd8 (memcpy demo_mem 18 16 4) 20 = rd8 demo_mem 18 ∧ rd8 (memset demo_mem 18 7 4) 20 = 7.
Proof. apply (memcpy_memset_bytes demo_mem 18 16 4 7 20); lia. Defined.

(** [strcpy] and [strcat] between buffers that do not overlap terminate,
    leave the copied and the concatenated string, and change no byte outside
    the destination string. *)
Lemma strcpy_strcat_strings m dest src l k fuel :
  cstring m src k → cstring m dest l →
  (length k < fuel)%nat → (length l < fuel)%nat → Z.of_nat (length l) < 2 ^ 64 →
  dest + Z.of_nat (length l + length k) < src ∨ src + Z.of_nat (length k) < dest →
  (∃ m', strcpy fuel m dest src = Done (dest, m') ∧ cstring m' dest k ∧
     same_outside dest (Z.of_nat (length k) + 1) m m') ∧
  (∃ m', strcat fuel m dest src = Done (dest, m') ∧ cstring m' dest (l ++ k) ∧
     same_outside dest (Z.of_nat (length l + length k) + 1) m m').
Proof.
  intros Hk Hl Hfk Hfl Hm Hd. split.
  - destruct (strcpy_loop_spec k fuel m dest src) as (m' & E & H1 & H2); [done|done|lia|].
    exists m'. unfold strcpy. rewrite E. done.
  - destruct (strcpy_loop_spec k fuel m (dest + Z.of_nat (length l)) src)
      as (m' & E & H1 & H2); [done|done|lia|].
    exists m'. unfold strcat, strlen, strcpy.
    rewrite (strlen_loop_spec l) by (done || lia). cbn [obind]. rewrite Z.add_0_l, E.
    split_and!; [done| |].
    + apply (cstring_glue m); [done| |done]. intros j Hj. apply H2. lia.
    + intros j Hj. apply H2. lia.
Qed.

Lemma strcpy_strcat_strings_witness :
  (∃ m', strcat 10 demo_mem 40 16 = Done (40, m') ∧ cstring m' 40 ([] ++ [47; 97; 98; 47; 99]) ∧
     same_outside 40 6 demo_mem m').
Proof.
  apply (strcpy_strcat_strings demo_mem 40 16 [] [47; 97; 98; 47; 99] 10);
    [vm_compute; split_and!; done|by vm_compute|simpl; lia|simpl; lia|simpl; lia|simpl; lia].
Defined.

(** [strncpy] writes past its limit: when the source is longer than [n],
    the counter has wrapped when it is tested, and a 0 is stored at
    [dest + n], one byte beyond the [n] bytes the caller allows. *)
Lemma strncpy_writes_past_limit m dest src l n :
  cstring m src l → (n < length l)%nat →
  dest + Z.of_nat n < src ∨ src + Z.of_nat (length l) < dest →
  rd8 (strncpy m dest src (Z.of_nat n)).2 (dest + Z.of_nat n) = 0.
Proof.
  intros Hl Hn Hd. unfold strncpy. rewrite Nat2Z.id.
  destruct (strncpy_loop_full n m dest src l) as (m' & -> & _); [|done|lia|].
  - rewrite <- (app_nil_r l) in Hl. by apply cstring_app in Hl as [Hl _].
  - change (truth (u64 (-1))) with true. cbn [snd]. rewrite rd8_wr8. by rewrite decide_True.
Qed.

Lemma strncpy_writes_past_limit_witness :
  let m := wr8 demo_mem 43 9 in
  rd8 m 43 = 9 ∧ rd8 (strncpy m 40 16 3).2 43 = 0.
Proof.
  intros m. split; [by vm_compute|].
  apply (strncpy_writes_past_limit m 40 16 [47; 97; 98; 47; 99] 3);
    [vm_compute; split_and!; done|simpl; lia|simpl; lia].
Defined.
