(* ===== verification/EfiVMem.v ===== *)
(** * Virtual memory of the EFI loader

    src/efiloader/vmem.c and pmem_alloc.c: the list of virtual regions and
    the page tables built from it.  Physical pages come from the firmware
    ([BS->AllocatePages]), which is a parameter with the behaviour the UEFI
    specification documents; whether the C library's [malloc] finds room for
    the list node that follows [k] others is the parameter [malloc_ok].
    The text of [printf] messages is left out. *)

From stdpp Require Import base numbers list gmap.
From Stdlib Require Import Lia Sorted.
From S2P Require Import Prelude Mem PageTable.
Open Scope Z_scope.

(** EFI_STATUS: 0 is success; errors have the top bit set. *)
Definition EFI_SUCCESS : Z := 0.
Definition EFI_OUT_OF_RESOURCES : Z := 2 ^ 63 + 9.
Definition EFI_ABORTED : Z := 2 ^ 63 + 21.

Definition START_VMEM_ADDR : Z := 0x10000000.
Definition END_VMEM_ADDR : Z := 0x800000000000.

(** struct vmem_map_entry; the linked list is a list in its order. *)
Record vmem_map_entry := Entry { base : Z; length : Z; start_hole : Z; src : Z }.

#[export] Instance entry_eq_dec : EqDecision vmem_map_entry.
Proof. solve_decision. Defined.

(** ** The list of regions *)
Definition intersects (b len : Z) (test : vmem_map_entry) : bool :=
  let a_last := u64 (u64 (b + len) - 1) in
  let test_last := u64 (u64 (base test + length test) - 1) in
  if test_last <? b then false else if a_last <? base test then false else true.

Section regions.
Context (malloc_ok : nat → bool).

Definition add (b len s : Z) (rs : list vmem_map_entry) : Z * list vmem_map_entry :=
  if malloc_ok (List.length rs) then (EFI_SUCCESS, rs ++ [Entry b len 0 s])
  else (EFI_OUT_OF_RESOURCES, rs).

(** The first entry that intersects, with its position. *)
Definition get_intersect (b len : Z) (rs : list vmem_map_entry) : option (nat * vmem_map_entry) :=
  list_find (λ t, intersects b len t = true) rs.

Definition get_pmem_for_vmem (vaddr : Z) (rs : list vmem_map_entry) : Z :=
  match get_intersect vaddr 1 rs with
  | None => 0
  | Some (_, e) => u64 (u64 (vaddr - base e) + src e)
  end.

Definition add_start_hole (b len : Z) (rs : list vmem_map_entry) : Z * list vmem_map_entry :=
  match get_intersect b 1 rs with
  | None => (EFI_ABORTED, rs)
  | Some (i, e) => (EFI_SUCCESS, <[i := Entry (base e) (length e) len (src e)]> rs)
  end.

Definition allocate_fixed (b len s : Z) (rs : list vmem_map_entry) : Z * list vmem_map_entry :=
  match get_intersect b len rs with
  | Some _ => (EFI_OUT_OF_RESOURCES, rs)
  | None => add b len s rs
  end.

(** The status, the address stored through [vaddr_out] and the list. *)
Fixpoint allocate_any_loop (fuel : nat) (b len s : Z) (rs : list vmem_map_entry)
    : outcome (Z * option Z * list vmem_map_entry) :=
  match fuel with
  | O => Hang
  | S fuel =>
      if u64 (b + len) <=? END_VMEM_ADDR then
        match get_intersect b len rs with
        | None =>
            let '(st, rs) := add b len s rs in
            Done (st, if st =? EFI_SUCCESS then Some b else None, rs)
        | Some (_, e) =>
            let b := u64 (base e + length e) in
            let b := if truth (Z.land b 0xfff)
                     then Z.land (u64 (b + 0x1000)) (u64 (Z.lnot 0xfff)) else b in
            allocate_any_loop fuel b len s rs
        end
      else Done (u64 (-1), None, rs)
  end.

Definition allocate_any (len s : Z) (rs : list vmem_map_entry)
    : outcome (Z * option Z * list vmem_map_entry) :=
  allocate_any_loop (2 + List.length rs) START_VMEM_ADDR len s rs.
End regions.

(** ** Physical pages from the firmware *)
Inductive memtype := EfiLoaderCode | EfiLoaderData.

Class FirmwareOps (F : Type) := {
  fw_ram : F → mem;
  fw_set_ram : mem → F → F;
  (** [BS->AllocatePages(AllocateAnyPages, type, pages, &addr)] *)
  fw_alloc_pages : memtype → Z → M F (Z * Z)
}.

Class Firmware (F : Type) `{FirmwareOps F} := {
  fw_used : F → Z → Prop;
  fw_ram_set m s : fw_ram (fw_set_ram m s) = m;
  fw_used_set m s a : fw_used (fw_set_ram m s) a ↔ fw_used s a;
  (** Allocation either fails or returns page-aligned memory no one has. *)
  fw_alloc_spec ty n s : 0 <= n →
    wp (fw_alloc_pages ty n) (λ r s', fw_ram s' = fw_ram s ∧
      (∀ a, fw_used s a → fw_used s' a) ∧
      (r.1 = EFI_SUCCESS →
         0 < r.2 ∧ r.2 + 4096 * n <= 2 ^ 52 ∧ r.2 mod 4096 = 0 ∧
         ∀ i, 0 <= i < n → ¬ fw_used s (r.2 + 4096 * i) ∧ fw_used s' (r.2 + 4096 * i))) s
}.

Section tables.
Context {F : Type} `{FirmwareOps F}.

Definition alloc_code (len : Z) : M F (Z * Z) := fw_alloc_pages EfiLoaderCode (len / 4096).
Definition alloc_data (len : Z) : M F (Z * Z) := fw_alloc_pages EfiLoaderData (len / 4096).

(** Status, virtual and physical address, and the list. *)
Definition allocate (malloc_ok : nat → bool) (len : Z) (rs : list vmem_map_entry)
    : M F (Z * option Z * option Z * list vmem_map_entry) :=
  let align_length := if truth (Z.land len 0xfff)
                      then Z.land (u64 (len + 0x1000)) (u64 (Z.lnot 0xfff)) else len in
  r ← alloc_data align_length;
  if negb (r.1 =? EFI_SUCCESS) then mret (r.1, None, None, rs)
  else
    a ← lift (allocate_any malloc_ok len r.2 rs);
    let '(st, vaddr, rs) := a : Z * option Z * list vmem_map_entry in
    mret (st, vaddr, if st =? EFI_SUCCESS then Some r.2 else None, rs).

(** ** Page tables.  Errors are statuses, results options. *)
Definition get_child_entry (parent idx : Z) : M F (Z * Z) :=
  s ← get;
  if Z.land (rd64 (fw_ram s) (parent + 8 * idx)) 0x1 =? 0 then
    r ← alloc_code 0x1000;
    if negb (r.1 =? EFI_SUCCESS) then mret (r.1, 0)
    else
      modify (λ s, fw_set_ram (fill 4096 (fw_ram s) r.2 0) s) ;;
      modify (λ s, fw_set_ram (wr64 (fw_ram s) (parent + 8 * idx) (Z.lor r.2 0x3)) s) ;;
      s ← get;
      mret (EFI_SUCCESS,
            Z.land (rd64 (fw_ram s) (parent + 8 * idx)) (u64 (Z.lnot 0xfff)))
  else mret (EFI_SUCCESS, Z.land (rd64 (fw_ram s) (parent + 8 * idx)) (u64 (Z.lnot 0xfff))).

Definition build_pte_for_page (paddr vaddr pml4t : Z) : M F Z :=
  if truth (Z.land paddr 0xfff) then mret EFI_ABORTED
  else if truth (Z.land vaddr 0xfff) then mret EFI_ABORTED
  else
    r ← get_child_entry pml4t (GET_PML4T_ENTRY_NO vaddr);
    if negb (r.1 =? EFI_SUCCESS) then mret r.1
    else
      r ← get_child_entry r.2 (GET_PDPT_ENTRY_NO vaddr);
      if negb (r.1 =? EFI_SUCCESS) then mret r.1
      else
        r ← get_child_entry r.2 (GET_PD_ENTRY_NO vaddr);
        if negb (r.1 =? EFI_SUCCESS) then mret r.1
        else
          modify (λ s, fw_set_ram (wr64 (fw_ram s) (r.2 + 8 * GET_PT_ENTRY_NO vaddr)
                                     (Z.lor paddr 0x3)) s) ;;
          mret EFI_SUCCESS.

Fixpoint region_loop (fuel : nat) (r : vmem_map_entry) (cur_offset pml4t : Z) : M F Z :=
  match fuel with
  | O => hang
  | S fuel =>
      if cur_offset <? length r then
        st ← build_pte_for_page (u64 (src r + cur_offset)) (u64 (base r + cur_offset)) pml4t;
        if negb (st =? EFI_SUCCESS) then mret st
        else region_loop fuel r (u64 (cur_offset + 0x1000)) pml4t
      else mret EFI_SUCCESS
  end.

Definition build_pte_for_region (r : vmem_map_entry) (pml4t : Z) : M F Z :=
  let cur_offset := Z.land (start_hole r) (u64 (Z.lnot 0xfff)) in
  if truth (Z.land (base r) 0xfff) || truth (Z.land (length r) 0xfff) ||
     truth (Z.land (src r) 0xfff) then mret EFI_ABORTED
  else region_loop (Z.to_nat (length r / 0x1000 + 2)) r cur_offset pml4t.

Fixpoint build_regions (rs : list vmem_map_entry) (pml4t : Z) : M F Z :=
  match rs with
  | [] => mret EFI_SUCCESS
  | r :: rs =>
      st ← build_pte_for_region r pml4t;
      if negb (st =? EFI_SUCCESS) then mret st else build_regions rs pml4t
  end.

Definition build_page_tables (rs : list vmem_map_entry) : M F (Z * option Z) :=
  r ← alloc_code 0x1000;
  if negb (r.1 =? EFI_SUCCESS) then mret (r.1, None)
  else
    modify (λ s, fw_set_ram (fill 4096 (fw_ram s) r.2 0) s) ;;
    st ← build_regions rs r.2;
    if negb (st =? EFI_SUCCESS) then mret (st, None)
    else
      modify (λ s, fw_set_ram (wr64 (fw_ram s) (r.2 + 0xff8) (Z.lor r.2 0x3)) s) ;;
      mret (EFI_SUCCESS, Some r.2).
End tables.

(** ** The regions stay apart *)
Definition apart (r r' : vmem_map_entry) : Prop :=
  base r + length r <= base r' ∨ base r' + length r' <= base r.

(** In one half of the 48-bit address space and not in the last 512 GiB,
    where the recursive entry of the root table lies. *)
Definition canonical (b len : Z) : Prop :=
  0 <= b ∧ 0 < len ∧ (b + len <= 2 ^ 47 ∨ (2 ^ 64 - 2 ^ 47 <= b ∧ b + len <= 2 ^ 64 - 2 ^ 39)).

Definition region_ok (r : vmem_map_entry) : Prop :=
  canonical (base r) (length r) ∧ 0 <= start_hole r < 2 ^ 64 ∧
  0 <= src r ∧ src r + length r <= 2 ^ 52.

Definition regions_ok (rs : list vmem_map_entry) : Prop :=
  Forall region_ok rs ∧ StronglySorted apart rs.

(** [b, b + len) meets no region. *)
Definition free_range (b len : Z) (rs : list vmem_map_entry) : Prop :=
  Forall (λ r, b + len <= base r ∨ base r + length r <= b) rs.

Section allocator.
Context (malloc_ok : nat → bool).
Implicit Types (rs : list vmem_map_entry).

Lemma intersects_spec b len r :
  0 <= b → 0 < len → b + len <= 2 ^ 64 → canonical (base r) (length r) →
  intersects b len r = true ↔ ¬ (b + len <= base r ∨ base r + length r <= b).
Proof.
  intros Hb Hl Hbl Hc. unfold canonical in Hc. unfold intersects.
  assert (u64 (u64 (b + len) - 1) = b + len - 1) as -> by mlia.
  assert (u64 (u64 (base r + length r) - 1) = base r + length r - 1) as -> by mlia.
  destruct (Z.ltb_spec (base r + length r - 1) b), (Z.ltb_spec (b + len - 1) (base r));
    split; intros E; try done; lia.
Qed.

Lemma get_intersect_none b len rs :
  0 <= b → 0 < len → b + len <= 2 ^ 64 → Forall region_ok rs →
  get_intersect b len rs = None → free_range b len rs.
Proof.
  intros Hb Hl Hbl Hok E. unfold get_intersect in E. apply list_find_None in E.
  unfold free_range. rewrite Forall_forall in *. intros r Hr. specialize (E r Hr).
  rewrite intersects_spec in E by (done || apply Hok, Hr). lia.
Qed.

Lemma get_intersect_some b len rs i r :
  0 <= b → 0 < len → b + len <= 2 ^ 64 → Forall region_ok rs →
  get_intersect b len rs = Some (i, r) →
  rs !! i = Some r ∧ base r < b + len ∧ b < base r + length r.
Proof.
  intros Hb Hl Hbl Hok E. unfold get_intersect in E. apply list_find_Some in E as (Hi & E & _).
  rewrite Forall_forall in Hok. pose proof (Hok r (list_elem_of_lookup_2 _ _ _ Hi)) as [Hc _].
  apply intersects_spec in E; [|done..]. split; [done|]. lia.
Qed.

Lemma regions_ok_snoc b len s rs :
  regions_ok rs → free_range b len rs → region_ok (Entry b len 0 s) →
  regions_ok (rs ++ [Entry b len 0 s]).
Proof.
  intros [H1 H2] Hf Hr. split.
  - apply Forall_app. auto.
  - apply strongly_sorted_snoc; [done|]. eapply Forall_impl; [exact Hf|].
    intros r Hx. cbv beta in Hx. unfold apart. cbn [base length]. lia.
Qed.

Lemma allocate_fixed_ok b len s rs :
  regions_ok rs → region_ok (Entry b len 0 s) →
  let r := allocate_fixed malloc_ok b len s rs in
  regions_ok r.2 ∧
  (r.1 = EFI_SUCCESS ↔ free_range b len rs ∧ malloc_ok (List.length rs) = true) ∧
  r.2 = (if r.1 =? EFI_SUCCESS then rs ++ [Entry b len 0 s] else rs).
Proof.
  intros Hrs Hr. pose proof Hr as [Hc _]. cbn [base length] in Hc. unfold canonical in Hc.
  unfold allocate_fixed. destruct (get_intersect b len rs) as [[i r]|] eqn:E; cbv zeta.
  - apply get_intersect_some in E as (Hi & Hlo & Hhi); [|lia|lia|lia|apply Hrs].
    cbn [fst snd]. split_and!; [done| |done]. split; [done|]. intros [Hf _].
    unfold free_range in Hf. rewrite Forall_forall in Hf.
    specialize (Hf r (list_elem_of_lookup_2 _ _ _ Hi)). lia.
  - apply get_intersect_none in E; [|lia|lia|lia|apply Hrs]. unfold add.
    destruct (malloc_ok (List.length rs)); cbn [fst snd]; split_and!; try done.
    + by apply regions_ok_snoc.
    + split; [done|]. by intros [_ ?].
Qed.

(** ** First fit *)
Definition round_page (x : Z) : Z := (x + 4095) / 4096 * 4096.

Lemma round_up_spec b :
  0 <= b <= 2 ^ 63 →
  (if truth (Z.land b 0xfff) then Z.land (u64 (b + 0x1000)) (u64 (Z.lnot 0xfff)) else b) =
  round_page b.
Proof.
  intros Hb. rewrite land_fff. unfold round_page, truth.
  destruct (Z.eqb_spec (b mod 4096) 0) as [E|E]; cbn [negb]; [dlia|].
  rewrite u64_small by lia.
  rewrite page_mask by lia. dlia.
Qed.

(** The regions that end above [b]. *)
Definition ahead (b : Z) (rs : list vmem_map_entry) : nat :=
  List.length (filter (λ r, b < base r + length r) rs).

Lemma ahead_le b c rs : b <= c → (ahead c rs <= ahead b rs)%nat.
Proof.
  intros H. unfold ahead. induction rs as [|r rs IH]; [done|].
  rewrite !filter_cons. repeat case_decide; simpl; lia.
Qed.

Lemma ahead_lt b c rs r :
  r ∈ rs → b < base r + length r → base r + length r <= c → (ahead c rs < ahead b rs)%nat.
Proof.
  intros Hr Hb Hc. apply list_elem_of_split in Hr as (l1 & l2 & ->).
  pose proof (ahead_le b c l1 ltac:(lia)). pose proof (ahead_le b c l2 ltac:(lia)).
  unfold ahead in *. rewrite !filter_app, !filter_cons, !length_app.
  rewrite (decide_False (P := c < _)), (decide_True (P := b < _)) by lia. simpl. lia.
Qed.

(** What [allocate_any] promises: the lowest free page-aligned address. *)
Definition candidate (len b : Z) (rs : list vmem_map_entry) : Prop :=
  START_VMEM_ADDR <= b ∧ b + len <= END_VMEM_ADDR ∧ b mod 4096 = 0 ∧ free_range b len rs.

Inductive any_result (len s : Z) (rs : list vmem_map_entry)
    : Z * option Z * list vmem_map_entry → Prop :=
| any_found b :
    candidate len b rs → (∀ c, candidate len c rs → b <= c) →
    malloc_ok (List.length rs) = true →
    any_result len s rs (EFI_SUCCESS, Some b, rs ++ [Entry b len 0 s])
| any_no_node b :
    candidate len b rs → malloc_ok (List.length rs) = false →
    any_result len s rs (EFI_OUT_OF_RESOURCES, None, rs)
| any_full :
    (∀ c, ¬ candidate len c rs) → any_result len s rs (u64 (-1), None, rs).

Lemma allocate_any_loop_spec fuel b len s rs :
  Forall region_ok rs → 0 < len < 2 ^ 63 → b mod 4096 = 0 →
  START_VMEM_ADDR <= b <= END_VMEM_ADDR → (ahead b rs < fuel)%nat →
  (∀ c, candidate len c rs → b <= c) →
  ∃ r, allocate_any_loop malloc_ok fuel b len s rs = Done r ∧ any_result len s rs r.
Proof.
  intros Hok Hlen. revert b. induction fuel as [|fuel IH]; intros b Hbm Hb Hfuel Hfirst; [lia|].
  unfold START_VMEM_ADDR, END_VMEM_ADDR in *.
  cbn [allocate_any_loop]. unfold END_VMEM_ADDR. rewrite (u64_small (b + len)) by lia.
  destruct (Z.leb_spec (b + len) 0x800000000000) as [Hend|Hend].
  2: { eexists. split; [done|]. apply any_full. intros c Hc. specialize (Hfirst c Hc).
       destruct Hc as (_ & Hc & _). unfold END_VMEM_ADDR in Hc. lia. }
  destruct (get_intersect b len rs) as [[i r]|] eqn:E.
  - apply get_intersect_some in E as (Hi & Hlo & Hhi); [|lia|lia|lia|done].
    apply list_elem_of_lookup_2 in Hi as Hr.
    assert (canonical (base r) (length r)) as Hc
      by (rewrite Forall_forall in Hok; apply Hok, Hr).
    unfold canonical in Hc. cbv zeta. rewrite u64_small, round_up_spec by lia.
    assert (base r + length r <= round_page (base r + length r) <= 2 ^ 47) as Hround
      by (unfold round_page; dlia).
    apply IH.
    + unfold round_page. dlia.
    + lia.
    + pose proof (ahead_lt b (round_page (base r + length r)) rs r Hr). lia.
    + intros c Hcand. pose proof (Hfirst c Hcand) as Hle.
      destruct Hcand as (_ & Hc2 & Hcm & Hf). unfold free_range in Hf.
      rewrite Forall_forall in Hf. specialize (Hf r Hr). unfold round_page. dlia.
  - apply get_intersect_none in E; [|lia|lia|lia|done].
    assert (candidate len b rs) as Hcand
      by (unfold candidate, START_VMEM_ADDR, END_VMEM_ADDR; split_and!; [lia|lia|done|done]).
    unfold add. destruct (malloc_ok (List.length rs)) eqn:Em; eexists; (split; [done|]).
    + by apply any_found.
    + by apply any_no_node with b.
Qed.

Lemma allocate_any_spec len s rs :
  Forall region_ok rs → 0 < len < 2 ^ 63 →
  ∃ r, allocate_any malloc_ok len s rs = Done r ∧ any_result len s rs r.
Proof.
  intros Hok Hlen. apply allocate_any_loop_spec; try done.
  - unfold ahead. pose proof (length_filter (λ r, START_VMEM_ADDR < base r + length r) rs). lia.
  - intros c Hc. apply Hc.
Qed.
End allocator.

(** ** The tables being built

    Relative to the state [s0] before the first table was allocated: every
    table is fresh, inner entries hold their child's address with flags 3, and
    nothing that was in use has changed. *)
Section builder.
Context {F : Type} {FO : FirmwareOps F} {FW : Firmware F}.
Context (s0 : F) (root : Z).

Definition page_base (k : Z) : Z := k - k mod 4096.

Record building (T : gmap (list Z) Z) (s : F) : Prop := Building {
  bd_tree : tree (fw_ram s) root T;
  bd_fresh : ∀ p a, T !! p = Some a → fw_used s a ∧ ¬ fw_used s0 a;
  bd_inner : ∀ p a i c, T !! p = Some a → T !! (p ++ [i]) = Some c →
    entry (fw_ram s) a i = c + 3;
  bd_keep : ∀ a, fw_used s0 a → fw_used s a;
  bd_ram : ∀ k, fw_used s0 (page_base k) → rd8 (fw_ram s) k = rd8 (fw_ram s0) k
}.

Lemma flags_lor a : 0 <= a → a mod 4096 = 0 → Z.lor a 0x3 = a + 3.
Proof.
  intros H0 Hm. replace a with (Z.shiftl (a / 4096) 12) at 1
    by (rewrite Z.shiftl_mul_pow2 by lia; change (2 ^ 12) with 4096; dlia).
  rewrite lor_shiftl_small by lia. change (2 ^ 12) with 4096. dlia.
Qed.

Lemma entry_flags a :
  0 <= a < 2 ^ 52 → a mod 4096 = 0 →
  present (a + 3) = true ∧ frame_of (a + 3) = a ∧ u64 (a + 3) = a + 3 ∧
  Z.land (a + 3) (u64 (Z.lnot 0xfff)) = a.
Proof.
  intros Ha Hm. split_and!.
  - rewrite present_odd. replace (a + 3) with (1 + 2 * (a / 4096 * 2048 + 1)) by dlia.
    by rewrite Z.odd_add_mul_2.
  - rewrite frame_of_div by lia. dlia.
  - apply u64_small. lia.
  - rewrite page_mask by lia. dlia.
Qed.

(** A store into a fresh page leaves what was in use alone. *)
Lemma ram_kept a n m m' k :
  same_outside a n m m' → a mod 4096 = 0 → n <= 4096 → ¬ fw_used s0 a →
  fw_used s0 (page_base k) → rd8 m' k = rd8 m k.
Proof.
  intros Hs Ha Hn Hf Hu. apply Hs. unfold page_base in *.
  assert (k - k mod 4096 ≠ a) by congruence. dlia.
Qed.

Lemma store_same_outside m a i e : index i → same_outside a 4096 m (wr64 m (a + 8 * i) e).
Proof.
  intros Hi. eapply (same_outside_weaken (a + 8 * i) 8); [apply (wr_same_outside 8)|..];
    unfold index in Hi; lia.
Qed.

Lemma present_bit e : (Z.land e 0x1 =? 0) = negb (present e).
Proof.
  change 0x1 with (Z.ones 1). rewrite Z.land_ones by lia. change (2 ^ 1) with 2.
  rewrite present_odd, Zmod_odd. by destruct (Z.odd e).
Qed.

(** The result of descending to the table at [p]. *)
Definition child_post (p : list Z) (s : F) (r : Z * Z) (s' : F) : Prop :=
  ∃ T, building T s' ∧
    (∀ v, user_va v → leaf (fw_ram s') root v = leaf (fw_ram s) root v) ∧
    (r.1 = EFI_SUCCESS → T !! p = Some r.2).

Section child.
Context (T : gmap (list Z) Z) (s : F) (p : list Z) (a i : Z).
Hypothesis Hb : building T s.
Hypothesis Hp : T !! p = Some a.
Hypothesis Hlen : (List.length p < 3)%nat.
Hypothesis Hi : index i.
Hypothesis Hns : ¬ self_slot p i.

Lemma child_present :
  present (entry (fw_ram s) a i) = true →
  T !! (p ++ [i]) = Some (Z.land (entry (fw_ram s) a i) (u64 (Z.lnot 0xfff))).
Proof.
  intros Hpr. destruct Hb as [HT Hf Hin _ _].
  pose proof (tr_entry _ _ _ HT p a i Hp Hlen Hi Hns) as E. rewrite Hpr in E.
  destruct (tr_table _ _ _ HT _ _ E) as [_ (C0 & C1 & C2)].
  pose proof (Hin _ _ _ _ Hp E) as Ee. rewrite E. f_equal. symmetry.
  rewrite Ee at 1. apply entry_flags; [lia|done].
Qed.

(** A fresh table was allocated, cleared and hung under entry [i]. *)
Lemma child_added new s1 s2 :
  fw_ram s1 = fw_ram s → (∀ b, fw_used s b → fw_used s1 b) →
  table_ok new → ¬ fw_used s new → fw_used s1 new →
  (∀ b, fw_used s2 b ↔ fw_used s1 b) →
  fw_ram s2 = wr64 (fill 4096 (fw_ram s1) new 0) (a + 8 * i) (new + 3) →
  present (entry (fw_ram s) a i) = false →
  entry (fw_ram s2) a i = new + 3 ∧ building (<[p ++ [i] := new]> T) s2 ∧
  ∀ v, user_va v → leaf (fw_ram s2) root v = leaf (fw_ram s) root v.
Proof.
  intros E1 Hk1 Hnew Hnu Hu1 Hu2 E2 Habs. destruct Hb as [HT Hf Hin Hk Hram].
  pose proof (tr_table _ _ _ HT _ _ Hp) as [_ Ha].
  assert (a ≠ new) as Hane by (intros ->; apply Hnu, (Hf p), Hp).
  destruct (entry_flags new) as (F1 & F2 & F3 & _); [destruct Hnew; lia|apply Hnew|].
  assert (∀ t j, table_ok t → index j → entry (fw_ram s2) t j =
    if decide (t = a ∧ j = i) then new + 3
    else entry (fill 4096 (fw_ram s) new 0) t j) as Hst
    by (intros t j Ht Hj; rewrite E2, E1, (entry_store _ a i _ t j Ha Ht Hi Hj), F3; reflexivity).
  assert (∀ t j, table_ok t → index j → t ≠ new →
    entry (fill 4096 (fw_ram s) new 0) t j = entry (fw_ram s) t j) as Hfill.
  { intros t j Ht Hj Hne. apply (entry_same_outside _ _ t j new 4096);
      [apply (fill_same_outside 4096)|done|done|apply Hnew|lia|done]. }
  assert (entry (fw_ram s2) a i = new + 3) as Ea
    by (rewrite (Hst a i Ha Hi), decide_True by (split; reflexivity); reflexivity).
  assert (∀ q t j, T !! q = Some t → index j → ¬ (t = a ∧ j = i) →
    entry (fw_ram s2) t j = entry (fw_ram s) t j) as Hsame.
  { intros q t j Hq Hj Hne. pose proof (tr_table _ _ _ HT _ _ Hq) as [_ Ht].
    rewrite (Hst t j Ht Hj), decide_False by exact Hne. apply Hfill; [done|done|].
    intros ->. by apply Hnu, (Hf q). }
  destruct (tree_add (fw_ram s) (fw_ram s2) root T p a i HT Hp Hi Hsame new
    Hlen Hns Habs Hnew) as [HT' Hl].
  - intros q Hq. by apply Hnu, (Hf q).
  - intros j Hj. rewrite (Hst new j Hnew Hj), decide_False by (intros [E _]; congruence).
    unfold entry, rd64. apply (rd_fill_0 8 4096); unfold index in Hj; lia.
  - rewrite Ea. exact F1.
  - rewrite Ea. exact F2.
  - split; [exact Ea|]. split; [|exact Hl]. split; [exact HT'| | | |].
    + intros q t Hq. apply lookup_insert_Some in Hq as [[_ <-]|[_ Hq]].
      * split; [by apply Hu2|]. intros E. by apply Hnu, Hk.
      * destruct (Hf q t Hq). split; [by apply Hu2, Hk1|done].
    + intros q t j c Hq Hc.
      destruct (decide (q ++ [j] = p ++ [i])) as [E|Hne].
      * apply app_inj_tail in E as [-> ->]. rewrite lookup_insert_eq in Hc.
        rewrite lookup_insert_ne in Hq by (intros E; apply (f_equal List.length) in E;
          rewrite length_app in E; simpl in E; lia).
        assert (t = a) as -> by congruence. rewrite Ea. congruence.
      * rewrite lookup_insert_ne in Hc by done.
        destruct (tr_parent _ _ _ HT _ _ _ Hc) as ([t' Ht'] & Hj & _).
        assert (q ≠ p ++ [i]) as Hq' by (intros ->; pose proof
          (tr_entry _ _ _ HT p a i Hp Hlen Hi Hns) as E; rewrite Habs in E; congruence).
        rewrite lookup_insert_ne in Hq by done. rewrite (Hsame q); [by apply (Hin q)|done|done|].
        intros [-> ->]. apply Hne. by rewrite (tr_inj _ _ _ HT q p a).
    + intros b Hb0. by apply Hu2, Hk1, Hk.
    + intros k Hk0. rewrite E2, E1.
      rewrite (ram_kept a 4096 (fill 4096 (fw_ram s) new 0)); 
        [|by apply store_same_outside|apply Ha|reflexivity || lia|by apply (Hf p)|exact Hk0].
      rewrite (ram_kept new 4096 (fw_ram s)); 
        [by apply Hram|apply (fill_same_outside 4096)|apply Hnew|lia| |exact Hk0].
      intros E. by apply Hnu, Hk.
Qed.

Lemma get_child_entry_spec : wp (get_child_entry a i) (child_post (p ++ [i]) s) s.
Proof.
  unfold get_child_entry. wp_steps. rewrite present_bit. fold (entry (fw_ram s) a i).
  destruct (present (entry (fw_ram s) a i)) eqn:Hpr; cbn [negb].
  { wp_steps. exists T. split_and!; [done|done|]. intros _. by apply child_present. }
  wp_steps. eapply wp_mono; [by apply fw_alloc_spec|].
  intros [st new] s1 (E1 & Hk1 & Hres). cbn [fst snd] in *. destruct Hb as [HT Hf Hin Hk Hram].
  destruct (Z.eqb_spec st EFI_SUCCESS) as [->|Hne]; cbn [negb].
  2: { wp_steps. exists T. split_and!; [|by rewrite E1|by intros ?].
       split; [by rewrite E1| |by rewrite E1| |by rewrite E1].
       - intros q t Hq. destruct (Hf q t Hq). auto.
       - auto. }
  destruct (Hres eq_refl) as (N0 & N1 & N2 & N3). destruct (N3 0 ltac:(done)) as [N4 N5].
  rewrite Z.mul_0_r, Z.add_0_r in N4, N5.
  assert (table_ok new) as Hnew by (split_and!; [done| |done]; revert N1;
    change (0x1000 / 4096) with 1; lia).
  wp_steps. rewrite flags_lor by (done || lia).
  set (s2 := fw_set_ram _ _).
  destruct (child_added new s1 s2 E1 Hk1 Hnew N4 N5) as (Ea & Hb' & Hl').
  { intros b. unfold s2. by rewrite !fw_used_set. }
  { unfold s2. rewrite !fw_ram_set. reflexivity. }
  { exact Hpr. }
  exists (<[p ++ [i] := new]> T). split; [exact Hb'|]. split; [exact Hl'|]. intros _. cbn [snd].
  fold (entry (fw_ram s2) a i). rewrite Ea, lookup_insert_eq. f_equal. symmetry.
  apply entry_flags; [destruct Hnew; lia|done].
Qed.
End child.

(** ** One page *)
Definition aligned (x : Z) : Prop := x mod 4096 = 0.

Lemma truth_fff x : truth (Z.land x 0xfff) = negb (bool_decide (aligned x)).
Proof.
  rewrite land_fff. unfold truth, aligned. case_bool_decide as E.
  - by rewrite E.
  - by destruct (Z.eqb_spec (x mod 4096) 0).
Qed.

Definition page_post (paddr vaddr : Z) (s : F) (st : Z) (s' : F) : Prop :=
  (∃ T, building T s') ∧
  (∀ w, user_va w → vpn w ≠ vpn vaddr → leaf (fw_ram s') root w = leaf (fw_ram s) root w) ∧
  (st = EFI_SUCCESS → leaf (fw_ram s') root vaddr = Some (paddr + 3)).

Lemma set_page T s pt paddr v :
  building T s → T !! path v = Some pt → user_va v → 0 <= paddr < 2 ^ 52 → aligned paddr →
  page_post paddr v s EFI_SUCCESS
    (fw_set_ram (wr64 (fw_ram s) (pt + 8 * GET_PT_ENTRY_NO v) (paddr + 3)) s).
Proof.
  intros [HT Hf Hin Hk Hram] Hp Hv Ha Hm. set (i := GET_PT_ENTRY_NO v).
  assert (index i) as Hi by apply index_land.
  destruct (entry_flags paddr Ha Hm) as (F1 & F2 & F3 & _).
  pose proof (tr_table _ _ _ HT _ _ Hp) as [_ Hpt]. set (s' := fw_set_ram _ s).
  assert (∀ t j, table_ok t → index j → entry (fw_ram s') t j =
    if decide (t = pt ∧ j = i) then paddr + 3 else entry (fw_ram s) t j) as Hst
    by (intros t j Ht Hj; unfold s'; rewrite fw_ram_set, (entry_store _ pt i _ t j Hpt Ht Hi Hj), F3;
        reflexivity).
  assert (entry (fw_ram s') pt i = paddr + 3) as Ee
    by (rewrite (Hst pt i Hpt Hi), decide_True by (split; reflexivity); reflexivity).
  assert (∀ q t j, T !! q = Some t → index j → ¬ (t = pt ∧ j = i) →
    entry (fw_ram s') t j = entry (fw_ram s) t j) as Hsame.
  { intros q t j Hq Hj Hne. pose proof (tr_table _ _ _ HT _ _ Hq) as [_ Ht].
    rewrite (Hst t j Ht Hj), decide_False by exact Hne. reflexivity. }
  destruct (tree_leaf_set (fw_ram s) (fw_ram s') root T (path v) pt i HT Hp Hsame v
    eq_refl eq_refl Hv) as (HT' & Hl & Hother); [rewrite Ee; exact F1|].
  split; [|split; [exact Hother|intros _; rewrite Hl, Ee; reflexivity]].
  exists T. split; [exact HT'| | | |].
  - intros q t Hq. unfold s'. rewrite fw_used_set. by apply (Hf q).
  - intros q t j c Hq Hc. destruct (tr_parent _ _ _ HT _ _ _ Hc) as (_ & Hj & _).
    destruct (tr_table _ _ _ HT _ _ Hc) as [Hlen _]. rewrite length_app in Hlen. simpl in Hlen.
    rewrite (Hsame q t j Hq Hj); [by apply (Hin q)|]. intros [-> _].
    assert (q = path v) as -> by by apply (tr_inj _ _ _ HT _ _ pt). simpl in Hlen. lia.
  - intros b Hb. unfold s'. rewrite fw_used_set. by apply Hk.
  - intros k Hk0. unfold s'. rewrite fw_ram_set.
    rewrite (ram_kept pt 4096 (fw_ram s)); [by apply Hram|by apply store_same_outside|apply Hpt|lia|by apply (Hf (path v))|exact Hk0].
Qed.

Lemma build_pte_for_page_spec T s paddr v :
  building T s → user_va v → 0 <= paddr < 2 ^ 52 → aligned paddr → aligned v →
  wp (build_pte_for_page paddr v root) (page_post paddr v s) s.
Proof.
  intros Hb Hv Hpa Hap Hav. unfold build_pte_for_page. rewrite !truth_fff.
  rewrite !bool_decide_true by done. cbn [negb].
  assert (∀ s1 T1 st, building T1 s1 → st ≠ EFI_SUCCESS →
    (∀ w, user_va w → leaf (fw_ram s1) root w = leaf (fw_ram s) root w) →
    page_post paddr v s st s1) as Herr.
  { intros s1 T1 st Hb1 Hne Hl. split_and!; [by exists T1| |done]. intros w Hw _. by apply Hl. }
  wp_step. eapply wp_mono; [eapply (get_child_entry_spec T s []);
    [done|apply (tr_root _ _ _ (bd_tree _ _ Hb))|simpl; lia|apply index_land|by intros [_ E]]|].
  intros [st1 pdpt] s1 (T1 & Hb1 & Hl1 & Hr1). cbn [fst snd] in *.
  destruct (Z.eqb_spec st1 EFI_SUCCESS) as [->|Hne]; cbn [negb]; [|wp_steps; by apply (Herr s1 T1)].
  wp_step. eapply wp_mono; [eapply (get_child_entry_spec T1 s1);
    [done|by apply Hr1|simpl; lia|apply index_land|by intros [E _]]|].
  intros [st2 pd] s2 (T2 & Hb2 & Hl2 & Hr2). cbn [fst snd] in *.
  assert (∀ w, user_va w → leaf (fw_ram s2) root w = leaf (fw_ram s) root w) as Hl12
    by (intros w Hw; by rewrite Hl2, Hl1).
  destruct (Z.eqb_spec st2 EFI_SUCCESS) as [->|Hne]; cbn [negb]; [|wp_steps; by apply (Herr s2 T2)].
  wp_step. eapply wp_mono; [eapply (get_child_entry_spec T2 s2);
    [done|by apply Hr2|simpl; lia|apply index_land|by intros [E _]]|].
  intros [st3 pt] s3 (T3 & Hb3 & Hl3 & Hr3). cbn [fst snd] in *.
  assert (∀ w, user_va w → leaf (fw_ram s3) root w = leaf (fw_ram s) root w) as Hl13
    by (intros w Hw; by rewrite Hl3, Hl12).
  destruct (Z.eqb_spec st3 EFI_SUCCESS) as [->|Hne]; cbn [negb]; [|wp_steps; by apply (Herr s3 T3)].
  wp_steps. rewrite flags_lor by (done || lia).
  destruct (set_page T3 s3 pt paddr v Hb3 (Hr3 eq_refl) Hv Hpa Hap) as (P1 & P2 & P3).
  split; [exact P1|]. split; [|exact P3]. intros w Hw Hne. rewrite P2 by done. by apply Hl13.
Qed.

(** ** One region *)
(** Offset [o] is a mapped page of [r]; [w] lies in that page. *)
Definition page_at (r : vmem_map_entry) (o w : Z) : Prop :=
  start_hole r - start_hole r mod 4096 <= o < length r ∧ aligned o ∧ vpn w = vpn (base r + o).

Definition region_aligned (r : vmem_map_entry) : Prop :=
  aligned (base r) ∧ aligned (length r) ∧ aligned (src r).
#[export] Instance region_aligned_dec r : Decision (region_aligned r) := _.

Lemma page_user r o : region_ok r → 0 <= o < length r → user_va (base r + o).
Proof.
  intros (Hc & _) Ho. unfold canonical in Hc. unfold user_va, GET_PML4T_ENTRY_NO.
  rewrite land_1ff, Z.shiftr_div_pow2 by lia. dlia.
Qed.

(** Pages of canonical ranges that share their indices are the same page. *)
Lemma canonical_vpn b len o b' len' o' :
  canonical b len → canonical b' len' → 0 <= o < len → 0 <= o' < len' →
  vpn (b + o) = vpn (b' + o') → (b + o) / 4096 = (b' + o') / 4096.
Proof.
  unfold canonical, vpn. intros Hc Hc' Ho Ho' E.
  assert (b + o < 2 ^ 47 ∨ 2 ^ 64 - 2 ^ 47 <= b + o < 2 ^ 64) as H1 by lia.
  assert (b' + o' < 2 ^ 47 ∨ 2 ^ 64 - 2 ^ 47 <= b' + o' < 2 ^ 64) as H2 by lia.
  assert (0 <= b + o) as H3 by lia. assert (0 <= b' + o') as H4 by lia.
  revert H1 H2 H3 H4 E. generalize (b + o), (b' + o'). clear. intros x y H1 H2 H3 H4 E. dlia.
Qed.

(** All pages of [r] from [lo] on are mapped, everything else is as before. *)
Definition region_post (r : vmem_map_entry) (lo : Z) (s : F) (st : Z) (s' : F) : Prop :=
  (∃ T, building T s') ∧
  (st = EFI_SUCCESS → ∀ w o, user_va w → lo <= o < length r → aligned o →
     vpn w = vpn (base r + o) → leaf (fw_ram s') root w = Some (src r + o + 3)) ∧
  (∀ w, user_va w → (∀ o, lo <= o < length r → aligned o → vpn w ≠ vpn (base r + o)) →
     leaf (fw_ram s') root w = leaf (fw_ram s) root w).

Lemma region_loop_spec r fuel lo T s :
  region_ok r → region_aligned r → building T s → 0 <= lo → aligned lo →
  Z.max 0 (length r / 4096 - lo / 4096) < Z.of_nat fuel →
  wp (region_loop fuel r lo root) (region_post r lo s) s.
Proof.
  intros Hok (Hab & Hal & Has). pose proof Hok as (Hc & _ & Hs0 & Hs1). pose proof Hc as Hc'.
  unfold canonical in Hc'. unfold aligned in *.
  revert lo T s. induction fuel as [|fuel IH]; intros lo T s Hb Hlo Hlm Hfuel; cbn [region_loop].
  { lia. }
  destruct (Z.ltb_spec lo (length r)) as [Hlt|Hge].
  2: { wp_steps. split_and!; [by exists T| |done]. intros _ w o _ Ho. lia. }
  rewrite !u64_small by lia. wp_step.
  eapply wp_mono; [eapply build_pte_for_page_spec; [done|by apply page_user| |unfold aligned; dlia|
    unfold aligned; dlia]|]; [lia|].
  intros st s1 ((T1 & Hb1) & Hkeep & Hset).
  destruct (Z.eqb_spec st EFI_SUCCESS) as [->|Hne]; cbn [negb].
  2: { wp_steps. split_and!; [by exists T1|done|]. intros w Hw Hno. apply Hkeep; [done|].
       apply Hno; [lia|done]. }
  eapply wp_mono; [apply (IH _ T1 s1 Hb1); [lia|dlia|dlia]|].
  intros st s2 (Hb2 & Hin & Hout).
  assert (∀ o, lo + 4096 <= o < length r → o mod 4096 = 0 → vpn (base r + lo) ≠ vpn (base r + o)) as Hdist.
  { intros o Ho Hom E.
    pose proof (canonical_vpn (base r) (length r) lo (base r) (length r) o Hc Hc
      ltac:(lia) ltac:(lia) E). dlia. }
  split; [exact Hb2|]. split.
  - intros Hst w o Hw Ho Hom Ev. destruct (decide (o = lo)) as [->|Hne].
    + rewrite Hout; [|done|intros o' Ho' Hom'; rewrite Ev; by apply Hdist].
      rewrite (vpn_leaf _ _ _ _ Ev). by apply Hset.
    + apply Hin; [done|done|unfold aligned in Hom; dlia|done|done].
  - intros w Hw Hno. rewrite Hout; [|done|intros o Ho; apply Hno; lia].
    apply Hkeep; [done|]. apply Hno; [lia|done].
Qed.

Lemma build_pte_for_region_spec r T s :
  region_ok r → building T s →
  wp (build_pte_for_region r root) (λ st s',
    region_post r (start_hole r - start_hole r mod 4096) s st s' ∧
    (st = EFI_SUCCESS → region_aligned r)) s.
Proof.
  intros Hok Hb. pose proof Hok as (Hc & Hh & _). unfold canonical in Hc.
  unfold build_pte_for_region. cbv zeta. rewrite !truth_fff.
  rewrite (page_mask (start_hole r)) by lia.
  assert ((negb (bool_decide (aligned (base r))) || negb (bool_decide (aligned (length r)))) ||
    negb (bool_decide (aligned (src r))) = negb (bool_decide (region_aligned r))) as ->.
  { unfold region_aligned. repeat case_bool_decide; simpl; tauto. }
  case_bool_decide as Hal; cbn [negb].
  - eapply wp_mono; [apply (region_loop_spec r _ _ T s Hok Hal Hb)|].
    + dlia.
    + unfold aligned. dlia.
    + rewrite Z2Nat.id by dlia. dlia.
    + intros st s' Hp. split; [exact Hp|done].
  - wp_steps. split; [|done]. split_and!; [by exists T|done|done].
Qed.

(** ** All regions *)
Definition regions_post (rs : list vmem_map_entry) (s : F) (st : Z) (s' : F) : Prop :=
  (∃ T, building T s') ∧
  (st = EFI_SUCCESS → Forall region_aligned rs ∧
     ∀ r w o, r ∈ rs → user_va w → page_at r o w →
       leaf (fw_ram s') root w = Some (src r + o + 3)) ∧
  (∀ w, user_va w → (∀ r o, r ∈ rs → ¬ page_at r o w) →
     leaf (fw_ram s') root w = leaf (fw_ram s) root w).

(** Regions that are apart share no page. *)
Lemma apart_pages r r' o o' w :
  region_ok r → region_ok r' → region_aligned r → region_aligned r' → apart r r' →
  page_at r o w → page_at r' o' w → False.
Proof.
  intros (Hc & Hh & _) (Hc' & Hh' & _) (A1 & A2 & _) (B1 & B2 & _) Hap (Ho & Hom & E) (Ho' & Hom' & E').
  unfold aligned in *. rewrite E in E'.
  pose proof (canonical_vpn (base r) (length r) o (base r') (length r') o' Hc Hc'
    ltac:(dlia) ltac:(dlia) E'). unfold apart in Hap. dlia.
Qed.

Lemma build_regions_spec rs T s :
  regions_ok rs → building T s → wp (build_regions rs root) (regions_post rs s) s.
Proof.
  intros [Hok Hsrt]. revert T s. induction Hsrt as [|r rs _ IH Hap]; intros T s Hb.
  { simpl. wp_steps. split_and!; [by exists T| |done]. intros _. split; [constructor|].
    intros r w o Hr. by apply elem_of_nil in Hr. }
  apply Forall_cons in Hok as [Hr Hok]. cbn [build_regions]. wp_step.
  eapply wp_mono; [apply (build_pte_for_region_spec r T s Hr Hb)|].
  intros st s1 (((T1 & Hb1) & Hin1 & Hout1) & Hal1).
  destruct (Z.eqb_spec st EFI_SUCCESS) as [->|Hne]; cbn [negb].
  2: { wp_steps. split_and!; [by exists T1|done|]. intros w Hw Hno. apply Hout1; [done|].
       intros o Ho Hom E. apply (Hno r o); [left|done]. }
  eapply wp_mono; [by apply (IH Hok T1 s1)|]. intros st s2 (Hb2 & Hin2 & Hout2).
  split; [exact Hb2|]. split.
  - intros Hst. destruct (Hin2 Hst) as [Hal2 Hin2']. specialize (Hal1 eq_refl).
    split; [by constructor|]. intros r' w o Hr' Hw Hp. apply elem_of_cons in Hr' as [->|Hr'].
    + destruct Hp as (Ho & Hom & E). rewrite Hout2; [by apply Hin1|done|].
      intros r' o' Hr' Hp'. rewrite Forall_forall in Hok, Hap, Hal2.
      apply (apart_pages r r' o o' w); auto. done.
    + by apply (Hin2' r').
  - intros w Hw Hno. rewrite Hout2; [apply Hout1; [done|]|done|].
    + intros o Ho Hom E. apply (Hno r o); [left|done].
    + intros r' o' Hr' Hp'. apply (Hno r' o'); [by right|done].
Qed.
End builder.

(** ** The whole address space *)
Definition in_region (r : vmem_map_entry) (w : Z) : Prop :=
  base r + (start_hole r - start_hole r mod 4096) <= w < base r + length r.

(** An address the kernel can use: canonical, below the recursive slot. *)
Definition kernel_va (w : Z) : Prop := canonical w 1.

Lemma kernel_va_user w : kernel_va w → user_va w.
Proof.
  intros Hw. pose proof (page_user (Entry w 1 0 0) 0) as Hu. cbn [base length] in Hu.
  rewrite Z.add_0_r in Hu. apply Hu; [|lia]. split; [exact Hw|cbn; lia].
Qed.

Lemma in_region_page r w :
  region_ok r → region_aligned r → kernel_va w →
  in_region r w ↔ ∃ o, page_at r o w ∧ w = base r + o + w mod 4096.
Proof.
  intros (Hc & Hh & _) (A1 & A2 & _) Hw. unfold aligned in *. split.
  - intros Hin. unfold in_region in Hin. exists (w - base r - w mod 4096). split; [|lia].
    split_and!; [dlia|dlia|unfold aligned; dlia|]. unfold vpn. f_equal. dlia.
  - intros (o & (Ho & Hom & E) & Ew). unfold in_region, aligned in *. dlia.
Qed.

Lemma page_at_in_region r o w :
  region_ok r → region_aligned r → kernel_va w → page_at r o w → w = base r + o + w mod 4096.
Proof.
  intros (Hc & Hh & _) (A1 & A2 & _) Hw (Ho & Hom & E). unfold aligned in *.
  pose proof (canonical_vpn w 1 0 (base r) (length r) o Hw Hc) as Hv.
  rewrite Z.add_0_r in Hv. specialize (Hv ltac:(lia) ltac:(dlia) E). dlia.
Qed.

(** The loader's own translation. *)
Lemma get_pmem_for_vmem_region r rs w :
  regions_ok rs → r ∈ rs → base r <= w < base r + length r →
  get_pmem_for_vmem w rs = w - base r + src r.
Proof.
  intros [Hok Hs] Hr Hw. rewrite Forall_forall in Hok.
  pose proof (Hok r Hr) as (Hc & _ & S0 & S1). unfold canonical in Hc.
  unfold get_pmem_for_vmem. destruct (get_intersect w 1 rs) as [[i e]|] eqn:E.
  - apply get_intersect_some in E as (Hi & Hlo & Hhi); [|lia|lia|lia|by apply Forall_forall].
    assert (e = r) as ->; [|mlia].
    apply list_elem_of_lookup_2 in Hi.
    destruct (strongly_sorted_elem apart rs e r Hs Hi Hr) as [?|[Ha|Ha]]; [done|unfold apart in Ha; lia..].
  - apply get_intersect_none in E; [|lia|lia|lia|by apply Forall_forall].
    unfold free_range in E. rewrite Forall_forall in E. specialize (E r Hr). lia.
Qed.

(** What [build_page_tables] promises: on success every address of a region
    beyond its hole translates as the region list says, and no other address
    is mapped; memory in use before is unchanged either way. *)
Definition tables_post {F} `{Firmware F} (rs : list vmem_map_entry) (s : F)
    (r : Z * option Z) (s' : F) : Prop :=
  (∀ k, fw_used s (page_base k) → rd8 (fw_ram s') k = rd8 (fw_ram s) k) ∧
  match r.2 with
  | None => r.1 ≠ EFI_SUCCESS
  | Some root =>
      r.1 = EFI_SUCCESS ∧ Forall region_aligned rs ∧
      entry (fw_ram s') root 511 = root + 3 ∧
      (∀ e w, e ∈ rs → kernel_va w → in_region e w →
         translate (fw_ram s') root w = Some (get_pmem_for_vmem w rs)) ∧
      (∀ w, kernel_va w → (∀ e, e ∈ rs → ¬ in_region e w) → translate (fw_ram s') root w = None)
  end.

Section whole.
Context {F : Type} {FO : FirmwareOps F} {FW : Firmware F}.

(** The root table is allocated and cleared. *)
Lemma fresh_root (s s1 : F) root :
  fw_ram s1 = fw_ram s → (∀ a, fw_used s a → fw_used s1 a) →
  table_ok root → ¬ fw_used s root → fw_used s1 root →
  let s2 := fw_set_ram (fill 4096 (fw_ram s1) root 0) s1 in
  building s root {[ [] := root ]} s2 ∧ ∀ v, leaf (fw_ram s2) root v = None.
Proof.
  intros E1 Hk Hr Hnu Hu s2.
  assert (∀ i, index i → entry (fw_ram s2) root i = 0) as Hz.
  { intros i Hi. unfold s2. rewrite fw_ram_set. unfold entry, rd64.
    apply (rd_fill_0 8 4096); unfold index in Hi; lia. }
  split.
  - split.
    + apply tree_fresh; [exact Hr|]. intros i Hi _. by rewrite Hz.
    + intros p a Hp. apply lookup_singleton_Some in Hp as [_ <-]. unfold s2. by rewrite fw_used_set.
    + intros p a i c _ Hc. apply lookup_singleton_Some in Hc as [E _]. by destruct p.
    + intros a Ha. unfold s2. rewrite fw_used_set. by apply Hk.
    + intros k Hk0. unfold s2. rewrite fw_ram_set, E1.
      apply (ram_kept s root 4096); [apply (fill_same_outside 4096)|apply Hr|lia|exact Hnu|exact Hk0].
  - intros v. unfold leaf, path. cbn [walk]. by rewrite Hz by apply index_land.
Qed.

(** The recursive entry is stored last. *)
Lemma self_entry (s0 s : F) root T :
  building s0 root T s → root + 3 < 2 ^ 64 →
  let s' := fw_set_ram (wr64 (fw_ram s) (root + 0xff8) (root + 3)) s in
  entry (fw_ram s') root 511 = root + 3 ∧
  (∀ v, user_va v → leaf (fw_ram s') root v = leaf (fw_ram s) root v) ∧
  (∀ k, fw_used s0 (page_base k) → rd8 (fw_ram s') k = rd8 (fw_ram s0) k).
Proof.
  intros [HT Hf Hin Hk Hram] Hlt s'. pose proof (tr_root _ _ _ HT) as Hroot.
  pose proof (tr_table _ _ _ HT _ _ Hroot) as [_ Hr].
  assert (index 511) as Hi by (unfold index; lia).
  assert (∀ t j, table_ok t → index j → entry (fw_ram s') t j =
    if decide (t = root ∧ j = 511) then root + 3 else entry (fw_ram s) t j) as Hst.
  { intros t j Ht Hj. unfold s'. rewrite fw_ram_set. change 0xff8 with (8 * 511).
    rewrite (entry_store _ root 511 _ t j Hr Ht Hi Hj), u64_small by (destruct Hr; lia).
    reflexivity. }
  split; [|split].
  - rewrite (Hst root 511 Hr Hi), decide_True by (split; reflexivity). reflexivity.
  - apply (tree_self (fw_ram s) (fw_ram s') root T HT). intros q t j Hq Hj Hne.
    pose proof (tr_table _ _ _ HT _ _ Hq) as [_ Ht].
    rewrite (Hst t j Ht Hj), decide_False by exact Hne. reflexivity.
  - intros k Hk0. unfold s'. rewrite fw_ram_set. change 0xff8 with (8 * 511).
    rewrite (ram_kept s0 root 4096 (fw_ram s)); [by apply Hram|by apply store_same_outside|
      apply Hr|lia|by apply (Hf [])|exact Hk0].
Qed.

Lemma mapped_page rs (s s0 : F) root st m' :
  regions_ok rs → regions_post s0 root rs s st m' → st = EFI_SUCCESS →
  (∀ v, leaf (fw_ram s) root v = None) →
  (∀ e w, e ∈ rs → kernel_va w → in_region e w →
     translate (fw_ram m') root w = Some (get_pmem_for_vmem w rs)) ∧
  (∀ w, kernel_va w → (∀ e, e ∈ rs → ¬ in_region e w) → translate (fw_ram m') root w = None).
Proof.
  intros Hrs (_ & Hin & Hout) Hst Hnone. destruct (Hin Hst) as [Hal Hmap]. clear Hin.
  destruct Hrs as [Hok Hsrt]. pose proof Hok as Hok'. rewrite Forall_forall in Hok, Hal. split.
  - intros e w He Hw Hr.
    apply (in_region_page e w (Hok e He) (Hal e He) Hw) in Hr as (o & Hp & Ew).
    unfold translate. rewrite (Hmap e w o He (kernel_va_user w Hw) Hp). simpl. f_equal.
    pose proof (Hok e He) as (Hc & Hh & S0 & S1). destruct (Hal e He) as (A1 & A2 & A3).
    destruct Hp as (Ho & Hom & _). unfold aligned, canonical in *.
    destruct (entry_flags (src e + o)) as (_ & -> & _); [dlia|dlia|].
    unfold GET_PAGE_OFFSET. rewrite land_fff.
    rewrite (get_pmem_for_vmem_region e rs w (conj Hok' Hsrt) He) by dlia. lia.
  - intros w Hw Hno. unfold translate. rewrite Hout, Hnone; [done|by apply kernel_va_user|].
    intros e o He Hp. apply (Hno e He).
    apply (in_region_page e w (Hok e He) (Hal e He) Hw). exists o. split; [done|].
    by apply page_at_in_region; auto.
Qed.

Lemma build_page_tables_spec rs (s : F) :
  regions_ok rs → wp (build_page_tables rs) (tables_post rs s) s.
Proof.
  intros Hrs. unfold build_page_tables, alloc_code. wp_step.
  eapply wp_mono; [by apply fw_alloc_spec|]. intros [st root] s1 (E1 & Hk1 & Hres).
  cbn [fst snd] in *. destruct (Z.eqb_spec st EFI_SUCCESS) as [->|Hne]; cbn [negb].
  2: { wp_steps. split; [|exact Hne]. intros k _. by rewrite E1. }
  destruct (Hres eq_refl) as (N0 & N1 & N2 & N3). destruct (N3 0 ltac:(done)) as [N4 N5].
  rewrite Z.mul_0_r, Z.add_0_r in N4, N5.
  assert (table_ok root) as Hr by (split_and!; [exact N0| |exact N2]; revert N1;
    change (0x1000 / 4096) with 1; lia).
  destruct (fresh_root s s1 root E1 Hk1 Hr N4 N5) as [Hb Hnone].
  do 3 wp_step. revert Hb Hnone. generalize (fw_set_ram (fill 4096 (fw_ram s1) root 0) s1).
  intros s2 Hb Hnone.
  eapply wp_mono; [exact (build_regions_spec s root rs _ s2 Hrs Hb)|].
  intros st s3 Hpost. pose proof Hpost as ((T & Hb3) & Hin & _).
  destruct (Z.eqb_spec st EFI_SUCCESS) as [->|Hne]; cbn [negb].
  2: { wp_steps. split; [|exact Hne]. apply (bd_ram _ _ _ _ Hb3). }
  wp_steps. rewrite flags_lor by (exact N2 || lia).
  destruct (self_entry s s3 root T Hb3) as (Hself & Hleaf & Hram); [destruct Hr; lia|].
  destruct (mapped_page rs s2 s root _ s3 Hrs Hpost eq_refl Hnone) as [Hm Hu].
  split; [exact Hram|]. cbn [fst snd]. split; [reflexivity|]. split; [apply Hin; reflexivity|].
  split; [exact Hself|]. unfold translate in *. split.
  - intros e w He Hw Hr'. rewrite Hleaf by by apply kernel_va_user. by apply (Hm e).
  - intros w Hw Hno. rewrite Hleaf by by apply kernel_va_user. by apply Hu.
Qed.
End whole.

(** ** Firmware that hands out pages in increasing order *)
Record bump := Bump { bump_ram : mem; bump_page : positive }.

Definition bump_alloc (ty : memtype) (n : Z) : M bump (Z * Z) :=
  s ← get;
  let p := Z.pos (bump_page s) in
  if 4096 * (p + n) <=? 2 ^ 52 then
    modify (λ s, Bump (bump_ram s) (Z.to_pos (p + n))) ;;
    mret (EFI_SUCCESS, 4096 * p)
  else mret (EFI_OUT_OF_RESOURCES, 0).

#[export] Instance bump_ops : FirmwareOps bump := {
  fw_ram := bump_ram;
  fw_set_ram m s := Bump m (bump_page s);
  fw_alloc_pages := bump_alloc
}.

Definition bump_used (s : bump) (a : Z) : Prop := a < 4096 * Z.pos (bump_page s).

Lemma bump_alloc_spec ty n s : 0 <= n →
  wp (bump_alloc ty n) (λ r s', bump_ram s' = bump_ram s ∧
    (∀ a, bump_used s a → bump_used s' a) ∧
    (r.1 = EFI_SUCCESS →
       0 < r.2 ∧ r.2 + 4096 * n <= 2 ^ 52 ∧ r.2 mod 4096 = 0 ∧
       ∀ i, 0 <= i < n → ¬ bump_used s (r.2 + 4096 * i) ∧ bump_used s' (r.2 + 4096 * i))) s.
Proof.
  intros Hn. unfold bump_alloc. wp_steps. unfold bump_used.
  destruct (Z.leb_spec (4096 * (Z.pos (bump_page s) + n)) (2 ^ 52)) as [Hle|Hgt]; wp_steps.
  - cbn [bump_ram bump_page fst snd]. rewrite Z2Pos.id by lia. split; [done|].
    split; [intros a Ha; lia|]. intros _. split_and!; [lia|lia|dlia|]. intros i Hi. lia.
  - split_and!; [done|done|]. done.
Qed.

#[export] Instance bump_firmware : Firmware bump := {
  fw_used := bump_used;
  fw_ram_set _ _ := eq_refl;
  fw_used_set _ _ _ := iff_refl _;
  fw_alloc_spec := bump_alloc_spec
}.

(** ** Claims *)

(** The calls that change the region list, from outside [vmem.c]. *)
Inductive region_step (malloc_ok : nat → bool)
    : list vmem_map_entry → list vmem_map_entry → Prop :=
| step_fixed b len s rs :
    region_ok (Entry b len 0 s) →
    region_step malloc_ok rs (allocate_fixed malloc_ok b len s rs).2
| step_any len s rs r :
    0 < len → 0 <= s → s + len <= 2 ^ 52 → allocate_any malloc_ok len s rs = Done r →
    region_step malloc_ok rs r.2
| step_hole b len rs :
    0 <= b < 2 ^ 64 → 0 <= len < 2 ^ 64 →
    region_step malloc_ok rs (add_start_hole b len rs).2.

Lemma any_result_ok malloc_ok len s rs r :
  regions_ok rs → 0 < len → 0 <= s → s + len <= 2 ^ 52 → any_result malloc_ok len s rs r →
  regions_ok r.2.
Proof.
  intros Hrs Hl Hs Hsl [b (C1 & C2 & _ & Hf) _ _| |]; cbn [snd]; [|done|done].
  unfold START_VMEM_ADDR, END_VMEM_ADDR in *.
  apply regions_ok_snoc; [done|done|]. unfold region_ok, canonical. cbn. lia.
Qed.

Lemma set_hole_ok i e len rs :
  regions_ok rs → rs !! i = Some e → 0 <= len < 2 ^ 64 →
  regions_ok (<[i := Entry (base e) (length e) len (src e)]> rs).
Proof.
  intros [Hok Hs] Hi Hl. split.
  - apply Forall_insert; [done|]. rewrite Forall_forall in Hok.
    destruct (Hok e (list_elem_of_lookup_2 _ _ _ Hi)) as (H1 & _ & H2).
    split; [exact H1|]. split; [exact Hl|exact H2].
  - clear Hok Hl. revert i Hi. induction Hs as [|x rs Hs IH Hx]; intros i Hi; [done|].
    destruct i as [|i]; simpl in *.
    + injection Hi as ->. constructor; [done|]. eapply Forall_impl; [exact Hx|]. intros y Hy. exact Hy.
    + constructor; [by apply IH|]. apply Forall_insert; [done|]. rewrite Forall_forall in Hx.
      exact (Hx e (list_elem_of_lookup_2 _ _ _ Hi)).
Qed.

(** C16. The region list.  Starting from the empty list, however calls of
    [allocate_fixed] (with canonical ranges), [allocate_any] and
    [add_start_hole] are interleaved and whether or not [malloc] fails, the
    regions stay well formed and pairwise disjoint. *)
Theorem regions_stay_apart malloc_ok rs :
  rtc (region_step malloc_ok) [] rs → regions_ok rs.
Proof.
  intros Hsteps. assert (regions_ok []) as H0 by (split; constructor).
  revert H0. induction Hsteps as [|rs1 rs2 rs3 Hstep _ IH]; intros H1; [done|]. apply IH.
  destruct Hstep as [b len s rs Hr|len s rs r Hl Hs Hsl E|b len rs Hb Hl].
  - apply (allocate_fixed_ok malloc_ok b len s rs H1 Hr).
  - destruct (allocate_any_spec malloc_ok len s rs) as (r' & E' & Hr'); [apply H1|lia|].
    assert (r = r') as -> by congruence. by apply (any_result_ok malloc_ok len s rs).
  - unfold add_start_hole. destruct (get_intersect b 1 rs) as [[i e]|] eqn:E; [|done].
    apply get_intersect_some in E as (Hi & _); [|lia|lia|lia|apply H1]. by apply set_hole_ok.
Qed.

(** C17. First fit.  On a well-formed region list [allocate_any] terminates:
    it takes the lowest page-aligned free address in the loader's window and
    appends the region there, fails with EFI_OUT_OF_RESOURCES when [malloc]
    has no room for the node, and returns -1 exactly when no page-aligned
    address of the window is free; on failure the list is unchanged. *)
Theorem allocate_any_first_fit malloc_ok len s rs :
  regions_ok rs → 0 < len < 2 ^ 63 →
  ∃ r, allocate_any malloc_ok len s rs = Done r ∧ any_result malloc_ok len s rs r.
Proof. intros [Hok _]. by apply allocate_any_spec. Qed.

(** C4. The page tables.  On a well-formed region list [build_page_tables]
    terminates, changes no page that was in use, and either reports an error,
    or every region is page aligned and the processor's walk from the new root
    gives, for every address of a region beyond its hole, the physical address
    [get_pmem_for_vmem] reports, and for every other address nothing; entry
    511 of the root points back at the root. *)
Theorem build_page_tables_translates {F} {FO : FirmwareOps F} {FW : Firmware F}
    (rs : list vmem_map_entry) (s : F) :
  regions_ok rs → wp (build_page_tables rs) (tables_post rs s) s.
Proof. apply build_page_tables_spec. Qed.

(** The regions [efi_main] sets up besides the kernel: the trampoline, the
    interface area, and a heap found by [allocate_any]. *)
Definition boot_regions : list vmem_map_entry :=
  match allocate_any (λ _, true) 0x8000 0x500000
    (allocate_fixed (λ _, true) 0x1000 0x1000 0x1000
      (allocate_fixed (λ _, true) 0x2000 0x5000 0x2000 []).2).2 with
  | Done (_, _, rs) => rs
  | _ => []
  end.

Lemma boot_regions_value :
  boot_regions = [Entry 0x2000 0x5000 0 0x2000; Entry 0x1000 0x1000 0 0x1000;
                  Entry 0x10000000 0x8000 0 0x500000].
Proof. reflexivity. Qed.

Lemma boot_regions_ok : regions_ok boot_regions.
Proof.
  rewrite boot_regions_value. split.
  - repeat constructor; cbn; lia.
  - repeat constructor; unfold apart; cbn; lia.
Qed.

Lemma regions_stay_apart_witness :
  boot_regions = [Entry 0x2000 0x5000 0 0x2000; Entry 0x1000 0x1000 0 0x1000;
                  Entry 0x10000000 0x8000 0 0x500000] ∧ regions_ok boot_regions.
Proof.
  split; [exact boot_regions_value|]. apply (regions_stay_apart (λ _, true)).
  eapply rtc_l; [apply (step_fixed _ 0x2000 0x5000 0x2000); unfold region_ok, canonical; cbn; lia|].
  eapply rtc_l; [apply (step_fixed _ 0x1000 0x1000 0x1000); unfold region_ok, canonical; cbn; lia|].
  eapply rtc_l; [eapply (step_any _ 0x8000 0x500000); [lia|lia|lia|reflexivity]|].
  apply rtc_refl.
Defined.

Lemma allocate_any_first_fit_witness :
  ∃ r, allocate_any (λ _, true) 0x100000 0x600000 boot_regions = Done r ∧
    any_result (λ _, true) 0x100000 0x600000 boot_regions r.
Proof. apply (allocate_any_first_fit (λ _, true)); [exact boot_regions_ok|lia]. Defined.

Lemma build_page_tables_translates_witness :
  wp (build_page_tables boot_regions) (tables_post boot_regions (Bump ∅ 0x1000)) (Bump ∅ 0x1000).
Proof. apply (build_page_tables_translates (F := bump)). exact boot_regions_ok. Defined.

Lemma allocate_spec {F} {FO : FirmwareOps F} {FW : Firmware F} malloc_ok len rs (s : F) :
  regions_ok rs → 0 < len < 2 ^ 52 →
  wp (allocate malloc_ok len rs) (λ r s', regions_ok r.2 ∧
    (r.1.1.1 = EFI_SUCCESS → ∃ b p, r = (EFI_SUCCESS, Some b, Some p, rs ++ [Entry b len 0 p]) ∧
       candidate len b rs ∧ p mod 4096 = 0)) s.
Proof.
  intros Hrs Hlen. unfold allocate. rewrite round_up_spec by lia. wp_step.
  assert (len <= round_page len < len + 4096 ∧ round_page len mod 4096 = 0) as [Hr Hm]
    by (unfold round_page; dlia).
  eapply wp_mono; [apply fw_alloc_spec; dlia|]. intros [st p] s1 (_ & _ & Hp). cbn [fst snd] in *.
  destruct (Z.eqb_spec st EFI_SUCCESS) as [->|Hne]; cbn [negb]; [|wp_steps; by split].
  destruct (Hp eq_refl) as (P0 & P1 & P2 & _).
  destruct (allocate_any_spec malloc_ok len p rs) as (r & E & Hres); [apply Hrs|lia|].
  wp_step. eapply wp_lift; [exact E|].
  pose proof (any_result_ok malloc_ok len p rs r Hrs ltac:(lia) ltac:(lia) ltac:(dlia) Hres) as Hok.
  destruct Hres as [b Hb _ _|b Hb _|Hb]; wp_steps; cbn [fst snd] in *; (split; [exact Hok|]).
  - intros _. exists b, p. split; [reflexivity|]. split; [exact Hb|exact P2].
  - done.
  - done.
Qed.

(** [allocate] rounds the physical allocation up to whole pages but
    records the unrounded length: after it succeeds with a length that is no
    multiple of a page, [build_page_tables] can only report an error. *)
Lemma allocate_unaligned_blocks_tables {F} {FO : FirmwareOps F} {FW : Firmware F}
    malloc_ok len rs (s : F) :
  regions_ok rs → 0 < len < 2 ^ 52 → len mod 4096 ≠ 0 →
  wp (allocate malloc_ok len rs) (λ r s', r.1.1.1 = EFI_SUCCESS →
    wp (build_page_tables r.2) (λ q _, q.1 ≠ EFI_SUCCESS ∧ q.2 = None) s') s.
Proof.
  intros Hrs Hlen Hm. eapply wp_mono; [by apply allocate_spec|].
  intros r s1 [Hok Hr] Hst. destruct (Hr Hst) as (b & p & -> & _). cbn [snd] in *.
  eapply wp_mono; [by apply build_page_tables_spec|]. intros [st [root|]] s2 [_ Hpost];
    cbn [fst snd] in *; [|done].
  destruct Hpost as (_ & Hal & _). apply Forall_app in Hal as [_ Hal].
  apply Forall_cons in Hal as [(_ & A & _) _]. by destruct Hm.
Qed.

Lemma allocate_unaligned_blocks_tables_witness :
  wp (allocate (λ _, true) 100 []) (λ r s', r.1.1.1 = EFI_SUCCESS →
    wp (build_page_tables r.2) (λ q _, q.1 ≠ EFI_SUCCESS ∧ q.2 = None) s') (Bump ∅ 0x1000).
Proof.
  apply (allocate_unaligned_blocks_tables (F := bump)); [split; constructor|lia|done].
Defined.
