(* ===== verification/EfiElf.v ===== *)
(** * Loading the kernel under UEFI

    src/efiloader/elf.c: [elf64_map_kernel] reads the ELF headers of the
    kernel file, gives every loadable segment physical pages and a virtual
    region, and copies the file contents in.  The stream handed in by
    [load_kernel] is a file with a position; [fread_func] and [fseek_func] are
    the C library's on such a file.  Reading a header field the file does not
    have, or through a null [malloc] result, is undefined.  The text of
    [printf] messages is left out. *)

From stdpp Require Import base numbers list gmap.
From Stdlib Require Import Lia Sorted.
From S2P Require Import Prelude Mem PageTable EfiVMem.
Open Scope Z_scope.
Open Scope outcome_scope.

Definition EFI_INVALID_PARAMETER : Z := 2 ^ 63 + 2.
Definition PT_LOAD : Z := 1.
Definition PT_TLS : Z := 7.
Definition PF_W : Z := 0x2.
Definition EI_CLASS : Z := 4.
Definition ELFCLASS64 : Z := 2.

(** The fields of Elf64_Ehdr and Elf64_Phdr the loader reads. *)
Record Elf64_Ehdr := Ehdr {
  e_class : Z; e_entry : Z; e_phoff : Z; e_shoff : Z;
  e_phentsize : Z; e_phnum : Z; e_shentsize : Z; e_shnum : Z
}.
Record Elf64_Phdr := Phdr {
  p_type : Z; p_flags : Z; p_offset : Z; p_vaddr : Z; p_filesz : Z; p_memsz : Z
}.
Definition sizeof_Ehdr : Z := 64.

(** [n] little-endian bytes of a buffer; outside it the read is undefined. *)
Fixpoint le (l : list Z) : Z :=
  match l with [] => 0 | b :: l => b + 256 * le l end.
Definition field (buf : list Z) (off n : Z) : outcome Z :=
  if off + n <=? Z.of_nat (List.length buf)
  then Done (le (take (Z.to_nat n) (drop (Z.to_nat off) buf))) else Undef.

Definition read_ehdr (buf : list Z) : outcome Elf64_Ehdr :=
  cl ⇐ field buf EI_CLASS 1; en ⇐ field buf 24 8; po ⇐ field buf 32 8; so ⇐ field buf 40 8;
  pe ⇐ field buf 54 2; pn ⇐ field buf 56 2; se ⇐ field buf 58 2; sn ⇐ field buf 60 2;
  Done (Ehdr cl en po so pe pn se sn).

Definition read_phdr (buf : list Z) (off : Z) : outcome Elf64_Phdr :=
  ty ⇐ field buf off 4; fl ⇐ field buf (off + 4) 4; po ⇐ field buf (off + 8) 8;
  va ⇐ field buf (off + 16) 8; fs ⇐ field buf (off + 32) 8; ms ⇐ field buf (off + 40) 8;
  Done (Phdr ty fl po va fs ms).

(** The state: firmware, region list, file position and the globals. *)
Record ldr {F : Type} := Ldr {
  fw : F; regions : list vmem_map_entry; fpos : Z;
  kernel_low : Z; kernel_high : Z; static_start : Z; static_end : Z; tls_start : Z; tls_end : Z
}.
Arguments ldr F : clear implicits.
Arguments Ldr {F}.

Section setters.
Context {F : Type}.
Definition set_fw (x : F) (s : ldr F) : ldr F :=
  Ldr x (regions s) (fpos s) (kernel_low s) (kernel_high s) (static_start s) (static_end s)
    (tls_start s) (tls_end s).
Definition set_regions (x : list vmem_map_entry) (s : ldr F) : ldr F :=
  Ldr (fw s) x (fpos s) (kernel_low s) (kernel_high s) (static_start s) (static_end s)
    (tls_start s) (tls_end s).
Definition set_fpos (x : Z) (s : ldr F) : ldr F :=
  Ldr (fw s) (regions s) x (kernel_low s) (kernel_high s) (static_start s) (static_end s)
    (tls_start s) (tls_end s).
Definition set_kernel (lo hi : Z) (s : ldr F) : ldr F :=
  Ldr (fw s) (regions s) (fpos s) lo hi (static_start s) (static_end s) (tls_start s) (tls_end s).
Definition set_static (a b : Z) (s : ldr F) : ldr F :=
  Ldr (fw s) (regions s) (fpos s) (kernel_low s) (kernel_high s) a b (tls_start s) (tls_end s).
Definition set_tls (a b : Z) (s : ldr F) : ldr F :=
  Ldr (fw s) (regions s) (fpos s) (kernel_low s) (kernel_high s) (static_start s) (static_end s) a b.

(** A firmware call. *)
Definition on_fw {A} (c : M F A) : M (ldr F) A :=
  λ s, obind (c (fw s)) (λ p, Done (p.1, set_fw p.2 s)).
End setters.

Section loader.
Context {F : Type} {FO : FirmwareOps F}.
Context (malloc_ok : nat → bool) (buffer_ok : Z → bool) (file : list Z).

Definition set_ram (m : mem) (s : ldr F) : ldr F := set_fw (fw_set_ram m (fw s)) s.
Definition ram (s : ldr F) : mem := fw_ram (fw s).

(** ** The stream *)
Definition fseek_func (offset : Z) : M (ldr F) unit :=
  if s64 offset <? 0 then mret tt else modify (set_fpos offset).

(** The bytes the next read of [len] gets. *)
Definition stream_next (len pos : Z) : list Z := take (Z.to_nat len) (drop (Z.to_nat pos) file).

Definition fread_func (buf len : Z) : M (ldr F) Z :=
  s ← get;
  let got := stream_next len (fpos s) in
  modify (λ s, set_ram (put_bytes (ram s) buf got) s) ;;
  modify (set_fpos (fpos s + Z.of_nat (List.length got))) ;;
  mret (Z.of_nat (List.length got)).

(** [malloc] a buffer of [len] bytes and read it from the stream. *)
Definition fread_buffer (len : Z) : M (ldr F) (list Z) :=
  if buffer_ok len then
    s ← get;
    let got := stream_next len (fpos s) in
    modify (set_fpos (fpos s + Z.of_nat (List.length got))) ;;
    mret got
  else undef.

(** [int] products of two 16-bit fields. *)
Definition int_mul (a b : Z) : M (ldr F) Z :=
  if a * b <? 2 ^ 31 then mret (a * b) else undef.

(** ** One segment *)
Definition align_len (v_length : Z) : Z :=
  if truth (Z.land v_length 0xfff) then Z.land (u64 (v_length + 0x1000)) (u64 (Z.lnot 0xfff))
  else v_length.

Definition track_bounds (seg_low seg_high : Z) : M (ldr F) unit :=
  modify (λ s, set_kernel (if seg_low <? kernel_low s then seg_low else kernel_low s)
                          (if kernel_high s <? seg_high then seg_high else kernel_high s) s).

(** The part of a segment in a page that is already mapped: what is left to
    allocate, from where, and how much of the file part is done. *)
Definition load_first_page (ph : Elf64_Phdr) (first_page_paddr page_offset vpage_start v_length : Z)
    : M (ldr F) (Z * Z * Z * Z) :=
  if truth first_page_paddr then
    let to_load := u64 (0x1000 - page_offset) in
    let to_load := if p_filesz ph <? to_load then p_filesz ph else to_load in
    fread_func (u64 (first_page_paddr + page_offset)) to_load ;;
    mret (u64 (vpage_start + 0x1000), u64 (v_length - 0x1000), 0, to_load)
  else mret (vpage_start, v_length, page_offset, 0).

(** Pages for the rest of the segment, filled from the file and zeroed. *)
Definition load_rest (ph : Elf64_Phdr) (next_page_vaddr v_length page_offset seg_offset : Z)
    : M (ldr F) Z :=
  if truth v_length then
    r ← on_fw (alloc_code v_length);
    if negb (r.1 =? EFI_SUCCESS) then mret r.1
    else
      s ← get;
      let '(st, rs) := allocate_fixed malloc_ok next_page_vaddr v_length r.2 (regions s) in
      modify (set_regions rs) ;;
      if negb (st =? EFI_SUCCESS) then mret st
      else
        let rest_to_load := u64 (p_filesz ph - seg_offset) in
        let cur_paddr := u64 (r.2 + page_offset) in
        fread_func cur_paddr rest_to_load ;;
        let cur_paddr := u64 (cur_paddr + rest_to_load) in
        let rest_to_zero := u64 (p_memsz ph - p_filesz ph) in
        modify (λ s, set_ram (fill (Z.to_nat rest_to_zero) (ram s) cur_paddr 0) s) ;;
        mret EFI_SUCCESS
  else mret EFI_SUCCESS.

Definition note_tls (ph : Elf64_Phdr) : M (ldr F) unit :=
  if p_type ph =? PT_TLS then modify (set_tls (p_vaddr ph) (u64 (p_vaddr ph + p_memsz ph)))
  else mret tt.

Definition note_static (ph : Elf64_Phdr) : M (ldr F) Z :=
  if truth (Z.land (p_flags ph) PF_W) && (p_type ph =? PT_LOAD) then
    s ← get;
    if truth (static_start s) then mret EFI_ABORTED
    else
      modify (set_static (p_vaddr ph) (u64 (p_vaddr ph + p_memsz ph))) ;;
      mret EFI_SUCCESS
  else mret EFI_SUCCESS.

Definition load_segment (ph : Elf64_Phdr) : M (ldr F) Z :=
  if (p_type ph =? PT_LOAD) || (p_type ph =? PT_TLS) then
    let page_offset := Z.land (p_vaddr ph) 0xfff in
    let vpage_start := Z.land (p_vaddr ph) (u64 (Z.lnot 0xfff)) in
    let v_length := align_len (u64 (u64 (p_vaddr ph + p_memsz ph) - vpage_start)) in
    track_bounds (p_vaddr ph) (u64 (p_vaddr ph + p_memsz ph)) ;;
    fseek_func (p_offset ph) ;;
    s ← get;
    let first_page_paddr := get_pmem_for_vmem vpage_start (regions s) in
    rest ← load_first_page ph first_page_paddr page_offset vpage_start v_length;
    let '(next_page_vaddr, v_length, page_offset, seg_offset) := rest : Z * Z * Z * Z in
    st ← load_rest ph next_page_vaddr v_length page_offset seg_offset;
    if negb (st =? EFI_SUCCESS) then mret st
    else note_tls ph ;; note_static ph
  else mret EFI_SUCCESS.

(** ** The whole file *)
(** [phnum - i] iterations are left. *)
Fixpoint load_segments (n : nat) (phdrs : list Z) (i phentsize : Z) : M (ldr F) Z :=
  match n with
  | O => mret EFI_SUCCESS
  | S n =>
      off ← int_mul i phentsize;
      ph ← lift (read_phdr phdrs off);
      st ← load_segment ph;
      if negb (st =? EFI_SUCCESS) then mret st else load_segments n phdrs (i + 1) phentsize
  end.

(** The status and the header stored through [ehdr]. *)
Definition elf64_map_kernel : M (ldr F) (Z * Elf64_Ehdr) :=
  modify (set_kernel (u64 (Z.lnot 0)) 0) ;;
  modify (set_static 0 0) ;;
  buf ← fread_buffer sizeof_Ehdr;
  eh ← lift (read_ehdr buf);
  if negb (e_class eh =? ELFCLASS64) then mret (EFI_ABORTED, eh)
  else
    size ← int_mul (e_phnum eh) (e_phentsize eh);
    fseek_func (e_phoff eh) ;;
    phdrs ← fread_buffer size;
    st ← load_segments (Z.to_nat (e_phnum eh)) phdrs 0 (e_phentsize eh);
    mret (st, eh).
End loader.

(** ** Header addresses.  A null result pointer is rejected first. *)
Definition elf64_get_shdr (ehdr : Z) (eh : Elf64_Ehdr) (idx : Z) (shdr_null : bool) : Z * option Z :=
  if shdr_null then (EFI_INVALID_PARAMETER, None)
  else if (idx <? 0) || (e_shnum eh <=? idx) then (EFI_INVALID_PARAMETER, None)
  else (EFI_SUCCESS, Some (u64 (u64 (ehdr + e_shoff eh) + idx * e_shentsize eh))).

Definition elf64_get_phdr (ehdr : Z) (eh : Elf64_Ehdr) (idx : Z) (phdr_null : bool) : Z * option Z :=
  if phdr_null then (EFI_INVALID_PARAMETER, None)
  else if (idx <? 0) || (e_shnum eh <=? idx) then (EFI_INVALID_PARAMETER, None)
  else (EFI_SUCCESS, Some (u64 (u64 (ehdr + e_phoff eh) + idx * e_phentsize eh))).

(** ** What a loaded segment looks like *)
Definition loadable (ph : Elf64_Phdr) : bool := (p_type ph =? PT_LOAD) || (p_type ph =? PT_TLS).

(** The pages of a segment. *)
Definition voff (ph : Elf64_Phdr) : Z := p_vaddr ph mod 4096.
Definition vstart (ph : Elf64_Phdr) : Z := p_vaddr ph - voff ph.
Definition vend (ph : Elf64_Phdr) : Z := round_page (p_vaddr ph + p_memsz ph).

Definition seg_ok (file : list Z) (ph : Elf64_Phdr) : Prop :=
  0 < p_memsz ph ∧ 0 <= p_filesz ph <= p_memsz ph ∧
  0 <= p_offset ph ∧ p_offset ph + p_filesz ph <= Z.of_nat (List.length file) ∧
  0 <= p_vaddr ph ∧ canonical (vstart ph) (vend ph - vstart ph).

(** Byte [k] of a segment. *)
Definition content (file : list Z) (ph : Elf64_Phdr) (k : Z) : Z :=
  if k <? p_filesz ph then u8 (nth (Z.to_nat (p_offset ph + k)) file 0) else 0.

(** The segment as the kernel will see it through the region list. *)
Definition image (file : list Z) (m : mem) (rs : list vmem_map_entry) (ph : Elf64_Phdr) : Prop :=
  ∀ k, 0 <= k < p_memsz ph →
    rd8 m (get_pmem_for_vmem (p_vaddr ph + k) rs) = content file ph k.

(** Segments come in ascending order; a page shared with an earlier segment
    must be filled by the file part, or the segment has no zeroed part. *)
Definition follows (a b : Elf64_Phdr) : Prop :=
  p_vaddr a + p_memsz a <= p_vaddr b ∧
  (vend a <= vstart b ∨ 4096 - voff b <= p_filesz b ∨ p_filesz b = p_memsz b).

#[export] Instance follows_dec a b : Decision (follows a b) := _.

Lemma vstart_vend ph :
  0 < p_memsz ph → vstart ph mod 4096 = 0 ∧ vend ph mod 4096 = 0 ∧
  vstart ph <= p_vaddr ph < vstart ph + 4096 ∧
  p_vaddr ph + p_memsz ph <= vend ph < p_vaddr ph + p_memsz ph + 4096 ∧
  vstart ph + 4096 <= vend ph.
Proof. unfold vstart, vend, voff, round_page. intros. split_and!; dlia. Qed.

Lemma align_len_spec x : 0 <= x <= 2 ^ 63 → align_len x = round_page x.
Proof. apply round_up_spec. Qed.

Section proofs.
Context {F : Type} {FO : FirmwareOps F} {FW : Firmware F}.
Context (malloc_ok : nat → bool) (file : list Z).

Lemma wp_on_fw {A} (c : M F A) (Q : A → ldr F → Prop) s :
  wp c (λ a x, Q a (set_fw x s)) (fw s) → wp (on_fw c) Q s.
Proof. unfold wp, on_fw. by destruct (c (fw s)) as [[a x]| |]. Qed.

Lemma wp_fseek (Q : unit → ldr F → Prop) s offset :
  0 <= offset < 2 ^ 63 → Q tt (set_fpos offset s) → wp (fseek_func offset) Q s.
Proof.
  intros Ho HQ. unfold fseek_func. rewrite s64_small by lia.
  destruct (Z.ltb_spec offset 0); [lia|]. by wp_steps.
Qed.

Lemma ram_set m (s : ldr F) : ram (set_ram m s) = m.
Proof. apply fw_ram_set. Qed.

Lemma ram_set_fpos x (s : ldr F) : ram (set_fpos x s) = ram s.
Proof. reflexivity. Qed.
Lemma ram_set_regions x (s : ldr F) : ram (set_regions x s) = ram s.
Proof. reflexivity. Qed.
Lemma ram_set_fw x (s : ldr F) : ram (set_fw x s) = fw_ram x.
Proof. reflexivity. Qed.
Lemma used_set_ram m (s : ldr F) a : fw_used (fw (set_ram m s)) a ↔ fw_used (fw s) a.
Proof. apply fw_used_set. Qed.

Lemma stream_length len pos :
  0 <= pos → 0 <= len → pos + len <= Z.of_nat (List.length file) →
  Z.of_nat (List.length (stream_next file len pos)) = len.
Proof. intros. unfold stream_next. rewrite length_take, length_drop. lia. Qed.

Lemma stream_nth len pos i :
  0 <= pos → 0 <= i < len →
  nth (Z.to_nat i) (stream_next file len pos) 0 = nth (Z.to_nat (pos + i)) file 0.
Proof.
  intros Hp Hi. unfold stream_next. rewrite !nth_lookup, lookup_take, decide_True by lia.
  rewrite lookup_drop. f_equal. f_equal. lia.
Qed.

(** Reading [len] bytes the file has to [buf]. *)
Lemma wp_fread (Q : Z → ldr F → Prop) s buf len :
  0 <= fpos s → 0 <= len → fpos s + len <= Z.of_nat (List.length file) →
  Q len (set_fpos (fpos s + len) (set_ram (put_bytes (ram s) buf (stream_next file len (fpos s))) s)) →
  wp (fread_func file buf len) Q s.
Proof.
  intros Hp Hl He HQ. unfold fread_func. wp_steps. by rewrite stream_length by done.
Qed.

Hypothesis file_small : Z.of_nat (List.length file) < 2 ^ 63.

(** ** The rest of a segment *)
Definition only_pages (p len : Z) (s s' : ldr F) : Prop :=
  same_outside p len (ram s) (ram s').

Section rest.
Context (ph : Elf64_Phdr) (bv vlen po so : Z) (s : ldr F).
Hypothesis Hseg : seg_ok file ph.
Hypothesis Hrs : regions_ok (regions s).
Hypothesis Hbv : 0 <= bv ∧ bv mod 4096 = 0 ∧ vstart ph <= bv.
Hypothesis Hvlen : 0 < vlen ∧ bv + vlen = vend ph.
Hypothesis Hpos : bv + po = p_vaddr ph + so ∧ 0 <= po < 4096 ∧ 0 <= so <= p_filesz ph.
Hypothesis Hfpos : fpos s = p_offset ph + so.
Hypothesis Hfree : free_range bv vlen (regions s).

Definition rest_post (st : Z) (s' : ldr F) : Prop :=
  st = EFI_SUCCESS → ∃ p,
    let r := Entry bv vlen 0 p in
    regions s' = regions s ++ [r] ∧ region_ok r ∧ region_aligned r ∧ 0 < p ∧
    (∀ a, fw_used (fw s) a → fw_used (fw s') a) ∧
    (∀ k, p <= k < p + vlen → ¬ fw_used (fw s) (page_base k) ∧ fw_used (fw s') (page_base k)) ∧
    same_outside p vlen (ram s) (ram s') ∧
    (∀ k, so <= k < p_memsz ph → rd8 (ram s') (p + (p_vaddr ph + k - bv)) = content file ph k) ∧
    kernel_low s' = kernel_low s ∧ kernel_high s' = kernel_high s.

Lemma rest_canonical : canonical bv vlen.
Proof.
  destruct Hseg as (M0 & _ & _ & _ & _ & Hc). unfold canonical in *. lia.
Qed.

(** What the two stores leave behind. *)
Lemma rest_bytes m p :
  0 < p → p + vlen <= 2 ^ 52 →
  let n := p_filesz ph - so in
  let m1 := put_bytes m (p + po) (stream_next file n (p_offset ph + so)) in
  let m2 := fill (Z.to_nat (p_memsz ph - p_filesz ph)) m1 (p + po + n) 0 in
  same_outside p vlen m m2 ∧
  ∀ k, so <= k < p_memsz ph → rd8 m2 (p + (p_vaddr ph + k - bv)) = content file ph k.
Proof.
  intros Hp Hp52 n m1 m2. destruct Hseg as (M0 & M1 & O0 & O1 & V0 & _).
  pose proof (vstart_vend ph M0) as (_ & _ & _ & Hend & _).
  assert (Z.of_nat (List.length (stream_next file n (p_offset ph + so))) = n) as Hn
    by (apply stream_length; lia).
  assert (∀ k, rd8 m2 k = if decide (p + po + n <= k < p + po + n + (p_memsz ph - p_filesz ph))
    then 0 else if decide (p + po <= k < p + po + n)
    then u8 (nth (Z.to_nat (k - (p + po))) (stream_next file n (p_offset ph + so)) 0)
    else rd8 m k) as Hm2.
  { intros k. unfold m2, m1. rewrite rd8_fill, rd8_put_bytes, Hn, Z2Nat.id by lia. done. }
  split.
  - intros k Hk. rewrite Hm2, !decide_False by lia. done.
  - intros k Hk. rewrite Hm2. unfold content. destruct (Z.ltb_spec k (p_filesz ph)) as [Hlt|Hge].
    + rewrite decide_False, decide_True by lia. rewrite stream_nth by lia. f_equal. f_equal. lia.
    + rewrite decide_True by lia. done.
Qed.

Lemma load_rest_spec : wp (load_rest malloc_ok file ph bv vlen po so) rest_post s.
Proof.
  pose proof rest_canonical as Hc. destruct Hseg as (M0 & M1 & O0 & O1 & V0 & _).
  unfold load_rest, truth. destruct (Z.eqb_spec vlen 0) as [|_]; [lia|]. cbn [negb]. wp_step.
  assert (vlen / 4096 * 4096 = vlen) as Hpages
    by (pose proof (vstart_vend ph M0); destruct Hbv, Hvlen; dlia).
  apply wp_on_fw. eapply wp_mono; [apply fw_alloc_spec; unfold canonical in Hc; dlia|].
  intros [st p] x (Ex & Hk & Hres). cbn [fst snd] in *.
  destruct (Z.eqb_spec st EFI_SUCCESS) as [->|Hne]; cbn [negb]; [|wp_steps; by intros Hst].
  destruct (Hres eq_refl) as (P0 & P1 & P2 & P3).
  assert (region_ok (Entry bv vlen 0 p)) as Hrok by (split; [exact Hc|]; cbn; lia).
  wp_step. apply wp_get. cbn [regions set_fw].
  pose proof (allocate_fixed_ok malloc_ok bv vlen p (regions s) Hrs Hrok) as (_ & _ & Er).
  destruct (allocate_fixed malloc_ok bv vlen p (regions s)) as [st rs]. cbn [fst snd] in Er.
  wp_step. apply wp_modify.
  destruct (Z.eqb_spec st EFI_SUCCESS) as [->|Hne]; cbn [negb]; [|wp_steps; by intros Hst].
  subst rs. unfold canonical in Hc. pose proof (vstart_vend ph M0) as Hv.
  rewrite !(u64_small (p_filesz ph - so)) by lia. rewrite (u64_small (p + po)) by lia.
  rewrite (u64_small (p + po + (p_filesz ph - so))) by lia.
  rewrite (u64_small (p_memsz ph - p_filesz ph)) by lia.
  wp_step. apply wp_fread; cbn [fpos set_fw set_regions]; [lia|lia|lia|].
  wp_steps. intros _. exists p. cbv zeta. cbn [fpos set_fw set_regions]. rewrite Hfpos.
  set (s' := set_ram _ _).
  destruct (rest_bytes (ram s) p P0 ltac:(lia)) as [Hout Hin].
  assert (ram s' = fill (Z.to_nat (p_memsz ph - p_filesz ph)) (put_bytes (ram s) (p + po)
    (stream_next file (p_filesz ph - so) (p_offset ph + so))) (p + po + (p_filesz ph - so)) 0) as Em
    by (unfold s'; rewrite ram_set, ram_set_fpos, ram_set, ram_set_regions, ram_set_fw, Ex; reflexivity).
  assert (∀ a, fw_used (fw s') a ↔ fw_used x a) as Hu
    by (intros a; unfold s'; rewrite used_set_ram; cbn [fw set_fpos]; rewrite used_set_ram; reflexivity).
  rewrite Em. split_and!.
  - reflexivity.
  - exact Hrok.
  - destruct Hbv, Hvlen. split_and!; cbn; unfold aligned; [lia|dlia|exact P2].
  - exact P0.
  - intros a Ha. apply Hu. by apply Hk.
  - intros k Hkp. rewrite Hu. replace (page_base k) with (p + 4096 * ((k - p) / 4096)).
    + apply P3. dlia.
    + unfold page_base. dlia.
  - exact Hout.
  - exact Hin.
  - reflexivity.
  - reflexivity.
Qed.
End rest.

(** ** The segments placed so far *)
Definition covered (rs : list vmem_map_entry) (w : Z) : Prop :=
  ∃ r, r ∈ rs ∧ base r <= w < base r + length r.
Definition phys_apart (r r' : vmem_map_entry) : Prop :=
  src r + length r <= src r' ∨ src r' + length r' <= src r.

Record placed (s0 : F) (dn : list Elf64_Phdr) (s : ldr F) : Prop := Placed {
  pl_regions : regions_ok (regions s);
  pl_own : ∀ r, r ∈ regions s → region_aligned r ∧ 0 < src r ∧
    ∀ k, src r <= k < src r + length r →
      fw_used (fw s) (page_base k) ∧ ¬ fw_used s0 (page_base k);
  pl_apart : StronglySorted phys_apart (regions s);
  pl_cover : ∀ w, covered (regions s) w ↔ ∃ ph, ph ∈ dn ∧ vstart ph <= w < vend ph;
  pl_image : ∀ ph, ph ∈ dn → image file (ram s) (regions s) ph;
  pl_keep : ∀ a, fw_used s0 a → fw_used (fw s) a;
  pl_ram : ∀ k, fw_used s0 (page_base k) → rd8 (ram s) k = rd8 (fw_ram s0) k
}.

Lemma placed_rest s0 dn s s' :
  placed s0 dn s → fw s' = fw s → regions s' = regions s → placed s0 dn s'.
Proof.
  intros [H1 H2 H3 H4 H5 H6 H7] Ef Er. unfold ram in *.
  split; unfold ram; rewrite ?Ef, ?Er; assumption.
Qed.

Lemma pmem_inj s0 dn s w w' :
  placed s0 dn s → covered (regions s) w → covered (regions s) w' →
  get_pmem_for_vmem w (regions s) = get_pmem_for_vmem w' (regions s) → w = w'.
Proof.
  intros Hp (r & Hr & Hw) (r' & Hr' & Hw') E. pose proof (pl_regions _ _ _ Hp) as Hrs.
  rewrite (get_pmem_for_vmem_region r), (get_pmem_for_vmem_region r') in E by done.
  destruct (strongly_sorted_elem phys_apart _ r r' (pl_apart _ _ _ Hp) Hr Hr') as [->|Ha];
    [lia|unfold phys_apart in Ha; lia].
Qed.

Lemma pmem_app rs x w :
  regions_ok rs → regions_ok (rs ++ [x]) → covered rs w →
  get_pmem_for_vmem w (rs ++ [x]) = get_pmem_for_vmem w rs.
Proof.
  intros H1 H2 (r & Hr & Hw). rewrite !(get_pmem_for_vmem_region r); try done.
  apply elem_of_app. by left.
Qed.

(** A mapped page is inside one region. *)
Lemma covered_page s0 dn s v w :
  placed s0 dn s → covered (regions s) v → v mod 4096 = 0 → v <= w < v + 4096 →
  covered (regions s) w ∧
  get_pmem_for_vmem w (regions s) = get_pmem_for_vmem v (regions s) + (w - v) ∧
  0 < get_pmem_for_vmem v (regions s) < 2 ^ 52 ∧
  ¬ fw_used s0 (page_base (get_pmem_for_vmem w (regions s))).
Proof.
  intros Hp (r & Hr & Hw) Hv Hin. pose proof (pl_regions _ _ _ Hp) as Hrs.
  destruct (pl_own _ _ _ Hp r Hr) as ((A1 & A2 & _) & S0 & Hu). unfold aligned in *.
  assert (base r <= w < base r + length r) as Hw' by dlia.
  destruct Hrs as [Hok Hs]. pose proof Hok as Hok'. rewrite Forall_forall in Hok.
  destruct (Hok r Hr) as (Hc & _ & _ & S1). unfold canonical in Hc.
  rewrite (get_pmem_for_vmem_region r _ w), (get_pmem_for_vmem_region r _ v) by done.
  split_and!; [by exists r|lia|lia|lia|]. apply Hu. lia.
Qed.

Section segment.
Context (s0 : F) (dn : list Elf64_Phdr) (ph : Elf64_Phdr).
Hypothesis Hseg : seg_ok file ph.
Hypothesis Hdn : ∀ a, a ∈ dn → seg_ok file a ∧ follows a ph.

Lemma seg_vmem : 0 < p_memsz ph.
Proof. apply Hseg. Qed.

(** Earlier segments end at the latest with the first page of [ph]. *)
Lemma earlier_end a : a ∈ dn → vend a <= vstart ph + 4096.
Proof.
  intros Ha. destruct (Hdn a Ha) as [(A0 & _) [Hf _]].
  pose proof (vstart_vend a A0). pose proof (vstart_vend ph seg_vmem). dlia.
Qed.

Lemma earlier_free s bv :
  placed s0 dn s → bv = vstart ph + 4096 ∨ (bv = vstart ph ∧ ¬ covered (regions s) (vstart ph)) →
  free_range bv (vend ph - bv) (regions s).
Proof.
  intros Hp Hbv. unfold free_range. apply Forall_forall. intros r Hr. right.
  assert (canonical (base r) (length r)) as Hc.
  { destruct (pl_regions _ _ _ Hp) as [Hok _]. rewrite Forall_forall in Hok. apply Hok, Hr. }
  unfold canonical in Hc.
  destruct (proj1 (pl_cover _ _ _ Hp (base r + length r - 1))) as (a & Ha & Hw).
  { exists r. split; [done|lia]. }
  pose proof (earlier_end a Ha) as He. destruct Hbv as [->|[-> Hn]]; [lia|].
  destruct (decide (base r + length r <= vstart ph)) as [|Hgt]; [done|]. exfalso. apply Hn.
  apply (pl_cover _ _ _ Hp). exists a. split; [done|].
  destruct (Hdn a Ha) as [(A0 & _) _].
  pose proof (vstart_vend a A0). pose proof (vstart_vend ph seg_vmem). dlia.
Qed.

(** ** The shared first page *)
Definition first_load : Z := Z.min (4096 - voff ph) (p_filesz ph).

Definition first_post (s : ldr F) (res : Z * Z * Z * Z) (s' : ldr F) : Prop :=
  res = (vstart ph + 4096, vend ph - vstart ph - 4096, 0, first_load) ∧
  placed s0 dn s' ∧ regions s' = regions s ∧ fpos s' = p_offset ph + first_load ∧
  kernel_low s' = kernel_low s ∧ kernel_high s' = kernel_high s ∧
  ∀ k, 0 <= k < first_load →
    rd8 (ram s') (get_pmem_for_vmem (p_vaddr ph + k) (regions s)) = content file ph k.

Lemma load_first_page_spec s :
  placed s0 dn s → covered (regions s) (vstart ph) → fpos s = p_offset ph →
  wp (load_first_page file ph (get_pmem_for_vmem (vstart ph) (regions s)) (voff ph) (vstart ph)
        (vend ph - vstart ph)) (first_post s) s.
Proof.
  intros Hp Hcov Hf. pose proof Hseg as (M0 & M1 & O0 & O1 & V0 & Hc). unfold canonical in Hc.
  pose proof (vstart_vend ph M0) as (V1 & V2 & V3 & V4 & V5).
  assert (0 <= voff ph < 4096 ∧ p_vaddr ph = vstart ph + voff ph) as [Hoff Hva]
    by (unfold vstart, voff; split; [apply Z.mod_pos_bound|]; lia).
  set (pm := get_pmem_for_vmem (vstart ph) (regions s)).
  assert (∀ k, 0 <= k < first_load →
    covered (regions s) (p_vaddr ph + k) ∧
    get_pmem_for_vmem (p_vaddr ph + k) (regions s) = pm + voff ph + k ∧
    ¬ fw_used s0 (page_base (pm + voff ph + k)) ∧ 0 < pm < 2 ^ 52) as Hpage.
  { intros k Hk. destruct (covered_page s0 dn s (vstart ph) (p_vaddr ph + k)) as (P1 & P2 & P3 & P4);
      [done|done|done|unfold first_load in Hk; lia|].
    fold pm in P2, P3. rewrite P2 in P4.
    replace (pm + voff ph + k) with (pm + (p_vaddr ph + k - vstart ph)) by lia. auto. }
  assert (0 < pm < 2 ^ 52) as Hpm
    by (destruct (covered_page s0 dn s (vstart ph) (vstart ph)) as (_ & _ & P3 & _); try done; lia).
  unfold load_first_page, truth. destruct (Z.eqb_spec pm 0) as [|_]; [lia|]. cbn [negb].
  rewrite (u64_small (0x1000 - voff ph)) by lia.
  assert ((if p_filesz ph <? 0x1000 - voff ph then p_filesz ph else 0x1000 - voff ph) = first_load) as ->
    by (unfold first_load; destruct (Z.ltb_spec (p_filesz ph) (0x1000 - voff ph)); lia).
  assert (0 <= first_load <= p_filesz ph) as Hfl by (unfold first_load; lia).
  rewrite (u64_small (pm + voff ph)), (u64_small (vstart ph + 0x1000)), (u64_small (_ - 0x1000)) by lia.
  wp_step. apply wp_fread; [lia|lia|lia|]. wp_steps. rewrite Hf.
  set (m' := put_bytes (ram s) (pm + voff ph) (stream_next file first_load (p_offset ph))).
  assert (∀ k, rd8 m' k = if decide (pm + voff ph <= k < pm + voff ph + first_load)
    then u8 (nth (Z.to_nat (k - (pm + voff ph))) (stream_next file first_load (p_offset ph)) 0)
    else rd8 (ram s) k) as Hm
    by (intros k; unfold m'; rewrite rd8_put_bytes, stream_length by lia; reflexivity).
  unfold first_post. rewrite ram_set_fpos, ram_set. split_and!.
  - reflexivity.
  - destruct Hp as [H1 H2 H3 H4 H5 H6 H7]. split; cbn [regions set_fpos set_ram set_fw].
    + exact H1.
    + intros r Hr. destruct (H2 r Hr) as (A1 & A2 & A3). split_and!; [done..|].
      intros k Hk. destruct (A3 k Hk). split; [|done]. by apply fw_used_set.
    + exact H3.
    + exact H4.
    + intros a Ha k Hk. rewrite ram_set_fpos, ram_set, Hm, decide_False; [by apply (H5 a Ha)|].
      intros Hin. destruct (Hdn a Ha) as [(A0 & _) [Hfo _]].
      set (j := get_pmem_for_vmem (p_vaddr a + k) (regions s) - (pm + voff ph)).
      destruct (Hpage j ltac:(unfold j; lia)) as (Pc & Pe & _).
      assert (p_vaddr a + k = p_vaddr ph + j) as E.
      { apply (pmem_inj s0 dn s).
        - by split.
        - apply H4. exists a. split; [done|]. pose proof (vstart_vend a A0). lia.
        - exact Pc.
        - rewrite Pe. unfold j. lia. }
      unfold j in *. lia.
    + intros b Hb. apply fw_used_set. by apply H6.
    + intros k Hk. rewrite ram_set_fpos, ram_set, Hm, decide_False; [by apply H7|]. intros Hin.
      destruct (Hpage (k - (pm + voff ph)) ltac:(lia)) as (_ & _ & Pn & _). apply Pn.
      by replace (pm + voff ph + (k - (pm + voff ph))) with k by lia.
  - reflexivity.
  - reflexivity.
  - reflexivity.
  - reflexivity.
  - intros k Hk. destruct (Hpage k Hk) as (_ & -> & _). rewrite Hm, decide_True by lia.
    unfold content. destruct (Z.ltb_spec k (p_filesz ph)); [|lia].
    rewrite stream_nth by lia. f_equal. f_equal. lia.
Qed.

(** ** Adding the segment to what is placed *)
Lemma covered_seg s a k :
  placed s0 dn s → a ∈ dn → 0 <= k < p_memsz a → covered (regions s) (p_vaddr a + k).
Proof.
  intros Hp Ha Hk. apply (pl_cover _ _ _ Hp). exists a. split; [done|].
  destruct (Hdn a Ha) as [(A0 & _) _]. pose proof (vstart_vend a A0). lia.
Qed.

(** The whole segment lay in the shared page. *)
Lemma placed_shared s :
  placed s0 dn s → covered (regions s) (vstart ph) → vend ph = vstart ph + 4096 →
  (∀ k, 0 <= k < p_memsz ph →
     rd8 (ram s) (get_pmem_for_vmem (p_vaddr ph + k) (regions s)) = content file ph k) →
  placed s0 (dn ++ [ph]) s.
Proof.
  intros Hp Hc He Hb. pose proof Hp as [H1 H2 H3 H4 H5 H6 H7]. split; try assumption.
  - intros w. rewrite (H4 w). split.
    + intros (a & Ha & Hw). exists a. split; [apply elem_of_app; by left|done].
    + intros (a & Ha & Hw). apply elem_of_app in Ha as [Ha|Ha]; [by exists a|].
      apply list_elem_of_singleton in Ha as ->. apply H4.
      apply (covered_page s0 dn s (vstart ph) w Hp Hc); [apply vstart_vend, seg_vmem|lia].
  - intros a Ha. apply elem_of_app in Ha as [Ha|Ha]; [by apply H5|].
    apply list_elem_of_singleton in Ha as ->. exact Hb.
Qed.

Lemma placed_extend s s' bv so p :
  placed s0 dn s → (∀ a, fw_used (fw s) a → fw_used (fw s') a) →
  bv <= p_vaddr ph + so → bv mod 4096 = 0 → bv <= vend ph →
  (∀ w, vstart ph <= w < bv → covered (regions s) w) →
  (∀ k, 0 <= k < so → bv > p_vaddr ph + k ∧
     rd8 (ram s) (get_pmem_for_vmem (p_vaddr ph + k) (regions s)) = content file ph k) →
  vstart ph <= bv →
  regions s' = regions s ++ [Entry bv (vend ph - bv) 0 p] →
  region_ok (Entry bv (vend ph - bv) 0 p) → region_aligned (Entry bv (vend ph - bv) 0 p) →
  free_range bv (vend ph - bv) (regions s) → 0 < p →
  (∀ k, p <= k < p + (vend ph - bv) →
     ¬ fw_used (fw s) (page_base k) ∧ fw_used (fw s') (page_base k)) →
  same_outside p (vend ph - bv) (ram s) (ram s') →
  (∀ k, so <= k < p_memsz ph → rd8 (ram s') (p + (p_vaddr ph + k - bv)) = content file ph k) →
  placed s0 (dn ++ [ph]) s'.
Proof.
  intros Hp Hk Hso Hbm Hbe Hbelow Hfirst Hbv Er Hrok Hral Hfree Hp0 Hfresh Hout Hin.
  pose proof Hp as [H1 H2 H3 H4 H5 H6 H7].
  pose proof (vstart_vend ph seg_vmem) as (V1 & V2 & V3 & V4 & V5).
  set (x := Entry bv (vend ph - bv) 0 p) in *.
  assert (regions_ok (regions s')) as Hrs' by (rewrite Er; by apply regions_ok_snoc).
  assert (∀ w, covered (regions s) w → p <= get_pmem_for_vmem w (regions s) < p + (vend ph - bv) → False)
    as Hdis.
  { intros w (r & Hr & Hw) Hi. rewrite (get_pmem_for_vmem_region r) in Hi by done.
    destruct (H2 r Hr) as (_ & _ & Hu). destruct (Hfresh (w - base r + src r) Hi) as [Hn _].
    apply Hn, Hu. lia. }
  assert (∀ w, covered (regions s) w →
    rd8 (ram s') (get_pmem_for_vmem w (regions s')) = rd8 (ram s) (get_pmem_for_vmem w (regions s)))
    as Hold.
  { intros w Hw. rewrite Er. rewrite pmem_app by (rewrite <- ?Er; assumption). apply Hout.
    pose proof (Hdis w Hw). lia. }
  split.
  - exact Hrs'.
  - intros r Hr. rewrite Er in Hr. apply elem_of_app in Hr as [Hr|Hr].
    + destruct (H2 r Hr) as (A1 & A2 & A3). split_and!; [done..|]. intros k Hkk.
      destruct (A3 k Hkk). auto.
    + apply list_elem_of_singleton in Hr as ->. split_and!; [done..|]. intros k Hkk.
      destruct (Hfresh k Hkk) as [Hn Hu]. split; [done|]. intros E. by apply Hn, H6.
  - rewrite Er. apply strongly_sorted_snoc; [done|]. apply Forall_forall. intros r Hr.
    unfold phys_apart. cbn [src length x]. destruct (H2 r Hr) as ((A1 & A2 & A4) & A3 & Hu).
    destruct (decide (src r + length r <= p ∨ p + (vend ph - bv) <= src r)) as [|Hno]; [done|].
    exfalso. set (k := Z.max p (src r)).
    destruct H1 as [Hok _]. rewrite Forall_forall in Hok. destruct (Hok r Hr) as (Hc & _).
    unfold canonical in Hc.
    assert (0 < vend ph - bv) by (destruct Hrok as (Hc' & _); unfold canonical in Hc'; cbn in Hc'; lia).
    destruct (Hfresh k ltac:(lia)) as [Hn _]. apply Hn, Hu. lia.
  - intros w. rewrite Er. split.
    + intros (r & Hr & Hw). apply elem_of_app in Hr as [Hr|Hr].
      * destruct (proj1 (H4 w)) as (a & Ha & Haw); [by exists r|]. exists a.
        split; [apply elem_of_app; by left|done].
      * apply list_elem_of_singleton in Hr as ->. cbn [base length x] in Hw. exists ph.
        split; [apply elem_of_app; right; by apply list_elem_of_singleton|lia].
    + intros (a & Ha & Hw).
      assert (covered (regions s) w ∨ bv <= w < vend ph) as [(r & Hr & Hrw)|Hnew].
      { apply elem_of_app in Ha as [Ha|Ha]; [left; apply H4; by exists a|].
        apply list_elem_of_singleton in Ha as ->.
        destruct (decide (w < bv)); [left; apply Hbelow; lia|right; lia]. }
      * exists r. split; [apply elem_of_app; by left|done].
      * exists x. split; [apply elem_of_app; right; by apply list_elem_of_singleton|cbn; lia].
  - intros a Ha k Hkk. apply elem_of_app in Ha as [Ha|Ha].
    + rewrite Hold by by apply covered_seg. by apply H5.
    + apply list_elem_of_singleton in Ha as ->. destruct (decide (k < so)) as [Hlt|Hge].
      * destruct (Hfirst k ltac:(lia)) as [Hb Hc]. rewrite Hold; [exact Hc|]. apply Hbelow. lia.
      * rewrite (get_pmem_for_vmem_region x (regions s') _ Hrs').
        -- cbn [base src x]. replace (p_vaddr ph + k - bv + p) with (p + (p_vaddr ph + k - bv)) by lia.
           apply Hin. lia.
        -- rewrite Er. apply elem_of_app. right. by apply list_elem_of_singleton.
        -- cbn [base length x]. lia.
  - intros a Ha. by apply Hk, H6.
  - intros k Hk0. rewrite Hout; [by apply H7|].
    destruct (decide (p <= k < p + (vend ph - bv))) as [Hi|]; [|lia]. exfalso.
    destruct (Hfresh k Hi) as [Hn _]. by apply Hn, H6.
Qed.

(** ** One segment *)
Definition bounds_of (a b : Z) (s s' : ldr F) : Prop :=
  kernel_low s' = Z.min (kernel_low s) a ∧ kernel_high s' = Z.max (kernel_high s) b.

Lemma shared_first s :
  placed s0 dn s → covered (regions s) (vstart ph) →
  4096 - voff ph <= p_filesz ph ∨ p_filesz ph = p_memsz ph.
Proof.
  intros Hp Hc. apply (pl_cover _ _ _ Hp) in Hc as (a & Ha & Hw).
  destruct (Hdn a Ha) as [_ [_ [?|?]]]; [lia|done].
Qed.

Lemma notes_spec s (Q : ldr F → Prop) :
  (∀ s', fw s' = fw s → regions s' = regions s → kernel_low s' = kernel_low s →
     kernel_high s' = kernel_high s → Q s') →
  wp (note_tls ph ;; note_static ph) (λ _ s', Q s') s.
Proof.
  intros HQ. unfold note_tls, note_static. wp_step.
  destruct (p_type ph =? PT_TLS); wp_steps;
    (destruct (_ && _); wp_steps; [|by apply HQ]; destruct (truth _); wp_steps; by apply HQ).
Qed.

Lemma seg_fields :
  Z.land (p_vaddr ph) 0xfff = voff ph ∧
  Z.land (p_vaddr ph) (u64 (Z.lnot 0xfff)) = vstart ph ∧
  align_len (u64 (u64 (p_vaddr ph + p_memsz ph) - vstart ph)) = vend ph - vstart ph ∧
  u64 (p_vaddr ph + p_memsz ph) = p_vaddr ph + p_memsz ph.
Proof.
  destruct Hseg as (M0 & M1 & O0 & O1 & V0 & Hc). unfold canonical in Hc.
  pose proof (vstart_vend ph M0) as (V1 & V2 & V3 & V4 & V5).
  assert (u64 (p_vaddr ph + p_memsz ph) = p_vaddr ph + p_memsz ph) as E by (apply u64_small; lia).
  split_and!.
  - apply land_fff.
  - apply page_mask. lia.
  - rewrite E, u64_small by lia. rewrite align_len_spec by lia. unfold vend, round_page in *. dlia.
  - exact E.
Qed.

(** Where the rest of the segment starts: at its first page, or after a
    shared one. *)
Definition rest_start (s : ldr F) (bv po so : Z) : Prop :=
  (so = 0 ∧ ¬ covered (regions s) (vstart ph) ∧ bv = vstart ph ∧ po = voff ph) ∨
  (so = first_load ∧ covered (regions s) (vstart ph) ∧ bv = vstart ph + 4096 ∧ po = 0).

Lemma rest_or_done s bv po so :
  placed s0 dn s → fpos s = p_offset ph + so → rest_start s bv po so →
  (∀ k, 0 <= k < so →
     rd8 (ram s) (get_pmem_for_vmem (p_vaddr ph + k) (regions s)) = content file ph k) →
  wp (load_rest malloc_ok file ph bv (vend ph - bv) po so) (λ st s', st = EFI_SUCCESS →
    placed s0 (dn ++ [ph]) s' ∧ kernel_low s' = kernel_low s ∧ kernel_high s' = kernel_high s) s.
Proof.
  intros Hp Hf Hcase Hfirst. pose proof Hseg as (M0 & M1 & O0 & O1 & V0 & Hc).
  pose proof (vstart_vend ph M0) as (V1 & V2 & V3 & V4 & V5).
  assert (0 <= voff ph < 4096 ∧ p_vaddr ph = vstart ph + voff ph) as [Hoff Hva]
    by (unfold vstart, voff; split; [apply Z.mod_pos_bound|]; lia).
  assert (free_range bv (vend ph - bv) (regions s)) as Hfree.
  { apply (earlier_free s bv Hp). destruct Hcase as [(_ & ? & ? & _)|(_ & _ & ? & _)]; auto. }
  assert (∀ w, vstart ph <= w < bv → covered (regions s) w) as Hbelow.
  { intros w Hw. destruct Hcase as [(_ & _ & ? & _)|(_ & Hy & ? & _)]; [lia|].
    apply (covered_page s0 dn s (vstart ph) w Hp Hy V1). lia. }
  destruct (decide (vend ph = bv)) as [Hz|Hnz].
  - destruct Hcase as [(_ & _ & ? & _)|(-> & Hcov & -> & _)]; [lia|].
    replace (vend ph - _) with 0 by lia. unfold load_rest. cbn [truth negb Z.eqb]. wp_steps.
    intros _. split; [|done]. apply placed_shared; [done..|]. intros k Hk. apply Hfirst.
    unfold first_load. destruct (shared_first s Hp Hcov); lia.
  - assert (bv + po = p_vaddr ph + so ∧ 0 <= po < 4096 ∧ 0 <= so <= p_filesz ph ∧
      vstart ph <= bv <= vstart ph + 4096 ∧ (0 < so → bv = vstart ph + 4096) ∧ bv mod 4096 = 0)
      as (P1 & P2 & P3 & P4 & P5 & P6).
    { destruct Hcase as [(-> & Hn & -> & ->)|(-> & Hcov & -> & ->)].
      - split_and!; lia.
      - unfold first_load. destruct (shared_first s Hp Hcov); split_and!; dlia. }
    assert (bv < vend ph) as Hlt by dlia. assert (0 <= vstart ph) as Hvs by apply Hc.
    eapply wp_mono; [apply (load_rest_spec ph bv (vend ph - bv) po so s Hseg);
      [apply Hp|lia|lia|lia|exact Hf]|].
    intros st s' Hpost Hst. destruct (Hpost Hst) as (p & E1 & E2 & E3 & E4 & E5 & E6 & E7 & E8 & E9).
    split; [|exact E9].
    apply (placed_extend s s' bv so p Hp E5); try assumption; try lia.
    intros k Hk. split; [|by apply Hfirst]. rewrite P5 by lia.
    destruct Hcase as [(-> & _)|(-> & _)]; [lia|unfold first_load in Hk; lia].
Qed.

Lemma load_segment_spec s :
  loadable ph = true → placed s0 dn s →
  wp (load_segment malloc_ok file ph) (λ st s', st = EFI_SUCCESS →
    placed s0 (dn ++ [ph]) s' ∧ bounds_of (p_vaddr ph) (p_vaddr ph + p_memsz ph) s s') s.
Proof.
  intros Hl Hp. unfold load_segment. unfold loadable in Hl. rewrite Hl.
  destruct seg_fields as (E1 & E2 & E3 & E4). rewrite E1, E2, E3, E4.
  pose proof Hseg as (M0 & M1 & O0 & O1 & V0 & Hc). unfold track_bounds. wp_step.
  apply wp_modify. wp_step. apply wp_fseek; [lia|]. wp_step. apply wp_get.
  set (s1 := set_fpos _ _).
  assert (placed s0 dn s1) as Hp1 by (by apply (placed_rest s0 dn s)).
  assert (bounds_of (p_vaddr ph) (p_vaddr ph + p_memsz ph) s s1) as Hb1.
  { split; unfold s1; cbn [kernel_low kernel_high set_fpos set_kernel].
    - destruct (Z.ltb_spec (p_vaddr ph) (kernel_low s)); lia.
    - destruct (Z.ltb_spec (kernel_high s) (p_vaddr ph + p_memsz ph)); lia. }
  assert (fpos s1 = p_offset ph) as Hf1 by reflexivity.
  assert (∀ bv po so s2, placed s0 dn s2 → regions s2 = regions s1 → fpos s2 = p_offset ph + so →
    kernel_low s2 = kernel_low s1 → kernel_high s2 = kernel_high s1 → rest_start s1 bv po so →
    (∀ k, 0 <= k < so →
       rd8 (ram s2) (get_pmem_for_vmem (p_vaddr ph + k) (regions s1)) = content file ph k) →
    wp (st ← load_rest malloc_ok file ph bv (vend ph - bv) po so;
        if negb (st =? EFI_SUCCESS) then mret st else note_tls ph ;; note_static ph)
      (λ st s', st = EFI_SUCCESS → placed s0 (dn ++ [ph]) s' ∧
         bounds_of (p_vaddr ph) (p_vaddr ph + p_memsz ph) s s') s2) as Hrest.
  { intros bv po so s2 Hp2 Er Hf2 Elo Ehi Hcase Hfirst. unfold rest_start in Hcase.
    rewrite <- Er in Hcase, Hfirst. wp_step.
    eapply wp_mono; [by apply (rest_or_done s2 bv po so)|].
    intros st s3 Hst. destruct (Z.eqb_spec st EFI_SUCCESS) as [->|Hne]; cbn [negb];
      [|wp_steps; by intros ?].
    destruct (Hst eq_refl) as (Hp3 & L3 & H3).
    eapply wp_mono; [apply (notes_spec s3 (λ s', placed s0 (dn ++ [ph]) s' ∧
      bounds_of (p_vaddr ph) (p_vaddr ph + p_memsz ph) s s'))|auto].
    intros s' Ef Erg El Eh. split; [by apply (placed_rest s0 _ s3)|].
    destruct Hb1 as [B1 B2]. split; congruence. }
  wp_step. destruct (decide (get_intersect (vstart ph) 1 (regions s1) = None)) as [Hnone|Hsome].
  - assert (get_pmem_for_vmem (vstart ph) (regions s1) = 0) as ->
      by (unfold get_pmem_for_vmem; by rewrite Hnone).
    unfold load_first_page. cbn [truth negb Z.eqb]. apply wp_ret. cbv beta iota.
    apply (Hrest (vstart ph) (voff ph) 0); try done; [rewrite Hf1; lia| |intros k Hk; lia].
    left. split_and!; [done| |done|done]. intros (r & Hr & Hw).
    apply get_intersect_none in Hnone.
    + unfold free_range in Hnone. rewrite Forall_forall in Hnone. specialize (Hnone r Hr). lia.
    + unfold canonical in Hc. lia.
    + lia.
    + unfold canonical in Hc. pose proof (vstart_vend ph M0). lia.
    + apply Hp1.
  - destruct (get_intersect (vstart ph) 1 (regions s1)) as [[i r]|] eqn:E; [|done].
    apply get_intersect_some in E as (Hi & Hlo & Hhi);
      [|unfold canonical in Hc; lia|lia|unfold canonical in Hc; pose proof (vstart_vend ph M0); lia|apply Hp1].
    assert (covered (regions s1) (vstart ph)) as Hcov
      by (exists r; split; [by eapply list_elem_of_lookup_2|lia]).
    eapply wp_mono; [by apply load_first_page_spec|].
    intros rest s2 (-> & Hp2 & Erg & Hf2 & El & Eh & Hk).
    replace (vend ph - vstart ph - 4096) with (vend ph - (vstart ph + 4096)) by lia.
    apply (Hrest (vstart ph + 4096) 0 first_load); try done. by right.
Qed.
End segment.

(** ** All segments *)
Definition low_of (phs : list Elf64_Phdr) (x : Z) : Z := foldl (λ a ph, Z.min a (p_vaddr ph)) x phs.
Definition high_of (phs : list Elf64_Phdr) (x : Z) : Z :=
  foldl (λ a ph, Z.max a (p_vaddr ph + p_memsz ph)) x phs.

Lemma load_segments_spec s0 (phs : list Elf64_Phdr) table phentsize i dn s :
  (∀ j ph, phs !! j = Some ph →
     read_phdr table ((i + Z.of_nat j) * phentsize) = Done ph ∧
     (i + Z.of_nat j) * phentsize < 2 ^ 31) →
  (∀ a, a ∈ dn → seg_ok file a) →
  Forall (seg_ok file) (filter (λ ph, loadable ph = true) phs) →
  StronglySorted follows (dn ++ filter (λ ph, loadable ph = true) phs) → placed s0 dn s →
  wp (load_segments malloc_ok file (List.length phs) table i phentsize) (λ st s',
    st = EFI_SUCCESS →
    placed s0 (dn ++ filter (λ ph, loadable ph = true) phs) s' ∧
    kernel_low s' = low_of (filter (λ ph, loadable ph = true) phs) (kernel_low s) ∧
    kernel_high s' = high_of (filter (λ ph, loadable ph = true) phs) (kernel_high s)) s.
Proof.
  revert i dn s. induction phs as [|ph phs IH]; intros i dn s Htab Hdn Hok Hsrt Hp;
    cbn [load_segments List.length].
  { wp_steps. intros _. cbn [filter list_filter]. by rewrite app_nil_r. }
  destruct (Htab 0%nat ph eq_refl) as [Hrd Hmul]. rewrite Z.add_0_r in Hrd, Hmul.
  unfold int_mul. destruct (Z.ltb_spec (i * phentsize) (2 ^ 31)); [|lia].
  wp_steps. eapply wp_lift; [exact Hrd|].
  assert (∀ dn' s', (∀ a, a ∈ dn' → seg_ok file a) →
    Forall (seg_ok file) (filter (λ ph, loadable ph = true) phs) →
    StronglySorted follows (dn' ++ filter (λ ph, loadable ph = true) phs) → placed s0 dn' s' →
    wp (load_segments malloc_ok file (List.length phs) table (i + 1) phentsize) (λ st s'',
      st = EFI_SUCCESS → placed s0 (dn' ++ filter (λ ph, loadable ph = true) phs) s'' ∧
      kernel_low s'' = low_of (filter (λ ph, loadable ph = true) phs) (kernel_low s') ∧
      kernel_high s'' = high_of (filter (λ ph, loadable ph = true) phs) (kernel_high s')) s') as Hnext.
  { intros dn' s' D1 D2 D3 D4. apply IH; try done. intros j ph' Hj.
    destruct (Htab (S j) ph' Hj) as [Hr Hm].
    replace (i + 1 + Z.of_nat j) with (i + Z.of_nat (S j)) by lia. done. }
  wp_step. rewrite filter_cons in Hok, Hsrt. rewrite filter_cons. destruct (loadable ph) eqn:El.
  - rewrite decide_True in * by done. apply Forall_cons in Hok as [Hph Hok].
    eapply wp_mono; [apply (load_segment_spec s0 dn ph Hph); [|exact El|exact Hp]|].
    { intros a Ha. split; [by apply Hdn|]. clear -Hsrt Ha.
      induction dn as [|b dn IHd]; [by apply elem_of_nil in Ha|]. simpl in Hsrt.
      inversion Hsrt as [|? ? H1 H2]; subst. apply elem_of_cons in Ha as [->|Ha]; [|by apply IHd].
      apply Forall_app in H2 as [_ H2]. by apply Forall_cons in H2 as [? _]. }
    intros st s1 Hst. destruct (Z.eqb_spec st EFI_SUCCESS) as [->|Hne]; cbn [negb];
      [|wp_steps; by intros ?].
    destruct (Hst eq_refl) as [Hp1 [B1 B2]].
    replace (dn ++ ph :: _) with ((dn ++ [ph]) ++ filter (λ ph, loadable ph = true) phs) in *
      by by rewrite <- app_assoc.
    cbn [low_of high_of foldl]. rewrite <- B1, <- B2. apply Hnext; try done.
    intros a Ha. apply elem_of_app in Ha as [Ha|Ha]; [by apply Hdn|].
    by apply list_elem_of_singleton in Ha as ->.
  - rewrite decide_False in * by done. unfold load_segment. unfold loadable in El. rewrite El.
    wp_steps. by apply Hnext.
Qed.

(** The parts of the file the loader reads. *)
Record elf_file (eh : Elf64_Ehdr) (phs : list Elf64_Phdr) : Prop := {
  ef_ehdr : read_ehdr (take 64 file) = Done eh;
  ef_long : 64 <= Z.of_nat (List.length file);
  ef_class : e_class eh = ELFCLASS64;
  ef_table : 0 <= e_phoff eh ∧ 0 <= e_phentsize eh ∧
    e_phoff eh + e_phnum eh * e_phentsize eh <= Z.of_nat (List.length file) ∧
    e_phnum eh * e_phentsize eh < 2 ^ 31;
  ef_count : Z.of_nat (List.length phs) = e_phnum eh;
  ef_phdrs : ∀ i ph, phs !! i = Some ph →
    read_phdr (stream_next file (e_phnum eh * e_phentsize eh) (e_phoff eh))
      (Z.of_nat i * e_phentsize eh) = Done ph
}.

Definition loads (phs : list Elf64_Phdr) : list Elf64_Phdr := filter (λ ph, loadable ph = true) phs.

(** The kernel is in memory as its program headers describe it. *)
Definition kernel_in_memory (phs : list Elf64_Phdr) (s s' : ldr F) : Prop :=
  regions_ok (regions s') ∧
  (∀ ph, ph ∈ loads phs → image file (ram s') (regions s') ph) ∧
  (∀ w, covered (regions s') w ↔ ∃ ph, ph ∈ loads phs ∧ vstart ph <= w < vend ph) ∧
  kernel_low s' = low_of (loads phs) (2 ^ 64 - 1) ∧ kernel_high s' = high_of (loads phs) 0 ∧
  (∀ k, fw_used (fw s) (page_base k) → rd8 (ram s') k = rd8 (ram s) k).

Lemma map_kernel_spec buffer_ok eh phs s :
  elf_file eh phs → Forall (seg_ok file) (loads phs) → StronglySorted follows (loads phs) →
  (∀ n, buffer_ok n = true) → regions s = [] → fpos s = 0 →
  wp (elf64_map_kernel malloc_ok buffer_ok file) (λ r s',
    r.1 = EFI_SUCCESS → r.2 = eh ∧ kernel_in_memory phs s s') s.
Proof.
  intros [E1 E0 E2 (T1 & T2 & T3 & T4) E4 E5] Hok Hsrt Hb Hr Hf. unfold elf64_map_kernel.
  wp_step. apply wp_modify. wp_step. apply wp_modify. unfold fread_buffer. rewrite !Hb.
  wp_step. wp_step. apply wp_get. cbn [fpos set_static set_kernel]. rewrite Hf.
  wp_step. apply wp_modify. apply wp_ret. wp_step.
  eapply wp_lift; [exact E1|]. rewrite E2. change (negb (ELFCLASS64 =? ELFCLASS64)) with false.
  cbv iota. unfold int_mul. destruct (Z.ltb_spec (e_phnum eh * e_phentsize eh) (2 ^ 31)); [|lia].
  wp_step. apply wp_ret. wp_step. apply wp_fseek; [lia|]. rewrite Hb. wp_step. wp_step. apply wp_get.
  wp_step. apply wp_modify. apply wp_ret. wp_step. cbn [fpos set_fpos].
  rewrite <- E4, Nat2Z.id. set (s1 := set_fpos _ _).
  eapply wp_mono; [apply (load_segments_spec (fw s) phs _ _ 0 [] s1)|].
  - intros j ph Hj. rewrite E4. split; [by apply E5|]. apply lookup_lt_Some in Hj.
    assert (Z.of_nat j < e_phnum eh) by lia. nia.
  - intros a Ha. by apply elem_of_nil in Ha.
  - exact Hok.
  - exact Hsrt.
  - apply (placed_rest (fw s) [] (set_regions [] s)); [|reflexivity|exact Hr].
    assert (∀ r : vmem_map_entry, ¬ r ∈ []) as Hnil by (intros r; apply not_elem_of_nil).
    split; cbn [regions set_regions fw].
    + split; constructor.
    + intros r Hr'. by destruct (Hnil r).
    + constructor.
    + intros w. split; [intros (r & Hr' & _); by destruct (Hnil r)|].
      intros (a & Ha & _). by apply elem_of_nil in Ha.
    + intros a Ha. by apply elem_of_nil in Ha.
    + done.
    + done.
  - intros st s2 Hst. wp_steps. cbn [fst snd]. intros ->. split; [done|].
    destruct (Hst eq_refl) as ([H1 H2 H3 H4 H5 H6 H7] & L1 & L2).
    split_and!; [exact H1|exact H5|exact H4|exact L1|exact L2|exact H7].
Qed.
End proofs.

(** ** Claims *)

(** C3. Loading the kernel.  For an ELF64 file whose loadable segments come
    in ascending order with disjoint bytes (a segment may share its first page
    with an earlier one if its file part fills that page or it has no zeroed
    part), [elf64_map_kernel] terminates without undefined behaviour, and when
    it reports success every byte of every loadable segment, read through the
    region list, is the file's byte or 0 past the file part; the regions are
    exactly the segments' pages, well formed and disjoint; [kernel_low] and
    [kernel_high] bound the segments tightly; no page in use before has
    changed. *)
Theorem elf64_map_kernel_loads {F} {FO : FirmwareOps F} {FW : Firmware F}
    malloc_ok buffer_ok (file : list Z) eh phs (s : ldr F) :
  Z.of_nat (List.length file) < 2 ^ 63 →
  elf_file file eh phs → Forall (seg_ok file) (loads phs) → StronglySorted follows (loads phs) →
  (∀ n, buffer_ok n = true) → regions s = [] → fpos s = 0 →
  wp (elf64_map_kernel malloc_ok buffer_ok file) (λ r s',
    r.1 = EFI_SUCCESS → r.2 = eh ∧ kernel_in_memory file phs s s') s.
Proof. intros Hf. exact (map_kernel_spec malloc_ok file Hf buffer_ok eh phs s). Qed.

(** A small kernel: two segments in one page and one with a zeroed part. *)
Definition phdr_bytes (ph : Elf64_Phdr) : list Z :=
  le_bytes 4 (p_type ph) ++ le_bytes 4 (p_flags ph) ++ le_bytes 8 (p_offset ph) ++
  le_bytes 8 (p_vaddr ph) ++ le_bytes 8 (p_vaddr ph) ++ le_bytes 8 (p_filesz ph) ++
  le_bytes 8 (p_memsz ph) ++ le_bytes 8 4096.
Definition demo_phdrs : list Elf64_Phdr :=
  [Phdr PT_LOAD 5 232 0x400000 8 8; Phdr PT_TLS 4 240 0x400010 4 4;
   Phdr PT_LOAD 6 244 0x402ff0 4 0x20].
Definition demo_ehdr : Elf64_Ehdr := Ehdr 2 0x400000 64 0 56 3 64 0.
Definition demo_file : list Z :=
  [0x7f; 69; 76; 70; 2; 1; 1; 0] ++ replicate 8 0 ++
  le_bytes 2 2 ++ le_bytes 2 62 ++ le_bytes 4 1 ++ le_bytes 8 0x400000 ++ le_bytes 8 64 ++
  le_bytes 8 0 ++ le_bytes 4 0 ++ le_bytes 2 64 ++ le_bytes 2 56 ++ le_bytes 2 3 ++
  le_bytes 2 64 ++ le_bytes 2 0 ++ le_bytes 2 0 ++
  (demo_phdrs ≫= phdr_bytes) ++ [1; 2; 3; 4; 5; 6; 7; 8; 9; 10; 11; 12; 13; 14; 15; 16].
Definition demo_state : ldr bump := Ldr (Bump ∅ 0x1000) [] 0 0 0 0 0 0 0.

Lemma demo_elf : elf_file demo_file demo_ehdr demo_phdrs.
Proof.
  split; [by vm_compute..|].
  intros i ph Hi. do 3 (destruct i as [|i]; [injection Hi as <-; by vm_compute|]). done.
Qed.

Lemma elf64_map_kernel_loads_witness :
  (run (elf64_map_kernel (λ _, true) (λ _, true) demo_file) (1, demo_ehdr) demo_state).1.1
    = EFI_SUCCESS ∧
  wp (elf64_map_kernel (λ _, true) (λ _, true) demo_file) (λ r s',
    r.1 = EFI_SUCCESS → r.2 = demo_ehdr ∧ kernel_in_memory demo_file demo_phdrs demo_state s')
    demo_state.
Proof.
  split; [vm_compute; reflexivity|].
  apply (elf64_map_kernel_loads (F := bump)).
  - by vm_compute.
  - exact demo_elf.
  - repeat constructor; by vm_compute.
  - do 3 (constructor; [|apply (bool_decide_unpack _); by vm_compute]). constructor.
  - done.
  - reflexivity.
  - reflexivity.
Defined.

(** The rest of a segment none of whose file part is left: as many bytes are
    cleared from the start of the new pages as the segment's zeroed part has. *)
Lemma load_rest_clears {F} {FO : FirmwareOps F} {FW : Firmware F} malloc_ok (file : list Z) ph bv n (s : ldr F) :
  0 < n < 2 ^ 63 → n mod 4096 = 0 → 0 <= p_filesz ph <= p_memsz ph → p_memsz ph < 2 ^ 63 →
  0 <= fpos s <= Z.of_nat (List.length file) →
  wp (load_rest malloc_ok file ph bv n 0 (p_filesz ph)) (λ st s', st = EFI_SUCCESS → ∃ p m,
    regions s' = regions s ++ [Entry bv n 0 p] ∧
    ram s' = fill (Z.to_nat (p_memsz ph - p_filesz ph)) m p 0) s.
Proof.
  intros Hn Hm Hfs Hms Hpos. unfold load_rest, truth. destruct (Z.eqb_spec n 0) as [|_]; [lia|]. cbn [negb]. wp_step.
  apply wp_on_fw. eapply wp_mono; [apply fw_alloc_spec; dlia|].
  intros [st p] x (Ex & _ & Hres). cbn [fst snd] in *.
  destruct (Z.eqb_spec st EFI_SUCCESS) as [->|Hne]; cbn [negb]; [|by apply wp_ret].
  destruct (Hres eq_refl) as (P0 & P1 & _). assert (n / 4096 * 4096 = n) as En by dlia.
  wp_step. apply wp_get. cbn [regions set_fw].
  destruct (allocate_fixed malloc_ok bv n p (regions s)) as [st rs] eqn:Ea. wp_step. apply wp_modify.
  destruct (Z.eqb_spec st EFI_SUCCESS) as [->|Hne]; cbn [negb]; [|by apply wp_ret].
  assert (rs = regions s ++ [Entry bv n 0 p]) as ->.
  { unfold allocate_fixed, add in Ea. destruct (get_intersect _ _ _); [done|].
    destruct (malloc_ok _); [|done]. by injection Ea as <-. }
  rewrite Z.sub_diag. change (u64 0) with 0. rewrite ?Z.add_0_r.
  rewrite !(u64_small p), (u64_small (p_memsz ph - p_filesz ph)) by lia.
  wp_step. apply wp_fread; cbn [fpos set_fw set_regions]; [lia|lia|lia|].
  wp_step. apply wp_modify. apply wp_ret. intros _. eexists _, _.
  split; [reflexivity|]. rewrite ram_set. reflexivity.
Qed.

(** A segment whose first page is shared and whose file part ends inside
    that page: [elf64_map_kernel] zeroes as many bytes as the segment's whole
    zeroed part from the start of the pages allocated for the rest, so when it
    succeeds it has cleared memory beyond those pages. *)
Lemma load_segment_zeroes_past_pages {F} {FO : FirmwareOps F} {FW : Firmware F}
    malloc_ok (file : list Z) ph (s : ldr F) :
  Z.of_nat (List.length file) < 2 ^ 63 →
  loadable ph = true → seg_ok file ph → get_pmem_for_vmem (vstart ph) (regions s) ≠ 0 →
  p_filesz ph < 4096 - voff ph → vstart ph + 4096 < vend ph →
  vend ph - (vstart ph + 4096) < p_memsz ph - p_filesz ph →
  wp (load_segment malloc_ok file ph) (λ st s', st = EFI_SUCCESS → ∃ p,
    last (regions s') = Some (Entry (vstart ph + 4096) (vend ph - (vstart ph + 4096)) 0 p) ∧
    rd8 (ram s') (p + (vend ph - (vstart ph + 4096))) = 0) s.
Proof.
  intros Hfile Hl Hseg Hpm Hfs Hend Hover. unfold load_segment. unfold loadable in Hl. rewrite Hl.
  destruct (seg_fields file ph Hseg) as (E1 & E2 & E3 & E4). rewrite E1, E2, E3, E4.
  pose proof Hseg as (M0 & M1 & O0 & O1 & V0 & Hc). unfold canonical in Hc.
  pose proof (vstart_vend ph M0) as (V1 & V2 & V3 & V4 & V5).
  unfold track_bounds. wp_step. apply wp_modify. wp_step. apply wp_fseek; [lia|].
  wp_step. apply wp_get. cbn [regions set_fpos set_kernel]. unfold load_first_page, truth.
  destruct (Z.eqb_spec (get_pmem_for_vmem (vstart ph) (regions s)) 0) as [|_]; [done|]. cbn [negb].
  rewrite (u64_small (0x1000 - voff ph)) by (unfold voff in *; dlia).
  destruct (Z.ltb_spec (p_filesz ph) (0x1000 - voff ph)) as [_|]; [|lia].
  rewrite (u64_small (vstart ph + 0x1000)), (u64_small (_ - 0x1000)) by lia.
  wp_step. wp_step. apply wp_fread; cbn [fpos set_fpos]; [lia|lia|lia|]. wp_step.
  set (s1 := set_fpos _ _). assert (regions s1 = regions s) as Er by reflexivity.
  assert (fpos s1 = p_offset ph + p_filesz ph) as Ef by reflexivity. clearbody s1.
  set (n := vend ph - vstart ph - 4096). wp_step.
  eapply wp_mono; [apply load_rest_clears; [unfold n; lia|unfold n; dlia|lia|lia|lia]|].
  cbv beta. rewrite Er. intros st s2 Hst.
  destruct (Z.eqb_spec st EFI_SUCCESS) as [->|Hne]; cbn [negb]; [|by apply wp_ret].
  destruct (Hst eq_refl) as (p & m & Er2 & Em).
  eapply wp_mono; [apply (notes_spec ph s2 (λ s', ∃ p,
    last (regions s') = Some (Entry (vstart ph + 4096) (vend ph - (vstart ph + 4096)) 0 p) ∧
    rd8 (ram s') (p + (vend ph - (vstart ph + 4096))) = 0))|auto].
  intros s' Ef' Er' _ _. exists p. unfold ram. rewrite Ef', Er', Er2, last_snoc.
  fold (ram s2). rewrite Em, rd8_fill, Z2Nat.id by lia. rewrite decide_True by lia.
  split; [|done]. do 2 f_equal. unfold n. lia.
Qed.

Definition bss_phdr : Elf64_Phdr := Phdr PT_LOAD 6 64 0x400010 0x10 0x1ff0.
Definition bss_state : ldr bump :=
  Ldr (Bump ∅ 0x1000) [Entry 0x400000 0x1000 0 0x500000] 0 0 0 0 0 0 0.

Lemma load_segment_zeroes_past_pages_witness :
  wp (load_segment (λ _, true) demo_file bss_phdr) (λ st s', st = EFI_SUCCESS → ∃ p,
    last (regions s') = Some (Entry (vstart bss_phdr + 4096)
                                    (vend bss_phdr - (vstart bss_phdr + 4096)) 0 p) ∧
    rd8 (ram s') (p + (vend bss_phdr - (vstart bss_phdr + 4096))) = 0) bss_state.
Proof.
  apply (load_segment_zeroes_past_pages (F := bump)); try by vm_compute.
  repeat constructor; by vm_compute.
Defined.

(** [elf64_get_phdr] checks its index against the number of section
    headers: it hands out addresses past the program header table, and
    rejects existing program headers when there are more of them than
    sections. *)
Lemma elf64_get_phdr_wrong_bound ehdr eh idx :
  0 <= idx →
  (e_phnum eh <= idx < e_shnum eh →
     elf64_get_phdr ehdr eh idx false =
       (EFI_SUCCESS, Some (u64 (u64 (ehdr + e_phoff eh) + idx * e_phentsize eh)))) ∧
  (e_shnum eh <= idx < e_phnum eh →
     elf64_get_phdr ehdr eh idx false = (EFI_INVALID_PARAMETER, None)).
Proof.
  intros Hi. unfold elf64_get_phdr.
  destruct (Z.ltb_spec idx 0), (Z.leb_spec (e_shnum eh) idx); try lia; simpl; split; intros; lia || done.
Qed.

Lemma elf64_get_phdr_wrong_bound_witness :
  elf64_get_phdr 0x1000 demo_ehdr 1 false = (EFI_INVALID_PARAMETER, None).
Proof. apply (elf64_get_phdr_wrong_bound 0x1000 demo_ehdr 1); cbn; lia. Defined.
