(* ===== verification/Printf.v ===== *)
(** * Formatted output of the EFI C library

    src/tload/tloadefi/efilibc/printf.c on the x86-64 mingw target, where
    [long] is 32 bits wide and pointers are 64.  A format and a string argument are byte lists without their terminator; variable
    arguments carry the class of their type, and fetching one of another class
    is undefined, as in C.  Output goes through [PCHAR]: the characters in
    order, whose number is [retval]. *)

From stdpp Require Import base numbers list gmap strings.
From Stdlib Require Import Lia Ascii.
From S2P Require Import Prelude Mem.
Open Scope Z_scope.
Open Scope outcome_scope.

Definition ord (a : ascii) : Z := Z.of_nat (nat_of_ascii a).
Arguments ord a%_char.

(** ** Variable arguments *)
Inductive varg :=
| VInt (v : Z)                  (* int, unsigned, promoted char and short *)
| VLong (v : Z)                 (* long, 32 bits wide *)
| VWide (v : Z)                 (* the 64-bit integer types *)
| VStr (s : option (list Z))    (* char pointer, or null *)
| VBytes (l : list Z)           (* unsigned char pointer *)
| VPtr (a : Z).                 (* any other pointer *)

(** Characters printed, arguments left, stores through [%n] (address, size,
    value). *)
Record pst := Pst { out : list Z; ap : list varg; stores : list (Z * Z * Z) }.

Definition retval (s : pst) : Z := Z.of_nat (length (out s)).
Definition PCHAR (c : Z) (s : pst) : pst := Pst (out s ++ [u8 c]) (ap s) (stores s).
Definition PCHARS (l : list Z) (s : pst) : pst := foldl (λ s c, PCHAR c s) s l.
Definition set_ap (l : list varg) (s : pst) : pst := Pst (out s) l (stores s).

Definition va_int (s : pst) : outcome (Z * pst) :=
  match ap s with VInt v :: r => Done (s32 v, set_ap r s) | _ => Undef end.
Definition va_long (s : pst) : outcome (Z * pst) :=
  match ap s with VLong v :: r => Done (s32 v, set_ap r s) | _ => Undef end.
Definition va_wide (s : pst) : outcome (Z * pst) :=
  match ap s with VWide v :: r => Done (u64 v, set_ap r s) | _ => Undef end.
Definition va_str (s : pst) : outcome (option (list Z) * pst) :=
  match ap s with VStr v :: r => Done (v, set_ap r s) | _ => Undef end.
Definition va_bytes (s : pst) : outcome (list Z * pst) :=
  match ap s with VBytes v :: r => Done (v, set_ap r s) | _ => Undef end.
Definition va_ptr (s : pst) : outcome (Z * pst) :=
  match ap s with VPtr v :: r => Done (u64 v, set_ap r s) | _ => Undef end.

(** ** Numbers *)
Definition hex2ascii (d : Z) : outcome Z :=
  match cstr "0123456789abcdefghijklmnopqrstuvwxyz" !! Z.to_nat d with
  | Some c => if 0 <=? d then Done c else Undef
  | None => Undef
  end.
Definition toupper (c : Z) : Z := if (97 <=? c) && (c <=? 122) then c - 0x20 else c.

(** The digits in the order they are printed; [room] is what is left of
    [nbuf] (64 characters after the terminator). *)
Fixpoint ksprintn_loop (room : nat) (num base : Z) (upper : bool) (p : list Z) : outcome (list Z) :=
  match room with
  | O => Undef
  | S room =>
      if base <=? 0 then Undef
      else
        c ⇐ hex2ascii (num mod base);
        let p := (if upper then toupper c else c) :: p in
        if num / base =? 0 then Done p else ksprintn_loop room (num / base) base upper p
  end.
Definition ksprintn (num base : Z) (upper : bool) : outcome (list Z) :=
  ksprintn_loop 64 num base upper [].

(** ** The flags of one conversion *)
Record flags := Flags {
  padc : Z; width : Z; ladjust : bool; sharpflag : bool; sign : bool; dot : bool; dwidth : Z;
  upper : bool; cflag : bool; hflag : bool; jflag : bool; lflag : bool; qflag : bool;
  tflag : bool; zflag : bool
}.
Definition flags0 : flags :=
  Flags 32 0 false false false false 0 false false false false false false false false.

Definition set_padc (v : Z) (f : flags) : flags :=
  Flags v (width f) (ladjust f) (sharpflag f) (sign f) (dot f) (dwidth f) (upper f) (cflag f)
    (hflag f) (jflag f) (lflag f) (qflag f) (tflag f) (zflag f).
Definition set_width (v : Z) (f : flags) : flags :=
  Flags (padc f) v (ladjust f) (sharpflag f) (sign f) (dot f) (dwidth f) (upper f) (cflag f)
    (hflag f) (jflag f) (lflag f) (qflag f) (tflag f) (zflag f).
Definition set_ladjust (v : bool) (f : flags) : flags :=
  Flags (padc f) (width f) v (sharpflag f) (sign f) (dot f) (dwidth f) (upper f) (cflag f)
    (hflag f) (jflag f) (lflag f) (qflag f) (tflag f) (zflag f).
Definition set_sharp (v : bool) (f : flags) : flags :=
  Flags (padc f) (width f) (ladjust f) v (sign f) (dot f) (dwidth f) (upper f) (cflag f)
    (hflag f) (jflag f) (lflag f) (qflag f) (tflag f) (zflag f).
Definition set_sign (v : bool) (f : flags) : flags :=
  Flags (padc f) (width f) (ladjust f) (sharpflag f) v (dot f) (dwidth f) (upper f) (cflag f)
    (hflag f) (jflag f) (lflag f) (qflag f) (tflag f) (zflag f).
Definition set_dot (v : bool) (f : flags) : flags :=
  Flags (padc f) (width f) (ladjust f) (sharpflag f) (sign f) v (dwidth f) (upper f) (cflag f)
    (hflag f) (jflag f) (lflag f) (qflag f) (tflag f) (zflag f).
Definition set_dwidth (v : Z) (f : flags) : flags :=
  Flags (padc f) (width f) (ladjust f) (sharpflag f) (sign f) (dot f) v (upper f) (cflag f)
    (hflag f) (jflag f) (lflag f) (qflag f) (tflag f) (zflag f).
Definition set_upper (v : bool) (f : flags) : flags :=
  Flags (padc f) (width f) (ladjust f) (sharpflag f) (sign f) (dot f) (dwidth f) v (cflag f)
    (hflag f) (jflag f) (lflag f) (qflag f) (tflag f) (zflag f).
(** The length modifiers c, h, j, l, q, t, z. *)
Definition set_len (c h j l q t z : bool) (f : flags) : flags :=
  Flags (padc f) (width f) (ladjust f) (sharpflag f) (sign f) (dot f) (dwidth f) (upper f)
    c h j l q t z.

(** ** Conversions *)
(** [while (width--) PCHAR(padc)] for a positive width. *)
Definition pad (f : flags) (w : Z) (s : pst) : pst := PCHARS (replicate (Z.to_nat w) (padc f)) s.

(** From the label [number] on. *)
Definition number (f : flags) (base num : Z) (s : pst) : outcome pst :=
  let neg := sign f && (s64 num <? 0) in
  if neg && (num =? 2 ^ 63) then Undef
  else
    let num := if neg then u64 (- s64 num) else num in
    p ⇐ ksprintn num base (upper f);
    let prefix := if sharpflag f && truth num
                  then if base =? 8 then [48] else if base =? 16 then [48; 120] else []
                  else [] in
    let tmp := Z.of_nat (length p) + Z.of_nat (length prefix) + (if neg then 1 else 0) in
    let w := width f in
    let '(w, s) :=
      if negb (ladjust f) && negb (padc f =? 48) && truth w
      then if 0 <? w - tmp then (-1, pad f (w - tmp) s) else (w - tmp, s)
      else (w, s) in
    let s := if neg then PCHAR 45 s else s in
    let s := PCHARS prefix s in
    let '(w, s) :=
      if negb (ladjust f) && truth w
      then if 0 <? w - tmp then (-1, pad f (w - tmp) s) else (w - tmp, s)
      else (w, s) in
    let s := PCHARS p s in
    Done (if ladjust f && truth w && (0 <? w - tmp) then pad f (w - tmp) s else s).

Definition get_nosign (f : flags) (s : pst) : outcome (Z * pst) :=
  if jflag f then va_wide s
  else if qflag f then va_wide s
  else if tflag f then va_wide s
  else if lflag f then r ⇐ va_long s; Done (u32 r.1, r.2)
  else if zflag f then va_wide s
  else
    r ⇐ va_int s;
    Done (if hflag f then u16 r.1 else if cflag f then u8 r.1 else u32 r.1, r.2).

Definition get_sign (f : flags) (s : pst) : outcome (Z * pst) :=
  if jflag f then va_wide s
  else if qflag f then va_wide s
  else if tflag f then va_wide s
  else if lflag f then r ⇐ va_long s; Done (u64 r.1, r.2)
  else
    r ⇐ va_int s;
    Done (u64 (if hflag f then s16 r.1 else if cflag f then s8 r.1 else r.1), r.2).

Definition handle_nosign (f : flags) (base : Z) (s : pst) : outcome pst :=
  r ⇐ get_nosign f s; number (set_sign false f) base r.1 r.2.
Definition handle_sign (f : flags) (base : Z) (s : pst) : outcome pst :=
  r ⇐ get_sign f s; number f base r.1 r.2.

(** [%s] *)
Definition conv_s (f : flags) (s : pst) : outcome pst :=
  r ⇐ va_str s;
  let p := default (cstr "(null)") r.1 in
  let n := if dot f then Z.max 0 (Z.min (dwidth f) (Z.of_nat (length p))) else Z.of_nat (length p) in
  let w := width f - n in
  let '(w, s) := if negb (ladjust f) && (0 <? w) then (-1, pad f w r.2) else (w, r.2) in
  let s := PCHARS (take (Z.to_nat n) p) s in
  Done (if ladjust f && (0 <? w) then pad f w s else s).

(** [%b]: the names of the bits that are set. *)
Fixpoint bit_names (fuel : nat) (num : Z) (p : list Z) (tmp : bool) (s : pst) : outcome pst :=
  match fuel with
  | O => Hang
  | S fuel =>
      match p with
      | [] => Done (if tmp then PCHAR 62 s else s)
      | n :: p =>
          let name := list_find (λ c, s8 c <= 32) p in
          let len := match name with Some (i, _) => i | None => length p end in
          if (1 <=? s8 n) && (s8 n <=? 32) then
            if truth (Z.land num (u64 (s32 (Z.shiftl 1 (s8 n - 1))))) then
              bit_names fuel num (drop len p) true
                (PCHARS (take len p) (PCHAR (if tmp then 44 else 60) s))
            else bit_names fuel num (drop len p) tmp s
          else Undef
      end
  end.
Definition conv_b (s : pst) : outcome pst :=
  r ⇐ va_int s;
  let num := u32 r.1 in
  q ⇐ va_str r.2;
  match q.1 with
  | Some (b :: p) =>
      d ⇐ ksprintn num (s8 b) false;
      let s := PCHARS d q.2 in
      if num =? 0 then Done s else bit_names (S (length p)) num p false s
  | _ => Undef
  end.

(** [%D]: bytes in hexadecimal with a separator. *)
Fixpoint hexdump (n : nat) (up sep : list Z) (s : pst) : outcome pst :=
  match n with
  | O => Done s
  | S n =>
      match up with
      | [] => Undef
      | b :: up =>
          hi ⇐ hex2ascii (Z.shiftr (u8 b) 4);
          lo ⇐ hex2ascii (Z.land (u8 b) 0x0f);
          let s := PCHAR lo (PCHAR hi s) in
          hexdump n up sep (match n with O => s | _ => PCHARS sep s end)
      end
  end.
Definition conv_D (f : flags) (s : pst) : outcome pst :=
  r ⇐ va_bytes s;
  q ⇐ va_str r.2;
  match q.1 with
  | Some sep => hexdump (Z.to_nat (if truth (width f) then width f else 16)) r.1 sep q.2
  | None => Undef
  end.

(** [%n] *)
Definition conv_n (f : flags) (s : pst) : outcome pst :=
  r ⇐ va_ptr s;
  let size := if jflag f then 8 else if qflag f then 8 else if lflag f then 4
              else if zflag f then 8 else if hflag f then 2 else if cflag f then 1 else 4 in
  Done (Pst (out r.2) (ap r.2) (stores r.2 ++ [(r.1, size, retval s)])).

(** ** The interpreter *)
Definition is_digit (c : Z) : bool := (48 <=? c) && (c <=? 57).

Fixpoint read_number (n ch : Z) (fmt : list Z) : outcome (Z * list Z) :=
  let n := n * 10 + ch - 48 in
  if 2 ^ 31 <=? n then Undef
  else match fmt with
       | d :: fmt' => if is_digit d then read_number n d fmt' else Done (n, fmt)
       | [] => Done (n, [])
       end.

Definition star (f : flags) (s : pst) : outcome (flags * pst) :=
  r ⇐ va_int s;
  Done (if dot f then set_dwidth r.1 f
        else if r.1 <? 0 then set_ladjust (negb (ladjust f)) (set_width (- r.1) f)
        else set_width r.1 f, r.2).

(** Modifiers that only change the flags. *)
Definition modifier (ch : Z) (f : flags) : option flags :=
  if ch =? ord "." then Some (set_dot true f)
  else if ch =? ord "#" then Some (set_sharp true f)
  else if ch =? ord "+" then Some (set_sign true f)
  else if ch =? ord "-" then Some (set_ladjust true f)
  else if (ch =? ord "0") && negb (dot f) then Some (set_padc 48 f)
  else if ch =? ord "h" then
    Some (if hflag f then set_len true false (jflag f) (lflag f) (qflag f) (tflag f) (zflag f) f
          else set_len (cflag f) true (jflag f) (lflag f) (qflag f) (tflag f) (zflag f) f)
  else if ch =? ord "j" then
    Some (set_len (cflag f) (hflag f) true (lflag f) (qflag f) (tflag f) (zflag f) f)
  else if ch =? ord "l" then
    Some (if lflag f then set_len (cflag f) (hflag f) (jflag f) false true (tflag f) (zflag f) f
          else set_len (cflag f) (hflag f) (jflag f) true (qflag f) (tflag f) (zflag f) f)
  else if ch =? ord "q" then
    Some (set_len (cflag f) (hflag f) (jflag f) (lflag f) true (tflag f) (zflag f) f)
  else if ch =? ord "t" then
    Some (set_len (cflag f) (hflag f) (jflag f) (lflag f) (qflag f) true (zflag f) f)
  else if ch =? ord "z" then
    Some (set_len (cflag f) (hflag f) (jflag f) (lflag f) (qflag f) (tflag f) true f)
  else None.

(** Conversions: what they print, or [None] for the default case. *)
Definition conversion (radix ch : Z) (f : flags) (s : pst) : option (outcome pst) :=
  if ch =? ord "%" then Some (Done (PCHAR ch s))
  else if ch =? ord "b" then Some (conv_b s)
  else if ch =? ord "c" then Some (r ⇐ va_int s; Done (PCHAR r.1 r.2))
  else if ch =? ord "D" then Some (conv_D f s)
  else if (ch =? ord "d") || (ch =? ord "i") then Some (handle_sign (set_sign true f) 10 s)
  else if ch =? ord "n" then Some (conv_n f s)
  else if ch =? ord "o" then Some (handle_nosign f 8 s)
  else if ch =? ord "p" then
    Some (r ⇐ va_ptr s; number (set_sharp (width f =? 0) (set_sign false f)) 16 r.1 r.2)
  else if ch =? ord "r" then
    Some (if sign f then handle_sign f radix s else handle_nosign f radix s)
  else if ch =? ord "s" then Some (conv_s f s)
  else if ch =? ord "u" then Some (handle_nosign f 10 s)
  else if ch =? ord "X" then Some (handle_nosign (set_upper true f) 16 s)
  else if ch =? ord "x" then Some (handle_nosign f 16 s)
  else if ch =? ord "y" then Some (handle_sign (set_sign true f) 16 s)
  else None.

(** [kv_text] is the outer loop, [reswitch] the label of that name; [percent]
    is the format from the current percent sign on. *)
Fixpoint kv_text (fuel : nat) (radix : Z) (stop : bool) (fmt : list Z) (s : pst) : outcome pst :=
  match fuel with
  | O => Hang
  | S fuel =>
      match fmt with
      | [] => Done s
      | ch :: rest =>
          if (ch =? ord "%") && negb stop then reswitch fuel radix fmt rest flags0 s
          else kv_text fuel radix stop rest (PCHAR ch s)
      end
  end
with reswitch (fuel : nat) (radix : Z) (percent fmt : list Z) (f : flags) (s : pst) : outcome pst :=
  match fuel with
  | O => Hang
  | S fuel =>
      match fmt with
      | [] => Undef
      | ch :: rest =>
          match modifier ch f with
          | Some f => reswitch fuel radix percent rest f s
          | None =>
              if ch =? ord "*" then
                r ⇐ star f s; reswitch fuel radix percent rest r.1 r.2
              else if is_digit ch then
                n ⇐ read_number 0 ch rest;
                reswitch fuel radix percent n.2
                  (if dot f then set_dwidth n.1 f else set_width n.1 f) s
              else match conversion radix ch f s with
                   | Some c => s ⇐ c; kv_text fuel radix false rest s
                   | None =>
                       kv_text fuel radix true rest
                         (PCHARS (take (length percent - length rest) percent) s)
                   end
          end
      end
  end.

Definition kvprintf (fmt : option (list Z)) (radix : Z) (args : list varg) : outcome pst :=
  let fmt := default (cstr "(fmt null)" ++ [10]) fmt in
  let radix := if (radix <? 2) || (36 <? radix) then 10 else radix in
  kv_text (S (length fmt)) radix false fmt (Pst [] args []).

(** ** The entry points *)
(** To a stream: the characters [fputc] gets, and the result. *)
Definition to_stream (fmt : option (list Z)) (args : list varg) : outcome (list Z * Z) :=
  s ⇐ kvprintf fmt 10 args; Done (out s, retval s).
Definition printf := to_stream.
Definition fprintf := to_stream.
Definition vprintf := to_stream.
Definition vfprintf := to_stream.

(** To memory: the buffer filled in, and the result.  Stores through [%n]
    are not applied to this memory. *)
Definition to_buffer (fmt : option (list Z)) (args : list varg) (m : mem) (buffer : Z)
    : outcome (mem * Z) :=
  s ⇐ kvprintf fmt 10 args; Done (put_bytes m buffer (out s), retval s).
Definition sprintf := to_buffer.
Definition vsprintf := to_buffer.
Definition snprintf (size : Z) := to_buffer.
Definition vsnprintf (size : Z) := to_buffer.

(** ** Numerals *)
Definition digit_char (up : bool) (d : Z) : Z :=
  if d <? 10 then 48 + d else if up then 55 + d else 87 + d.
Definition char_digit (c : Z) : Z :=
  if c <=? 57 then c - 48 else if c <=? 90 then c - 55 else c - 87.

(** The numeral of [v], most significant digit first. *)
Fixpoint digits (fuel : nat) (up : bool) (base v : Z) : list Z :=
  match fuel with
  | O => []
  | S fuel => (if v / base =? 0 then [] else digits fuel up base (v / base)) ++
              [digit_char up (v mod base)]
  end.
Definition numeral (up : bool) (base v : Z) : list Z := digits 64 up base v.

(** The number a digit string stands for. *)
Definition value (base : Z) (l : list Z) : Z := foldl (λ a c, a * base + char_digit c) 0 l.

Lemma hex2ascii_digit d : 0 <= d < 36 → hex2ascii d = Done (digit_char false d).
Proof.
  intros Hd. assert (∃ n, d = Z.of_nat n ∧ (n < 36)%nat) as (n & -> & Hn) by (exists (Z.to_nat d); lia).
  clear Hd. do 36 (destruct n as [|n]; [reflexivity|]). lia.
Qed.

Lemma toupper_digit d : 0 <= d < 36 → toupper (digit_char false d) = digit_char true d.
Proof.
  intros Hd. unfold toupper, digit_char. destruct (Z.ltb_spec d 10).
  - destruct (Z.leb_spec 97 (48 + d)); [lia|done].
  - destruct (Z.leb_spec 97 (87 + d)), (Z.leb_spec (87 + d) 122); simpl; lia.
Qed.

Lemma char_digit_char up d : 0 <= d < 36 → char_digit (digit_char up d) = d.
Proof.
  intros Hd. unfold char_digit, digit_char. destruct (Z.ltb_spec d 10); [|destruct up].
  - destruct (Z.leb_spec (48 + d) 57); lia.
  - destruct (Z.leb_spec (55 + d) 57), (Z.leb_spec (55 + d) 90); lia.
  - destruct (Z.leb_spec (87 + d) 57), (Z.leb_spec (87 + d) 90); lia.
Qed.

Section numerals.
Context (base : Z) (up : bool).
Hypothesis Hbase : 2 <= base <= 36.

Lemma ksprintn_loop_digits fuel num p :
  0 <= num < 2 ^ Z.of_nat fuel → (0 < fuel)%nat →
  ksprintn_loop fuel num base up p = Done (digits fuel up base num ++ p).
Proof.
  revert num p. induction fuel as [|fuel IH]; intros num p Hn Hf; [lia|].
  cbn [ksprintn_loop digits]. destruct (Z.leb_spec base 0); [lia|].
  assert (0 <= num mod base < 36) as Hd by (pose proof (Z.mod_pos_bound num base); lia).
  rewrite hex2ascii_digit by done. cbn [obind].
  assert ((if up then toupper (digit_char false (num mod base)) else digit_char false (num mod base)) =
    digit_char up (num mod base)) as -> by (destruct up; [by apply toupper_digit|done]).
  destruct (Z.eqb_spec (num / base) 0) as [E|E]; [done|].
  rewrite <- app_assoc. cbn [app]. apply IH.
  - rewrite Nat2Z.inj_succ, Z.pow_succ_r in Hn by lia. split; [apply Z.div_pos; lia|].
    apply Z.div_lt_upper_bound; [lia|]. nia.
  - destruct fuel; [|lia]. simpl in Hn. exfalso. apply E. apply Z.div_small. lia.
Qed.

Lemma ksprintn_numeral num :
  0 <= num < 2 ^ 64 → ksprintn num base up = Done (numeral up base num).
Proof.
  intros Hn. unfold ksprintn, numeral. rewrite ksprintn_loop_digits by (done || lia).
  by rewrite app_nil_r.
Qed.

Lemma digits_value fuel v :
  0 <= v < 2 ^ Z.of_nat fuel → (0 < fuel)%nat → value base (digits fuel up base v) = v.
Proof.
  revert v. induction fuel as [|fuel IH]; intros v Hv Hf; [lia|]. cbn [digits].
  unfold value. rewrite foldl_snoc.
  assert (0 <= v mod base < 36) as Hd by (pose proof (Z.mod_pos_bound v base); lia).
  rewrite char_digit_char by done.
  destruct (Z.eqb_spec (v / base) 0) as [E|E].
  - simpl. pose proof (Z.div_mod v base). lia.
  - fold (value base (digits fuel up base (v / base))). rewrite IH.
    + pose proof (Z.div_mod v base). lia.
    + rewrite Nat2Z.inj_succ, Z.pow_succ_r in Hv by lia. split; [apply Z.div_pos; lia|].
      apply Z.div_lt_upper_bound; [lia|]. nia.
    + destruct fuel; [|lia]. simpl in Hv. exfalso. apply E. apply Z.div_small. lia.
Qed.

(** No leading zeros. *)
Lemma digits_head fuel v :
  0 < v < 2 ^ Z.of_nat fuel →
  ∃ d l, digits fuel up base v = digit_char up d :: l ∧ 0 < d < base.
Proof.
  revert v. induction fuel as [|fuel IH]; intros v Hv; [simpl in Hv; lia|]. cbn [digits].
  destruct (Z.eqb_spec (v / base) 0) as [E|E].
  - exists (v mod base), []. split; [done|]. apply Z.div_small_iff in E; [|lia].
    rewrite Z.mod_small by lia. lia.
  - assert (0 <= v / base) by (apply Z.div_pos; lia). destruct (IH (v / base)) as (d & l & El & Hd).
    + rewrite Nat2Z.inj_succ, Z.pow_succ_r in Hv by lia. split; [lia|].
      apply Z.div_lt_upper_bound; [lia|]. nia.
    + rewrite El. exists d, (l ++ [digit_char up (v mod base)]). done.
Qed.
End numerals.

Lemma length_digits fuel up base v : (length (digits fuel up base v) <= fuel)%nat.
Proof.
  revert v. induction fuel as [|fuel IH]; intros v; [done|]. cbn [digits]. rewrite length_app.
  destruct (v / base =? 0); simpl; [lia|]. specialize (IH (v / base)). lia.
Qed.
Lemma length_digits_pos fuel up base v : (0 < fuel)%nat → (0 < length (digits fuel up base v))%nat.
Proof. destruct fuel; [lia|]. cbn [digits]. rewrite length_app. simpl. lia. Qed.

(** ** Printing a number *)
Lemma PCHARS_eq l s : PCHARS l s = Pst (out s ++ (u8 <$> l)) (ap s) (stores s).
Proof.
  revert s. induction l as [|c l IH]; intros [o a t]; unfold PCHARS in *; cbn [foldl].
  - by rewrite app_nil_r.
  - rewrite IH. unfold PCHAR. cbn [out ap stores]. by rewrite <- app_assoc.
Qed.
Lemma PCHARS_app l1 l2 s : PCHARS (l1 ++ l2) s = PCHARS l2 (PCHARS l1 s).
Proof. unfold PCHARS. by rewrite foldl_app. Qed.

(** Sign and radix prefix. *)
Definition sign_part (n : Z) : list Z := if n <? 0 then [45] else [].
Definition prefix_part (sharp : bool) (base n : Z) : list Z :=
  if sharp && truth n then if base =? 8 then [48] else if base =? 16 then [48; 120] else [] else [].

(** A field of width [w]: the fill goes before everything, or between the
    prefix and the digits when it is ['0'], or after. *)
Definition field_text (lft : bool) (pc w : Z) (pre body : list Z) : list Z :=
  let fill := replicate (Z.to_nat (w - Z.of_nat (length pre) - Z.of_nat (length body))) pc in
  if lft then pre ++ body ++ fill
  else if pc =? 48 then pre ++ fill ++ body else fill ++ pre ++ body.

Lemma replicate_nonpos {A} n (x : A) : n <= 0 → replicate (Z.to_nat n) x = [].
Proof. intros. by rewrite Z2Nat.nonpos by lia. Qed.

Lemma number_spec f base num s :
  2 <= base <= 36 → 0 <= num < 2 ^ 64 → 0 <= width f →
  let n := if sign f then s64 num else num in
  n ≠ - 2 ^ 63 →
  number f base num s = Done (PCHARS (field_text (ladjust f) (padc f) (width f)
    (sign_part n ++ prefix_part (sharpflag f) base (Z.abs n))
    (numeral (upper f) base (Z.abs n))) s).
Proof.
  intros Hb Hn Hw n Hmin. unfold number.
  assert (sign f && (s64 num <? 0) = (n <? 0)) as ->
    by (unfold n; destruct (sign f); [done|]; simpl; symmetry; apply Z.ltb_ge; lia).
  assert ((n <? 0) && (num =? 2 ^ 63) = false) as ->.
  { destruct (Z.ltb_spec n 0), (Z.eqb_spec num (2 ^ 63)) as [E|]; try done. exfalso. apply Hmin.
    unfold n in *. destruct (sign f); [|lia]. rewrite E. done. }
  assert ((if n <? 0 then u64 (- s64 num) else num) = Z.abs n) as ->.
  { unfold n. destruct (sign f).
    - destruct (Z.ltb_spec (s64 num) 0); mlia.
    - destruct (Z.ltb_spec num 0); lia. }
  assert (0 <= Z.abs n < 2 ^ 64) as Habs by (unfold n; destruct (sign f); mlia).
  rewrite ksprintn_numeral by done. cbn [obind].
  set (p := numeral (upper f) base (Z.abs n)).
  fold (prefix_part (sharpflag f) base (Z.abs n)). set (pre := prefix_part _ _ _).
  assert (Z.of_nat (length (sign_part n)) = if n <? 0 then 1 else 0) as Hsg
    by (unfold sign_part; destruct (n <? 0); done).
  set (tmp := Z.of_nat (length p) + _ + _).
  assert (tmp = Z.of_nat (length (sign_part n ++ pre)) + Z.of_nat (length p)) as Htmp
    by (rewrite length_app; lia).
  assert (0 < tmp) as Htp by (pose proof (length_digits_pos 64 (upper f) base (Z.abs n)); unfold tmp, p, numeral; lia).
  assert (∀ s, PCHARS pre (if n <? 0 then PCHAR 45 s else s) = PCHARS (sign_part n ++ pre) s) as Hpre
    by (intros s1; rewrite PCHARS_app; unfold sign_part; by destruct (n <? 0)).
  unfold field_text. rewrite <- Z.sub_add_distr, <- Htmp. unfold pad, truth.
  destruct (ladjust f), (Z.eqb_spec (padc f) 48) as [Ep|Ep]; cbn [negb andb];
    repeat (match goal with
      | |- context [0 <? ?x] => destruct (Z.ltb_spec 0 x); try lia
      | |- context [?x =? 0] => destruct (Z.eqb_spec x 0); try lia
      end; cbn [negb andb]);
    rewrite ?Hpre, ?(replicate_nonpos (width f - tmp)), ?PCHARS_app by lia; reflexivity.
Qed.

(** ** Formats as lists of directives *)
Inductive numconv := Dd | Du | Do | Dx | DX.
Definition conv_char (k : numconv) : Z :=
  match k with Dd => ord "d" | Du => ord "u" | Do => ord "o" | Dx => ord "x" | DX => ord "X" end.
Definition conv_base (k : numconv) : Z :=
  match k with Dd | Du => 10 | Do => 8 | Dx | DX => 16 end.
Definition conv_upper (k : numconv) : bool := match k with DX => true | _ => false end.

(** The type of the argument: [int], [long] or [long long]. *)
Inductive numlen := Nint | Nlong | Nquad.
Definition len_text (len : numlen) : list Z :=
  match len with Nint => [] | Nlong => [ord "l"] | Nquad => [ord "l"; ord "l"] end.
Definition len_arg (len : numlen) (v : Z) : varg :=
  match len with Nint => VInt v | Nlong => VLong v | Nquad => VWide v end.

Inductive directive :=
| Lit (l : list Z)
| Percent
| Num (lft sharp zero : bool) (len : numlen) (w : Z) (k : numconv) (v : Z)
| Str (lft : bool) (w : Z) (prec : option Z) (t : option (list Z))
| Chr (c : Z).

Definition flag_text (b : bool) (c : Z) : list Z := if b then [c] else [].
Definition width_text (w : Z) : list Z := if w =? 0 then [] else numeral false 10 w.

(** The text of a directive in the format. *)
Definition render (d : directive) : list Z :=
  match d with
  | Lit l => l
  | Percent => [ord "%"; ord "%"]
  | Num lft sharp zero len w k _ =>
      ord "%" :: flag_text lft (ord "-") ++ flag_text sharp (ord "#") ++
      flag_text zero (ord "0") ++ width_text w ++ len_text len ++ [conv_char k]
  | Str lft w prec _ =>
      ord "%" :: flag_text lft (ord "-") ++ width_text w ++
      match prec with Some n => ord "." :: numeral false 10 n | None => [] end ++ [ord "s"]
  | Chr _ => [ord "%"; ord "c"]
  end.

Definition argument (d : directive) : list varg :=
  match d with
  | Lit _ | Percent => []
  | Num _ _ _ len _ _ v => [len_arg len v]
  | Str _ _ _ t => [VStr t]
  | Chr c => [VInt c]
  end.

(** The number a conversion reads from its argument. *)
Definition num_value (k : numconv) (len : numlen) (v : Z) : Z :=
  match k, len with
  | Dd, Nquad => s64 v
  | Dd, _ => s32 v
  | _, Nquad => u64 v
  | _, _ => u32 v
  end.

(** What a directive prints. *)
Definition display (d : directive) : list Z :=
  match d with
  | Lit l => l
  | Percent => [ord "%"]
  | Num lft sharp zero len w k v =>
      let n := num_value k len v in
      field_text lft (if zero then 48 else 32) w
        (sign_part n ++ prefix_part sharp (conv_base k) (Z.abs n))
        (numeral (conv_upper k) (conv_base k) (Z.abs n))
  | Str lft w prec t =>
      let p := default (cstr "(null)") t in
      let p := match prec with Some n => take (Z.to_nat n) p | None => p end in
      let fill := replicate (Z.to_nat (w - Z.of_nat (length p))) 32 in
      if lft then p ++ fill else fill ++ p
  | Chr c => [s32 c]
  end.

Definition directive_ok (d : directive) : Prop :=
  match d with
  | Lit l => Forall (λ c, c ≠ ord "%") l
  | Num lft _ zero len w k v =>
      0 <= w < 2 ^ 31 ∧ lft && zero = false ∧ num_value k len v ≠ - 2 ^ 63
  | Str _ w prec _ => 0 <= w < 2 ^ 31 ∧ match prec with Some n => 0 <= n < 2 ^ 31 | None => True end
  | _ => True
  end.

Section refinement.
Context (radix : Z).

(** [R] is the result of the interpreter at [fmt], with fuel to spare. *)
Definition text_gives (fmt : list Z) (s : pst) (R : outcome pst) : Prop :=
  ∀ fuel, (length fmt < fuel)%nat → kv_text fuel radix false fmt s = R.
Definition spec_gives (percent fmt : list Z) (f : flags) (s : pst) (R : outcome pst) : Prop :=
  ∀ fuel, (length fmt < fuel)%nat → reswitch fuel radix percent fmt f s = R.

Lemma text_start fmt s R :
  spec_gives (ord "%" :: fmt) fmt flags0 s R → text_gives (ord "%" :: fmt) s R.
Proof. intros H [|fuel] Hf; [lia|]. cbn [kv_text]. apply H. simpl in Hf. lia. Qed.

Lemma text_literal l fmt s R :
  Forall (λ c, c ≠ ord "%") l → text_gives fmt (PCHARS l s) R → text_gives (l ++ fmt) s R.
Proof.
  intros Hl. revert s. induction Hl as [|c l Hc Hl IH]; intros s H; [done|].
  intros [|fuel] Hf; simpl in Hf; [lia|]. cbn [kv_text app].
  destruct (Z.eqb_spec c (ord "%")); [done|]. cbn [andb]. apply IH; [done|lia].
Qed.

Lemma spec_modifier percent ch fmt f f' s R :
  modifier ch f = Some f' → spec_gives percent fmt f' s R → spec_gives percent (ch :: fmt) f s R.
Proof.
  intros Hm H [|fuel] Hf; simpl in Hf; [lia|]. cbn [reswitch]. rewrite Hm. apply H. lia.
Qed.

Lemma spec_flag b percent ch fmt f f' s R :
  (b = true → modifier ch f = Some f') →
  spec_gives percent fmt (if b then f' else f) s R →
  spec_gives percent (flag_text b ch ++ fmt) f s R.
Proof. destruct b; simpl; [|done]. intros Hm. apply spec_modifier. by apply Hm. Qed.

Lemma spec_convert percent ch fmt f s s' R :
  modifier ch f = None → ch ≠ ord "*" → is_digit ch = false →
  conversion radix ch f s = Some (Done s') → text_gives fmt s' R →
  spec_gives percent (ch :: fmt) f s R.
Proof.
  intros Hm Hs Hd Hc H [|fuel] Hf; simpl in Hf; [lia|]. cbn [reswitch].
  rewrite Hm, Hd, Hc. destruct (Z.eqb_spec ch (ord "*")); [done|]. cbn [obind]. apply H. lia.
Qed.

(** Decimal widths are read back. *)
Definition starts_digit (l : list Z) : bool := match l with c :: _ => is_digit c | [] => false end.

Lemma digit_char_digit d : 0 <= d < 10 → is_digit (digit_char false d) = true ∧ digit_char false d = 48 + d.
Proof.
  intros Hd. unfold is_digit, digit_char. destruct (Z.ltb_spec d 10); [|lia]. split; [|done].
  destruct (Z.leb_spec 48 (48 + d)), (Z.leb_spec (48 + d) 57); lia || done.
Qed.

Lemma read_digits l n d rest :
  Forall (λ c, 48 <= c <= 57) (d :: l) → starts_digit rest = false →
  0 <= n → foldl (λ a c, a * 10 + char_digit c) n (d :: l) < 2 ^ 31 →
  read_number n d (l ++ rest) = Done (foldl (λ a c, a * 10 + char_digit c) n (d :: l), rest).
Proof.
  revert n d. induction l as [|e l IH]; intros n d Hl Hr Hn Hv;
    apply Forall_cons in Hl as [Hd Hl]; cbn [foldl] in *;
    assert (n * 10 + char_digit d = n * 10 + d - 48) as Ed
      by (unfold char_digit; destruct (Z.leb_spec d 57); lia); rewrite Ed in *.
  - destruct rest as [|e rest]; cbn [read_number app]; (destruct (Z.leb_spec (2 ^ 31) (n * 10 + d - 48)); [lia|]); [done|].
    simpl in Hr. by rewrite Hr.
  - cbn [app read_number].
    assert (∀ l a, Forall (λ c, 48 <= c <= 57) l → 0 <= a →
      a <= foldl (λ a c, a * 10 + char_digit c) a l) as Hmono.
    { clear. induction l as [|c l IH]; intros a Hl Ha; [simpl; lia|].
      apply Forall_cons in Hl as [Hc Hl]. cbn [foldl].
      assert (0 <= char_digit c) by (unfold char_digit; destruct (Z.leb_spec c 57); lia).
      specialize (IH (a * 10 + char_digit c) Hl ltac:(lia)). lia. }
    pose proof (Hmono (e :: l) (n * 10 + d - 48) Hl ltac:(lia)) as Hm. cbn [foldl] in Hm.
    destruct (Z.leb_spec (2 ^ 31) (n * 10 + d - 48)); [lia|].
    pose proof Hl as Hl'. apply Forall_cons in Hl' as [He _].
    assert (is_digit e = true) as -> by (unfold is_digit; destruct (Z.leb_spec 48 e), (Z.leb_spec e 57); lia || done).
    apply IH; [done|done|lia|exact Hv].
Qed.

Lemma numeral_decimal v : 0 <= v → Forall (λ c, 48 <= c <= 57) (numeral false 10 v).
Proof.
  unfold numeral. generalize 64%nat. intros fuel. revert v.
  induction fuel as [|fuel IH]; intros v Hv; [constructor|]. cbn [digits]. apply Forall_app. split.
  - destruct (v / 10 =? 0); [constructor|]. apply IH. apply Z.div_pos; lia.
  - constructor; [|constructor]. pose proof (Z.mod_pos_bound v 10 ltac:(lia)) as Hm.
    destruct (digit_char_digit (v mod 10) Hm) as [_ ->]. lia.
Qed.

(** A digit is none of the other characters. *)
Ltac not_char :=
  match goal with
  | |- context [?d =? ?c] =>
      let E := fresh in destruct (Z.eqb_spec d c) as [E|_]; [exfalso; cbv in E; lia|]
  end.

(** A number in a directive: its first digit must not be taken as a flag. *)
Lemma spec_number percent n fmt f s R :
  0 <= n < 2 ^ 31 → (dot f = false → 0 < n) → starts_digit fmt = false →
  spec_gives percent fmt (if dot f then set_dwidth n f else set_width n f) s R →
  spec_gives percent (numeral false 10 n ++ fmt) f s R.
Proof.
  intros Hn Hz Hs H. destruct (numeral false 10 n) as [|d l] eqn:E.
  { pose proof (length_digits_pos 64 false 10 n ltac:(lia)) as Hl. unfold numeral in E.
    rewrite E in Hl. simpl in Hl. lia. }
  assert (Forall (λ c, 48 <= c <= 57) (d :: l)) as Hd by (rewrite <- E; apply numeral_decimal; lia).
  assert (foldl (λ a c, a * 10 + char_digit c) 0 (d :: l) = n) as Hv.
  { rewrite <- E. apply (digits_value 10 false ltac:(lia) 64 n); lia. }
  pose proof Hd as Hd'. apply Forall_cons in Hd' as [Hd1 _].
  assert (modifier d f = None) as Hm.
  { unfold modifier. destruct (dot f) eqn:Edot.
    - rewrite andb_false_r. repeat not_char. done.
    - assert (d ≠ 48) as Hd0.
      { intros ->. destruct (digits_head 10 false ltac:(lia) 64 n) as (c & l' & E' & Hc);
          [specialize (Hz eq_refl); lia|]. unfold numeral in E. rewrite E in E'.
        injection E' as E' _. unfold digit_char in E'. destruct (Z.ltb_spec c 10); lia. }
      repeat not_char. done. }
  intros [|fuel] Hf; simpl in Hf; [lia|]. cbn [reswitch app]. rewrite Hm.
  assert ((d =? ord "*") = false) as -> by (apply Z.eqb_neq; intros Ed; cbv in Ed; lia).
  assert (is_digit d = true) as -> by (unfold is_digit; destruct (Z.leb_spec 48 d), (Z.leb_spec d 57); lia || done).
  rewrite (read_digits l 0 d fmt Hd Hs) by (done || lia). rewrite Hv. cbn [obind fst snd].
  apply H. rewrite length_app in Hf. lia.
Qed.

Lemma spec_width percent w fmt f s R :
  0 <= w < 2 ^ 31 → dot f = false → width f = 0 → starts_digit fmt = false →
  spec_gives percent fmt (set_width w f) s R →
  spec_gives percent (width_text w ++ fmt) f s R.
Proof.
  intros Hw Hdot Hf Hs H. unfold width_text. destruct (Z.eqb_spec w 0) as [->|Hne].
  - cbn [app]. destruct f. cbn in *. subst. exact H.
  - apply spec_number; [done|lia|done|]. by rewrite Hdot.
Qed.

(** The flags a numeric directive has set when its letter is reached. *)
Definition num_flags (lft sharp zero : bool) (len : numlen) (w : Z) : flags :=
  Flags (if zero then 48 else 32) w lft sharp false false 0 false false false false
    (match len with Nlong => true | _ => false end) (match len with Nquad => true | _ => false end)
    false false.

Lemma spec_num percent lft sharp zero len w k fmt s R :
  0 <= w < 2 ^ 31 →
  spec_gives percent (conv_char k :: fmt) (num_flags lft sharp zero len w) s R →
  spec_gives percent (flag_text lft (ord "-") ++ flag_text sharp (ord "#") ++
    flag_text zero (ord "0") ++ width_text w ++ len_text len ++ conv_char k :: fmt)
    flags0 s R.
Proof.
  intros Hw H. apply (spec_flag lft _ _ _ _ (set_ladjust true flags0)); [done|].
  apply (spec_flag sharp _ _ _ _ (set_sharp true (if lft then set_ladjust true flags0 else flags0)));
    [by destruct lft|].
  apply (spec_flag zero _ _ _ _ (set_padc 48 (num_flags lft sharp false Nint 0)));
    [by destruct lft, sharp|].
  replace (if zero then _ else _) with (num_flags lft sharp zero Nint 0)
    by (by destruct lft, sharp, zero).
  apply spec_width; [done|done|done|by destruct len, k|].
  destruct len; [done|by apply (spec_modifier _ _ _ _ (num_flags lft sharp zero Nlong w))|].
  apply (spec_modifier _ _ _ _ (num_flags lft sharp zero Nlong w)); [done|].
  by apply (spec_modifier _ _ _ _ (num_flags lft sharp zero Nquad w)).
Qed.

Lemma nosign_spec up base lft sharp zero len w v s rest :
  0 <= w → 2 <= base <= 36 → ap s = len_arg len v :: rest →
  let n := num_value Du len v in
  handle_nosign (set_upper up (num_flags lft sharp zero len w)) base s =
    Done (PCHARS (field_text lft (if zero then 48 else 32) w
      (sign_part n ++ prefix_part sharp base (Z.abs n)) (numeral up base (Z.abs n))) (set_ap rest s)).
Proof.
  intros Hw Hb Ha n. unfold handle_nosign, get_nosign, va_wide, va_long, va_int.
  assert (0 <= n < 2 ^ 64) as Hn by (unfold n; destruct len; cbn; mlia).
  assert (u32 (s32 v) = u32 v) as E by mlia. assert (0 <= u32 v < 2 ^ 32) by mlia.
  destruct len; cbn [num_flags set_upper jflag qflag tflag lflag zflag hflag cflag]; rewrite Ha;
    cbn [len_arg obind fst snd]; rewrite ?E; (rewrite number_spec; [done|done|exact Hn|done|]); cbn; unfold n in *; cbn in *; lia.
Qed.

Lemma sign_spec lft sharp zero len w v s rest :
  0 <= w → ap s = len_arg len v :: rest →
  let n := num_value Dd len v in n ≠ - 2 ^ 63 →
  handle_sign (set_sign true (num_flags lft sharp zero len w)) 10 s =
    Done (PCHARS (field_text lft (if zero then 48 else 32) w
      (sign_part n ++ prefix_part sharp 10 (Z.abs n)) (numeral false 10 (Z.abs n))) (set_ap rest s)).
Proof.
  intros Hw Ha n Hmin. unfold handle_sign, get_sign, va_wide, va_long, va_int.
  assert (s64 (u64 v) = s64 v) as E1 by mlia.
  assert (s64 (u64 (s32 v)) = s32 v) as E2 by mlia.
  destruct len; cbn [num_flags set_sign jflag qflag tflag lflag hflag cflag]; rewrite Ha; cbn [len_arg obind fst snd];
    (rewrite number_spec; [cbn; by rewrite ?E1, ?E2|lia|apply u64_range|done|cbn; by rewrite ?E1, ?E2]).
Qed.

Lemma num_conversion lft sharp zero len w k v s rest :
  0 <= w → num_value k len v ≠ - 2 ^ 63 → ap s = len_arg len v :: rest →
  conversion radix (conv_char k) (num_flags lft sharp zero len w) s =
    Some (Done (PCHARS (display (Num lft sharp zero len w k v)) (set_ap rest s))).
Proof.
  intros Hw Hmin Ha. destruct k; cbn [conv_char conv_base conv_upper display] in *.
  - exact (f_equal Some (sign_spec lft sharp zero len w v s rest Hw Ha Hmin)).
  - exact (f_equal Some (nosign_spec false 10 lft sharp zero len w v s rest Hw ltac:(lia) Ha)).
  - exact (f_equal Some (nosign_spec false 8 lft sharp zero len w v s rest Hw ltac:(lia) Ha)).
  - exact (f_equal Some (nosign_spec false 16 lft sharp zero len w v s rest Hw ltac:(lia) Ha)).
  - exact (f_equal Some (nosign_spec true 16 lft sharp zero len w v s rest Hw ltac:(lia) Ha)).
Qed.

(** The flags of a string directive. *)
Definition str_flags (lft : bool) (w : Z) (prec : option Z) : flags :=
  Flags 32 w lft false false (if prec is Some _ then true else false) (default 0 prec) false false false
    false false false false false.

Lemma spec_str percent lft w prec fmt s R :
  0 <= w < 2 ^ 31 → match prec with Some n => 0 <= n < 2 ^ 31 | None => True end →
  spec_gives percent (ord "s" :: fmt) (str_flags lft w prec) s R →
  spec_gives percent (flag_text lft (ord "-") ++ width_text w ++
    match prec with Some n => ord "." :: numeral false 10 n | None => [] end ++ ord "s" :: fmt)
    flags0 s R.
Proof.
  intros Hw Hp H. apply (spec_flag lft _ _ _ _ (set_ladjust true flags0)); [done|].
  apply spec_width; [done|by destruct lft|by destruct lft|by destruct prec|].
  assert (set_width w (if lft then set_ladjust true flags0 else flags0) = str_flags lft w None) as ->
    by (by destruct lft).
  destruct prec as [n|]; [|exact H].
  apply (spec_modifier _ _ _ _ (set_dot true (str_flags lft w None))); [done|].
  by apply spec_number.
Qed.

Lemma str_conversion lft w prec t s rest :
  0 <= w → match prec with Some n => 0 <= n < 2 ^ 31 | None => True end →
  ap s = VStr t :: rest →
  conv_s (str_flags lft w prec) s =
    Done (PCHARS (display (Str lft w prec t)) (set_ap rest s)).
Proof.
  intros Hw Hp Ha. unfold conv_s, va_str. rewrite Ha. cbn [obind fst snd str_flags dot dwidth width ladjust display].
  set (p := default (cstr "(null)") t). unfold pad. cbn [padc].
  set (q := match prec with Some n => take (Z.to_nat n) p | None => p end).
  set (n := if (if prec is Some _ then true else false)
            then Z.max 0 (Z.min (default 0 prec) (Z.of_nat (length p)))
            else Z.of_nat (length p)).
  assert (n = Z.of_nat (length q) ∧ take (Z.to_nat n) p = q) as [-> ->].
  { unfold n, q. destruct prec as [m|]; simpl.
    - rewrite length_take. split; [lia|].
      destruct (decide (Z.of_nat (length p) <= m)).
      + rewrite !take_ge by lia. done.
      + f_equal. lia.
    - split; [done|]. apply take_ge. lia. }
  destruct lft; cbn [negb andb]; destruct (Z.ltb_spec 0 (w - Z.of_nat (length q))) as [Hl|Hl];
    rewrite ?PCHARS_app; cbn [Z.ltb andb]; rewrite ?(replicate_nonpos (w - _)) by lia; done.
Qed.

(** One directive, then the rest. *)
Lemma directive_gives d fmt o rest st R :
  directive_ok d →
  text_gives fmt (Pst (o ++ (u8 <$> display d)) rest st) R →
  text_gives (render d ++ fmt) (Pst o (argument d ++ rest) st) R.
Proof.
  intros Hok H. destruct d as [l| |lft sharp zero len w k v|lft w prec t|c]; cbn [render argument] in *.
  - apply text_literal; [done|]. by rewrite PCHARS_eq.
  - apply text_start. by eapply spec_convert.
  - destruct Hok as (Hw & Hlz & Hmin). cbn [app]. rewrite <- !app_assoc. apply text_start.
    apply spec_num; [done|]. set (s := Pst _ _ _).
    eapply spec_convert; [by destruct k|by destruct k|by destruct k|
      apply (num_conversion lft sharp zero len w k v s rest); [lia|exact Hmin|reflexivity]|].
    by rewrite PCHARS_eq.
  - destruct Hok as (Hw & Hp). cbn [app]. rewrite <- !app_assoc. apply text_start.
    apply spec_str; [done|done|]. set (s := Pst _ _ _).
    eapply spec_convert; [by destruct prec|done|done| |].
    { change (conversion radix (ord "s") ?f ?s) with (Some (conv_s f s)).
      rewrite (str_conversion lft w prec t s rest); [reflexivity|lia|exact Hp|reflexivity]. }
    by rewrite PCHARS_eq.
  - apply text_start. by eapply spec_convert.
Qed.

Lemma directives_give ds o rest st R :
  Forall directive_ok ds →
  text_gives [] (Pst (o ++ (u8 <$> (ds ≫= display))) rest st) R →
  text_gives (ds ≫= render) (Pst o ((ds ≫= argument) ++ rest) st) R.
Proof.
  intros Hok. revert o. induction Hok as [|d ds Hd Hok IH]; intros o H; cbn [mbind list_bind] in *.
  - by rewrite app_nil_r in H.
  - rewrite <- app_assoc. apply directive_gives; [done|]. apply IH.
    by rewrite fmap_app, app_assoc in H.
Qed.
End refinement.

(** ** Termination *)
Definition returns {A} (c : outcome A) : Prop := c ≠ Hang.

Lemma returns_bind {A B} (c : outcome A) (k : A → outcome B) :
  returns c → (∀ a, c = Done a → returns (k a)) → returns (obind c k).
Proof. destruct c; simpl; auto; done. Qed.
Lemma returns_done {A} (a : A) : returns (Done a).
Proof. done. Qed.
Lemma returns_undef {A} : returns (Undef : outcome A).
Proof. done. Qed.

Create HintDb returns.
#[export] Hint Resolve returns_done returns_undef : returns.
(** Split binds and cases until only results are left. *)
Ltac returns_step :=
  first [ solve [auto with returns]
        | apply returns_bind; [|intros ? ?]
        | match goal with |- returns (if ?b then _ else _) => destruct b end
        | match goal with |- returns (match ?x with _ => _ end) => destruct x end ].
Ltac returns_auto := repeat returns_step.

Lemma va_returns s :
  returns (va_int s) ∧ returns (va_long s) ∧ returns (va_wide s) ∧ returns (va_str s) ∧ returns (va_bytes s) ∧
  returns (va_ptr s).
Proof.
  unfold va_int, va_long, va_wide, va_str, va_bytes, va_ptr. destruct (ap s) as [|[] ?]; by split_and!.
Qed.
Lemma hex2ascii_returns d : returns (hex2ascii d).
Proof. unfold hex2ascii. returns_auto. Qed.
#[export] Hint Resolve hex2ascii_returns : returns.
#[export] Hint Extern 1 (returns (va_int _)) => apply va_returns : returns.
#[export] Hint Extern 1 (returns (va_long _)) => apply va_returns : returns.
#[export] Hint Extern 1 (returns (va_wide _)) => apply va_returns : returns.
#[export] Hint Extern 1 (returns (va_str _)) => apply va_returns : returns.
#[export] Hint Extern 1 (returns (va_bytes _)) => apply va_returns : returns.
#[export] Hint Extern 1 (returns (va_ptr _)) => apply va_returns : returns.

Lemma ksprintn_returns num base up : returns (ksprintn num base up).
Proof.
  unfold ksprintn. generalize 64%nat, (@nil Z). intros room. revert num.
  induction room as [|room IH]; intros num p; cbn [ksprintn_loop]; returns_auto.
Qed.
#[export] Hint Resolve ksprintn_returns : returns.

Lemma number_returns f base num s : returns (number f base num s).
Proof. unfold number. returns_auto. Qed.
#[export] Hint Resolve number_returns : returns.

Lemma get_returns f s : returns (get_sign f s) ∧ returns (get_nosign f s).
Proof. unfold get_sign, get_nosign. split; returns_auto. Qed.

Lemma handle_returns f base s :
  returns (handle_sign f base s) ∧ returns (handle_nosign f base s).
Proof.
  destruct (get_returns f s). unfold handle_sign, handle_nosign. split; returns_auto.
Qed.
#[export] Hint Extern 1 (returns (handle_sign _ _ _)) => apply handle_returns : returns.
#[export] Hint Extern 1 (returns (handle_nosign _ _ _)) => apply handle_returns : returns.

Lemma bit_names_returns fuel num p tmp s :
  (length p < fuel)%nat → returns (bit_names fuel num p tmp s).
Proof.
  revert p tmp s. induction fuel as [|fuel IH]; intros p tmp s Hf; [lia|].
  cbn [bit_names]. destruct p as [|n p]; [done|]. simpl in Hf. cbv zeta.
  returns_auto; apply IH; rewrite length_drop; lia.
Qed.
Lemma hexdump_returns n up sep s : returns (hexdump n up sep s).
Proof.
  revert up s. induction n as [|n IH]; intros up s; cbn [hexdump]; returns_auto.
Qed.
#[export] Hint Resolve hexdump_returns : returns.

Lemma conversion_returns radix ch f s c : conversion radix ch f s = Some c → returns c.
Proof.
  unfold conversion, conv_b, conv_D, conv_n, conv_s. intros Hc.
  repeat match type of Hc with (if ?b then _ else _) = _ => destruct b end;
    simplify_eq/=; returns_auto; apply bit_names_returns; rewrite length_drop; simpl; lia.
Qed.

Lemma read_number_returns n ch fmt :
  returns (read_number n ch fmt) ∧
  ∀ r, read_number n ch fmt = Done r → (length r.2 <= length fmt)%nat.
Proof.
  revert n ch. induction fmt as [|d fmt IH]; intros n ch; cbn [read_number].
  - destruct (2 ^ 31 <=? _); split; try done. intros r [= <-]. done.
  - destruct (2 ^ 31 <=? _); [by split|]. destruct (is_digit d).
    + destruct (IH (n * 10 + ch - 48) d) as [H1 H2]. split; [done|]. intros r Hr.
      specialize (H2 r Hr). simpl. lia.
    + split; [done|]. by intros r [= <-].
Qed.

Lemma kv_returns fuel radix :
  (∀ stop fmt s, (length fmt < fuel)%nat → returns (kv_text fuel radix stop fmt s)) ∧
  (∀ percent fmt f s, (length fmt < fuel)%nat → returns (reswitch fuel radix percent fmt f s)).
Proof.
  induction fuel as [|fuel [IHt IHr]]; [split; intros; lia|]. split.
  - intros stop [|ch fmt] s Hf; simpl in Hf; cbn [kv_text]; [done|].
    destruct (_ && _); [apply IHr|apply IHt]; lia.
  - intros percent [|ch fmt] f s Hf; simpl in Hf; cbn [reswitch]; [done|].
    destruct (modifier ch f); [apply IHr; lia|]. destruct (ch =? ord "*").
    { apply returns_bind; [unfold star; returns_auto|]. intros r _. apply IHr. lia. }
    destruct (is_digit ch).
    { destruct (read_number_returns 0 ch fmt) as [H1 H2]. apply returns_bind; [done|].
      intros r Hr. apply IHr. specialize (H2 r Hr). lia. }
    destruct (conversion radix ch f s) as [c|] eqn:Ec; [|apply IHt; lia].
    apply returns_bind; [by eapply conversion_returns|]. intros s' _. apply IHt. lia.
Qed.

(** ** Claims *)

(** C20. Formatted output.  For a format made of literal text, percent signs,
    numeric conversions (d, u, o, x, X with the flags -, #, 0, a width and l),
    strings with width and precision, and characters, [kvprintf] terminates
    without undefined behaviour, consumes exactly the arguments of the
    directives and prints, in order, what each directive stands for. *)
Theorem kvprintf_prints_directives ds :
  Forall directive_ok ds →
  kvprintf (Some (ds ≫= render)) 10 (ds ≫= argument) =
    Done (Pst (u8 <$> (ds ≫= display)) [] []).
Proof.
  intros Hok. unfold kvprintf. cbn [default]. change ((10 <? 2) || (36 <? 10)) with false. cbv iota.
  rewrite <- (app_nil_r (ds ≫= argument)). apply (directives_give 10 ds [] [] []); [done| |apply Nat.lt_succ_diag_r].
  intros [|fuel] Hf; [simpl in Hf; lia|]. done.
Qed.

Lemma kvprintf_prints_directives_witness :
  kvprintf (Some (cstr "seg %-4d at %#08llx: %5.3s%%")) 10
    [VInt (-7); VWide 0xfee1; VStr (Some (cstr "text"))] =
    Done (Pst (cstr "seg -7   at 0x00fee1:   tex%") [] []).
Proof.
  apply (kvprintf_prints_directives [Lit (cstr "seg "); Num true false false Nint 4 Dd (-7);
    Lit (cstr " at "); Num false true true Nquad 8 Dx 0xfee1; Lit (cstr ": ");
    Str false 5 (Some 3) (Some (cstr "text")); Percent]).
  repeat constructor; by vm_compute.
Defined.

(** C33. [kvprintf] returns on every format and argument list: it prints, or
    runs into undefined behaviour (a missing or mistyped argument, a format
    that ends inside a conversion), but never loops. *)
Theorem kvprintf_terminates fmt radix args : kvprintf fmt radix args ≠ Hang.
Proof. unfold kvprintf. apply kv_returns. lia. Qed.

(** C34. The number buffer.  [ksprintn] writes at most 64 characters for
    every 64-bit number in every base from 2 to 36, so they fit [nbuf] with
    its terminator; read back in that base they are the number, and only the
    number 0 starts with a zero. *)
Theorem ksprintn_writes_numeral num base up :
  2 <= base <= 36 → 0 <= num < 2 ^ 64 →
  ∃ d l, ksprintn num base up = Done (d :: l) ∧ value base (d :: l) = num ∧
    (length (d :: l) <= 64)%nat ∧ (d = 48 → num = 0).
Proof.
  intros Hb Hn. destruct (decide (num = 0)) as [->|Hne].
  - exists 48, []. rewrite ksprintn_numeral by done. unfold numeral. cbn [digits].
    rewrite Z.div_0_l, Zmod_0_l by lia. split_and!; [by destruct up|done|simpl; lia|done].
  - destruct (digits_head base up Hb 64 num) as (d & l & E & Hd); [lia|].
    exists (digit_char up d), l. rewrite ksprintn_numeral by done. unfold numeral. rewrite E.
    split_and!; [done| | |].
    + rewrite <- E. by apply digits_value; [..|lia].
    + rewrite <- E. apply length_digits.
    + unfold digit_char. destruct (Z.ltb_spec d 10), up; lia.
Qed.

Lemma ksprintn_writes_numeral_witness :
  ∃ d l, ksprintn 0xdeadbeef 16 true = Done (d :: l) ∧ value 16 (d :: l) = 0xdeadbeef ∧
    (length (d :: l) <= 64)%nat ∧ (d = 48 → 0xdeadbeef = 0).
Proof. apply (ksprintn_writes_numeral 0xdeadbeef 16 true); lia. Defined.

(** Output to memory is not terminated and not limited: [sprintf] and
    [snprintf] store exactly the characters printed, whatever the size given
    to [snprintf], and leave every other byte of memory as it was, the one
    after the text included. *)
Lemma sprintf_no_terminator_no_limit fmt args m buffer size s :
  kvprintf fmt 10 args = Done s →
  ∃ m', sprintf fmt args m buffer = Done (m', retval s) ∧
    snprintf size fmt args m buffer = Done (m', retval s) ∧
    (∀ i, 0 <= i < retval s → rd8 m' (buffer + i) = u8 (nth (Z.to_nat i) (out s) 0)) ∧
    same_outside buffer (retval s) m m'.
Proof.
  intros E. exists (put_bytes m buffer (out s)). unfold snprintf, sprintf, to_buffer.
  rewrite E. cbn [obind]. split_and!; [done|done| |].
  - intros i Hi. unfold retval in Hi. rewrite rd8_put_bytes, decide_True by lia.
    f_equal. f_equal. lia.
  - intros k Hk. unfold retval in Hk. rewrite rd8_put_bytes, decide_False by lia. done.
Qed.

(** A limit of 4 and a buffer full of ['A']: seven bytes change, the eighth is
    still there. *)
Lemma sprintf_no_terminator_no_limit_witness :
  ∃ m', sprintf (Some (cstr "%07d")) [VInt 42] (fill 16 ∅ 0 65) 0 = Done (m', 7) ∧
    snprintf 4 (Some (cstr "%07d")) [VInt 42] (fill 16 ∅ 0 65) 0 = Done (m', 7) ∧
    (∀ i, 0 <= i < 7 → rd8 m' (0 + i) = u8 (nth (Z.to_nat i) (cstr "0000042") 0)) ∧
    same_outside 0 7 (fill 16 ∅ 0 65) m'.
Proof.
  apply (sprintf_no_terminator_no_limit (Some (cstr "%07d")) [VInt 42] (fill 16 ∅ 0 65) 0 4
    (Pst (cstr "0000042") [] [])).
  by vm_compute.
Defined.
