(* ===== verification/Strto.v ===== *)
(** * Reading integers in the EFI C library

    src/tload/tloadefi/efilibc/strtol.c, strtoll.c, strtoull.c and atoi.c, on
    the byte memory of the mingw target: [char] is signed, [long] 32 bits wide
    and [long long] 64.  The three functions differ in the limits, in whether
    a hexadecimal prefix must be followed by a digit, and in the errors they
    report; the scanning steps they share are written once.  Loops that run
    along the string take fuel. *)

From stdpp Require Import base numbers list gmap.
From Stdlib Require Import Lia.
From S2P Require Import Prelude Mem LibcString.
Local Open Scope outcome_scope.
Open Scope Z_scope.

(** ** The code *)
(** [*s] as a [char]. *)
Definition ch (m : mem) (s : Z) : Z := s8 (rd8 m s).

(** [do { c = *s++; } while (isspace(c))]; [conv] is the cast of the
    argument. *)
Fixpoint skip_space (fuel : nat) (conv : Z → Z) (m : mem) (s : Z) : outcome (Z * Z) :=
  match fuel with
  | O => Hang
  | S fuel => if truth (isspace (conv (ch m s))) then skip_space fuel conv m (s + 1) else Done (ch m s, s + 1)
  end.

Definition read_sign (m : mem) (c s : Z) : bool * Z * Z :=
  if c =? 45 then (true, ch m s, s + 1)
  else if c =? 43 then (false, ch m s, s + 1)
  else (false, c, s).

Definition hex_digit (c : Z) : bool :=
  ((48 <=? c) && (c <=? 57)) || ((65 <=? c) && (c <=? 70)) || ((97 <=? c) && (c <=? 102)).

(** The base and where the digits start; [check] looks behind the prefix. *)
Definition read_base (check : bool) (m : mem) (base c s : Z) : Z * Z * Z :=
  if ((base =? 0) || (base =? 16)) && (c =? 48) && ((ch m s =? 120) || (ch m s =? 88)) &&
     (negb check || hex_digit (ch m (s + 1)))
  then (16, ch m (s + 1), s + 2)
  else (if base =? 0 then if c =? 48 then 8 else 10 else base, c, s).

(** The digit a character stands for, with the C library's classes and with
    comparisons. *)
Definition digit_class (c : Z) : option Z :=
  if truth (isdigit c) then Some (c - 48)
  else if truth (isalpha c) then Some (c - (if truth (isupper c) then 65 - 10 else 97 - 10))
  else None.
Definition digit_range (c : Z) : option Z :=
  if (48 <=? c) && (c <=? 57) then Some (c - 48)
  else if (65 <=? c) && (c <=? 90) then Some (c - (65 - 10))
  else if (97 <=? c) && (c <=? 122) then Some (c - (97 - 10))
  else None.

(** [for (;; c = *s++)]: the end of the digits, the number and [any]. *)
Fixpoint accumulate (fuel : nat) (digit : Z → option Z) (wrap : Z → Z) (m : mem)
    (base cutoff cutlim c s acc any : Z) : outcome (Z * Z * Z) :=
  match fuel with
  | O => Hang
  | S fuel =>
      match digit c with
      | None => Done (s, acc, any)
      | Some d =>
          if base <=? d then Done (s, acc, any)
          else if (any <? 0) || (cutoff <? acc) || ((acc =? cutoff) && (cutlim <? d))
          then accumulate fuel digit wrap m base cutoff cutlim (ch m s) (s + 1) acc (-1)
          else accumulate fuel digit wrap m base cutoff cutlim (ch m s) (s + 1) (wrap (wrap (acc * base) + d)) 1
      end
  end.

(** [if (endptr != 0) *endptr = any ? s - 1 : nptr]. *)
Definition set_end (m : mem) (endptr nptr s any : Z) : mem :=
  if endptr =? 0 then m else wr64 m endptr (if truth any then s - 1 else nptr).

Definition LONG_MIN : Z := - 2 ^ 31.
Definition LONG_MAX : Z := 2 ^ 31 - 1.
Definition LLONG_MIN : Z := - 2 ^ 63.
Definition LLONG_MAX : Z := 2 ^ 63 - 1.
Definition ULLONG_MAX : Z := 2 ^ 64 - 1.

Definition strtol (fuel : nat) (m : mem) (errno nptr endptr base : Z) : outcome (Z * mem * Z) :=
  p ⇐ skip_space fuel id m nptr;
  let '(neg, c, s) := read_sign m p.1 p.2 in
  let '(base, c, s) := read_base false m base c s in
  let limit := if neg then u32 (- u32 LONG_MIN) else LONG_MAX in
  r ⇐ accumulate fuel digit_class u32 m base (limit / u32 base) (limit mod u32 base) c s 0 0;
  let '(s, acc, any) := r in
  let '(acc, errno) :=
    if any <? 0 then (u32 (if neg then LONG_MIN else LONG_MAX), ERANGE)
    else (if neg then u32 (- acc) else acc, errno) in
  Done (s32 acc, set_end m endptr nptr s any, errno).

Definition strtoll (fuel : nat) (m : mem) (errno nptr endptr base : Z) : outcome (Z * mem * Z) :=
  p ⇐ skip_space fuel u8 m nptr;
  let '(neg, c, s) := read_sign m p.1 p.2 in
  let '(base, c, s) := read_base true m base c s in
  if (base <? 2) || (36 <? base) then Done (0, set_end m endptr nptr s 0, EINVAL)
  else
    let limit := if neg then u64 (u64 (- (LLONG_MIN + LLONG_MAX)) + LLONG_MAX) else LLONG_MAX in
    r ⇐ accumulate fuel digit_range u64 m base (limit / base) (limit mod base) c s 0 0;
    let '(s, acc, any) := r in
    let '(acc, errno) :=
      if any <? 0 then (u64 (if neg then LLONG_MIN else LLONG_MAX), ERANGE)
      else if negb (truth any) then (acc, EINVAL)
      else (if neg then u64 (- acc) else acc, errno) in
    Done (s64 acc, set_end m endptr nptr s any, errno).

Definition strtoull (fuel : nat) (m : mem) (errno nptr endptr base : Z) : outcome (Z * mem * Z) :=
  p ⇐ skip_space fuel u8 m nptr;
  let '(neg, c, s) := read_sign m p.1 p.2 in
  let '(base, c, s) := read_base true m base c s in
  if (base <? 2) || (36 <? base) then Done (0, set_end m endptr nptr s 0, EINVAL)
  else
    r ⇐ accumulate fuel digit_range u64 m base (ULLONG_MAX / base) (ULLONG_MAX mod base) c s 0 0;
    let '(s, acc, any) := r in
    let '(acc, errno) :=
      if any <? 0 then (ULLONG_MAX, ERANGE)
      else if negb (truth any) then (acc, EINVAL)
      else (if neg then u64 (- acc) else acc, errno) in
    Done (acc, set_end m endptr nptr s any, errno).

Definition atoi (fuel : nat) (m : mem) (errno ascii : Z) : outcome (Z * mem * Z) :=
  strtol fuel m errno ascii 0 10.

(** ** What the text says *)
(** Sign, base, offset of the first digit and digits of a text. *)
Record scan := Scan { sc_neg : bool; sc_base : Z; sc_start : nat; sc_digits : list Z }.

Fixpoint digits_in (base : Z) (l : list Z) : list Z :=
  match l with
  | c :: l =>
      match digit_range c with
      | Some d => if d <? base then d :: digits_in base l else []
      | None => []
      end
  | [] => []
  end.

Definition scan_sign (l : list Z) : bool * nat :=
  match l with
  | c :: _ => if c =? 45 then (true, 1%nat) else if c =? 43 then (false, 1%nat) else (false, 0%nat)
  | [] => (false, 0%nat)
  end.

(** A prefix 0x (in base 16 or 0) and the base; [check]: only before a digit. *)
Definition has_prefix (check : bool) (l : list Z) : bool :=
  match l with
  | 48 :: x :: r => ((x =? 120) || (x =? 88)) && (negb check || match r with d :: _ => hex_digit d | [] => false end)
  | _ => false
  end.
Definition scan_base (check : bool) (base : Z) (l : list Z) : Z * nat :=
  if ((base =? 0) || (base =? 16)) && has_prefix check l then (16, 2%nat)
  else (if base =? 0 then match l with 48 :: _ => 8 | _ => 10 end else base, 0%nat).

Definition scan_number (check : bool) (base : Z) (l : list Z) : scan :=
  let k := span (λ c, truth (isspace c)) l in
  let g := scan_sign (drop k l) in
  let b := scan_base check base (drop (k + g.2) l) in
  Scan g.1 b.1 (k + g.2 + b.2) (digits_in b.1 (drop (k + g.2 + b.2) l)).

Definition value (base v : Z) (ds : list Z) : Z := foldl (λ a d, a * base + d) v ds.
Definition magnitude (sc : scan) : Z := value (sc_base sc) 0 (sc_digits sc).
Definition signed (sc : scan) : Z := if sc_neg sc then - magnitude sc else magnitude sc.
Definition clamp (lo hi v : Z) : Z := Z.max lo (Z.min hi v).
Definition found (sc : scan) : bool := match sc_digits sc with [] => false | _ => true end.
(** Memory with the end of the number (the whole text if there is none) at
    [endptr], unless that is null. *)
Definition end_stored (m : mem) (endptr nptr : Z) (sc : scan) : mem :=
  if endptr =? 0 then m
  else wr64 m endptr (if found sc then nptr + Z.of_nat (sc_start sc + length (sc_digits sc)) else nptr).

(** ** Reading along the text *)
(** [s] is just past the character [c], the first of [r]. *)
Definition pos (m : mem) (r : list Z) (c s : Z) : Prop := cstring m (s - 1) r ∧ c = s8 (default 0 (head r)).

Lemma pos_next m x r c s : pos m (x :: r) c s → pos m r (ch m s) (s + 1).
Proof.
  intros [(_ & _ & H) _]. replace (s - 1 + 1) with s in H by lia. split; [by replace (s + 1 - 1) with s by lia|].
  unfold ch. f_equal. destruct r as [|y r]; cbn in *; [done|apply H].
Qed.

Lemma pos_char m r c s : pos m r c s → ∃ x, c = s8 x ∧ 0 <= x < 256 ∧ x = default 0 (head r) ∧ (x = 0 ↔ r = []).
Proof.
  intros [H ->]. exists (default 0 (head r)). destruct r as [|x r]; cbn in *; [by split_and!; try lia|].
  destruct H as (_ & Hx & _). split_and!; [done|lia|lia|done|]. split; [lia|done].
Qed.

(** Characters are compared as bytes or as [char]s. *)
Definition same_on_bytes {A} (f g : Z → A) : Prop := ∀ x, 0 <= x < 256 → f (s8 x) = g x.

Lemma on_bytes {A} `{EqDecision A} (f g : Z → A) :
  forallb (λ x, bool_decide (f (s8 x) = g x)) (seqZ 0 256) = true → same_on_bytes f g.
Proof.
  intros H x Hx. rewrite forallb_forall in H. specialize (H x). rewrite bool_decide_eq_true in H.
  apply H, list_elem_of_In, elem_of_seqZ. lia.
Qed.

Lemma space_id : same_on_bytes (λ c, isspace (id c)) isspace.
Proof. apply on_bytes. vm_compute. reflexivity. Qed.
Lemma space_u8 : same_on_bytes (λ c, isspace (u8 c)) isspace.
Proof. apply on_bytes. vm_compute. reflexivity. Qed.
Lemma class_digit : same_on_bytes digit_class digit_range.
Proof. apply on_bytes. vm_compute. reflexivity. Qed.
Lemma range_digit : same_on_bytes digit_range digit_range.
Proof. apply on_bytes. vm_compute. reflexivity. Qed.
Lemma hex_bytes : same_on_bytes hex_digit hex_digit.
Proof. apply on_bytes. vm_compute. reflexivity. Qed.
Lemma char_eq x k : 0 <= x < 256 → 0 <= k < 128 → (s8 x =? k) = (x =? k).
Proof. intros Hx Hk. unfold s8. destruct (Z.eqb_spec x k), (Z.eqb_spec ((x + 128) mod 256 - 128) k); dlia || done. Qed.

Lemma skip_space_spec conv m l s fuel :
  same_on_bytes (λ c, isspace (conv c)) isspace → cstring m s l → (length l < fuel)%nat →
  ∃ c, skip_space fuel conv m s = Done (c, s + 1 + Z.of_nat (span (λ c, truth (isspace c)) l)) ∧
    pos m (drop (span (λ c, truth (isspace c)) l) l) c (s + 1 + Z.of_nat (span (λ c, truth (isspace c)) l)).
Proof.
  intros Hc. revert s fuel. induction l as [|x l IH]; intros s [|fuel] Hl Hf; cbn [length] in Hf; try lia; cbn [skip_space span].
  - cbn in Hl. unfold ch. rewrite Hl, Hc by lia. exists 0. change (truth (isspace 0)) with false. cbn.
    rewrite Z.add_0_r. split; [done|]. split; [|done]. by replace (s + 1 - 1) with s by lia.
  - pose proof Hl as (Hx & Hr & Hl'). unfold ch. rewrite Hx, Hc by lia. destruct (truth (isspace x)).
    + destruct (IH (s + 1) fuel Hl' ltac:(lia)) as (c & E & Hp). exists c. cbn [drop].
      rewrite Nat2Z.inj_succ. replace (s + 1 + Z.succ _) with (s + 1 + 1 + Z.of_nat (span (λ c, truth (isspace c)) l)) by lia.
      done.
    + exists (s8 x). rewrite Z.add_0_r. cbn [drop]. split; [done|]. split; [|done]. by replace (s + 1 - 1) with s by lia.
Qed.

Lemma read_sign_spec m r c s :
  pos m r c s →
  ∃ c', read_sign m c s = ((scan_sign r).1, c', s + Z.of_nat (scan_sign r).2) ∧
    pos m (drop (scan_sign r).2 r) c' (s + Z.of_nat (scan_sign r).2).
Proof.
  intros Hp. destruct (pos_char _ _ _ _ Hp) as (x & -> & Hx & E & _). unfold read_sign, scan_sign.
  rewrite !char_eq by lia. destruct r as [|y r]; cbn in E; subst x.
  - exists 0. cbn. rewrite Z.add_0_r. split; [done|exact Hp].
  - pose proof (pos_next _ _ _ _ _ Hp) as Hn. destruct (y =? 45), (y =? 43); cbn [fst snd drop];
      rewrite ?Z.add_0_r; by eexists.
Qed.

Lemma read_base_spec check base m r c s :
  pos m r c s →
  ∃ c', read_base check m base c s =
      ((scan_base check base r).1, c', s + Z.of_nat (scan_base check base r).2) ∧
    pos m (drop (scan_base check base r).2 r) c' (s + Z.of_nat (scan_base check base r).2).
Proof.
  intros Hp. destruct (pos_char _ _ _ _ Hp) as (x & Ec & Hx & E & H0). unfold read_base, scan_base.
  assert (((c =? 48) && ((ch m s =? 120) || (ch m s =? 88)) && (negb check || hex_digit (ch m (s + 1)))) =
    has_prefix check r ∧ (if c =? 48 then 8 else 10) = match r with 48 :: _ => 8 | _ => 10 end) as [Epre E8].
  { rewrite Ec, char_eq by lia. destruct r as [|y r]; cbn in E; subst x; [done|].
    destruct (Z.eqb_spec y 48) as [->|Hne]; [|split; [|by repeat case_match]].
    2: { unfold has_prefix. by repeat case_match. }
    split; [|done]. pose proof (pos_next _ _ _ _ _ Hp) as Hn.
    destruct (pos_char _ _ _ _ Hn) as (y & -> & Hy & Ey & Hy0). rewrite !char_eq by lia.
    destruct r as [|z r]; cbn in Ey; subst y; [done|]. cbn [has_prefix andb]. f_equal. f_equal.
    pose proof (pos_next _ _ _ _ _ Hn) as Hn2.
    destruct (pos_char _ _ _ _ Hn2) as (w & -> & Hw & Ew & Hw0). rewrite hex_bytes by lia.
    destruct r as [|d r]; cbn in Ew; by subst w. }
  rewrite <- !andb_assoc, (andb_assoc (c =? 48)), Epre, E8.
  destruct (((base =? 0) || (base =? 16)) && has_prefix check r) eqn:Eb; cbn [fst snd drop].
  - exists (ch m (s + 1)). split; [done|]. apply andb_true_iff in Eb as [_ Eb].
    destruct r as [|y [|z r]]; [done| |].
    { exfalso. revert Eb. unfold has_prefix. by repeat case_match. }
    cbn [drop]. replace (s + Z.of_nat 2) with (s + 1 + 1) by lia.
    by eapply pos_next, pos_next.
  - exists c. rewrite Z.add_0_r. done.
Qed.

(** ** The digits *)
Lemma digit_nonneg x d : digit_range x = Some d → 0 <= d.
Proof.
  unfold digit_range. destruct (Z.leb_spec 48 x), (Z.leb_spec x 57), (Z.leb_spec 65 x), (Z.leb_spec x 90),
    (Z.leb_spec 97 x), (Z.leb_spec x 122); cbn; intros; simplify_eq; lia.
Qed.

Lemma digits_in_nonneg base l : Forall (λ d, 0 <= d) (digits_in base l).
Proof.
  induction l as [|x l IH]; cbn [digits_in]; [constructor|]. destruct (digit_range x) as [d|] eqn:E; [|constructor].
  destruct (d <? base); constructor; [by eapply digit_nonneg|done].
Qed.

Lemma value_grows base v ds : 1 <= base → 0 <= v → Forall (λ d, 0 <= d) ds → v <= value base v ds.
Proof.
  intros Hb Hv Hd. revert v Hv. induction Hd as [|d ds Hd _ IH]; intros v Hv; cbn [value foldl]; [lia|].
  specialize (IH (v * base + d) ltac:(nia)). unfold value in IH. nia.
Qed.

Section accumulate.
Context (digit : Z → option Z) (wrap : Z → Z) (m : mem) (base cutoff cutlim : Z).
Hypothesis Hdigit : same_on_bytes digit digit_range.
Hypothesis Hbase : 2 <= base.
Hypothesis Hcut : 0 <= cutoff ∧ 0 <= cutlim < base.
Let limit := cutoff * base + cutlim.
Hypothesis Hwrap : ∀ x, 0 <= x <= limit → wrap x = x.

(** One turn: a digit of the base, or the end. *)
Lemma accumulate_turn fuel r c s acc any :
  pos m r c s →
  accumulate (S fuel) digit wrap m base cutoff cutlim c s acc any =
  match digits_in base r with
  | [] => Done (s, acc, any)
  | d :: _ =>
      if (any <? 0) || (cutoff <? acc) || ((acc =? cutoff) && (cutlim <? d))
      then accumulate fuel digit wrap m base cutoff cutlim (ch m s) (s + 1) acc (-1)
      else accumulate fuel digit wrap m base cutoff cutlim (ch m s) (s + 1) (wrap (wrap (acc * base) + d)) 1
  end.
Proof.
  intros Hp. destruct (pos_char _ _ _ _ Hp) as (x & -> & Hx & E & _). cbn [accumulate]. rewrite Hdigit by done.
  destruct r as [|y r]; cbn in E; subst x; [done|]. cbn [digits_in]. destruct (digit_range y) as [d|]; [|done].
  destruct (Z.leb_spec base d), (Z.ltb_spec d base); try lia; done.
Qed.

Lemma digits_tail d ds r : digits_in base r = d :: ds → ∃ x r', r = x :: r' ∧ digits_in base r' = ds.
Proof.
  destruct r as [|x r]; cbn [digits_in]; [done|]. destruct (digit_range x) as [d'|]; [|done].
  destruct (d' <? base); [|done]. intros [= _ <-]. by exists x, r.
Qed.

(** After an overflow the rest of the digits is skipped. *)
Lemma accumulate_overflow ds fuel r c s acc :
  pos m r c s → digits_in base r = ds → (length ds < fuel)%nat →
  accumulate fuel digit wrap m base cutoff cutlim c s acc (-1) = Done (s + Z.of_nat (length ds), acc, -1).
Proof.
  revert fuel r c s. induction ds as [|d ds IH]; intros [|fuel] r c s Hp Hd Hf; cbn [length] in *; try lia;
    rewrite (accumulate_turn _ r) by done; rewrite Hd.
  - by rewrite Z.add_0_r.
  - cbn [Z.ltb Z.compare orb]. destruct (digits_tail _ _ _ Hd) as (x & r' & -> & Hd').
    rewrite (IH fuel r' _ (s + 1)); [|by eapply pos_next|done|lia]. do 3 f_equal. lia.
Qed.

(** The number is accumulated while it is at most [limit]. *)
Lemma accumulate_spec ds fuel r c s acc any :
  pos m r c s → digits_in base r = ds → (length ds < fuel)%nat → 0 <= acc <= limit → 0 <= any →
  ∃ acc' any', accumulate fuel digit wrap m base cutoff cutlim c s acc any =
      Done (s + Z.of_nat (length ds), acc', any') ∧
    if value base acc ds <=? limit then acc' = value base acc ds ∧ any' = match ds with [] => any | _ => 1 end
    else any' = -1.
Proof.
  revert fuel r c s acc any. induction ds as [|d ds IH]; intros [|fuel] r c s acc any Hp Hd Hf Hacc Hany; cbn [length] in *;
    try lia; rewrite (accumulate_turn _ r) by done; rewrite Hd.
  { exists acc, any. rewrite Z.add_0_r. split; [done|]. cbn [value foldl]. destruct (Z.leb_spec acc limit); [done|lia]. }
  pose proof (digits_in_nonneg base r) as Hnn. rewrite Hd in Hnn. apply Forall_cons in Hnn as [Hd0 Hnn].
  destruct (digits_tail _ _ _ Hd) as (x & r' & -> & Hd'). pose proof (pos_next _ _ _ _ _ Hp) as Hp'.
  replace (s + Z.of_nat (S (length ds))) with (s + 1 + Z.of_nat (length ds)) by lia.
  assert (d < base) as Hdb.
  { cbn [digits_in] in Hd. destruct (digit_range x) as [d'|]; [|done]. destruct (Z.ltb_spec d' base); [|done].
    by injection Hd as -> _. }
  assert ((any <? 0) || (cutoff <? acc) || ((acc =? cutoff) && (cutlim <? d)) = negb (acc * base + d <=? limit)) as ->.
  { unfold limit. destruct (Z.ltb_spec any 0), (Z.ltb_spec cutoff acc), (Z.eqb_spec acc cutoff), (Z.ltb_spec cutlim d),
      (Z.leb_spec (acc * base + d) (cutoff * base + cutlim)); cbn; try done; try lia; exfalso; nia. }
  change (value base acc (d :: ds)) with (value base (acc * base + d) ds).
  destruct (Z.leb_spec (acc * base + d) limit) as [Hle|Hgt]; cbn [negb].
  - rewrite (Hwrap (acc * base)), Hwrap by nia.
    destruct (IH fuel r' (ch m s) (s + 1) (acc * base + d) 1) as (acc' & any' & E & H); [done|done|lia|nia|lia|].
    exists acc', any'. split; [exact E|]. destruct (_ <=? limit); [|done]. destruct H as [-> ->]. by destruct ds.
  - rewrite (accumulate_overflow ds fuel r') by (done || lia). exists acc, (-1). split; [done|].
    pose proof (value_grows base (acc * base + d) ds ltac:(lia) ltac:(nia) Hnn).
    destruct (Z.leb_spec (value base (acc * base + d) ds) limit); [lia|done].
Qed.
End accumulate.

(** ** The whole text *)
Lemma scan_positions check base m nptr l conv fuel :
  same_on_bytes (λ c, isspace (conv c)) isspace → cstring m nptr l → (length l < fuel)%nat →
  let sc := scan_number check base l in
  ∃ p c s, skip_space fuel conv m nptr = Done p ∧
    (∃ c1 s1, read_sign m p.1 p.2 = (sc_neg sc, c1, s1) ∧ read_base check m base c1 s1 = (sc_base sc, c, s)) ∧
    s = nptr + 1 + Z.of_nat (sc_start sc) ∧
    pos m (drop (sc_start sc) l) c s ∧ digits_in (sc_base sc) (drop (sc_start sc) l) = sc_digits sc ∧
    (length (sc_digits sc) <= length l)%nat.
Proof.
  intros Hc Hl Hf sc. destruct (skip_space_spec conv m l nptr fuel Hc Hl Hf) as (c0 & E0 & P0).
  destruct (read_sign_spec _ _ _ _ P0) as (c1 & E1 & P1). destruct (read_base_spec check base _ _ _ _ P1) as (c2 & E2 & P2).
  rewrite !drop_drop in *. unfold sc, scan_number. cbn [sc_neg sc_base sc_start sc_digits].
  set (k := span (λ c, truth (isspace c)) l) in *. set (g := scan_sign (drop k l)) in *.
  set (b := scan_base check base (drop (k + g.2) l)) in *. eexists _, c2, _. split; [exact E0|]. cbn [fst snd].
  split; [eexists c1, _; split; [exact E1|exact E2]|]. split; [lia|].
  split; [rewrite Nat.add_assoc in P2; exact P2|]. split; [done|].
  transitivity (length (drop (k + g.2 + b.2) l)); [|rewrite length_drop; lia]. generalize (drop (k + g.2 + b.2) l). clear.
  intros r. induction r as [|x r IH]; cbn [digits_in length]; [lia|]. destruct (digit_range x) as [d|]; [|cbn; lia].
  destruct (d <? b.1); cbn [length]; lia.
Qed.

Definition base_ok (base : Z) : Prop := base = 0 ∨ 2 <= base <= 36.

Lemma scan_base_range check base l : base_ok base → 2 <= sc_base (scan_number check base l) <= 36.
Proof.
  intros Hb. unfold scan_number. cbn [sc_base]. unfold scan_base. destruct (_ && _); cbn [fst]; [lia|].
  destruct (Z.eqb_spec base 0); [|unfold base_ok in Hb; lia]. repeat case_match; lia.
Qed.

Lemma magnitude_nonneg check base l : base_ok base → 0 <= magnitude (scan_number check base l).
Proof.
  intros Hb. pose proof (scan_base_range check base l Hb). unfold magnitude.
  apply value_grows; [lia|lia|]. apply digits_in_nonneg.
Qed.

(** The digits of a text against a limit of the type. *)
Lemma scan_accumulate check base m nptr l digit wrap limit fuel c s :
  let sc := scan_number check base l in
  same_on_bytes digit digit_range → base_ok base → 0 <= limit → (∀ x, 0 <= x <= limit → wrap x = x) →
  s = nptr + 1 + Z.of_nat (sc_start sc) → pos m (drop (sc_start sc) l) c s →
  digits_in (sc_base sc) (drop (sc_start sc) l) = sc_digits sc → (length (sc_digits sc) < fuel)%nat →
  ∃ e acc any, accumulate fuel digit wrap m (sc_base sc) (limit / sc_base sc) (limit mod sc_base sc) c s 0 0 =
      Done (e, acc, any) ∧
    (∀ endptr, set_end m endptr nptr e any = end_stored m endptr nptr sc) ∧
    if magnitude sc <=? limit then acc = magnitude sc ∧ any = (if found sc then 1 else 0)
    else any = -1.
Proof.
  intros sc Hd Hb Hlim Hw Hs Hp Hds Hf. pose proof (scan_base_range check base l Hb) as Hr. fold sc in Hr.
  assert (limit / sc_base sc * sc_base sc + limit mod sc_base sc = limit) as El
    by (rewrite (Z.mul_comm (limit / _)); symmetry; apply Z.div_mod; lia).
  destruct (accumulate_spec digit wrap m (sc_base sc) (limit / sc_base sc) (limit mod sc_base sc) Hd ltac:(lia)) with
    (ds := sc_digits sc) (fuel := fuel) (r := drop (sc_start sc) l) (c := c) (s := s) (acc := 0) (any := 0)
    as (acc & any & E & H).
  - split; [apply Z.div_pos; lia|]. apply Z.mod_pos_bound. lia.
  - rewrite El. exact Hw.
  - exact Hp.
  - exact Hds.
  - exact Hf.
  - rewrite El. lia.
  - lia.
  - rewrite El in H. exists (s + Z.of_nat (length (sc_digits sc))), acc, any. split; [exact E|].
    fold (magnitude sc) in H. split.
    + intros endptr. unfold set_end, end_stored. destruct (endptr =? 0); [done|]. f_equal.
      assert (truth any = found sc) as ->.
      { unfold found. destruct (magnitude sc <=? limit) eqn:Em.
        - destruct H as [_ ->]. by destruct (sc_digits sc).
        - subst any. destruct (sc_digits sc) eqn:Ed; [|done]. exfalso. unfold magnitude in Em. rewrite Ed in Em.
          cbn in Em. destruct (Z.leb_spec 0 limit); [done|lia]. }
      destruct (found sc); [|done]. lia.
    + destruct (magnitude sc <=? limit); [|done]. destruct H as [-> ->]. split; [done|].
      unfold found. by destruct (sc_digits sc).
Qed.

Lemma not_found_zero sc : found sc = false → magnitude sc = 0.
Proof. unfold found, magnitude. by destruct (sc_digits sc). Qed.

Lemma strtol_spec fuel m errno nptr endptr base l :
  cstring m nptr l → base_ok base → (length l < fuel)%nat →
  let sc := scan_number false base l in
  strtol fuel m errno nptr endptr base =
    Done (clamp LONG_MIN LONG_MAX (signed sc), end_stored m endptr nptr sc,
          if bool_decide (LONG_MIN <= signed sc <= LONG_MAX) then errno else ERANGE).
Proof.
  intros Hl Hb Hf sc. pose proof (magnitude_nonneg false base l Hb) as Hm. fold sc in Hm.
  pose proof (scan_base_range false base l Hb) as Hr. fold sc in Hr.
  destruct (scan_positions false base m nptr l id fuel space_id Hl Hf) as (p & c & s & E0 & (c1 & s1 & E1 & E2) & Hs & Hp & Hds & Hlen).
  fold sc in E1, E2, Hs, Hp, Hds, Hlen. unfold strtol. rewrite E0. cbn [obind]. rewrite E1, E2.
  rewrite (u32_small (sc_base sc)) by lia.
  set (limit := if sc_neg sc then u32 (- u32 LONG_MIN) else LONG_MAX).
  assert (limit = if sc_neg sc then 2 ^ 31 else 2 ^ 31 - 1) as El by by destruct (sc_neg sc).
  assert (0 <= limit <= 2 ^ 31) as Hlim by (rewrite El; destruct (sc_neg sc); lia).
  destruct (scan_accumulate false base m nptr l digit_class u32 limit fuel c s class_digit Hb) as (e & acc & any & E & He & H);
    [lia|intros x Hx; apply u32_small; lia|exact Hs|exact Hp|exact Hds|fold sc; lia|].
  fold sc in E, He, H. rewrite E. cbn [obind]. rewrite He. unfold signed, clamp, LONG_MIN, LONG_MAX in *.
  destruct (Z.leb_spec (magnitude sc) limit) as [Hle|Hgt].
  - destruct H as [-> ->]. replace ((if found sc then 1 else 0) <? 0) with false by by destruct (found sc).
    rewrite bool_decide_true by (destruct (sc_neg sc); lia). do 2 f_equal. f_equal.
    destruct (sc_neg sc); mlia.
  - subst any. cbn [Z.ltb Z.compare]. rewrite bool_decide_false by (destruct (sc_neg sc); lia). do 2 f_equal. f_equal.
    destruct (sc_neg sc); mlia.
Qed.

(** The two 64-bit functions reject nothing once the base is allowed. *)
Lemma base_in_range check base l : base_ok base →
  (sc_base (scan_number check base l) <? 2) || (36 <? sc_base (scan_number check base l)) = false.
Proof.
  intros Hb. pose proof (scan_base_range check base l Hb).
  destruct (Z.ltb_spec (sc_base (scan_number check base l)) 2), (Z.ltb_spec 36 (sc_base (scan_number check base l))); lia || done.
Qed.

Lemma strtoll_spec fuel m errno nptr endptr base l :
  cstring m nptr l → base_ok base → (length l < fuel)%nat →
  let sc := scan_number true base l in
  strtoll fuel m errno nptr endptr base =
    Done (clamp LLONG_MIN LLONG_MAX (signed sc), end_stored m endptr nptr sc,
          if negb (bool_decide (LLONG_MIN <= signed sc <= LLONG_MAX)) then ERANGE
          else if found sc then errno else EINVAL).
Proof.
  intros Hl Hb Hf sc. pose proof (magnitude_nonneg true base l Hb) as Hm. fold sc in Hm.
  destruct (scan_positions true base m nptr l u8 fuel space_u8 Hl Hf) as (p & c & s & E0 & (c1 & s1 & E1 & E2) & Hs & Hp & Hds & Hlen).
  fold sc in E1, E2, Hs, Hp, Hds, Hlen. unfold strtoll. rewrite E0. cbn [obind]. rewrite E1, E2.
  unfold sc at 1 2. rewrite base_in_range by done.
  set (limit := if sc_neg sc then u64 (u64 (- (LLONG_MIN + LLONG_MAX)) + LLONG_MAX) else LLONG_MAX).
  assert (limit = if sc_neg sc then 2 ^ 63 else 2 ^ 63 - 1) as El by by destruct (sc_neg sc).
  assert (0 <= limit <= 2 ^ 63) as Hlim by (rewrite El; destruct (sc_neg sc); lia).
  destruct (scan_accumulate true base m nptr l digit_range u64 limit fuel c s range_digit Hb) as (e & acc & any & E & He & H);
    [lia|intros x Hx; apply u64_small; lia|exact Hs|exact Hp|exact Hds|fold sc; lia|].
  fold sc in E, He, H. rewrite E. cbn [obind]. rewrite He. unfold signed, clamp, LLONG_MIN, LLONG_MAX in *.
  destruct (Z.leb_spec (magnitude sc) limit) as [Hle|Hgt].
  - destruct H as [-> ->]. pose proof (not_found_zero sc) as H0.
    rewrite bool_decide_true by (destruct (sc_neg sc); lia).
    destruct (found sc); cbn [Z.ltb Z.compare negb truth Z.eqb].
    + do 2 f_equal. f_equal. destruct (sc_neg sc); mlia.
    + rewrite H0 by done. do 2 f_equal. f_equal. by destruct (sc_neg sc).
  - subst any. cbn [Z.ltb Z.compare]. rewrite bool_decide_false by (destruct (sc_neg sc); lia). do 2 f_equal. f_equal.
    destruct (sc_neg sc); mlia.
Qed.

Lemma strtoull_spec fuel m errno nptr endptr base l :
  cstring m nptr l → base_ok base → (length l < fuel)%nat →
  let sc := scan_number true base l in
  strtoull fuel m errno nptr endptr base =
    Done (if magnitude sc <=? ULLONG_MAX then u64 (signed sc) else ULLONG_MAX, end_stored m endptr nptr sc,
          if negb (magnitude sc <=? ULLONG_MAX) then ERANGE else if found sc then errno else EINVAL).
Proof.
  intros Hl Hb Hf sc. pose proof (magnitude_nonneg true base l Hb) as Hm. fold sc in Hm.
  destruct (scan_positions true base m nptr l u8 fuel space_u8 Hl Hf) as (p & c & s & E0 & (c1 & s1 & E1 & E2) & Hs & Hp & Hds & Hlen).
  fold sc in E1, E2, Hs, Hp, Hds, Hlen. unfold strtoull. rewrite E0. cbn [obind]. rewrite E1, E2.
  unfold sc at 1 2. rewrite base_in_range by done.
  destruct (scan_accumulate true base m nptr l digit_range u64 ULLONG_MAX fuel c s range_digit Hb) as (e & acc & any & E & He & H);
    [done|intros x Hx; apply u64_small; unfold ULLONG_MAX in Hx; lia|exact Hs|exact Hp|exact Hds|fold sc; lia|].
  fold sc in E, He, H. rewrite E. cbn [obind]. rewrite He.
  destruct (Z.leb_spec (magnitude sc) ULLONG_MAX) as [Hle|Hgt]; [|by subst any].
  destruct H as [-> ->]. pose proof (not_found_zero sc) as H0. unfold signed, ULLONG_MAX in *.
  destruct (found sc); cbn [Z.ltb Z.compare negb truth Z.eqb].
  - destruct (sc_neg sc); [done|]. by rewrite u64_small by lia.
  - rewrite H0 by done. by destruct (sc_neg sc).
Qed.

(** C21. Reading integers.  On every terminated text and for base 0 or 2 to
    36, [strtol], [strtoll] and [strtoull] terminate and read the number the
    text starts with (white space, a sign, a prefix 0x or 0 where the base
    allows it, the longest run of digits of the base): the first two return
    it brought into the range of their type, the third modulo 2^64 unless its
    magnitude is too big, then the greatest value; they store the end of the
    number, or the start of the text when there is none, through [endptr]
    unless it is null, and nothing else; [errno] is set to ERANGE exactly
    when the number is out of range, and by the 64-bit functions to EINVAL
    when there is no number.  [atoi] is [strtol] in base 10. *)
Theorem strto_reads_numbers fuel m errno nptr endptr base l :
  cstring m nptr l → base_ok base → (length l < fuel)%nat →
  (let sc := scan_number false base l in
   strtol fuel m errno nptr endptr base =
     Done (clamp LONG_MIN LONG_MAX (signed sc), end_stored m endptr nptr sc,
           if bool_decide (LONG_MIN <= signed sc <= LONG_MAX) then errno else ERANGE)) ∧
  (let sc := scan_number true base l in
   strtoll fuel m errno nptr endptr base =
     Done (clamp LLONG_MIN LLONG_MAX (signed sc), end_stored m endptr nptr sc,
           if negb (bool_decide (LLONG_MIN <= signed sc <= LLONG_MAX)) then ERANGE
           else if found sc then errno else EINVAL) ∧
   strtoull fuel m errno nptr endptr base =
     Done (if magnitude sc <=? ULLONG_MAX then u64 (signed sc) else ULLONG_MAX, end_stored m endptr nptr sc,
           if negb (magnitude sc <=? ULLONG_MAX) then ERANGE else if found sc then errno else EINVAL)) ∧
  (let sc := scan_number false 10 l in
   atoi fuel m errno nptr =
     Done (clamp LONG_MIN LONG_MAX (signed sc), m,
           if bool_decide (LONG_MIN <= signed sc <= LONG_MAX) then errno else ERANGE)).
Proof.
  intros Hl Hb Hf. split_and!; [by apply strtol_spec|split; [by apply strtoll_spec|by apply strtoull_spec]|].
  apply (strtol_spec fuel m errno nptr 0 10 l); [done|right; lia|done].
Qed.

(** A space, a sign and 0x80000000: 2^31 with a minus sign just fits a long. *)
Definition demo_number : mem :=
  list_to_map (zip (seqZ 16 13) [32; 45; 48; 120; 56; 48; 48; 48; 48; 48; 48; 48; 0]).

Lemma strto_reads_numbers_witness :
  cstring demo_number 16 [32; 45; 48; 120; 56; 48; 48; 48; 48; 48; 48; 48] ∧
  strtol 20 demo_number 0 16 40 0 = Done (- 2 ^ 31, wr64 demo_number 40 28, 0).
Proof.
  assert (cstring demo_number 16 [32; 45; 48; 120; 56; 48; 48; 48; 48; 48; 48; 48]) as Hl
    by (vm_compute; split_and!; done).
  split; [exact Hl|].
  apply (strto_reads_numbers 20 demo_number 0 16 40 0 _ Hl); [by left|cbn; lia].
Defined.
