(* ===== verification/EfiHeap.v ===== *)
(** * The heap of the EFI C library

    src/tload/tloadefi/efilibc/malloc.c: [malloc], [calloc], [realloc] and
    [free] over the firmware's pool.  Every block carries its size in the eight
    bytes in front of it.  [BS->AllocatePool] and [BS->FreePool] are the
    interface [Pool], with what the UEFI specification says of them; clients of
    the heap are written against [CHeap]. *)

From stdpp Require Import base numbers list gmap.
From Stdlib Require Import Lia.
From S2P Require Import Prelude Mem LibcString.
Open Scope Z_scope.

(** The high bit of a status. *)
Definition EFI_ERROR (s : Z) : bool := 2 ^ 63 <=? s.

(** ** The pool of the firmware *)
Class PoolOps (F : Type) := {
  po_mem : F → mem;
  po_set_mem : mem → F → F;
  (** [AllocatePool(EfiLoaderData, n, &buf)]: the status and [buf]. *)
  AllocatePool : Z → M F (Z * Z);
  FreePool : Z → M F Z
}.

Definition apart (b n b' n' : Z) : Prop := b + n <= b' ∨ b' + n' <= b.

Class Pool (F : Type) `{PoolOps F} := {
  (** Bytes in use by anyone, and the blocks of the pool. *)
  po_used : F → Z → Prop;
  po_block : F → Z → Z → Prop;
  po_mem_set m s : po_mem (po_set_mem m s) = m;
  po_set_get s : po_set_mem (po_mem s) s = s;
  po_set_set m m' s : po_set_mem m' (po_set_mem m s) = po_set_mem m' s;
  po_used_set m s a : po_used (po_set_mem m s) a ↔ po_used s a;
  po_block_set m s b n : po_block (po_set_mem m s) b n ↔ po_block s b n;
  po_block_range s b n : po_block s b n → 0 < b ∧ 0 <= n ∧ b + n <= 2 ^ 63;
  po_block_used s b n a : po_block s b n → b <= a < b + n → po_used s a;
  po_block_size s b n n' : po_block s b n → po_block s b n' → n = n';
  po_block_apart s b n b' n' : po_block s b n → po_block s b' n' → b ≠ b' → apart b n b' n';
  AllocatePool_spec n s : 0 <= n →
    wp (AllocatePool n) (λ r s',
      (∀ a, po_used s a → po_used s' a ∧ rd8 (po_mem s') a = rd8 (po_mem s) a) ∧
      (∀ b k, po_block s b k → po_block s' b k) ∧
      (EFI_ERROR r.1 = true ∨
       po_block s' r.2 n ∧ EFI_ERROR r.1 = false ∧ ∀ a, r.2 <= a < r.2 + n → ¬ po_used s a)) s;
  FreePool_spec b n s : po_block s b n →
    wp (FreePool b) (λ _ s',
      (∀ a, po_used s a → ¬ (b <= a < b + n) → po_used s' a ∧ rd8 (po_mem s') a = rd8 (po_mem s) a) ∧
      (∀ b' k, b' ≠ b → po_block s b' k → po_block s' b' k)) s
}.

(** ** The code *)
Section code.
Context {F : Type} `{PoolOps F}.
(** The allocator [efilibc_register_external_malloc] put in place, if any. *)
Context (ext_malloc : option (Z → M F Z)).

Definition sizeof_size_t : Z := 8.

Definition alloc_with_size (size : Z) : M F Z :=
  r ← AllocatePool (u64 (size + sizeof_size_t));
  if EFI_ERROR r.1 then mret 0
  else modify (λ s, po_set_mem (wr64 (po_mem s) r.2 size) s) ;; mret (u64 (r.2 + sizeof_size_t)).

Definition malloc (size : Z) : M F Z :=
  match ext_malloc with
  | Some f => f size
  | None => alloc_with_size size
  end.

Definition calloc (nmemb size : Z) : M F Z :=
  buf ← malloc (u64 (size * nmemb));
  if buf =? 0 then mret 0
  else modify (λ s, po_set_mem (memset (po_mem s) buf 0 (u64 (size * nmemb))) s) ;; mret buf.

Definition free (buf : Z) : M F unit :=
  if buf =? 0 then mret tt else _ ← FreePool (u64 (buf - sizeof_size_t)); mret tt.

Definition realloc (ptr size : Z) : M F Z :=
  if ptr =? 0 then malloc size
  else if size =? 0 then free ptr ;; mret 0
  else
    s ← get;
    let cur_buf_size := rd64 (po_mem s) (u64 (ptr - sizeof_size_t)) in
    if size <=? cur_buf_size then mret ptr
    else
      buf ← alloc_with_size size;
      if buf =? 0 then mret 0
      else
        modify (λ s, po_set_mem (memcpy (po_mem s) buf ptr cur_buf_size) s) ;;
        free ptr ;;
        mret buf.
End code.

(** ** A heap as its clients see it *)
Class CHeapOps (H : Type) := {
  ch_mem : H → mem;
  ch_set_mem : mem → H → H;
  ch_malloc : Z → M H Z;
  ch_realloc : Z → Z → M H Z;
  ch_free : Z → M H unit
}.

Class CHeap (H : Type) `{CHeapOps H} := {
  ch_used : H → Z → Prop;
  (** [n] bytes from [p] on are the client's. *)
  ch_block : H → Z → Z → Prop;
  (** Bytes of the heap's own. *)
  ch_private : H → Z → Prop;
  ch_mem_set m s : ch_mem (ch_set_mem m s) = m;
  ch_set_get s : ch_set_mem (ch_mem s) s = s;
  ch_set_set m m' s : ch_set_mem m' (ch_set_mem m s) = ch_set_mem m' s;
  ch_used_set m s a : ch_used (ch_set_mem m s) a ↔ ch_used s a;
  ch_private_set m s a : ch_private (ch_set_mem m s) a ↔ ch_private s a;
  ch_block_set m s p n : (∀ a, ch_private s a → rd8 m a = rd8 (ch_mem s) a) →
    ch_block s p n → ch_block (ch_set_mem m s) p n;
  ch_block_range s p n : ch_block s p n → 8 < p ∧ p + n <= 2 ^ 63;
  ch_block_used s p n a : ch_block s p n → p <= a < p + n → ch_used s a ∧ ¬ ch_private s a;
  ch_block_apart s p n q k : ch_block s p n → ch_block s q k → p ≠ q → apart p n q k;
  ch_malloc_spec n s : 0 <= n < 2 ^ 63 →
    wp (ch_malloc n) (λ p s',
      (∀ a, ch_used s a → ch_used s' a ∧ rd8 (ch_mem s') a = rd8 (ch_mem s) a) ∧
      (∀ q k, ch_block s q k → ch_block s' q k) ∧
      (p = 0 ∨ ch_block s' p n ∧ (∀ k, ¬ ch_block s p k) ∧ ∀ a, p <= a < p + n → ¬ ch_used s a)) s;
  (** A block moves with its contents, or stays when there is no room. *)
  ch_realloc_spec p n k s : ch_block s p n → 0 < k < 2 ^ 63 →
    wp (ch_realloc p k) (λ q s',
      (∀ b c, b ≠ p → ch_block s b c → ch_block s' b c ∧
        ∀ a, b <= a < b + c → rd8 (ch_mem s') a = rd8 (ch_mem s) a) ∧
      (q = 0 ∧ ch_block s' p n ∧ (∀ a, p <= a < p + n → rd8 (ch_mem s') a = rd8 (ch_mem s) a) ∨
       ch_block s' q k ∧ (q = p ∨ ∀ k', ¬ ch_block s q k') ∧
         ∀ i, 0 <= i < Z.min n k → rd8 (ch_mem s') (q + i) = rd8 (ch_mem s) (p + i))) s;
  ch_free_spec p n s : ch_block s p n →
    wp (ch_free p) (λ _ s', ∀ b c, b ≠ p → ch_block s b c → ch_block s' b c ∧
      ∀ a, b <= a < b + c → rd8 (ch_mem s') a = rd8 (ch_mem s) a) s
}.

(** ** The code is such a heap *)
Section heap.
Context {F : Type} `{Pool F}.
Implicit Types (s : F).

(** A block in a pool block that starts with its capacity. *)
Definition heap_block s (p n : Z) : Prop :=
  ∃ c, 0 <= n <= c ∧ po_block s (p - 8) (c + 8) ∧ rd64 (po_mem s) (p - 8) = c.
Definition heap_private s (a : Z) : Prop := ∃ b k, po_block s b k ∧ 8 <= k ∧ b <= a < b + 8.

(** Nothing in use changes, blocks stay. *)
Definition heap_grows s s' : Prop :=
  (∀ a, po_used s a → po_used s' a ∧ rd8 (po_mem s') a = rd8 (po_mem s) a) ∧
  (∀ b k, po_block s b k → po_block s' b k).

Lemma heap_block_kept s s' p n :
  (∀ k, po_block s (p - 8) k → po_block s' (p - 8) k) →
  (∀ a, p - 8 <= a < p → rd8 (po_mem s') a = rd8 (po_mem s) a) →
  heap_block s p n → heap_block s' p n.
Proof.
  intros Hb Hm (c & Hn & Hc & Hs). exists c. split_and!; [lia|lia|by apply Hb|].
  rewrite <- Hs. apply (rd_ext 8). intros a Ha. apply Hm. lia.
Qed.

Lemma heap_block_grows s s' p n : heap_grows s s' → heap_block s p n → heap_block s' p n.
Proof.
  intros [Hm Hb] Hp. apply (heap_block_kept s); [by intros k; apply Hb| |done].
  destruct Hp as (c & Hn & Hc & _). intros a Ha. apply Hm. apply (po_block_used s (p - 8) (c + 8)); [done|lia].
Qed.

Lemma heap_block_inside s p n a :
  heap_block s p n → p <= a < p + n → po_used s a ∧ ¬ heap_private s a.
Proof.
  intros (c & Hn & Hc & _) Ha. split; [apply (po_block_used s (p - 8) (c + 8)); [done|lia]|].
  intros (b & k & Hb & Hk & Hab). destruct (decide (b = p - 8)) as [->|Hne]; [lia|].
  destruct (po_block_apart s b k (p - 8) (c + 8) Hb Hc Hne); lia.
Qed.

Lemma heap_block_apart s p n q k : heap_block s p n → heap_block s q k → p ≠ q → apart p n q k.
Proof.
  intros (c & Hn & Hc & _) (d & Hk & Hd & _) Hne. unfold apart.
  destruct (po_block_apart s _ _ _ _ Hc Hd); lia.
Qed.

(** Memory no one used has no block. *)
Lemma heap_block_fresh s p n k : 0 <= n → (∀ a, p - 8 <= a < p + n → ¬ po_used s a) → ¬ heap_block s p k.
Proof.
  intros Hn Hf (c & Hc & Hb & _). apply (Hf (p - 8)); [lia|]. apply (po_block_used s (p - 8) (c + 8)); [done|lia].
Qed.

(** Stores that leave the sizes alone. *)
Lemma heap_block_set m s p n : (∀ a, heap_private s a → rd8 m a = rd8 (po_mem s) a) →
  heap_block s p n → heap_block (po_set_mem m s) p n.
Proof.
  intros Hm Hp. apply (heap_block_kept s); [intros k; by apply po_block_set| |done].
  intros a Ha. rewrite po_mem_set. apply Hm. destruct Hp as (c & ? & Hc & _). exists (p - 8), (c + 8).
  split_and!; [done|lia..].
Qed.

(** Two blocks, their sizes in front included. *)
Lemma heap_blocks_apart s p n q k a :
  heap_block s p n → heap_block s q k → q ≠ p → q - 8 <= a < q + k →
  po_used s a ∧ ∀ c, po_block s (p - 8) c → ¬ (p - 8 <= a < p - 8 + c).
Proof.
  intros (c & Hn & Hc & _) (d & Hk & Hd & _) Hne Ha. split; [apply (po_block_used s (q - 8) (d + 8)); [done|lia]|].
  intros c' Hc'. destruct (po_block_apart s (p - 8) c' (q - 8) (d + 8) Hc' Hd); lia.
Qed.

Lemma alloc_with_size_spec n s : 0 <= n < 2 ^ 63 →
  wp (alloc_with_size n) (λ p s', heap_grows s s' ∧
    (p = 0 ∨ heap_block s' p n ∧ rd64 (po_mem s') (p - 8) = n ∧ ∀ a, p - 8 <= a < p + n → ¬ po_used s a)) s.
Proof.
  intros Hn. unfold alloc_with_size, sizeof_size_t. wp_step. rewrite u64_small by lia.
  eapply wp_mono; [apply AllocatePool_spec; lia|]. cbv beta. intros [st b] s' (Hm & Hb & [He|(Hn' & He & Hf)]);
    cbn [fst snd] in *; rewrite He; cbn iota; wp_steps; [split; [by split|by left]|].
  destruct (po_block_range _ _ _ Hn') as (R1 & R2 & R3). rewrite u64_small by lia. rewrite po_mem_set.
  replace (b + 8 - 8) with b by lia. split.
  - split; [intros a Ha|intros k c Hk; by apply po_block_set, Hb]. rewrite po_used_set, po_mem_set. split; [by apply Hm|].
    unfold wr64. rewrite rd8_wr_outside; [by apply Hm|]. destruct (decide (b <= a < b + (n + 8))); [by destruct (Hf a)|lia].
  - right. split_and!.
    + exists n. rewrite po_mem_set. replace (b + 8 - 8) with b by lia.
      split_and!; [lia|lia|by apply po_block_set|]. rewrite rd64_wr64_eq. apply u64_small. lia.
    + rewrite rd64_wr64_eq. apply u64_small. lia.
    + intros a Ha. apply Hf. lia.
Qed.

Lemma free_spec p n s : heap_block s p n →
  wp (free p) (λ _ s', ∀ q k, q ≠ p → heap_block s q k → heap_block s' q k ∧
    ∀ a, q <= a < q + k → rd8 (po_mem s') a = rd8 (po_mem s) a) s.
Proof.
  intros Hp. pose proof Hp as (c & Hn & Hc & _). destruct (po_block_range _ _ _ Hc) as (R1 & R2 & R3).
  unfold free, sizeof_size_t. destruct (Z.eqb_spec p 0); [lia|]. rewrite u64_small by lia. wp_step.
  eapply wp_mono; [by apply (FreePool_spec (p - 8) (c + 8))|]. cbv beta. intros r s' [Hm Hb]. wp_step. intros q k Hq Hk.
  assert (∀ a, q - 8 <= a < q + k → rd8 (po_mem s') a = rd8 (po_mem s) a) as Hsame.
  { intros a Ha. destruct (heap_blocks_apart s p n q k a Hp Hk Hq Ha) as [H1 H2]. apply Hm; [done|by apply H2]. }
  split; [|intros a Ha; apply Hsame; lia]. apply (heap_block_kept s); [|intros a Ha; apply Hsame|done].
  - intros d Hd. apply Hb; [lia|done].
  - destruct Hk as (d & ? & _). lia.
Qed.

(** The copy keeps all blocks: it goes into a fresh one. *)
Lemma moved_blocks s s1 q k p c :
  heap_grows s s1 → (∀ a, q - 8 <= a < q + k → ¬ po_used s a) → 0 <= c <= k → p + c <= q ∨ q + k <= p →
  heap_grows s (po_set_mem (memcpy (po_mem s1) q p c) s1) ∧
  ∀ i, 0 <= i < c → rd8 (memcpy (po_mem s1) q p c) (q + i) = rd8 (po_mem s1) (p + i).
Proof.
  intros [Hm Hb] Hf Hc Hd. unfold memcpy. split; [split|].
  - intros a Ha. rewrite po_used_set, po_mem_set. split; [by apply Hm|]. rewrite memcpy_loop_spec by lia.
    rewrite decide_False; [by apply Hm|]. intros Hin. apply (Hf a); [lia|done].
  - intros b n Hn. by apply po_block_set, Hb.
  - intros i Hi. rewrite memcpy_loop_spec, decide_True by lia. f_equal. lia.
Qed.

Lemma realloc_spec ext p n k s : heap_block s p n → 0 < k < 2 ^ 63 →
  wp (realloc ext p k) (λ q s',
    (∀ b c, b ≠ p → heap_block s b c → heap_block s' b c ∧
      ∀ a, b <= a < b + c → rd8 (po_mem s') a = rd8 (po_mem s) a) ∧
    (q = 0 ∧ heap_block s' p n ∧ (∀ a, p <= a < p + n → rd8 (po_mem s') a = rd8 (po_mem s) a) ∨
     heap_block s' q k ∧ (q = p ∨ ∀ k', ¬ heap_block s q k') ∧
       ∀ i, 0 <= i < Z.min n k → rd8 (po_mem s') (q + i) = rd8 (po_mem s) (p + i))) s.
Proof.
  intros Hp Hk. pose proof Hp as (c & Hn & Hc & Hs). destruct (po_block_range _ _ _ Hc) as (R1 & R2 & R3).
  unfold realloc, sizeof_size_t. destruct (Z.eqb_spec p 0); [lia|]. destruct (Z.eqb_spec k 0); [lia|].
  wp_step. wp_step. rewrite u64_small, Hs by lia. cbv zeta. destruct (Z.leb_spec k c) as [Hle|Hgt].
  { wp_step. split; [done|]. right. split; [exists c; by split_and!; try lia|split; [by left|done]]. }
  wp_step. eapply wp_mono; [apply alloc_with_size_spec; lia|]. cbv beta. intros q s1 [Hg Hq].
  assert (∀ b d, heap_block s b d → heap_block s1 b d ∧
    ∀ a, b <= a < b + d → rd8 (po_mem s1) a = rd8 (po_mem s) a) as Hold.
  { intros b d Hb. split; [by apply (heap_block_grows s)|]. intros a Ha. apply Hg. by apply (heap_block_inside s b d). }
  destruct Hq as [->|(Hq & _ & Hf)].
  { cbn [Z.eqb]. wp_step. split; [intros b d _ Hb; by apply Hold|]. left. by split; [|apply Hold]. }
  pose proof Hq as (d & Hd & Hdb & _). destruct (po_block_range _ _ _ Hdb) as (S1 & _).
  destruct (Z.eqb_spec q 0); [lia|]. wp_step. wp_step. wp_step.
  assert (∀ a, p - 8 <= a < p + c → po_used s a) as Hused
    by (intros a Ha; apply (po_block_used s (p - 8) (c + 8)); [done|lia]).
  assert (p + c <= q - 8 ∨ q + k <= p - 8) as Hapart.
  { destruct (Z.le_gt_cases (p + c) (q - 8)); [by left|]. destruct (Z.le_gt_cases (q + k) (p - 8)); [by right|]. exfalso.
    apply (Hf (Z.max (p - 8) (q - 8))); [lia|]. apply Hused. lia. }
  destruct (moved_blocks s s1 q k p c Hg Hf) as [Hg2 Hmv]; [lia|lia|]. set (s2 := po_set_mem _ s1) in *.
  assert (heap_block s2 q k) as Hq2.
  { apply (heap_block_kept s1); [intros e He; by apply po_block_set| |done]. intros a Ha. unfold s2, memcpy.
    rewrite po_mem_set, memcpy_loop_spec, decide_False by lia. done. }
  eapply wp_mono; [apply (free_spec p n s2); by apply (heap_block_grows s)|]. cbv beta. intros [] s3 H3. wp_step. split.
  - intros b e Hbp Hb. destruct (H3 b e Hbp (heap_block_grows s s2 b e Hg2 Hb)) as [H31 H32]. split; [done|].
    intros a Ha. rewrite H32 by done. apply Hg2. by apply (heap_block_inside s b e).
  - right. destruct (H3 q k ltac:(lia) Hq2) as [H31 H32]. split; [done|]. split; [right; intros k'; apply (heap_block_fresh s q k); [lia|done]|].
    intros i Hi. rewrite H32 by lia.
    unfold s2. rewrite po_mem_set, Hmv by lia. apply Hg. apply Hused. lia.
Qed.

#[export] Instance malloc_heap_ops : CHeapOps F := {|
  ch_mem := po_mem; ch_set_mem := po_set_mem; ch_malloc := malloc None; ch_realloc := realloc None; ch_free := free
|}.

#[export] Instance malloc_heap : CHeap F.
Proof.
  refine (Build_CHeap F _ po_used heap_block heap_private po_mem_set po_set_get po_set_set po_used_set _ _ _ _ _ _ _ _).
  - intros m s a. unfold heap_private. by setoid_rewrite po_block_set.
  - exact heap_block_set.
  - intros s p n (c & ? & Hc & _). destruct (po_block_range _ _ _ Hc). lia.
  - exact heap_block_inside.
  - exact heap_block_apart.
  - intros n s Hn. eapply wp_mono; [by apply alloc_with_size_spec|]. cbv beta. intros p s' [Hg Hq]. split_and!; [apply Hg| |].
    + intros q k. by apply heap_block_grows.
    + destruct Hq as [?|(H1 & _ & H2)]; [by left|right]. split_and!; [done|intros k; apply (heap_block_fresh s p n); [lia|done]|]. intros a Ha. apply H2. lia.
  - intros p n k s. apply realloc_spec.
  - intros p n s. apply free_spec.
Defined.
End heap.

(** ** The heap as a map from pointers to contents *)
Section refinement.
Context {F : Type} `{Pool F}.
Implicit Types (s : F) (A : gmap Z (list Z)).

Inductive heap_op :=
| Malloc (size : Z)
| Calloc (nmemb size : Z)
| Realloc (ptr size : Z)
| Free (ptr : Z)
| Store (ptr : Z) (i : nat) (v : Z).

Definition exec (o : heap_op) : M F Z :=
  match o with
  | Malloc n => malloc None n
  | Calloc n k => calloc None n k
  | Realloc p n => realloc None p n
  | Free p => free p ;; mret 0
  | Store p i v => modify (λ s, po_set_mem (wr8 (po_mem s) (p + Z.of_nat i) v) s) ;; mret 0
  end.

Definition sized (n : Z) (l : list Z) : Prop := Z.of_nat (length l) = n.

(** A new block with some contents [P], or a null pointer. *)
Definition fresh_block (P : list Z → Prop) A (r : Z) A' : Prop :=
  (r = 0 ∧ A' = A) ∨ (r ≠ 0 ∧ A !! r = None ∧ ∃ l, P l ∧ A' = <[r := l]> A).

(** What an operation may do to the map, [r] being its result. *)
Definition heap_step (o : heap_op) A (r : Z) A' : Prop :=
  match o with
  | Malloc n => fresh_block (sized n) A r A'
  | Calloc n k => fresh_block (λ l, l = replicate (Z.to_nat (k * n)) 0) A r A'
  | Realloc 0 n => fresh_block (sized n) A r A'
  | Realloc p 0 => r = 0 ∧ A' = delete p A
  | Realloc p n =>
      (r = 0 ∧ A' = A) ∨
      ∃ old l, A !! p = Some old ∧ r ≠ 0 ∧ (r = p ∨ A !! r = None) ∧ sized n l ∧
        let k := Nat.min (length old) (length l) in take k l = take k old ∧ A' = <[r := l]> (delete p A)
  | Free p => A' = delete p A
  | Store p i v => A' = alter (<[i := u8 v]>) p A
  end.

(** Calls the C standard allows, with sizes that can exist. *)
Definition op_allowed A (o : heap_op) : Prop :=
  match o with
  | Malloc n => 0 <= n < 2 ^ 63
  | Calloc n k => 0 <= k * n < 2 ^ 63
  | Realloc p n => 0 <= n < 2 ^ 63 ∧ (p = 0 ∨ is_Some (A !! p))
  | Free p => p = 0 ∨ is_Some (A !! p)
  | Store p i v => ∃ l, A !! p = Some l ∧ (i < length l)%nat
  end.

Definition contents s (p : Z) (l : list Z) : Prop := ∀ i b, l !! i = Some b → rd8 (po_mem s) (p + Z.of_nat i) = b.
Definition holds s A : Prop := ∀ p l, A !! p = Some l → heap_block s p (Z.of_nat (length l)) ∧ contents s p l.

Lemma block_nonzero s p n : heap_block s p n → p ≠ 0.
Proof. intros (c & ? & Hc & _). destruct (po_block_range _ _ _ Hc). lia. Qed.

Lemma holds_insert s A p l : holds s A → heap_block s p (Z.of_nat (length l)) → contents s p l → holds s (<[p := l]> A).
Proof.
  intros Hh Hp Hl q k Hk. apply lookup_insert_Some in Hk as [[<- <-]|[_ Hk]]; [done|by apply Hh].
Qed.

Lemma holds_delete s A p : holds s A → holds s (delete p A).
Proof. intros Hh q l Hq. apply Hh. by apply lookup_delete_Some in Hq as [_ ?]. Qed.

(** All blocks but [p] as they were. *)
Lemma holds_others s s' A p :
  holds s A →
  (∀ q k, q ≠ p → heap_block s q k → heap_block s' q k ∧ ∀ a, q <= a < q + k → rd8 (po_mem s') a = rd8 (po_mem s) a) →
  holds s' (delete p A).
Proof.
  intros Hh Hk q l Hq. apply lookup_delete_Some in Hq as [Hne Hq]. destruct (Hh q l Hq) as [Hb Hc].
  destruct (Hk q _ (not_eq_sym Hne) Hb) as [Hb' Hm]. split; [done|]. intros i b Hi. rewrite Hm; [by apply Hc|].
  apply lookup_lt_Some in Hi. lia.
Qed.

Lemma holds_grows s s' A : holds s A → heap_grows s s' → holds s' A.
Proof.
  intros Hh Hg q l Hq. destruct (Hh q l Hq) as [Hb Hc]. split; [by apply (heap_block_grows s)|].
  intros i b Hi. rewrite <- (Hc i b Hi). apply Hg. apply (heap_block_inside s q (Z.of_nat (length l))); [done|].
  apply lookup_lt_Some in Hi. lia.
Qed.

(** The bytes of a block. *)
Definition block_bytes s (p n : Z) : list Z := (λ i, rd8 (po_mem s) (p + i)) <$> seqZ 0 n.
Lemma block_bytes_contents s p n : contents s p (block_bytes s p n).
Proof.
  intros i b Hi. unfold block_bytes in Hi. apply list_lookup_fmap_Some in Hi as (j & -> & Hj).
  apply lookup_seqZ in Hj as [-> _]. f_equal.
Qed.
Lemma block_bytes_length s p n : 0 <= n → Z.of_nat (length (block_bytes s p n)) = n.
Proof. intros Hn. unfold block_bytes. rewrite length_fmap, length_seqZ. lia. Qed.

Lemma malloc_refines n s A : holds s A → 0 <= n < 2 ^ 63 →
  wp (malloc None n) (λ r s', ∃ A', fresh_block (sized n) A r A' ∧ holds s' A' ∧
    (r = 0 ∨ heap_block s' r n ∧ holds s' A ∧ A !! r = None)) s.
Proof.
  intros Hh Hn. eapply wp_mono; [by apply alloc_with_size_spec|]. cbv beta. intros p s' [Hg [->|(Hb & _ & Hf)]].
  - exists A. split; [by left|]. split; [by apply (holds_grows s)|by left].
  - assert (A !! p = None) as Hp.
    { destruct (A !! p) as [l|] eqn:E; [|done]. destruct (Hh p l E) as [Hl _]. exfalso. revert Hl.
      apply (heap_block_fresh s p n); [lia|done]. }
    pose proof (holds_grows s s' A Hh Hg) as Hh'. exists (<[p := block_bytes s' p n]> A). split_and!.
    + right. split_and!; [by apply (block_nonzero s' p n)|done|]. exists (block_bytes s' p n). split; [apply block_bytes_length; lia|done].
    + apply holds_insert; [done|by rewrite block_bytes_length by lia|apply block_bytes_contents].
    + right. done.
Qed.

(** Stores into the block at [p] only. *)
Lemma holds_store m s A p n :
  holds s A → heap_block s p n → (∀ a, ¬ (p <= a < p + n) → rd8 m a = rd8 (po_mem s) a) →
  holds (po_set_mem m s) (delete p A) ∧ heap_block (po_set_mem m s) p n.
Proof.
  intros Hh Hp Hm.
  assert (∀ q k, heap_block s q k → heap_block (po_set_mem m s) q k) as Hset.
  { intros q k. apply heap_block_set. intros a Ha. apply Hm. intros Hin. by apply (heap_block_inside s p n a Hp Hin). }
  split; [|by apply Hset]. apply (holds_others s); [done|]. intros q k Hq Hk. split; [by apply Hset|].
  intros a Ha. rewrite po_mem_set. apply Hm. destruct (heap_block_apart s p n q k Hp Hk (not_eq_sym Hq)); lia.
Qed.

Lemma calloc_refines n k s A : holds s A → 0 <= k * n < 2 ^ 63 →
  wp (calloc None n k) (λ r s', ∃ A', fresh_block (λ l, l = replicate (Z.to_nat (k * n)) 0) A r A' ∧ holds s' A') s.
Proof.
  intros Hh Hn. unfold calloc. rewrite u64_small by lia. wp_step. eapply wp_mono; [by apply malloc_refines|]. cbv beta.
  intros r s' (A1 & Hf & Hh1 & Hr). destruct (Z.eqb_spec r 0) as [->|Hne].
  { wp_step. destruct Hf as [[_ ->]|[? _]]; [|done]. exists A. split; [by left|done]. }
  wp_step. wp_step. wp_step. destruct Hr as [?|(Hb & HA & HrA)]; [done|].
  assert (∀ a, rd8 (memset (po_mem s') r 0 (k * n)) a =
    if decide (r <= a < r + k * n) then 0 else rd8 (po_mem s') a) as Hm.
  { intros a. unfold memset. rewrite memset_loop_fill, rd8_fill, Z2Nat.id by lia. done. }
  set (l := replicate (Z.to_nat (k * n)) 0). assert (Z.of_nat (length l) = k * n) as Hl by (unfold l; rewrite length_replicate; lia).
  destruct (holds_store (memset (po_mem s') r 0 (k * n)) s' A r (k * n) HA Hb) as [H1 H2].
  { intros a Ha. rewrite Hm. by rewrite decide_False. }
  exists (<[r := l]> A). split.
  - right. split_and!; [done|done|]. by exists l.
  - rewrite delete_id in H1 by done. apply holds_insert; [done|by rewrite Hl|]. intros i b Hi. pose proof (lookup_lt_Some _ _ _ Hi).
    apply lookup_replicate in Hi as [-> _]. rewrite po_mem_set, Hm, decide_True by lia. done.
Qed.

Lemma realloc_refines p n s A old : holds s A → A !! p = Some old → 0 < n < 2 ^ 63 →
  wp (realloc None p n) (λ r s', ∃ A', heap_step (Realloc p n) A r A' ∧ holds s' A') s.
Proof.
  intros Hh Hp Hn. destruct (Hh p old Hp) as [Hb Hc]. pose proof (block_nonzero _ _ _ Hb) as Hp0.
  eapply wp_mono; [by apply (realloc_spec None p _ n s Hb)|]. cbv beta. intros q s' [Ho Hq].
  pose proof (holds_others s s' A p Hh Ho) as Hd.
  assert (∀ A', ((q = 0 ∧ A' = A) ∨ ∃ old l, A !! p = Some old ∧ q ≠ 0 ∧ (q = p ∨ A !! q = None) ∧ sized n l ∧
        let k := Nat.min (length old) (length l) in take k l = take k old ∧ A' = <[q := l]> (delete p A)) →
      heap_step (Realloc p n) A q A') as Hstep by (intros A' HA; destruct p; [done|..]; destruct n; done || lia).
  destruct Hq as [(-> & Hb' & Hm)|(Hb' & Hnew & Hm)].
  - exists A. split; [by apply Hstep; left|]. rewrite <- (insert_delete_id A p old Hp). apply holds_insert; [done|done|].
    intros i b Hi. rewrite Hm; [by apply Hc|]. apply lookup_lt_Some in Hi. lia.
  - set (l := block_bytes s' q n). assert (Z.of_nat (length l) = n) as Hl by (apply block_bytes_length; lia).
    exists (<[q := l]> (delete p A)). split.
    + apply Hstep. right. exists old, l. split_and!; [done|by apply (block_nonzero s' q n)| |done|].
      * destruct Hnew as [->|Hnew]; [by left|right]. destruct (A !! q) as [l'|] eqn:E; [|done].
        exfalso. apply (Hnew (Z.of_nat (length l'))). by apply Hh.
      * split; [|done]. set (k := Nat.min _ _). apply list_eq. intros i. destruct (decide (i < k)%nat) as [Hi|Hi].
        2: { rewrite !lookup_take_ge by lia. done. }
        rewrite !lookup_take_lt by done. destruct (lookup_lt_is_Some_2 old i) as [b Eb]; [lia|].
        destruct (lookup_lt_is_Some_2 l i) as [c Ec]; [lia|]. rewrite Eb, Ec. f_equal.
        rewrite <- (Hc i b Eb), <- (block_bytes_contents s' q n i c Ec). apply Hm. lia.
    + apply holds_insert; [done|by rewrite Hl|apply block_bytes_contents].
Qed.

(** C10. The heap refines a map from pointers to contents.  Started from any
    heap that holds the blocks of the map [A], each call that the C standard
    allows terminates without undefined behaviour and does to the map what
    [heap_step] says: [malloc] and [calloc] (cleared) give a block under a new
    pointer or a null pointer and leave all others as they were; [realloc] keeps
    the contents up to the smaller size, in place or under a new pointer, or
    fails and changes nothing; with a null pointer it allocates, with size 0 it
    frees; [free] removes the block; a store into a block changes that byte of
    that block only. *)
Theorem heap_refines_map o s A :
  holds s A → op_allowed A o → wp (exec o) (λ r s', ∃ A', heap_step o A r A' ∧ holds s' A') s.
Proof.
  intros Hh Ho. destruct o as [n|n k|p n|p|p i v]; cbn [exec op_allowed] in *.
  - eapply wp_mono; [by apply malloc_refines|]. cbv beta. intros r s' (A' & ? & ? & _). by exists A'.
  - by apply calloc_refines.
  - destruct Ho as [Hn [->|[old Hp]]].
    { eapply wp_mono; [by apply malloc_refines|]. cbv beta. intros r s' (A' & ? & ? & _). by exists A'. }
    destruct (decide (n = 0)) as [->|Hn0]; [|apply (realloc_refines p n s A old); [done|done|lia]].
    destruct (Hh p old Hp) as [Hb _]. pose proof (block_nonzero _ _ _ Hb) as Hp0. unfold realloc.
    destruct (Z.eqb_spec p 0); [done|]. cbn [Z.eqb]. wp_step. eapply wp_mono; [exact (free_spec p _ s Hb)|].
    cbv beta. intros [] s' Hf. wp_step. exists (delete p A). split; [by destruct p|by apply (holds_others s)].
  - wp_step. destruct Ho as [->|[l Hl]].
    { unfold free. cbn [Z.eqb]. wp_steps. exists A. split; [|done]. cbn. symmetry. apply delete_id.
      destruct (A !! 0) as [l|] eqn:E; [|done]. destruct (Hh 0 l E) as [Hb _]. by apply block_nonzero in Hb. }
    destruct (Hh p l Hl) as [Hb _]. eapply wp_mono; [exact (free_spec p _ s Hb)|]. cbv beta. intros [] s' Hf. wp_step.
    exists (delete p A). split; [done|by apply (holds_others s)].
  - destruct Ho as (l & Hl & Hi). destruct (Hh p l Hl) as [Hb Hc]. wp_step. wp_step. wp_step.
    destruct (holds_store (wr8 (po_mem s) (p + Z.of_nat i) v) s A p _ Hh Hb) as [H1 H2].
    { intros a Ha. rewrite rd8_wr8. by rewrite decide_False by lia. }
    exists (<[p := <[i := u8 v]> l]> A). split.
    + cbn. apply map_eq. intros q. rewrite lookup_alter, lookup_insert. case_decide; subst; [by rewrite Hl|done].
    + rewrite <- insert_delete_eq. apply holds_insert; [done|by rewrite length_insert|]. intros j b Hj.
      rewrite po_mem_set, rd8_wr8. apply list_lookup_insert_Some in Hj as [(<- & <- & _)|[Hne Hj]].
      * by rewrite decide_True.
      * rewrite decide_False by lia. by apply Hc.
Qed.
End refinement.

(** ** A pool *)
(** Blocks one after the other from 4096 on, sixteen bytes apart; a flag says
    whether a block is still in use. *)
Record demo_pool := DemoPool { dp_mem : mem; dp_blocks : list (Z * bool) }.

Fixpoint find_block (start : Z) (l : list (Z * bool)) (b : Z) : option Z :=
  match l with
  | [] => None
  | (n, live) :: l =>
      if b =? start then if live && (0 <=? n) && (start + n <=? 2 ^ 63) then Some n else None
      else find_block (start + Z.max 0 n + 16) l b
  end.
Fixpoint pool_top (start : Z) (l : list (Z * bool)) : Z :=
  match l with [] => start | (n, _) :: l => pool_top (start + Z.max 0 n + 16) l end.
Fixpoint drop_block (start : Z) (l : list (Z * bool)) (b : Z) : list (Z * bool) :=
  match l with
  | [] => []
  | (n, live) :: l =>
      if b =? start then (n, false) :: l else (n, live) :: drop_block (start + Z.max 0 n + 16) l b
  end.

Definition demo_allocate (n : Z) : M demo_pool (Z * Z) := λ s,
  let b := pool_top 4096 (dp_blocks s) in
  if b + n <=? 2 ^ 63 then Done ((0, b), DemoPool (dp_mem s) (dp_blocks s ++ [(n, true)]))
  else Done ((2 ^ 63 + 9, 0), s).
Definition demo_free (b : Z) : M demo_pool Z := λ s, Done (0, DemoPool (dp_mem s) (drop_block 4096 (dp_blocks s) b)).

#[export] Instance demo_pool_ops : PoolOps demo_pool := {|
  po_mem := dp_mem; po_set_mem m s := DemoPool m (dp_blocks s); AllocatePool := demo_allocate; FreePool := demo_free
|}.

Lemma pool_top_ge start l : start <= pool_top start l.
Proof. revert start. induction l as [|[n v] l IH]; intros start; cbn; [lia|]. specialize (IH (start + Z.max 0 n + 16)). lia. Qed.

Lemma find_block_range start l b n : find_block start l b = Some n →
  start <= b ∧ 0 <= n ∧ b + n <= 2 ^ 63 ∧ b + n < pool_top start l.
Proof.
  revert start. induction l as [|[k v] l IH]; intros start E; cbn in *; [done|].
  destruct (Z.eqb_spec b start) as [->|Hne].
  - destruct v, (Z.leb_spec 0 k), (Z.leb_spec (start + k) (2 ^ 63)); cbn [andb] in E; try done. injection E as ->.
    pose proof (pool_top_ge (start + Z.max 0 n + 16) l). lia.
  - specialize (IH _ E). lia.
Qed.

Lemma find_block_apart start l b n b' n' :
  find_block start l b = Some n → find_block start l b' = Some n' → b ≠ b' → apart b n b' n'.
Proof.
  unfold apart. revert start. induction l as [|[k v] l IH]; intros start E E' Hne; [done|].
  cbn [find_block] in *. destruct (Z.eqb_spec b start) as [->|Hb], (Z.eqb_spec b' start) as [->|Hb']; [done| | |by apply (IH _ E E')].
  - pose proof (find_block_range _ _ _ _ E'). destruct (v && (0 <=? k) && (start + k <=? 2 ^ 63)); [injection E as ->|done]. lia.
  - pose proof (find_block_range _ _ _ _ E). destruct (v && (0 <=? k) && (start + k <=? 2 ^ 63)); [injection E' as ->|done]. lia.
Qed.

Lemma find_block_snoc start l n b :
  0 <= n → pool_top start l + n <= 2 ^ 63 →
  find_block start (l ++ [(n, true)]) b = if decide (b = pool_top start l) then Some n else find_block start l b.
Proof.
  intros Hn. revert start. induction l as [|[k v] l IH]; intros start Hr; cbn [find_block app pool_top] in *.
  - destruct (Z.eqb_spec b start); case_decide; try done. destruct (Z.leb_spec 0 n), (Z.leb_spec (start + n) (2 ^ 63)); try lia. done.
  - pose proof (pool_top_ge (start + Z.max 0 k + 16) l). rewrite IH by done.
    destruct (Z.eqb_spec b start); case_decide; try done; lia.
Qed.

Lemma find_block_drop start l b b' : b' ≠ b → find_block start (drop_block start l b) b' = find_block start l b'.
Proof.
  intros Hne. revert start. induction l as [|[k v] l IH]; intros start; [done|]. cbn [drop_block find_block].
  destruct (Z.eqb_spec b start) as [->|Hb]; cbn [find_block]; destruct (Z.eqb_spec b' start); try done.
Qed.

Definition demo_block (s : demo_pool) (b n : Z) : Prop := find_block 4096 (dp_blocks s) b = Some n.
#[export] Instance demo_pool_laws : Pool demo_pool.
Proof.
  refine (Build_Pool demo_pool _ (λ s a, ∃ b n, demo_block s b n ∧ b <= a < b + n) demo_block _ _ _ _ _ _ _ _ _ _ _); try done.
  - by intros [].
  - intros s b n E. pose proof (find_block_range _ _ _ _ E). lia.
  - intros s b n a Hb Ha. by exists b, n.
  - unfold demo_block. intros s b n n' E E'. congruence.
  - intros s b n b' n'. apply find_block_apart.
  - intros n s Hn. unfold wp, AllocatePool, demo_pool_ops, demo_allocate. destruct (Z.leb_spec (pool_top 4096 (dp_blocks s) + n) (2 ^ 63)).
    2: { split_and!; [done|done|by left]. }
    assert (∀ b k, demo_block s b k → find_block 4096 (dp_blocks s ++ [(n, true)]) b = Some k) as Hold.
    { intros b k E. rewrite find_block_snoc by done. case_decide; [|done]. pose proof (find_block_range _ _ _ _ E). lia. }
    split_and!; [|by intros b k E; apply Hold|right; split_and!; [|done|]].
    + intros a (b & k & Hb & Ha). split; [|done]. exists b, k. split; [by apply Hold|done].
    + unfold demo_block. cbn. rewrite find_block_snoc by done. by rewrite decide_True.
    + cbn. intros a Ha (b & k & Hb & Hab). pose proof (find_block_range _ _ _ _ Hb). lia.
  - intros b n s Hb. unfold wp, FreePool, demo_pool_ops, demo_free, demo_block. cbn [dp_blocks]. split.
    + intros a (b' & k & Hb' & Ha) Hnot. split; [|done]. destruct (decide (b' = b)) as [->|Hne].
      * unfold demo_block in *. assert (k = n) as -> by congruence. done.
      * exists b', k. split; [|done]. by rewrite find_block_drop.
    + intros b' k Hne E. by rewrite find_block_drop.
Defined.

Lemma heap_refines_map_witness :
  wp (exec (Realloc 4104 20)) (λ r s', ∃ A', heap_step (Realloc 4104 20) {[ 4104 := [7; 9] ]} r A' ∧ holds s' A')
    (DemoPool (wr8 (wr8 (wr64 ∅ 4096 2) 4104 7) 4105 9) [(10, true)]).
Proof.
  apply (heap_refines_map (F := demo_pool)).
  - intros p l Hl. apply lookup_singleton_Some in Hl as [<- <-]. split.
    + exists 2. split_and!; [done|done|by vm_compute|by vm_compute].
    + intros [|[|i]] b Hi; cbn in Hi; try (injection Hi as <-; by vm_compute). done.
  - cbn. split; [lia|]. right. rewrite lookup_singleton_eq. done.
Defined.
