(* ===== verification/EfiFile.v ===== *)
(** * Streams of the EFI C library

    src/tload/tloadefi/efilibc/file.c.  A [FILE] is a record in a store under
    its address; path names, buffers and file information lie in memory.  The
    firmware's EFI_FILE protocol is the interface [EfiFileOps], with what the
    UEFI specification says of a volume that works in [Volume]; the functions
    registered for the standard streams are parameters.  Messages on [stderr]
    are left out; a failed [assert] stops the program.  [long] has 32 bits, as
    in the compiler the Makefile names. *)

From stdpp Require Import base numbers list strings gmap.
From Stdlib Require Import Lia.
From S2P Require Import Prelude Mem LibcString EfiHeap.
Open Scope Z_scope.

Definition EFI_SUCCESS : Z := 0.
Definition EFI_WARN_DELETE_FAILURE : Z := 2.
Definition EFI_BUFFER_TOO_SMALL : Z := 2 ^ 63 + 5.
Definition EFI_NOT_FOUND : Z := 2 ^ 63 + 14.
Definition EFI_FILE_MODE_READ : Z := 1.
Definition EFI_FILE_MODE_WRITE : Z := 2.
Definition EFI_FILE_DIRECTORY : Z := 0x10.

Definition EFAULT : Z := -6.
Definition ENOENT : Z := -7.
Definition EINVAL : Z := -8.
Definition ENOMEM : Z := -9.
Definition EBADF : Z := -11.
Definition EMFILE : Z := -12.
Definition ENOTDIR : Z := -14.

(** stdio.h *)
Definition stdin : Z := 0.
Definition stdout : Z := 1.
Definition stderr : Z := 2.
Definition EOF : Z := 0xff.
Definition SEEK_SET : Z := 0.
Definition SEEK_CUR : Z := 1.
Definition SEEK_END : Z := 2.
Definition is_std (stream : Z) : bool := (stream =? stdin) || (stream =? stdout) || (stream =? stderr).

(** fcntl.h *)
Definition O_ACCMODE : Z := 0xff0000.
Definition O_RDONLY : Z := 0x20000.
Definition O_RDWR : Z := 0x40000.
Definition O_WRONLY : Z := 0x100000.

Definition MAX_FILENO : Z := 1024.

(** ** The firmware's files *)
(** [this->Open], ... of EFI_FILE, with their status. *)
Class EfiFileOps (P : Type) := {
  (** root, name, mode, attributes: the new file *)
  fi_Open : Z → list Z → Z → Z → M P (Z * Z);
  (** file, size: the bytes read *)
  fi_Read : Z → Z → M P (Z * list Z);
  (** file, bytes: how many were written *)
  fi_Write : Z → list Z → M P (Z * Z);
  fi_GetPosition : Z → M P (Z * Z);
  fi_SetPosition : Z → Z → M P Z;
  (** file, size of the buffer, whether it is null: the new size and the bytes
      of the information stored *)
  fi_GetInfo : Z → Z → bool → M P (Z * Z * list Z);
  fi_Flush : Z → M P Z;
  fi_Close : Z → M P Z;
  fi_Delete : Z → M P Z
}.

(** struct _FILE *)
Record FILE := File { file : Z; eof : Z; error : Z; fileno_ : Z; istty : Z; ttyno : Z }.
Definition sizeof_FILE : Z := 32.
Definition sizeof_DIR : Z := 8.
Definition set_eof (v : Z) (f : FILE) : FILE := File (file f) v (error f) (fileno_ f) (istty f) (ttyno f).
Definition set_error (v : Z) (f : FILE) : FILE := File (file f) (eof f) v (fileno_ f) (istty f) (ttyno f).

(** The heap, the volume, the streams and directories by address, and the
    variables of file.c. *)
Record io (H P : Type) := Io {
  heap : H; vol : P;
  streams : gmap Z FILE; dirs : gmap Z Z;
  fileno_map : list Z; next_fileno : Z; fopen_root : Z; errno : Z;
  stdout_fwrite : Z; stderr_fwrite : Z; stdin_fread : Z;
  stdout_data : Z; stderr_data : Z; stdin_data : Z
}.
Arguments Io {H P}. Arguments heap {H P}. Arguments vol {H P}. Arguments streams {H P}. Arguments dirs {H P}.
Arguments fileno_map {H P}. Arguments next_fileno {H P}. Arguments fopen_root {H P}. Arguments errno {H P}.
Arguments stdout_fwrite {H P}. Arguments stderr_fwrite {H P}. Arguments stdin_fread {H P}.
Arguments stdout_data {H P}. Arguments stderr_data {H P}. Arguments stdin_data {H P}.

Section code.
Context {H P : Type} {CO : CHeapOps H} {FO : EfiFileOps P}.
(** The functions registered for the standard streams, by address. *)
Context (call_fwrite call_fread : Z → Z → Z → Z → Z → M (io H P) Z).

Definition with_heap (f : H → H) (s : io H P) : io H P :=
  Io (f (heap s)) (vol s) (streams s) (dirs s) (fileno_map s) (next_fileno s) (fopen_root s) (errno s)
    (stdout_fwrite s) (stderr_fwrite s) (stdin_fread s) (stdout_data s) (stderr_data s) (stdin_data s).
Definition with_vol (v : P) (s : io H P) : io H P :=
  Io (heap s) v (streams s) (dirs s) (fileno_map s) (next_fileno s) (fopen_root s) (errno s)
    (stdout_fwrite s) (stderr_fwrite s) (stdin_fread s) (stdout_data s) (stderr_data s) (stdin_data s).
Definition with_streams (f : gmap Z FILE → gmap Z FILE) (s : io H P) : io H P :=
  Io (heap s) (vol s) (f (streams s)) (dirs s) (fileno_map s) (next_fileno s) (fopen_root s) (errno s)
    (stdout_fwrite s) (stderr_fwrite s) (stdin_fread s) (stdout_data s) (stderr_data s) (stdin_data s).
Definition with_dirs (f : gmap Z Z → gmap Z Z) (s : io H P) : io H P :=
  Io (heap s) (vol s) (streams s) (f (dirs s)) (fileno_map s) (next_fileno s) (fopen_root s) (errno s)
    (stdout_fwrite s) (stderr_fwrite s) (stdin_fread s) (stdout_data s) (stderr_data s) (stdin_data s).
Definition with_map (f : list Z → list Z) (s : io H P) : io H P :=
  Io (heap s) (vol s) (streams s) (dirs s) (f (fileno_map s)) (next_fileno s) (fopen_root s) (errno s)
    (stdout_fwrite s) (stderr_fwrite s) (stdin_fread s) (stdout_data s) (stderr_data s) (stdin_data s).
Definition with_next (v : Z) (s : io H P) : io H P :=
  Io (heap s) (vol s) (streams s) (dirs s) (fileno_map s) v (fopen_root s) (errno s)
    (stdout_fwrite s) (stderr_fwrite s) (stdin_fread s) (stdout_data s) (stderr_data s) (stdin_data s).
Definition with_errno (v : Z) (s : io H P) : io H P :=
  Io (heap s) (vol s) (streams s) (dirs s) (fileno_map s) (next_fileno s) (fopen_root s) v
    (stdout_fwrite s) (stderr_fwrite s) (stdin_fread s) (stdout_data s) (stderr_data s) (stdin_data s).

Definition efilibc_register_stdout_fwrite (f data : Z) : M (io H P) Z :=
  modify (λ s, Io (heap s) (vol s) (streams s) (dirs s) (fileno_map s) (next_fileno s) (fopen_root s) (errno s)
    f (stderr_fwrite s) (stdin_fread s) data (stderr_data s) (stdin_data s)) ;; mret 0.
Definition efilibc_register_stderr_fwrite (f data : Z) : M (io H P) Z :=
  modify (λ s, Io (heap s) (vol s) (streams s) (dirs s) (fileno_map s) (next_fileno s) (fopen_root s) (errno s)
    (stdout_fwrite s) f (stdin_fread s) (stdout_data s) data (stdin_data s)) ;; mret 0.
Definition efilibc_register_stdin_fread (f data : Z) : M (io H P) Z :=
  modify (λ s, Io (heap s) (vol s) (streams s) (dirs s) (fileno_map s) (next_fileno s) (fopen_root s) (errno s)
    (stdout_fwrite s) (stderr_fwrite s) f (stdout_data s) (stderr_data s) data) ;; mret 0.

Definition io_mem (s : io H P) : mem := ch_mem (heap s).
Definition with_mem (f : mem → mem) (s : io H P) : io H P := with_heap (λ h, ch_set_mem (f (ch_mem h)) h) s.
Definition on_heap {A} (c : M H A) : M (io H P) A := λ s, obind (c (heap s)) (λ p, Done (p.1, with_heap (λ _, p.2) s)).
Definition on_vol {A} (c : M P A) : M (io H P) A := λ s, obind (c (vol s)) (λ p, Done (p.1, with_vol p.2 s)).
(** [errno = e; return v;] *)
Definition fails {A} (e : Z) (v : A) : M (io H P) A := modify (with_errno e) ;; mret v.
(** [*stream] and [stream->... = ...]. *)
Definition strm (p : Z) : M (io H P) FILE :=
  s ← get; match streams s !! p with Some f => mret f | None => undef end.
Definition upd (p : Z) (g : FILE → FILE) : M (io H P) unit :=
  f ← strm p; modify (with_streams (<[p := g f]>)).
(** [fileno_map[fd]], an array of MAX_FILENO. *)
Definition map_get (fd : Z) : M (io H P) Z :=
  s ← get; if fd <? 0 then undef else match fileno_map s !! Z.to_nat fd with Some p => mret p | None => undef end.
Definition map_set (fd p : Z) : M (io H P) unit :=
  _ ← map_get fd; modify (with_map (<[Z.to_nat fd := p]>)).

(** ** Names *)
(** [conv_backslashes], and the name the firmware reads. *)
Fixpoint conv_backslashes (fuel : nat) (m : mem) (p : Z) : outcome mem :=
  match fuel with
  | O => Hang
  | S fuel =>
      if rd16 m p =? 0 then Done m
      else conv_backslashes fuel (if rd16 m p =? 47 then wr16 m p 92 else m) (p + 2)
  end.
Fixpoint wide_name (fuel : nat) (m : mem) (p : Z) : outcome (list Z) :=
  match fuel with
  | O => Hang
  | S fuel => if rd16 m p =? 0 then Done [] else obind (wide_name fuel m (p + 2)) (λ l, Done (rd16 m p :: l))
  end.

(** The name in 16-bit characters, for [Open]. *)
Definition open_name (fuel : nat) (path openmode : Z) : M (io H P) (option (Z * Z)) :=
  s ← get;
  n ← lift (strlen fuel (io_mem s) path);
  wfname ← on_heap (ch_malloc (u64 (u64 (n + 1) * 2)));
  if wfname =? 0 then fails ENOMEM None
  else
    s ← get;
    r ← lift (mbstowcs fuel (io_mem s) wfname path (u64 (n + 1)));
    modify (with_mem (λ _, r.2)) ;;
    s ← get;
    m ← lift (conv_backslashes fuel (io_mem s) wfname);
    modify (with_mem (λ _, m)) ;;
    name ← lift (wide_name fuel m wfname);
    o ← on_vol (fi_Open (fopen_root s) name openmode 0);
    on_heap (ch_free wfname) ;;
    if o.1 =? EFI_NOT_FOUND then fails ENOENT None
    else if EFI_ERROR o.1 then fails EFAULT None
    else mret (Some o).

(** ** Streams *)
Definition fopen_mode (m : mem) (mode : Z) : Z :=
  if rd8 m mode =? 114 then
    if rd8 m (mode + 1) =? 43 then Z.lor EFI_FILE_MODE_READ EFI_FILE_MODE_WRITE else EFI_FILE_MODE_READ
  else Z.lor EFI_FILE_MODE_READ EFI_FILE_MODE_WRITE.

Definition fopen (fuel : nat) (path mode : Z) : M (io H P) Z :=
  s ← get;
  if fopen_root s =? 0 then fails EFAULT 0
  else if MAX_FILENO <=? next_fileno s then fails EMFILE 0
  else if mode =? 0 then fails EINVAL 0
  else
    o ← open_name fuel path (fopen_mode (io_mem s) mode);
    match o with
    | None => mret 0
    | Some (_, f) =>
        ret ← on_heap (ch_malloc sizeof_FILE);
        if ret =? 0 then hang
        else
          s ← get;
          let fd := next_fileno s in
          modify (with_streams (<[ret := File f 0 0 fd 0 0]>)) ;;
          modify (with_next (s32 (fd + 1))) ;;
          map_set fd ret ;;
          mret ret
    end.

Definition fread (ptr size nmemb stream : Z) : M (io H P) Z :=
  s ← get;
  if stream =? stdin then if stdin_fread s =? 0 then undef else call_fread (stdin_fread s) ptr size nmemb (stdin_data s)
  else if (stream =? stdout) || (stream =? stderr) then mret 0
  else if (stream =? 0) || (ptr =? 0) then fails EINVAL 0
  else
    let buf_size := u64 (size * nmemb) in
    f ← strm stream;
    r ← on_vol (fi_Read (file f) buf_size);
    if EFI_ERROR r.1 then mret 0
    else
      modify (with_mem (λ m, put_bytes m ptr r.2)) ;;
      let got := Z.of_nat (length r.2) in
      (if negb (got =? buf_size) then upd stream (set_eof 1) else mret tt) ;;
      if size =? 0 then undef else mret (got / size).

Definition bytes_at (m : mem) (ptr n : Z) : list Z := (λ i, rd8 m (ptr + Z.of_nat i)) <$> seq 0 (Z.to_nat n).

Definition fwrite (ptr size nmemb stream : Z) : M (io H P) Z :=
  s ← get;
  if stream =? stdin then mret 0
  else if stream =? stdout then
    if stdout_fwrite s =? 0 then undef else call_fwrite (stdout_fwrite s) ptr size nmemb (stdout_data s)
  else if stream =? stderr then
    if stderr_fwrite s =? 0 then undef else call_fwrite (stderr_fwrite s) ptr size nmemb (stderr_data s)
  else if (stream =? 0) || (ptr =? 0) then fails EINVAL 0
  else
    let buf_size := u64 (size * nmemb) in
    f ← strm stream;
    r ← on_vol (fi_Write (file f) (bytes_at (io_mem s) ptr buf_size));
    if EFI_ERROR r.1 then mret 0
    else
      (if negb (r.2 =? buf_size) then upd stream (set_eof 1) else mret tt) ;;
      if size =? 0 then undef else mret (r.2 / size).

(** [local] is the address of the local variable. *)
Definition fgetc (local stream : Z) : M (io H P) Z :=
  n ← fread local 1 1 stream;
  if negb (n =? 1) then mret EOF else s ← get; mret (s8 (rd8 (io_mem s) local)).
Definition fputc (local c stream : Z) : M (io H P) Z :=
  modify (with_mem (λ m, wr32 m local c)) ;;
  n ← fwrite local 1 1 stream;
  if negb (n =? 1) then mret EOF else mret c.

Definition fclose (stream : Z) : M (io H P) Z :=
  if (stream =? 0) || is_std stream then fails EBADF EOF
  else
    f ← strm stream;
    _ ← on_vol (fi_Close (file f));
    map_set (fileno_ f) 0 ;;
    modify (with_streams (base.delete stream)) ;;
    on_heap (ch_free stream) ;;
    mret 0.

Definition clearerr (stream : Z) : M (io H P) unit :=
  if (stream =? 0) || is_std stream then mret tt else upd stream (set_error 0) ;; upd stream (set_eof 0).
Definition feof (stream : Z) : M (io H P) Z :=
  if (stream =? 0) || (stream =? stdin) then mret 0
  else if (stream =? stdout) || (stream =? stderr) then mret 1
  else f ← strm stream; mret (eof f).
Definition ferror (stream : Z) : M (io H P) Z :=
  if stream =? 0 then mret 1 else if is_std stream then mret 0 else f ← strm stream; mret (error f).
Definition fileno (stream : Z) : M (io H P) Z := f ← strm stream; mret (fileno_ f).

Definition isatty (fd : Z) : M (io H P) Z :=
  if (fd <? 0) || (MAX_FILENO <? fd) then fails EBADF 0
  else if (fd =? 0) || (fd =? 1) || (fd =? 2) then mret 1
  else
    p ← map_get fd;
    if p =? 0 then fails EBADF 0
    else f ← strm p; if truth (istty f) then mret (istty f) else fails EINVAL (istty f).

(** The size in the EFI_FILE_INFO. *)
Definition fsize (stream : Z) : M (io H P) Z :=
  f ← strm stream;
  r ← on_vol (fi_GetInfo (file f) 0 true);
  let '(st, buf_size, _) := r : Z * Z * list Z in
  if negb (st =? EFI_BUFFER_TOO_SMALL) then fails EFAULT (-1)
  else
    fi ← on_heap (ch_malloc buf_size);
    if fi =? 0 then fails ENOMEM (-1)
    else
      r ← on_vol (fi_GetInfo (file f) buf_size false);
      let '(st, _, info) := r : Z * Z * list Z in
      if EFI_ERROR st then on_heap (ch_free fi) ;; fails EFAULT (-1)
      else
        modify (with_mem (λ m, put_bytes m fi info)) ;;
        s ← get;
        let len := s32 (rd64 (io_mem s) (fi + 8)) in
        on_heap (ch_free fi) ;;
        mret len.

(** The position [fseek] asks for. *)
Definition seek_pos (stream pos whence : Z) : M (io H P) (option Z) :=
  if whence =? SEEK_SET then mret (Some (u64 pos))
  else if whence =? SEEK_CUR then
    f ← strm stream;
    r ← on_vol (fi_GetPosition (file f));
    if EFI_ERROR r.1 then fails EFAULT None
    else mret (Some (if pos <? 0 then u64 (r.2 - u64 (s32 (- pos))) else u64 (r.2 + u64 pos)))
  else if whence =? SEEK_END then n ← fsize stream; mret (Some (u64 (n + u64 pos)))
  else fails EINVAL None.

Definition fseek (stream pos whence : Z) : M (io H P) Z :=
  if is_std stream || (stream =? 0) then fails EBADF (-1)
  else
    np ← seek_pos stream pos whence;
    match np with
    | None => mret (-1)
    | Some new_pos =>
        f ← strm stream;
        st ← on_vol (fi_SetPosition (file f) new_pos);
        if EFI_ERROR st then fails EFAULT (-1)
        else upd stream (set_eof 0) ;; mret 0
    end.

Definition rewind (stream : Z) : M (io H P) unit :=
  r ← fseek stream 0 SEEK_SET; if r =? 0 then upd stream (set_error 0) else mret tt.

Definition ftell (stream : Z) : M (io H P) Z :=
  if is_std stream || (stream =? 0) then fails EBADF (-1)
  else
    f ← strm stream;
    r ← on_vol (fi_GetPosition (file f));
    if EFI_ERROR r.1 then fails EFAULT (-1) else mret (s32 r.2).

Definition fgetpos (stream pos : Z) : M (io H P) Z :=
  p ← ftell stream;
  if p =? -1 then mret (-1) else modify (with_mem (λ m, wr32 m pos p)) ;; mret 0.
Definition fsetpos (stream pos : Z) : M (io H P) Z :=
  s ← get; fseek stream (s32 (rd32 (io_mem s) pos)) SEEK_SET.

Definition fflush (stream : Z) : M (io H P) Z :=
  if (stream =? stdin) || (stream =? 0) then fails EBADF EOF
  else if (stream =? stderr) || (stream =? stdout) then mret 0
  else
    f ← strm stream;
    st ← on_vol (fi_Flush (file f));
    if EFI_ERROR st then fails EFAULT EOF else mret 0.

(** [r] is the address of the string ["r"]. *)
Definition remove (fuel : nat) (r pathname : Z) : M (io H P) Z :=
  if pathname =? 0 then fails EINVAL (-1)
  else
    p ← fopen fuel pathname r;
    if p =? 0 then mret (-1)
    else
      f ← strm p;
      st ← on_vol (fi_Delete (file f));
      map_set (fileno_ f) 0 ;;
      modify (with_streams (base.delete p)) ;;
      on_heap (ch_free p) ;;
      if st =? EFI_WARN_DELETE_FAILURE then fails EFAULT (-1) else mret 0.

(** ** Descriptors *)
(** Strings ["r"], ["w"] and ["r+"]. *)
Definition open (fuel : nat) (r w rw pathname flags : Z) : M (io H P) Z :=
  let access_flag := Z.land flags O_ACCMODE in
  let mode := if truth (Z.land access_flag O_RDONLY) then Some r
              else if truth (Z.land access_flag O_WRONLY) then Some w
              else if truth (Z.land access_flag O_RDWR) then Some rw else None in
  match mode with
  | None => fails EINVAL (-1)
  | Some mode => p ← fopen fuel pathname mode; if p =? 0 then mret (-1) else f ← strm p; mret (fileno_ f)
  end.

(** The stream of a descriptor, or the error. *)
Definition with_fd (fildes : Z) (k : Z → M (io H P) Z) : M (io H P) Z :=
  s ← get;
  if (next_fileno s <=? fildes) || (fildes <? 0) then fails EBADF (-1)
  else p ← map_get fildes; if p =? 0 then fails EBADF (-1) else k p.

Definition read (fildes buf nbyte : Z) : M (io H P) Z :=
  with_fd fildes (λ p,
    n ← fread buf 1 nbyte p;
    if n =? 0 then f ← strm p; if negb (eof f =? 1) then mret (-1) else mret n else mret (s64 n)).
Definition write (fildes buf nbyte : Z) : M (io H P) Z :=
  with_fd fildes (λ p, n ← fwrite buf 1 nbyte p; if negb (n =? nbyte) then mret (-1) else mret (s64 n)).
Definition close (fildes : Z) : M (io H P) Z :=
  with_fd fildes (λ p, r ← fclose p; if r =? 0 then mret 0 else mret (-1)).
Definition lseek (fildes offset whence : Z) : M (io H P) Z :=
  with_fd fildes (λ p, r ← fseek p (s32 offset) whence; if r =? 0 then ftell p else mret (-1)).

(** ** Directories *)
(** [buf_size] is not initialised before the first call. *)
Definition get_file_info (f buf_size : Z) : M (io H P) Z :=
  r ← on_vol (fi_GetInfo f buf_size true);
  let '(st, buf_size, _) := r : Z * Z * list Z in
  if negb (st =? EFI_BUFFER_TOO_SMALL) then hang
  else
    ret ← on_heap (ch_malloc buf_size);
    if ret =? 0 then hang
    else
      r ← on_vol (fi_GetInfo f buf_size false);
      let '(st, _, info) := r : Z * Z * list Z in
      if EFI_ERROR st then hang
      else modify (with_mem (λ m, put_bytes m ret info)) ;; mret ret.

Definition opendir (fuel : nat) (uninit name : Z) : M (io H P) Z :=
  if name =? 0 then fails EINVAL 0
  else
    o ← open_name fuel name EFI_FILE_MODE_READ;
    match o with
    | None => mret 0
    | Some (_, f) =>
        dinfo ← get_file_info f uninit;
        s ← get;
        if Z.land (rd64 (io_mem s) (dinfo + 72)) EFI_FILE_DIRECTORY =? 0 then
          on_heap (ch_free dinfo) ;;
          _ ← on_vol (fi_Close f);
          fails ENOTDIR 0
        else
          on_heap (ch_free dinfo) ;;
          ret ← on_heap (ch_malloc sizeof_DIR);
          if ret =? 0 then undef
          else modify (with_dirs (<[ret := f]>)) ;; mret ret
    end.
End code.

(** ** A volume that works *)
(** Names and contents of its files, and the open handles with their
    positions; no device errors. *)
Class Volume (P : Type) `{EfiFileOps P} := {
  vo_root : Z;
  vo_files : P → gmap (list Z) (list Z);
  vo_open : P → gmap Z (list Z * Z);
  (** The EFI_FILE_INFO of a handle. *)
  vo_info : P → Z → list Z;
  vo_file_ok v name c : vo_files v !! name = Some c → Forall (λ b, 0 <= b < 256) c ∧ Z.of_nat (length c) < 2 ^ 63;
  vo_pos_ok v h name pos : vo_open v !! h = Some (name, pos) → 0 <= pos < 2 ^ 64;
  vo_info_ok v h name pos c : vo_open v !! h = Some (name, pos) → vo_files v !! name = Some c →
    16 <= Z.of_nat (length (vo_info v h)) < 2 ^ 63 ∧
    ∀ m a, rd64 (put_bytes m a (vo_info v h)) (a + 8) = Z.of_nat (length c);
  Open_spec v name mode :
    wp (fi_Open vo_root name mode 0) (λ r v', vo_files v' = vo_files v ∧
      match vo_files v !! name with
      | Some _ => r.1 = EFI_SUCCESS ∧ vo_open v !! r.2 = None ∧ vo_open v' = <[r.2 := (name, 0)]> (vo_open v)
      | None => r.1 = EFI_NOT_FOUND ∧ vo_open v' = vo_open v
      end) v;
  (** Beyond the end of the file there is an error, at the end nothing. *)
  Read_spec v h name pos c n : vo_open v !! h = Some (name, pos) → vo_files v !! name = Some c → 0 <= n < 2 ^ 64 →
    wp (fi_Read h n) (λ r v', vo_files v' = vo_files v ∧
      if decide (pos <= Z.of_nat (length c)) then
        let got := take (Z.to_nat n) (drop (Z.to_nat pos) c) in
        r = (EFI_SUCCESS, got) ∧ vo_open v' = <[h := (name, pos + Z.of_nat (length got))]> (vo_open v)
      else EFI_ERROR r.1 = true ∧ vo_open v' = vo_open v) v;
  GetPosition_spec v h name pos : vo_open v !! h = Some (name, pos) →
    wp (fi_GetPosition h) (λ r v', r = (EFI_SUCCESS, pos) ∧ v' = v) v;
  (** All ones is the end of the file. *)
  SetPosition_spec v h name pos c n : vo_open v !! h = Some (name, pos) → vo_files v !! name = Some c → 0 <= n < 2 ^ 64 →
    wp (fi_SetPosition h n) (λ r v', r = EFI_SUCCESS ∧ vo_files v' = vo_files v ∧
      vo_open v' = <[h := (name, if n =? 2 ^ 64 - 1 then Z.of_nat (length c) else n)]> (vo_open v)) v;
  (** The size that is needed, then the information. *)
  GetInfo_size v h name pos : vo_open v !! h = Some (name, pos) →
    wp (fi_GetInfo h 0 true) (λ r v', r = (EFI_BUFFER_TOO_SMALL, Z.of_nat (length (vo_info v h)), []) ∧ v' = v) v;
  GetInfo_spec v h name pos : vo_open v !! h = Some (name, pos) →
    wp (fi_GetInfo h (Z.of_nat (length (vo_info v h))) false) (λ r v',
      r = (EFI_SUCCESS, Z.of_nat (length (vo_info v h)), vo_info v h) ∧ v' = v) v;
  Close_spec v h name pos : vo_open v !! h = Some (name, pos) →
    wp (fi_Close h) (λ _ v', vo_files v' = vo_files v ∧ vo_open v' = base.delete h (vo_open v)) v
}.

(** ** Names *)
(** [l] as 16-bit characters at [a]. *)
Fixpoint wstring (m : mem) (a : Z) (l : list Z) : Prop :=
  match l with
  | [] => rd16 m a = 0
  | c :: l => rd16 m a = c ∧ c ≠ 0 ∧ wstring m (a + 2) l
  end.
(** A character as [mbstowcs] widens it, and with the separator of the firmware. *)
Definition widen (c : Z) : Z := u16 (s8 c).
Definition efi_char (c : Z) : Z := if c =? 47 then 92 else c.
Definition efi_name (l : list Z) : list Z := (λ c, efi_char (widen c)) <$> l.

Lemma widen_nonzero c : 0 < c < 256 → widen c ≠ 0 ∧ 0 <= widen c < 65536.
Proof. intros Hc. unfold widen, u16, s8. dlia. Qed.

Lemma rd16_wr16_eq m a v : rd16 (wr16 m a v) a = u16 v.
Proof. apply (rd_wr_eq 2). Qed.

Lemma mbstowcs_loop_spec l m dest src conv : cstring m src l →
  dest + 2 * (Z.of_nat (length l) + 1) <= src ∨ src + Z.of_nat (length l) + 1 <= dest →
  let m' := (mbstowcs_loop (S (length l)) m dest src conv).2 in
  wstring m' dest (widen <$> l) ∧ same_outside dest (2 * (Z.of_nat (length l) + 1)) m m'.
Proof.
  revert m dest src conv. induction l as [|c l IH]; intros m dest src conv Hs Hd; cbn [mbstowcs_loop cstring length] in *.
  - rewrite Hs. cbn [Z.eqb snd fmap list_fmap wstring]. split; [by rewrite rd16_wr16_eq|].
    eapply same_outside_weaken; [apply (wr_same_outside 2)|lia|lia].
  - destruct Hs as (Hc & Hr & Hl). rewrite Hc. destruct (Z.eqb_spec c 0) as [|_]; [lia|]. set (m1 := wr16 m dest _).
    assert (same_outside dest 2 m m1) as H1 by apply (wr_same_outside 2).
    destruct (IH m1 (dest + 2) (src + 1) (s32 (conv + 1))) as [IH1 IH2].
    + eapply cstring_agree; [|exact Hl]. intros k Hk. symmetry. apply H1. lia.
    + lia.
    + cbv zeta. cbn [mbstowcs_loop] in *. set (m' := _.2) in *. split.
      * cbn [fmap list_fmap wstring]. split_and!; [|by apply widen_nonzero|done].
        unfold rd16. rewrite (rd_same_outside 2 m1 m' dest (dest + 2) _ IH2) by lia. etransitivity; [apply rd16_wr16_eq|].
        apply u16_small. apply (widen_nonzero c Hr).
      * eapply same_outside_trans; eapply same_outside_weaken; [exact H1|lia|lia|exact IH2|lia|lia].
Qed.

Lemma wstring_same_outside m m' a l b n : same_outside b n m m' → wstring m a l →
  a + 2 * (Z.of_nat (length l) + 1) <= b ∨ b + n <= a → wstring m' a l.
Proof.
  intros Ho. revert a. induction l as [|c l IH]; intros a Hw Hd; cbn [wstring length] in *.
  - unfold rd16. by rewrite (rd_same_outside 2 _ _ _ _ _ Ho) by lia.
  - destruct Hw as (Hc & Hz & Hw). unfold rd16. rewrite (rd_same_outside 2 _ _ _ _ _ Ho) by lia. split_and!; [done|done|]. apply IH; [done|lia].
Qed.

Lemma conv_backslashes_spec l fuel m a : wstring m a l → Forall (λ c, 0 <= c < 65536) l → (length l < fuel)%nat →
  ∃ m', conv_backslashes fuel m a = Done m' ∧ wstring m' a (efi_char <$> l) ∧ same_outside a (2 * Z.of_nat (length l)) m m'.
Proof.
  revert fuel m a. induction l as [|c l IH]; intros [|fuel] m a Hw Hr Hf; try (cbn in Hf; lia);
    cbn [conv_backslashes wstring length fmap list_fmap] in *.
  - rewrite Hw. cbn. exists m. split_and!; [done|done|]. intros k Hk. done.
  - destruct Hw as (Hc & Hz & Hw). apply Forall_cons in Hr as [Hr1 Hr2]. rewrite Hc. destruct (Z.eqb_spec c 0); [done|].
    set (m1 := if c =? 47 then wr16 m a 92 else m). assert (same_outside a 2 m m1) as H1.
    { unfold m1. destruct (c =? 47); [apply (wr_same_outside 2)|done]. }
    destruct (IH fuel m1 (a + 2)) as (m' & E & W & S'); [|done|lia|].
    + eapply wstring_same_outside; [exact H1|done|lia].
    + exists m'. split_and!; [done| | |done|].
      * unfold rd16. rewrite (rd_same_outside 2 _ _ _ _ _ S') by lia. unfold efi_char, m1. destruct (c =? 47); [|done].
        by apply rd16_wr16_eq.
      * unfold efi_char. by destruct (c =? 47).
      * eapply same_outside_trans; eapply same_outside_weaken; [exact H1|lia|lia|exact S'|lia|lia].
Qed.

Lemma wide_name_spec l fuel m a : wstring m a l → (length l < fuel)%nat → wide_name fuel m a = Done l.
Proof.
  revert fuel a. induction l as [|c l IH]; intros [|fuel] a Hw Hf; try (cbn in Hf; lia); cbn [wide_name wstring length] in *.
  - by rewrite Hw.
  - destruct Hw as (Hc & Hz & Hw). rewrite Hc. destruct (Z.eqb_spec c 0); [done|]. by rewrite IH by (done || lia).
Qed.

(** ** Streams as an abstract table *)
Record astream := AStream { as_name : list Z; as_pos : Z; as_eof : Z; as_fd : Z }.
Record aio := Aio { a_files : gmap (list Z) (list Z); a_streams : gmap Z astream; a_next : Z }.
Definition a_set (p : Z) (x : astream) (a : aio) : aio := Aio (a_files a) (<[p := x]> (a_streams a)) (a_next a).

Section specs.
Context {H P : Type} {CO : CHeapOps H} {CH : CHeap H} {FO : EfiFileOps P} {VO : Volume P}.
Implicit Types (s : io H P) (a : aio).

Lemma wp_on_heap {A} (c : M H A) (Q : A → io H P → Prop) s :
  wp c (λ x h, Q x (with_heap (λ _, h) s)) (heap s) → wp (on_heap c) Q s.
Proof. unfold wp, on_heap, obind. by destruct (c (heap s)) as [[x h]| |]. Qed.
Lemma wp_on_vol {A} (c : M P A) (Q : A → io H P → Prop) s :
  wp c (λ x v, Q x (with_vol v s)) (vol s) → wp (on_vol c) Q s.
Proof. unfold wp, on_vol, obind. by destruct (c (vol s)) as [[x v]| |]. Qed.
Lemma wp_strm p f (Q : FILE → io H P → Prop) s : streams s !! p = Some f → Q f s → wp (strm p) Q s.
Proof. intros E HQ. unfold wp, strm, mbind, M_bind, bind, get. cbn. by rewrite E. Qed.
Lemma wp_upd_stream p f g (Q : unit → io H P → Prop) s :
  streams s !! p = Some f → Q tt (with_streams (<[p := g f]>) s) → wp (upd p g) Q s.
Proof. intros E HQ. unfold upd. wp_step. by eapply wp_strm. Qed.
Lemma wp_map_set fd p (Q : unit → io H P → Prop) s : 0 <= fd < Z.of_nat (length (fileno_map s)) →
  Q tt (with_map (<[Z.to_nat fd := p]>) s) → wp (map_set fd p) Q s.
Proof.
  intros Hfd HQ. unfold map_set, map_get. wp_step. wp_step. wp_step. destruct (Z.ltb_spec fd 0); [lia|].
  destruct (lookup_lt_is_Some_2 (fileno_map s) (Z.to_nat fd)) as [x E]; [lia|]. by rewrite E.
Qed.

(** A stream, its handle and its place in the table of descriptors. *)
Record stream_ok s (p : Z) (f : FILE) (x : astream) : Prop := StreamOk {
  so_block : ch_block (heap s) p sizeof_FILE;
  so_fd : 3 <= fileno_ f < next_fileno s ∧ fileno_map s !! Z.to_nat (fileno_ f) = Some p ∧ as_fd x = fileno_ f;
  so_eof : as_eof x = eof f;
  so_open : vo_open (vol s) !! file f = Some (as_name x, as_pos x);
  so_file : is_Some (vo_files (vol s) !! as_name x)
}.

(** The state [s] holds the streams of [a]. *)
Record represents s a : Prop := Represents {
  re_root : fopen_root s = vo_root ∧ vo_root ≠ 0;
  re_map : length (fileno_map s) = Z.to_nat MAX_FILENO;
  re_next : 3 <= next_fileno s <= MAX_FILENO ∧ next_fileno s = a_next a;
  re_files : vo_files (vol s) = a_files a;
  re_stream p x : a_streams a !! p = Some x → ∃ f, streams s !! p = Some f ∧ stream_ok s p f x;
  re_none p : a_streams a !! p = None → streams s !! p = None;
  re_apart p q f g : streams s !! p = Some f → streams s !! q = Some g → file f = file g → p = q
}.

(** What the client may do next; a name can come when memory is short. *)
Inductive call :=
| CFopen (name : list Z) (short : bool) | CFread (size nmemb p : Z) | CFseek (p pos whence : Z)
| CFtell (p : Z) | CFeof (p : Z) | CClearerr (p : Z) | CFclose (p : Z).

(** Where [fseek] goes; the size of the file is a 32-bit [long], and -1 when memory is short. *)
Inductive seek_target (c : list Z) (cur pos : Z) : Z → Z → Prop :=
| seek_set : seek_target c cur pos SEEK_SET (u64 pos)
| seek_cur : seek_target c cur pos SEEK_CUR (u64 (cur + pos))
| seek_end : seek_target c cur pos SEEK_END (u64 (s32 (Z.of_nat (length c)) + pos))
| seek_end_memory : seek_target c cur pos SEEK_END (u64 (-1 + pos)).

(** Results and bytes delivered. *)
Inductive astep : aio → call → Z → list Z → aio → Prop :=
| step_open a name short p : is_Some (a_files a !! name) → a_next a < MAX_FILENO → a_streams a !! p = None → 8 < p →
    astep a (CFopen name short) p [] (Aio (a_files a) (<[p := AStream name 0 0 (a_next a)]> (a_streams a)) (a_next a + 1))
| step_open_missing a name short : a_files a !! name = None → astep a (CFopen name short) 0 [] a
| step_open_many a name short : MAX_FILENO <= a_next a → astep a (CFopen name short) 0 [] a
| step_open_memory a name : astep a (CFopen name true) 0 [] a
| step_read a size nmemb p x c got : a_streams a !! p = Some x → a_files a !! as_name x = Some c →
    as_pos x <= Z.of_nat (length c) → got = take (Z.to_nat (size * nmemb)) (drop (Z.to_nat (as_pos x)) c) →
    astep a (CFread size nmemb p) (Z.of_nat (length got) / size) got
      (a_set p (AStream (as_name x) (as_pos x + Z.of_nat (length got))
        (if Z.of_nat (length got) =? size * nmemb then as_eof x else 1) (as_fd x)) a)
| step_read_beyond a size nmemb p x c : a_streams a !! p = Some x → a_files a !! as_name x = Some c →
    Z.of_nat (length c) < as_pos x → astep a (CFread size nmemb p) 0 [] a
| step_seek a p pos whence x c t : a_streams a !! p = Some x → a_files a !! as_name x = Some c →
    seek_target c (as_pos x) pos whence t →
    astep a (CFseek p pos whence) 0 []
      (a_set p (AStream (as_name x) (if t =? 2 ^ 64 - 1 then Z.of_nat (length c) else t) 0 (as_fd x)) a)
| step_seek_invalid a p pos whence : ¬ 0 <= whence <= 2 → astep a (CFseek p pos whence) (-1) [] a
| step_tell a p x : a_streams a !! p = Some x → astep a (CFtell p) (s32 (as_pos x)) [] a
| step_eof a p x : a_streams a !! p = Some x → astep a (CFeof p) (as_eof x) [] a
| step_clear a p x : a_streams a !! p = Some x →
    astep a (CClearerr p) 0 [] (a_set p (AStream (as_name x) (as_pos x) 0 (as_fd x)) a)
| step_close a p : astep a (CFclose p) 0 [] (Aio (a_files a) (base.delete p (a_streams a)) (a_next a)).

(** ** Frame *)
(** The state changed in heap, volume and [p] only. *)
Lemma stream_ok_frame s s' p f x :
  stream_ok s p f x → ch_block (heap s') p sizeof_FILE → next_fileno s <= next_fileno s' →
  fileno_map s' !! Z.to_nat (fileno_ f) = fileno_map s !! Z.to_nat (fileno_ f) →
  vo_open (vol s') !! file f = vo_open (vol s) !! file f → vo_files (vol s') = vo_files (vol s) → stream_ok s' p f x.
Proof. intros [B F E O C] HB Hn Hm Ho Hf. split; [done| |done|by rewrite Ho|by rewrite Hf]. rewrite Hm. split_and!; try apply F; lia. Qed.

(** Only the heap changed, and kept the streams. *)
Lemma represents_heap s a h : represents s a → (∀ p f, streams s !! p = Some f → ch_block (heap s) p sizeof_FILE → ch_block h p sizeof_FILE) →
  represents (with_heap (λ _, h) s) a.
Proof.
  intros [R M N F S O A] Hb. split; try done. intros p x Hp. destruct (S p x Hp) as (f & Ef & Sf). exists f. split; [done|].
  eapply stream_ok_frame; try done. apply (Hb p f Ef), Sf.
Qed.

(** A stream and its handle changed. *)
Lemma represents_set s a p f f' x x' v : represents s a → a_streams a !! p = Some x → streams s !! p = Some f →
  file f' = file f → fileno_ f' = fileno_ f → as_fd x' = as_fd x → as_name x' = as_name x → as_eof x' = eof f' →
  vo_files v = vo_files (vol s) → vo_open v = <[file f := (as_name x', as_pos x')]> (vo_open (vol s)) →
  represents (with_streams (<[p := f']>) (with_vol v s)) (a_set p x' a).
Proof.
  intros [R M N F S O A] Hx Hf E1 E2 E3 E4 E5 V1 V2. destruct (S p x Hx) as (f0 & Ef0 & [B0 F0 _ O0 C0]).
  assert (f0 = f) as -> by congruence. split; try done; cbn.
  - congruence.
  - intros q y Hq. rewrite lookup_insert in Hq. case_decide as Hpq.
    + subst q. injection Hq as <-. exists f'. rewrite lookup_insert_eq. split; [done|]. split; cbn; [done| |done| |].
      * rewrite E2, E3. destruct F0 as (? & ? & ?). split_and!; try done; lia.
      * by rewrite E1, V2, lookup_insert_eq.
      * rewrite E4. rewrite V1. done.
    + destruct (S q y Hq) as (g & Eg & Sg). exists g. rewrite lookup_insert_ne by done. split; [done|].
      eapply stream_ok_frame; try done; [apply Sg|cbn]. rewrite V2, lookup_insert_ne; [done|]. intros E. apply Hpq. by apply (A p q f g).
  - intros q Hq. rewrite lookup_insert in Hq. case_decide; [done|]. rewrite lookup_insert_ne by done. by apply O.
  - intros q r g h Hq Hr Egh. apply lookup_insert_Some in Hq as [[<- <-]|[Hpq Hq]], Hr as [[<- <-]|[Hpr Hr]].
    + done.
    + apply (A p r f h); [done|done|congruence].
    + apply (A q p g f); [done|done|congruence].
    + by apply (A q r g h).
Qed.

Lemma std_stream s a p x : represents s a → a_streams a !! p = Some x → 8 < p ∧ is_std p = false ∧ (p =? 0) = false ∧
  (p =? stdin) = false ∧ (p =? stdout) = false ∧ (p =? stderr) = false.
Proof.
  intros HR Hx. destruct (re_stream s a HR p x Hx) as (f & _ & [B _ _ _ _]). pose proof (ch_block_range _ _ _ B) as [Hp _].
  unfold is_std, stdin, stdout, stderr. assert ((p =? 0) = false ∧ (p =? 1) = false ∧ (p =? 2) = false) as (-> & -> & ->) by (split_and!; apply Z.eqb_neq; lia).
  done.
Qed.
End specs.

(** ** Reading and telling *)
Section ops.
Context {H P : Type} {CO : CHeapOps H} {CH : CHeap H} {FO : EfiFileOps P} {VO : Volume P}.
Context (call_fwrite call_fread : Z → Z → Z → Z → Z → M (io H P) Z).
Implicit Types (s : io H P) (a : aio).

Lemma with_vol_id s : with_vol (vol s) s = s.
Proof. by destruct s. Qed.
Lemma with_heap_id s : with_heap (λ _, heap s) s = s.
Proof. by destruct s. Qed.

(** Memory outside the heap's own bytes may change. *)
Lemma represents_mem s a g : represents s a → (∀ b, ch_private (heap s) b → rd8 (g (io_mem s)) b = rd8 (io_mem s) b) →
  represents (with_mem g s) a.
Proof.
  intros HR Hp. change (with_mem g s) with (with_heap (λ _, ch_set_mem (g (ch_mem (heap s))) (heap s)) s).
  apply represents_heap; [done|]. intros p f _ Hb. apply ch_block_set; [exact Hp|done].
Qed.

(** Size of the bytes a stream delivers. *)
Definition delivered (c : list Z) (pos n : Z) : list Z :=
  if decide (pos <= Z.of_nat (length c)) then take (Z.to_nat n) (drop (Z.to_nat pos) c) else [].

Lemma length_delivered c pos n : 0 <= pos → 0 <= n →
  Z.of_nat (length (delivered c pos n)) = Z.max 0 (Z.min n (Z.of_nat (length c) - pos)).
Proof. intros Hp Hn. unfold delivered. case_decide; [rewrite length_take, length_drop; lia|cbn; lia]. Qed.

(** Where a stream is after a read. *)
Definition after_read (x : astream) (c : list Z) (n : Z) : astream :=
  if decide (as_pos x <= Z.of_nat (length c)) then
    let got := Z.of_nat (length (delivered c (as_pos x) n)) in
    AStream (as_name x) (as_pos x + got) (if got =? n then as_eof x else 1) (as_fd x)
  else x.

Lemma fread_spec ptr size nmemb p x c s a :
  represents s a → a_streams a !! p = Some x → a_files a !! as_name x = Some c →
  ptr ≠ 0 → 0 < size → 0 <= nmemb → size * nmemb < 2 ^ 64 →
  (∀ i, 0 <= i < size * nmemb → ¬ ch_private (heap s) (ptr + i)) →
  let got := delivered c (as_pos x) (size * nmemb) in
  wp (fread call_fread ptr size nmemb p) (λ r s', r = Z.of_nat (length got) / size ∧
    heap s' = ch_set_mem (put_bytes (io_mem s) ptr got) (heap s) ∧ represents s' (a_set p (after_read x c (size * nmemb)) a)) s.
Proof.
  intros HR Hx Hc Hptr Hsz Hnm Hmax Hpriv got. destruct (std_stream s a p x HR Hx) as (_ & _ & E0 & E1 & E2 & E3).
  pose proof (re_stream _ _ HR p x Hx) as (f & Ef & Sf). pose proof Sf as [B F E O C].
  unfold fread. wp_step. wp_step. rewrite E1, E2, E3, E0. cbn [orb]. rewrite (proj2 (Z.eqb_neq ptr 0)) by done.
  rewrite u64_small by nia. wp_step. eapply wp_strm; [done|]. wp_step. apply wp_on_vol. rewrite <- (re_files _ _ HR) in Hc.
  eapply wp_mono; [apply (Read_spec (vol s) (file f) (as_name x) (as_pos x) c (size * nmemb)); [done|done|nia]|].
  cbv beta. intros r v [V1 V2]. pose proof (vo_pos_ok _ _ _ _ O) as Hpos. unfold after_read.
  assert (got = if decide (as_pos x <= Z.of_nat (length c)) then take (Z.to_nat (size * nmemb)) (drop (Z.to_nat (as_pos x)) c) else []) as Egot by done.
  fold got. case_decide as Hle; rewrite Egot in *; clear Egot got.
  2: { destruct V2 as [V2 V3]. rewrite V2. wp_step. split_and!; [by rewrite Z.div_0_l by lia|cbn; unfold io_mem; by rewrite ch_set_get|].
       pose proof (represents_set s a p f f x x v HR Hx Ef) as Hset. rewrite V3 in Hset.
       replace (with_vol v s) with (with_streams (<[p := f]>) (with_vol v s)).
       - apply Hset; try done. symmetry. apply insert_id. by rewrite <- O.
       - unfold with_streams, with_vol. cbn. f_equal. by apply insert_id. }
  destruct V2 as [-> V2]. set (g := take _ _) in *. cbn [fst snd]. change (EFI_ERROR EFI_SUCCESS) with false. cbv iota.
  wp_step. wp_step. wp_step. set (s1 := with_mem _ _).
  set (x' := AStream (as_name x) (as_pos x + Z.of_nat (length g)) (if Z.of_nat (length g) =? size * nmemb then as_eof x else 1) (as_fd x)).
  assert (∀ f', file f' = file f → fileno_ f' = fileno_ f → as_eof x' = eof f' →
    represents (with_streams (<[p := f']>) s1) (a_set p x' a)) as Hrep.
  { intros f' F1 F2 F3. unfold s1.
    change (represents (with_mem (λ m, put_bytes m ptr g) (with_streams (<[p := f']>) (with_vol v s))) (a_set p x' a)).
    apply represents_mem; [by apply (represents_set s a p f f' x x' v)|]. intros b Hb. cbn in Hb |- *.
    rewrite rd8_put_bytes. case_decide as Hin; [|done]. destruct (Hpriv (b - ptr)).
    - unfold g in Hin. rewrite length_take in Hin. lia.
    - by replace (ptr + (b - ptr)) with b by lia. }
  destruct (Z.eqb_spec (Z.of_nat (length g)) (size * nmemb)) as [Eg|Ng]; cbn [negb].
  - wp_step. rewrite (proj2 (Z.eqb_neq size 0)) by lia. wp_step. split_and!; [done|done|].
    replace s1 with (with_streams (<[p := f]>) s1) by (unfold s1, with_streams, with_mem, with_heap, with_vol; cbn; f_equal; by apply insert_id).
    by apply Hrep.
  - eapply wp_upd_stream; [exact Ef|]. rewrite (proj2 (Z.eqb_neq size 0)) by lia. wp_step. split_and!; [done|done|]. by apply Hrep.
Qed.

Lemma ftell_spec p x s a : represents s a → a_streams a !! p = Some x → wp (ftell p) (λ r s', r = s32 (as_pos x) ∧ s' = s) s.
Proof.
  intros HR Hx. destruct (std_stream s a p x HR Hx) as (_ & Es & E0 & _). destruct (re_stream _ _ HR p x Hx) as (f & Ef & [_ _ _ O _]).
  unfold ftell. rewrite Es, E0. cbn [orb]. wp_step. eapply wp_strm; [done|]. wp_step. apply wp_on_vol.
  eapply wp_mono; [by apply (GetPosition_spec (vol s) (file f) (as_name x) (as_pos x))|]. cbv beta. intros r v [-> ->].
  change (EFI_ERROR _) with false. cbv iota. wp_step. split; [done|]. apply with_vol_id.
Qed.

Lemma feof_spec p x s a : represents s a → a_streams a !! p = Some x → wp (feof p) (λ r s', r = as_eof x ∧ s' = s) s.
Proof.
  intros HR Hx. destruct (std_stream s a p x HR Hx) as (_ & _ & E0 & E1 & E2 & E3). destruct (re_stream _ _ HR p x Hx) as (f & Ef & [_ _ E _ _]).
  unfold feof. rewrite E0, E1, E2, E3. cbn [orb]. wp_step. eapply wp_strm; [done|]. wp_step. done.
Qed.

Lemma clearerr_spec p x s a : represents s a → a_streams a !! p = Some x →
  wp (clearerr p) (λ _ s', heap s' = heap s ∧ represents s' (a_set p (AStream (as_name x) (as_pos x) 0 (as_fd x)) a)) s.
Proof.
  intros HR Hx. destruct (std_stream s a p x HR Hx) as (_ & Es & E0 & _). destruct (re_stream _ _ HR p x Hx) as (f & Ef & [_ _ _ O _]).
  unfold clearerr. rewrite Es, E0. cbn [orb]. wp_step. eapply wp_upd_stream; [exact Ef|].
  eapply wp_upd_stream; [cbn; apply lookup_insert_eq|]. split; [done|].
  match goal with |- represents ?s' _ => replace s' with (with_streams (<[p := set_eof 0 (set_error 0 f)]>) (with_vol (vol s) s)) end.
  - apply (represents_set s a p f _ x); try done. symmetry. by apply insert_id.
  - unfold with_streams, with_vol. cbn. f_equal. by rewrite insert_insert_eq.
Qed.
End ops.

(** ** Seeking, closing and opening *)
Section ops2.
Context {H P : Type} {CO : CHeapOps H} {CH : CHeap H} {FO : EfiFileOps P} {VO : Volume P}.
Implicit Types (s : io H P) (a : aio).

(** The blocks of [h] are still there. *)
Definition blocks_kept (h h' : H) : Prop := ∀ p n, ch_block h p n → ch_block h' p n.

Lemma represents_errno s a e : represents s a → represents (with_errno e s) a.
Proof.
  intros [R M N F S O A]. split; try done. intros p x Hp. destruct (S p x Hp) as (f & Ef & Sf). exists f. split; [done|]. by destruct Sf; split.
Qed.

Lemma represents_kept s a h : represents s a → blocks_kept (heap s) h → represents (with_heap (λ _, h) s) a.
Proof. intros HR Hb. apply represents_heap; [done|]. intros p f _. apply Hb. Qed.

(** A block that is allocated, written and freed leaves the others. *)
Lemma scratch_kept h h1 q n m : (∀ p k, ch_block h p k → ch_block h1 p k) → (∀ k, ¬ ch_block h q k) → ch_block h1 q n →
  (∀ b, b < q ∨ q + n <= b → rd8 m b = rd8 (ch_mem h1) b) →
  ch_block (ch_set_mem m h1) q n ∧ blocks_kept h (ch_set_mem m h1) ∧
  wp (ch_free q) (λ _ h', blocks_kept h h') (ch_set_mem m h1).
Proof.
  intros Hk Hf Hq Hm. assert (∀ p k, ch_block h1 p k → ch_block (ch_set_mem m h1) p k) as Hset.
  { intros p k. apply ch_block_set. intros b Hb. apply Hm. destruct (decide (q <= b < q + n)) as [Hin|]; [|lia].
    by destruct (ch_block_used _ _ _ _ Hq Hin). }
  split_and!; [by apply Hset|intros p k Hp; by apply Hset, Hk|].
  eapply wp_mono; [apply (ch_free_spec q n); by apply Hset|]. cbv beta. intros _ h' Hfree p k Hp.
  apply Hfree; [intros ->; by apply (Hf k)|by apply Hset, Hk].
Qed.

Lemma fsize_spec p x c s a : represents s a → a_streams a !! p = Some x → a_files a !! as_name x = Some c →
  wp (fsize p) (λ n s', (n = s32 (Z.of_nat (length c)) ∨ n = -1) ∧ represents s' a) s.
Proof.
  intros HR Hx Hc. destruct (re_stream _ _ HR p x Hx) as (f & Ef & [B _ _ O _]). rewrite <- (re_files _ _ HR) in Hc.
  destruct (vo_info_ok _ _ _ _ _ O Hc) as [Hi1 Hi2]. destruct (vo_file_ok _ _ _ Hc) as [_ Hlen].
  unfold fsize. wp_step. eapply wp_strm; [done|]. wp_step. apply wp_on_vol.
  eapply wp_mono; [by apply (GetInfo_size (vol s) (file f) (as_name x) (as_pos x))|]. cbv beta. intros r v [-> ->]. rewrite with_vol_id.
  rewrite Z.eqb_refl. cbn [negb]. wp_step. apply wp_on_heap. eapply wp_mono; [apply ch_malloc_spec; lia|]. cbv beta.
  intros q h (Hu & Hb & Hq). assert (represents (with_heap (λ _, h) s) a) as HR1 by by apply represents_kept.
  destruct (Z.eqb_spec q 0) as [->|Hnz]; [unfold fails; wp_step; wp_step; wp_step; split; [by right|by apply represents_errno]|].
  destruct Hq as [?|(Hq1 & Hq2 & Hq3)]; [done|]. wp_step. apply wp_on_vol.
  eapply wp_mono; [by apply (GetInfo_spec (vol s) (file f) (as_name x) (as_pos x))|]. cbv beta. intros r v [-> ->].
  change (vol (with_heap (λ _, h) s)) with (vol s). change (with_vol (vol s) (with_heap (λ _, h) s)) with (with_vol (vol (with_heap (λ _, h) s)) (with_heap (λ _, h) s)).
  rewrite with_vol_id. change (EFI_ERROR EFI_SUCCESS) with false. cbv iota. wp_step. wp_step. wp_step. wp_step. wp_step. apply wp_on_heap.
  set (info := vo_info (vol s) (file f)) in *.
  destruct (scratch_kept (heap s) h q (Z.of_nat (length info)) (put_bytes (ch_mem h) q info) Hb Hq2 Hq1) as (_ & _ & Hw).
  { intros b Hb'. by rewrite rd8_put_bytes, decide_False by lia. }
  eapply wp_mono; [exact Hw|]. cbv beta. intros [] h' Hk. wp_step. split.
  - left. unfold io_mem, with_mem, with_heap. cbn [heap ch_mem]. by rewrite ch_mem_set, Hi2.
  - exact (represents_kept s a h' HR Hk).
Qed.

Lemma seek_pos_spec p x c pos whence s a : represents s a → a_streams a !! p = Some x → a_files a !! as_name x = Some c →
  - 2 ^ 31 < pos < 2 ^ 31 →
  wp (seek_pos p pos whence) (λ r s', represents s' a ∧
    match r with Some t => seek_target c (as_pos x) pos whence t | None => ¬ 0 <= whence <= 2 end) s.
Proof.
  intros HR Hx Hc Hpos. destruct (re_stream _ _ HR p x Hx) as (f & Ef & [_ _ _ O _]). pose proof (vo_pos_ok _ _ _ _ O) as Hcur.
  unfold seek_pos. destruct (Z.eqb_spec whence SEEK_SET) as [->|H0]; [wp_step; split; [done|constructor]|].
  destruct (Z.eqb_spec whence SEEK_CUR) as [->|H1].
  { wp_step. eapply wp_strm; [done|]. wp_step. apply wp_on_vol.
    eapply wp_mono; [by apply (GetPosition_spec (vol s) (file f) (as_name x) (as_pos x))|]. cbv beta. intros r v [-> ->]. rewrite with_vol_id.
    change (EFI_ERROR _) with false. cbv iota. wp_step. split; [done|]. cbn [snd].
    replace (if pos <? 0 then _ else _) with (u64 (as_pos x + pos)); [constructor|].
    destruct (Z.ltb_spec pos 0); [rewrite s32_small by lia|]; unfold u64; dlia. }
  destruct (Z.eqb_spec whence SEEK_END) as [->|H2].
  { wp_step. eapply wp_mono; [by apply (fsize_spec p x c)|]. cbv beta. intros n s' [Hn HR']. wp_step. split; [done|].
    replace (u64 (n + u64 pos)) with (u64 (n + pos)) by (unfold u64; dlia). destruct Hn as [-> | ->]; constructor. }
  unfold fails. wp_step. wp_step. wp_step. split; [by apply represents_errno|]. unfold SEEK_SET, SEEK_CUR, SEEK_END in *. lia.
Qed.

Lemma fseek_spec p x c pos whence s a : represents s a → a_streams a !! p = Some x → a_files a !! as_name x = Some c →
  - 2 ^ 31 < pos < 2 ^ 31 →
  wp (fseek p pos whence) (λ r s', ∃ a', astep a (CFseek p pos whence) r [] a' ∧ represents s' a') s.
Proof.
  intros HR Hx Hc Hpos. destruct (std_stream s a p x HR Hx) as (_ & Es & E0 & _). unfold fseek. rewrite Es, E0. cbn [orb].
  wp_step. eapply wp_mono; [by apply (seek_pos_spec p x c)|]. cbv beta. intros [t|] s1 [HR1 Ht].
  2: { wp_step. exists a. split; [|done]. by constructor. }
  destruct (re_stream _ _ HR1 p x Hx) as (f & Ef & [_ _ _ O _]). wp_step. eapply wp_strm; [done|]. wp_step. apply wp_on_vol.
  pose proof Hc as Hc'. rewrite <- (re_files _ _ HR1) in Hc'. assert (0 <= t < 2 ^ 64) as Ht64 by (destruct Ht; apply u64_range).
  eapply wp_mono; [by apply (SetPosition_spec (vol s1) (file f) (as_name x) (as_pos x) c)|]. cbv beta. intros r v (-> & V1 & V2).
  change (EFI_ERROR EFI_SUCCESS) with false. cbv iota. wp_step. eapply wp_upd_stream; [exact Ef|]. wp_step. eexists. split; [by eapply step_seek|].
  by apply (represents_set s1 a p f _ x _ v).
Qed.

Lemma fclose_spec p x s a : represents s a → a_streams a !! p = Some x →
  wp (fclose p) (λ r s', r = 0 ∧ represents s' (Aio (a_files a) (base.delete p (a_streams a)) (a_next a))) s.
Proof.
  intros HR Hx. destruct (std_stream s a p x HR Hx) as (_ & Es & E0 & _). destruct (re_stream _ _ HR p x Hx) as (f & Ef & [B F E O C]).
  unfold fclose. rewrite Es, E0. cbn [orb]. wp_step. eapply wp_strm; [done|]. wp_step. apply wp_on_vol.
  eapply wp_mono; [by apply (Close_spec (vol s) (file f) (as_name x) (as_pos x))|]. cbv beta. intros _ v [V1 V2].
  wp_step. apply wp_map_set. { cbn. destruct HR as [_ M N _ _ _ _]. rewrite M. unfold MAX_FILENO in *. lia. }
  wp_step. wp_step. wp_step. apply wp_on_heap. eapply wp_mono; [apply (ch_free_spec p sizeof_FILE); exact B|]. cbv beta. intros [] h Hfree.
  wp_step. split; [done|]. destruct HR as [R M N Fi S On A]. split; cbn; try done.
  - by rewrite length_insert.
  - congruence.
  - intros q y Hq. rewrite lookup_delete in Hq. case_decide as Hpq; [done|]. destruct (S q y Hq) as (g & Eg & Sg). exists g.
    rewrite lookup_delete_ne by done. split; [done|]. eapply stream_ok_frame; try done; cbn.
    + apply Hfree; [congruence|apply Sg].
    + rewrite list_lookup_insert_ne; [done|]. intros Efd. destruct F as (F1 & F2 & _), (so_fd _ _ _ _ Sg) as (G1 & G2 & _).
      assert (fileno_ f = fileno_ g) as Efg by lia. rewrite <- Efg in G2. congruence.
    + rewrite V2, lookup_delete_ne; [done|]. intros Eh. apply Hpq. by apply (A p q f g).
  - intros q Hq. rewrite lookup_delete in Hq. rewrite lookup_delete. case_decide; [done|]. by apply On.
  - intros q r g h' Hq Hr. rewrite lookup_delete_Some in Hq, Hr. apply A; [apply Hq|apply Hr].
Qed.
End ops2.

Section opening.
Context {H P : Type} {CO : CHeapOps H} {CH : CHeap H} {FO : EfiFileOps P} {VO : Volume P}.
Implicit Types (s : io H P) (a : aio).

(** Only heap, volume and [errno] changed. *)
Definition same_tables s s' : Prop :=
  streams s' = streams s ∧ fileno_map s' = fileno_map s ∧ next_fileno s' = next_fileno s ∧ fopen_root s' = fopen_root s.

Lemma represents_opened s s' a : represents s a → same_tables s s' → blocks_kept (heap s) (heap s') →
  vo_files (vol s') = vo_files (vol s) → vo_open (vol s') = vo_open (vol s) → represents s' a.
Proof.
  intros [R M N F S O A] (T1 & T2 & T3 & T4) Hb V1 V2. split; rewrite ?T1, ?T2, ?T3, ?T4; try done; [congruence|].
  intros p x Hp. destruct (S p x Hp) as (f & Ef & Sf). exists f. split; [done|]. eapply stream_ok_frame; try done.
  - apply Hb, Sf.
  - lia.
  - by rewrite T2.
  - by rewrite V2.
Qed.

(** What a new stream adds. *)
Lemma represents_new s s' a p name h : represents s a → a_next a < MAX_FILENO →
  streams s' = <[p := File h 0 0 (a_next a) 0 0]> (streams s) → fileno_map s' = <[Z.to_nat (a_next a) := p]> (fileno_map s) →
  next_fileno s' = a_next a + 1 → fopen_root s' = fopen_root s → blocks_kept (heap s) (heap s') →
  ch_block (heap s') p sizeof_FILE → (∀ k, ¬ ch_block (heap s) p k) →
  vo_files (vol s') = vo_files (vol s) → is_Some (vo_files (vol s) !! name) →
  vo_open (vol s) !! h = None → vo_open (vol s') = <[h := (name, 0)]> (vo_open (vol s)) →
  a_streams a !! p = None ∧
  represents s' (Aio (a_files a) (<[p := AStream name 0 0 (a_next a)]> (a_streams a)) (a_next a + 1)).
Proof.
  intros [R M N F S O A] Hn T1 T2 T3 T4 Hb Hp Hf V1 Vn Vh V2.
  assert (a_streams a !! p = None) as Hnone.
  { destruct (a_streams a !! p) as [x|] eqn:Ex; [|done]. destruct (S p x Ex) as (f & _ & [B _ _ _ _]). by destruct (Hf sizeof_FILE). }
  split; [done|]. split; rewrite ?T1, ?T2, ?T3, ?T4; try done; cbn [a_streams a_files a_next].
  - by rewrite length_insert.
  - lia.
  - congruence.
  - intros q x Hq. rewrite lookup_insert in Hq. rewrite lookup_insert. case_decide as Hpq.
    + subst q. injection Hq as <-. eexists. split; [done|]. split; cbn; rewrite ?T2, ?T3, ?V1, ?V2; try done.
      * rewrite list_lookup_insert_eq by (rewrite M; unfold MAX_FILENO in *; lia). split_and!; try done; lia.
      * by rewrite lookup_insert_eq.
    + destruct (S q x Hq) as (g & Eg & Sg). exists g. split; [done|]. eapply stream_ok_frame; try done.
      * apply Hb, Sg.
      * lia.
      * rewrite T2, list_lookup_insert_ne; [done|]. destruct (so_fd _ _ _ _ Sg) as (G1 & _). lia.
      * rewrite V2, lookup_insert_ne; [done|]. intros Eh. rewrite Eh in Vh. by rewrite (so_open _ _ _ _ Sg) in Vh.
  - intros q Hq. rewrite lookup_insert in Hq. rewrite lookup_insert. case_decide; [done|]. by apply O.
  - assert (∀ q g, streams s !! q = Some g → file g ≠ h) as Hfresh.
    { intros q g Eg <-. destruct (a_streams a !! q) as [x|] eqn:Ex; [|by rewrite (O q Ex) in Eg].
      destruct (S q x Ex) as (g' & Eg' & Sg). assert (g' = g) as -> by congruence. by rewrite (so_open _ _ _ _ Sg) in Vh. }
    intros q r g g' Hq Hr Egh. apply lookup_insert_Some in Hq as [[<- <-]|[Hpq Hq]], Hr as [[<- <-]|[Hpr Hr]]; cbn in Egh.
    + done.
    + by destruct (Hfresh r g' Hr).
    + by destruct (Hfresh q g Hq).
    + by apply (A q r g g').
Qed.

Lemma open_name_spec fuel path mode l s :
  fopen_root s = vo_root → cstring (io_mem s) path l → (∀ i, 0 <= i <= Z.of_nat (length l) → ch_used (heap s) (path + i)) →
  Z.of_nat (length l) < 2 ^ 31 → (length l < fuel)%nat →
  wp (open_name fuel path mode) (λ o s', same_tables s s' ∧ blocks_kept (heap s) (heap s') ∧ vo_files (vol s') = vo_files (vol s) ∧
    match o with
    | None => vo_open (vol s') = vo_open (vol s) ∧
        (vo_files (vol s) !! efi_name l = None ∨ ¬ wp (ch_malloc (2 * (Z.of_nat (length l) + 1))) (λ q _, q ≠ 0) (heap s))
    | Some (_, h) => is_Some (vo_files (vol s) !! efi_name l) ∧ vo_open (vol s) !! h = None ∧
        vo_open (vol s') = <[h := (efi_name l, 0)]> (vo_open (vol s))
    end) s.
Proof.
  intros Hroot Hcs Hused Hlen Hfuel. unfold open_name. wp_step. wp_step. wp_step.
  eapply wp_lift; [apply (strlen_loop_spec l); [done|done|lia|lia]|]. rewrite Z.add_0_l.
  rewrite (u64_small (Z.of_nat (length l) + 1)), u64_small by lia. wp_step. apply wp_on_heap.
  replace ((Z.of_nat (length l) + 1) * 2) with (2 * (Z.of_nat (length l) + 1)) by lia.
  pose proof (ch_malloc_spec (2 * (Z.of_nat (length l) + 1)) (heap s) ltac:(lia)) as Hmal. apply wp_elim in Hmal as (q & h & Emal & Hmal).
  eapply wp_intro; [exact Emal|]. destruct Hmal as (Hu & Hb & Hq).
  destruct (Z.eqb_spec q 0) as [->|Hnz].
  { unfold fails. wp_step. wp_step. wp_step. split_and!; try done. right. unfold wp. rewrite Emal. intros Hz. by apply Hz. }
  destruct Hq as [?|(Hq1 & Hq2 & Hq3)]; [done|]. wp_step. wp_step. wp_step. cbn [heap with_heap io_mem].
  set (N := Z.of_nat (length l)) in *. assert (cstring (ch_mem h) path l) as Hcs1.
  { eapply cstring_agree; [|exact Hcs]. intros k Hk. symmetry. apply Hu. replace k with (path + (k - path)) by lia. apply Hused. lia. }
  assert (∀ i, 0 <= i <= N → path + i < q ∨ q + 2 * (N + 1) <= path + i) as Hdis.
  { intros i Hi. destruct (decide (q <= path + i < q + 2 * (N + 1))) as [Hin|]; [|lia]. destruct (Hq3 _ Hin). by apply Hused. }
  assert (q + 2 * (N + 1) <= path ∨ path + N + 1 <= q) as Hapart.
  { destruct (decide (path + N < q)) as [|Hge]; [lia|]. destruct (decide (q + 2 * (N + 1) <= path)) as [|Hlt]; [lia|]. exfalso.
    destruct (decide (q <= path)) as [|]; [specialize (Hdis 0 ltac:(lia)); lia|specialize (Hdis (q - path) ltac:(lia)); lia]. }
  eapply wp_lift; [unfold mbstowcs; rewrite (proj2 (Z.eqb_neq q 0)) by done; rewrite (surjective_pairing (mbstowcs_loop _ _ _ _ _)); reflexivity|].
  replace (Z.to_nat (N + 1)) with (S (length l)) by lia.
  destruct (mbstowcs_loop_spec l (ch_mem h) q path 0 Hcs1 ltac:(lia)) as [Hw1 Ho1]. cbv zeta in Hw1, Ho1.
  cbn [snd]. set (m1 := (mbstowcs_loop (S (length l)) (ch_mem h) q path 0).2) in *. wp_step. wp_step. wp_step. wp_step. wp_step.
  assert (Forall (λ c, 0 <= c < 65536) (widen <$> l)) as Hwr.
  { apply Forall_fmap, Forall_forall. intros c _. cbn. unfold widen. apply u16_range. }
  destruct (conv_backslashes_spec (widen <$> l) fuel m1 q Hw1 Hwr) as (m2 & E2 & Hw2 & Ho2); [by rewrite length_fmap|].
  eapply wp_lift; [unfold io_mem, with_mem; cbn [heap with_heap]; rewrite ch_mem_set; exact E2|]. wp_step. wp_step. wp_step.
  eapply wp_lift; [apply (wide_name_spec _ _ _ _ Hw2); by rewrite !length_fmap|]. rewrite <- list_fmap_compose.
  change ((efi_char ∘ widen) <$> l) with (efi_name l). wp_step. apply wp_on_vol. cbn [fopen_root with_mem with_heap vol]. rewrite Hroot.
  eapply wp_mono; [apply Open_spec|]. cbv beta. intros r v [V1 V2]. wp_step. apply wp_on_heap.
  cbn [heap with_vol with_mem with_heap]. rewrite ch_set_set.
  destruct (scratch_kept (heap s) h q (2 * (N + 1)) m2 Hb Hq2 Hq1) as (_ & _ & Hfree).
  { intros b Hb'. rewrite (Ho2 b), (Ho1 b); [done|lia|]. rewrite length_fmap. lia. }
  eapply wp_mono; [exact Hfree|]. cbv beta. intros [] h' Hk. destruct (vo_files (vol s) !! efi_name l) as [c|].
  - destruct r as [st hd]. cbn [fst snd] in *. destruct V2 as (-> & V2 & V3). change (EFI_SUCCESS =? EFI_NOT_FOUND) with false.
    change (EFI_ERROR EFI_SUCCESS) with false. cbv iota. wp_step. by split_and!.
  - destruct r as [st hd]. cbn [fst snd] in *. destruct V2 as (-> & V2). change (EFI_NOT_FOUND =? EFI_NOT_FOUND) with true.
    cbv iota. unfold fails. wp_step. wp_step. wp_step. split_and!; try done. by left.
Qed.
End opening.

(** ** The streams implement the table *)
Lemma wp_and {S A} (c : M S A) (Q R : A → S → Prop) s : wp c Q s → wp c R s → wp c (λ x s', Q x s' ∧ R x s') s.
Proof. unfold wp. by destruct (c s) as [[x s']| |]. Qed.
(** A computation that never goes wrong and ends as [Q] tells, unless the program
    stops itself, which it may where [B] holds. *)
Definition wp_or_stop {S A} (B : Prop) (c : M S A) (Q : A → S → Prop) (s : S) : Prop :=
  match c s with Done (x, s') => Q x s' | Hang => B | Undef => False end.

Lemma stop_of_wp {S A} B (c : M S A) Q s : wp c Q s → wp_or_stop B c Q s.
Proof. unfold wp, wp_or_stop. by destruct (c s) as [[x s']| |]. Qed.
Lemma stop_mono {S A} (B B' : Prop) (c : M S A) (Q R : A → S → Prop) s :
  wp_or_stop B c Q s → (B → B') → (∀ x s', Q x s' → R x s') → wp_or_stop B' c R s.
Proof. unfold wp_or_stop. intros Hc HB HQ. destruct (c s) as [[x s']| |]; auto. Qed.
Lemma stop_bind {S A T} B (c : M S A) (k : A → M S T) Q s :
  wp c (λ x s', c s = Done (x, s') → wp_or_stop B (k x) Q s') s → wp_or_stop B (c ≫= k) Q s.
Proof. unfold wp, wp_or_stop, mbind, M_bind, bind, obind. destruct (c s) as [[x s']| |]; [|done..]. intros Hk. by apply Hk. Qed.
Lemma stop_returns {S A} B (c : M S A) Q s : wp_or_stop B c Q s → wp c (λ _ _, True) s → wp c Q s.
Proof. unfold wp, wp_or_stop. by destruct (c s) as [[x s']| |]. Qed.
Lemma wp_eq {S A} (c : M S A) Q s : wp c Q s → wp c (λ x s', Q x s' ∧ c s = Done (x, s')) s.
Proof. unfold wp. by destruct (c s) as [[x s']| |]. Qed.

Section simulation.
Context {H P : Type} {CO : CHeapOps H} {CH : CHeap H} {FO : EfiFileOps P} {VO : Volume P}.
Context (call_fwrite call_fread : Z → Z → Z → Z → Z → M (io H P) Z).
Implicit Types (s : io H P) (a : aio).

(** A name in memory that is in use. *)
Definition name_at s (path : Z) (l : list Z) : Prop :=
  cstring (io_mem s) path l ∧ (∀ i, 0 <= i <= Z.of_nat (length l) → ch_used (heap s) (path + i)) ∧ Z.of_nat (length l) < 2 ^ 31.

(** The assert of [fopen] fails: the file is open, and there is no memory for
    its stream. *)
Definition no_stream_memory fuel (path mode : Z) s : Prop :=
  ∃ o s1 h, open_name fuel path (fopen_mode (io_mem s) mode) s = Done (Some o, s1) ∧
    ch_malloc sizeof_FILE (heap s1) = Done (0, h).

(** [fopen] opens the file or says why not, unless its assert stops the program. *)
Lemma fopen_or_stop fuel path mode l short s a : represents s a → name_at s path l → (length l < fuel)%nat → mode ≠ 0 →
  (short = false → wp (ch_malloc (2 * (Z.of_nat (length l) + 1))) (λ q _, q ≠ 0) (heap s)) →
  wp_or_stop (no_stream_memory fuel path mode s) (fopen fuel path mode)
    (λ p s', ∃ a', astep a (CFopen (efi_name l) short) p [] a' ∧ represents s' a') s.
Proof.
  intros HR (Hcs & Hu & Hlen) Hf Hmode Hshort. pose proof HR as [R M N F S O A]. unfold fopen.
  apply stop_bind. wp_step. intros _. rewrite (proj2 (Z.eqb_neq (fopen_root s) 0)) by (destruct R; congruence).
  destruct (Z.leb_spec MAX_FILENO (next_fileno s)) as [Hmany|Hfew].
  { apply stop_of_wp. unfold fails. wp_step. wp_step. wp_step. exists a. split; [apply step_open_many; lia|by apply represents_errno]. }
  rewrite (proj2 (Z.eqb_neq mode 0)) by done. set (om := fopen_mode _ _). apply stop_bind.
  eapply wp_mono; [exact (open_name_spec fuel path om l s (proj1 R) Hcs Hu Hlen Hf)|]. cbv beta.
  intros [[st hd]|] s1 (T & Hb & V1 & V2) Eopen.
  2: { destruct V2 as [V2 Hwhy]. apply stop_of_wp. wp_step. exists a. split; [|by apply (represents_opened s)].
       destruct Hwhy as [Hmiss|Hmem]; [apply step_open_missing; by rewrite <- F|]. destruct short; [apply step_open_memory|by destruct Hmem; apply Hshort]. }
  destruct V2 as (Vn & Vh & V2). apply stop_bind, wp_on_heap.
  eapply wp_mono; [apply wp_eq; exact (ch_malloc_spec sizeof_FILE (heap s1) ltac:(unfold sizeof_FILE; lia))|]. cbv beta.
  intros p h [(_ & Hk & Hq) Emal] _. destruct (Z.eqb_spec p 0) as [->|Hnz]; [by exists (st, hd), s1, h|].
  apply stop_of_wp. destruct Hq as [?|(Hq1 & Hq2 & _)]; [done|].
  destruct T as (T1 & T2 & T3 & T4). wp_step. wp_step. wp_step. wp_step. wp_step. wp_step. wp_step.
  cbn [next_fileno with_heap]. rewrite T3. destruct N as [N1 N2]. rewrite N2.
  apply wp_map_set. { cbn. rewrite T2, M. unfold MAX_FILENO in *. lia. }
  wp_step. eexists. set (s' := with_map _ _).
  destruct (represents_new s s' a p (efi_name l) hd HR) as [Hnone HR']; try done.
  - lia.
  - cbn. by rewrite T1.
  - cbn. by rewrite T2.
  - cbn. apply s32_small. unfold MAX_FILENO in *. lia.
  - intros q n Hq. cbn. by apply Hk, Hb.
  - intros k Hk'. by apply (Hq2 k), Hb.
  - split; [|exact HR']. apply step_open; [by rewrite <- F|lia|done|]. by apply (ch_block_range _ _ _ Hq1).
Qed.

(** Calls of a client, with addresses. *)
Inductive ccall :=
| Fopen (path mode : Z) | Fread (ptr size nmemb p : Z) | Fseek (p pos whence : Z)
| Ftell (p : Z) | Feof (p : Z) | Clearerr (p : Z) | Fclose (p : Z).

Definition exec (fuel : nat) (c : ccall) : M (io H P) Z :=
  match c with
  | Fopen path mode => fopen fuel path mode
  | Fread ptr size nmemb p => fread call_fread ptr size nmemb p
  | Fseek p pos whence => fseek p pos whence
  | Ftell p => ftell p
  | Feof p => feof p
  | Clearerr p => clearerr p ;; mret 0
  | Fclose p => fclose p
  end.

(** [c] asks for [k]: names are in memory, streams open, buffers not the heap's
    own; where memory is not short there is some for the copy of the name. *)
Inductive asks (fuel : nat) s a : ccall → call → Prop :=
| asks_open path mode l short : name_at s path l → (length l < fuel)%nat → mode ≠ 0 →
    (short = false → wp (ch_malloc (2 * (Z.of_nat (length l) + 1))) (λ q _, q ≠ 0) (heap s)) →
    asks fuel s a (Fopen path mode) (CFopen (efi_name l) short)
| asks_read ptr size nmemb p : is_Some (a_streams a !! p) → ptr ≠ 0 → 0 < size → 0 <= nmemb → size * nmemb < 2 ^ 64 →
    (∀ i, 0 <= i < size * nmemb → ¬ ch_private (heap s) (ptr + i)) → asks fuel s a (Fread ptr size nmemb p) (CFread size nmemb p)
| asks_seek p pos whence : is_Some (a_streams a !! p) → - 2 ^ 31 < pos < 2 ^ 31 →
    asks fuel s a (Fseek p pos whence) (CFseek p pos whence)
| asks_tell p : is_Some (a_streams a !! p) → asks fuel s a (Ftell p) (CFtell p)
| asks_eof p : is_Some (a_streams a !! p) → asks fuel s a (Feof p) (CFeof p)
| asks_clear p : is_Some (a_streams a !! p) → asks fuel s a (Clearerr p) (CClearerr p)
| asks_close p : is_Some (a_streams a !! p) → asks fuel s a (Fclose p) (CFclose p).

(** The buffer of a read holds what was delivered. *)
Definition in_buffer (c : ccall) (got : list Z) s' : Prop :=
  match c with
  | Fread ptr _ _ _ => ∀ i b, got !! i = Some b → rd8 (io_mem s') (ptr + Z.of_nat i) = b
  | _ => got = []
  end.

(** Only an [fopen] that finds the file but no memory for the stream stops. *)
Definition may_stop (fuel : nat) (c : ccall) s : Prop :=
  match c with Fopen path mode => no_stream_memory fuel path mode s | _ => False end.

(** C11. The streams of efilibc implement a table of open files.  From a state
    that represents such a table, on a volume without device errors, every
    call of [fopen], [fread], [fseek], [ftell], [feof], [clearerr] and [fclose]
    on an open stream, or for a name in memory, returns, and the result, the
    bytes delivered and the new state are those of a step of the table: files
    are opened as long as there are descriptors and memory, reads deliver the
    bytes from the position on as far as the file goes and mark the end, seeks
    go to the position asked for, handles are never mixed up.  Nothing goes
    wrong on the way: the one other outcome is the failed assert of [fopen],
    when the file is open and there is no memory for its stream.  Files are
    opened under the name with [/] turned into [\], which is what
    [conv_backslashes] does and the firmware reads; the comments at its two calls
    (file.c, lines 134 and 236) say the reverse.  Sizes and positions that are
    reported are cut to the 32 bits of [long]. *)
Theorem streams_simulate fuel s a c k : represents s a → asks fuel s a c k →
  wp_or_stop (may_stop fuel c s) (exec fuel c)
    (λ r s', ∃ got a', astep a k r got a' ∧ represents s' a' ∧ in_buffer c got s') s.
Proof.
  intros HR Hask. assert (∀ p, is_Some (a_streams a !! p) → ∃ x d, a_streams a !! p = Some x ∧ a_files a !! as_name x = Some d) as Hop.
  { intros p [x Hx]. destruct (re_stream _ _ HR p x Hx) as (f & _ & [_ _ _ _ [d Hd]]). exists x, d. by rewrite <- (re_files _ _ HR). }
  destruct Hask as [path mode l short Hn Hf Hm Hs|ptr size nmemb p Hp Hptr Hsz Hnm Hmax Hpriv|p pos wh Hp Hpos|p Hp|p Hp|p Hp|p Hp]; cbn [exec may_stop];
    try (destruct (Hop p Hp) as (x & d & Hx & Hd); apply stop_of_wp).
  - eapply stop_mono; [by apply (fopen_or_stop fuel path mode l short s a)|done|]. cbv beta. intros r s' (a' & H1 & H2). by exists [], a'.
  - eapply wp_mono; [by apply (fread_spec call_fread ptr size nmemb p x d s a)|]. cbv beta zeta.
    intros r s' (-> & Hh & HR'). exists (delivered d (as_pos x) (size * nmemb)). eexists. split; [|split; [exact HR'|]].
    + unfold after_read, delivered. case_decide as Hle.
      * by eapply step_read.
      * replace (a_set p x a) with a; [by rewrite Z.div_0_l by lia; eapply step_read_beyond; [done|done|lia]|].
        unfold a_set. rewrite insert_id by done. by destruct a.
    + cbn. intros i b Hi. unfold io_mem. rewrite Hh, ch_mem_set, rd8_put_bytes. pose proof (lookup_lt_Some _ _ _ Hi) as Hlt.
      rewrite decide_True by lia. replace (Z.to_nat (ptr + Z.of_nat i - ptr)) with i by lia.
      rewrite (nth_lookup_Some _ _ _ _ Hi). apply u8_small. destruct (vo_file_ok (vol s) (as_name x) d) as [Hby _]; [by rewrite (re_files _ _ HR)|].
      rewrite Forall_lookup in Hby. unfold delivered in Hi. case_decide; [|done]. apply lookup_take_Some in Hi as [Hi _].
      rewrite lookup_drop in Hi. by apply (Hby _ _ Hi).
  - eapply wp_mono; [by apply (fseek_spec p x d pos wh s a)|]. cbv beta. intros r s' (a' & H1 & H2). by exists [], a'.
  - eapply wp_mono; [by apply (ftell_spec p x s a)|]. cbv beta. intros r s' (-> & ->). exists [], a. split; [by constructor|done].
  - eapply wp_mono; [by apply (feof_spec p x s a)|]. cbv beta. intros r s' (-> & ->). exists [], a. split; [by constructor|done].
  - wp_step. eapply wp_mono; [by apply (clearerr_spec p x s a)|]. cbv beta. intros _ s' (_ & H2). wp_step. exists []. eexists.
    split; [by constructor|done].
  - eapply wp_mono; [by apply (fclose_spec p x s a)|]. cbv beta. intros r s' (-> & H2). exists []. eexists. split; [by constructor|done].
Qed.
End simulation.

Lemma rd8_put_at m a l i : 0 <= i < Z.of_nat (length l) → rd8 (put_bytes m a l) (a + i) = u8 (nth (Z.to_nat i) l 0).
Proof. intros Hi. rewrite rd8_put_bytes, decide_True by lia. do 2 f_equal. lia. Qed.

(** ** For clients *)
Section steps.
Context {H P : Type} {CO : CHeapOps H} {CH : CHeap H} {FO : EfiFileOps P} {VO : Volume P}.
Context (call_fread : Z → Z → Z → Z → Z → M (io H P) Z).
Implicit Types (s : io H P) (a : aio).

(** The blocks of [h] that [Q] tells are in [h'] as they were. *)
Definition blocks_same (Q : Z → Prop) (h h' : H) : Prop :=
  ∀ b n, Q b → ch_block h b n → ch_block h' b n ∧ ∀ x, b <= x < b + n → rd8 (ch_mem h') x = rd8 (ch_mem h) x.

Lemma blocks_same_refl Q h : blocks_same Q h h.
Proof. by intros b n _ Hb. Qed.
Lemma blocks_same_trans (Q R S : Z → Prop) h1 h2 h3 : blocks_same Q h1 h2 → blocks_same R h2 h3 →
  (∀ b, S b → Q b ∧ R b) → blocks_same S h1 h3.
Proof.
  intros H1 H2 HS b n Hb B. destruct (HS b Hb) as [HQ HR]. destruct (H1 b n HQ B) as [B2 E2]. destruct (H2 b n HR B2) as [B3 E3].
  split; [done|]. intros x Hx. by rewrite E3, E2.
Qed.

(** An address that is no stream of the table. *)
Lemma malloc_io n s a : represents s a → 0 <= n < 2 ^ 63 →
  wp (on_heap (ch_malloc n)) (λ p s', represents s' a ∧ blocks_same (λ _, True) (heap s) (heap s') ∧
    (p = 0 ∨ ch_block (heap s') p n ∧ (∀ k, ¬ ch_block (heap s) p k) ∧ a_streams a !! p = None)) s.
Proof.
  intros HR Hn. apply wp_on_heap. eapply wp_mono; [by apply ch_malloc_spec|]. cbv beta. intros p h (Hu & Hb & Hp). split_and!.
  - by apply represents_kept.
  - intros b k _ B. split; [by apply Hb|]. intros x Hx. apply Hu. by apply (ch_block_used _ _ _ _ B Hx).
  - destruct Hp as [->|(B & Hf & _)]; [by left|right]. split_and!; [done|done|].
    destruct (a_streams a !! p) as [x|] eqn:Ex; [|done]. destruct (re_stream _ _ HR p x Ex) as (f & _ & [B' _ _ _ _]). by destruct (Hf sizeof_FILE).
Qed.

Lemma free_io q n s a : represents s a → ch_block (heap s) q n → a_streams a !! q = None →
  wp (on_heap (ch_free q)) (λ _ s', represents s' a ∧ blocks_same (λ b, b ≠ q) (heap s) (heap s')) s.
Proof.
  intros HR Hq Hn. apply wp_on_heap. eapply wp_mono; [by apply (ch_free_spec q n)|]. cbv beta. intros [] h Hf. split.
  - apply represents_heap; [done|]. intros p f Ep Bp. apply Hf; [|done]. intros ->. rewrite (re_none _ _ HR q Hn) in Ep. done.
  - intros b k Hb B. by apply Hf.
Qed.

(** Memory changes in the block [q] only. *)
Lemma set_mem_block m q n h : ch_block h q n → (∀ x, x < q ∨ q + n <= x → rd8 m x = rd8 (ch_mem h) x) →
  (∀ k, ch_block h q k → ch_block (ch_set_mem m h) q k) ∧ blocks_same (λ b, b ≠ q) h (ch_set_mem m h).
Proof.
  intros Hq Hm. assert (∀ b k, ch_block h b k → ch_block (ch_set_mem m h) b k) as Hb.
  { intros b k. apply ch_block_set. intros x Hx. apply Hm. destruct (decide (q <= x < q + n)) as [Hin|]; [|lia].
    by destruct (ch_block_used _ _ _ _ Hq Hin). }
  split; [intros k; apply Hb|]. intros b k Hne B. split; [by apply Hb|]. intros x Hx. rewrite ch_mem_set. apply Hm.
  destruct (ch_block_apart _ _ _ _ _ B Hq Hne); lia.
Qed.

Lemma write_io g q n s a : represents s a → ch_block (heap s) q n → (∀ m x, x < q ∨ q + n <= x → rd8 (g m) x = rd8 m x) →
  represents (with_mem g s) a ∧ ch_block (heap (with_mem g s)) q n ∧ blocks_same (λ b, b ≠ q) (heap s) (heap (with_mem g s)).
Proof.
  intros HR Hq Hg. destruct (set_mem_block (g (io_mem s)) q n (heap s) Hq) as [H1 H2]; [intros x Hx; by apply Hg|].
  split_and!; [|by apply H1|done]. apply represents_mem; [done|]. intros x Hx. apply Hg.
  destruct (decide (q <= x < q + n)) as [Hin|]; [|lia]. by destruct (ch_block_used _ _ _ _ Hq Hin).
Qed.

(** Reading into a block. *)
Lemma read_io q n p x c s a : represents s a → a_streams a !! p = Some x → a_files a !! as_name x = Some c →
  ch_block (heap s) q n → 0 <= n →
  let got := delivered c (as_pos x) n in
  wp (fread call_fread q 1 n p) (λ r s', r = Z.of_nat (length got) ∧ represents s' (a_set p (after_read x c n) a) ∧
    ch_block (heap s') q n ∧ blocks_same (λ b, b ≠ q) (heap s) (heap s') ∧
    ∀ i b, got !! i = Some b → rd8 (io_mem s') (q + Z.of_nat i) = b) s.
Proof.
  intros HR Hx Hc Hq Hn got. pose proof (ch_block_range _ _ _ Hq) as [Hq8 Hmax].
  eapply wp_mono; [apply (fread_spec call_fread q 1 n p x c s a HR Hx Hc); [lia|lia|lia|lia|]|].
  { intros i Hi. apply (ch_block_used _ _ _ _ Hq). lia. }
  cbv beta zeta. rewrite Z.mul_1_l, Z.div_1_r. fold got. intros r s' (-> & Hh & HR'). split; [done|]. split; [done|].
  destruct (re_stream _ _ HR p x Hx) as (f & _ & [_ _ _ O _]). pose proof (vo_pos_ok _ _ _ _ O) as Hpos.
  assert (Z.of_nat (length got) <= n) as Hlen by (unfold got; rewrite length_delivered by lia; lia).
  destruct (set_mem_block (put_bytes (io_mem s) q got) q n (heap s) Hq) as [H1 H2].
  { intros y Hy. by rewrite rd8_put_bytes, decide_False by lia. }
  rewrite <- Hh in H1, H2. split_and!; [by apply H1|done|]. intros i b Hb. unfold io_mem. rewrite Hh, ch_mem_set.
  pose proof (lookup_lt_Some _ _ _ Hb). rewrite rd8_put_at by lia. rewrite Nat2Z.id, (nth_lookup_Some _ _ _ _ Hb). apply u8_small.
  destruct (vo_file_ok (vol s) (as_name x) c) as [Hby _]; [by rewrite (re_files _ _ HR)|]. rewrite Forall_lookup in Hby.
  unfold got, delivered in Hb. case_decide; [|done]. apply lookup_take_Some in Hb as [Hb _]. rewrite lookup_drop in Hb. by apply (Hby _ _ Hb).
Qed.

(** Going to a position from the start; the last of the positions is the end. *)
Definition end_or (c : list Z) (pos : Z) : Z := if pos =? 2 ^ 64 - 1 then Z.of_nat (List.length c) else pos.

Lemma seek_end_io pos p x c s a : represents s a → a_streams a !! p = Some x → a_files a !! as_name x = Some c →
  wp (fseek p pos SEEK_SET) (λ _ s', heap s' = heap s ∧
    represents s' (a_set p (AStream (as_name x) (end_or c (u64 pos)) 0 (as_fd x)) a)) s.
Proof.
  intros HR Hx Hc. pose proof (u64_range pos) as Hpos. destruct (std_stream s a p x HR Hx) as (_ & Es & E0 & _). unfold fseek, seek_pos. rewrite Es, E0. cbn [orb].
  destruct (re_stream _ _ HR p x Hx) as (f & Ef & [_ _ _ O _]). rewrite <- (re_files _ _ HR) in Hc.
  wp_step. change (SEEK_SET =? SEEK_SET) with true. cbv iota. wp_step. wp_step. eapply wp_strm; [done|]. wp_step. apply wp_on_vol.
  eapply wp_mono; [apply (SetPosition_spec (vol s) (file f) (as_name x) (as_pos x) c (u64 pos)); [done|done|lia]|]. cbv beta. intros r v (-> & V1 & V2).
  change (EFI_ERROR EFI_SUCCESS) with false. cbv iota. wp_step. eapply wp_upd_stream; [exact Ef|]. wp_step. split; [done|].
  by apply (represents_set s a p f _ x _ v).
Qed.

Lemma seek_io pos p x c s a : represents s a → a_streams a !! p = Some x → a_files a !! as_name x = Some c → 0 <= pos < 2 ^ 31 →
  wp (fseek p pos SEEK_SET) (λ _ s', heap s' = heap s ∧ represents s' (a_set p (AStream (as_name x) pos 0 (as_fd x)) a)) s.
Proof.
  intros HR Hx Hc Hpos. eapply wp_mono; [by apply (seek_end_io pos p x c s a)|]. cbv beta.
  unfold end_or. rewrite u64_small, (proj2 (Z.eqb_neq pos (2 ^ 64 - 1))) by lia. done.
Qed.

Lemma close_io p x s a : represents s a → a_streams a !! p = Some x →
  wp (fclose p) (λ _ s', represents s' (Aio (a_files a) (base.delete p (a_streams a)) (a_next a)) ∧
    blocks_same (λ b, b ≠ p) (heap s) (heap s')) s.
Proof.
  intros HR Hx. eapply wp_mono; [apply (wp_and _ _ (λ _ s', blocks_same (λ b, b ≠ p) (heap s) (heap s')) _ (fclose_spec p x s a HR Hx))|].
  - destruct (std_stream s a p x HR Hx) as (_ & Es & E0 & _). destruct (re_stream _ _ HR p x Hx) as (f & Ef & [B Fd E O C]).
    unfold fclose. rewrite Es, E0. cbn [orb]. wp_step. eapply wp_strm; [done|]. wp_step. apply wp_on_vol.
    eapply wp_mono; [by apply (Close_spec (vol s) (file f) (as_name x) (as_pos x))|]. cbv beta. intros _ v _.
    wp_step. apply wp_map_set. { cbn. destruct HR as [_ M N _ _ _ _]. rewrite M. unfold MAX_FILENO in *. lia. }
    wp_step. wp_step. wp_step. apply wp_on_heap. eapply wp_mono; [apply (ch_free_spec p sizeof_FILE); exact B|]. cbv beta. intros [] h Hfree.
    wp_step. intros b n Hb Bb. by apply Hfree.
  - cbv beta. by intros r s' [[_ H1] H2].
Qed.
(** The table with a new stream. *)
Definition opened (p : Z) (l : list Z) (a : aio) : aio :=
  Aio (a_files a) (<[p := AStream (efi_name l) 0 0 (a_next a)]> (a_streams a)) (a_next a + 1).

Lemma fopen_opens fuel path mode l s a : represents s a → name_at s path l → (length l < fuel)%nat → mode ≠ 0 →
  wp (fopen fuel path mode) (λ p _, p ≠ 0) s →
  wp (fopen fuel path mode) (λ p s', p ≠ 0 ∧ a_streams a !! p = None ∧ represents s' (opened p l a)) s.
Proof.
  intros HR Hname Hf Hm Hopen. assert (wp (fopen fuel path mode) (λ _ _, True) s) as Hret by (by eapply wp_mono).
  pose proof (wp_and _ _ _ _ Hopen (stop_returns _ _ _ _ (fopen_or_stop fuel path mode l true s a HR Hname Hf Hm ltac:(done)) Hret)) as Hboth.
  eapply wp_mono; [exact Hboth|]. cbv beta. clear Hboth. intros p s1 (Hp & a1 & Hs & HR1).
  inversion Hs as [? ? ? ? Hfile Hnext Hnone| | | | | | | | | | |]; subst; done.
Qed.

Lemma a_set_set p x y a : a_set p y (a_set p x a) = a_set p y a.
Proof. unfold a_set. cbn. by rewrite insert_insert_eq. Qed.
Lemma a_set_get p x a : a_streams (a_set p x a) !! p = Some x.
Proof. apply lookup_insert_eq. Qed.
End steps.

(** ** A volume with two files *)
Definition demo_file : list Z := [127; 69; 76; 70; 2; 1; 1].
(** A PSF1 font with characters of one line. *)
Definition demo_font : list Z := [0x36; 0x04; 0; 1] ++ replicate 256 24.
Definition demo_files : gmap (list Z) (list Z) :=
  {[ efi_name (cstr "/boot/k") := demo_file; efi_name (cstr "/boot/f") := demo_font ]}.
(** The open handles; positions are 64 bits. *)
Abbreviation demo_vol := (gmap Z (list Z * Z)).
Definition dv_open (v : demo_vol) : gmap Z (list Z * Z) := (λ np, (np.1, u64 np.2)) <$> v.
Definition dv_size (name : list Z) : Z := Z.of_nat (length (default [] (demo_files !! name))).
Definition dv_info (v : demo_vol) (h : Z) : list Z :=
  le_bytes 8 0 ++ le_bytes 8 (dv_size (default [] (fst <$> (v !! h)))).
Definition dv_handle (v : demo_vol) : Z := map_fold (λ k _ n, Z.max (k + 1) n) 1 v.

Definition dv_Open (root : Z) (name : list Z) (mode attr : Z) : M demo_vol (Z * Z) := λ v,
  match demo_files !! name with
  | Some _ => Done ((EFI_SUCCESS, dv_handle v), <[dv_handle v := (name, 0)]> v)
  | None => Done ((EFI_NOT_FOUND, 0), v)
  end.
Definition dv_Read (h n : Z) : M demo_vol (Z * list Z) := λ v,
  match dv_open v !! h with
  | Some (name, pos) =>
      let c := default [] (demo_files !! name) in
      if pos <=? Z.of_nat (length c) then
        let got := take (Z.to_nat n) (drop (Z.to_nat pos) c) in
        Done ((EFI_SUCCESS, got), <[h := (name, pos + Z.of_nat (length got))]> v)
      else Done ((2 ^ 63 + 7, []), v)
  | None => Done ((2 ^ 63 + 2, []), v)
  end.
Definition dv_SetPosition (h n : Z) : M demo_vol Z := λ v,
  match dv_open v !! h with
  | Some (name, _) => Done (EFI_SUCCESS, <[h := (name, if n =? 2 ^ 64 - 1 then dv_size name else n)]> v)
  | None => Done (2 ^ 63 + 2, v)
  end.
#[export] Instance demo_vol_ops : EfiFileOps demo_vol := {|
  fi_Open := dv_Open; fi_Read := dv_Read;
  fi_Write _ _ := λ v, Done ((2 ^ 63 + 8, 0), v);
  fi_GetPosition h := λ v, Done ((EFI_SUCCESS, match dv_open v !! h with Some (_, pos) => pos | None => 0 end), v);
  fi_SetPosition := dv_SetPosition;
  fi_GetInfo h n null := λ v,
    if n <? Z.of_nat (length (dv_info v h)) then Done ((EFI_BUFFER_TOO_SMALL, Z.of_nat (length (dv_info v h)), []), v)
    else Done ((EFI_SUCCESS, Z.of_nat (length (dv_info v h)), dv_info v h), v);
  fi_Flush _ := λ v, Done (EFI_SUCCESS, v);
  fi_Close h := λ v, Done (EFI_SUCCESS, base.delete h v);
  fi_Delete h := λ v, Done (EFI_WARN_DELETE_FAILURE, base.delete h v)
|}.

Lemma dv_handle_fresh v : v !! dv_handle v = None.
Proof.
  assert (∀ h, is_Some (v !! h) → h < dv_handle v) as Hlt.
  { unfold dv_handle. apply (map_fold_weak_ind (λ n v, ∀ h, is_Some (v !! h) → h < n)); [by intros h [x Hx]|].
    intros k x m n _ IH h Hh. rewrite lookup_insert in Hh. case_decide; [lia|]. specialize (IH h Hh). lia. }
  destruct (v !! dv_handle v) eqn:E; [|done]. specialize (Hlt (dv_handle v) ltac:(by rewrite E)). lia.
Qed.

Lemma dv_open_Some (v : demo_vol) h name pos : dv_open v !! h = Some (name, pos) → ∃ q, v !! h = Some (name, q) ∧ pos = u64 q.
Proof. unfold dv_open. rewrite lookup_fmap_Some. intros ([n q] & [= <- <-] & Hq). by exists q. Qed.

Lemma dv_open_insert (v : demo_vol) h name pos : 0 <= pos < 2 ^ 64 → dv_open (<[h := (name, pos)]> v) = <[h := (name, pos)]> (dv_open v).
Proof. intros Hp. unfold dv_open. rewrite fmap_insert. cbn. by rewrite u64_small by lia. Qed.

Lemma demo_files_ok name c : demo_files !! name = Some c → c = demo_file ∨ c = demo_font.
Proof. unfold demo_files. rewrite lookup_insert_Some, lookup_singleton_Some. intros [[_ <-]|[_ [_ <-]]]; [by left|by right]. Qed.

#[export] Instance demo_volume : Volume demo_vol.
Proof.
  refine (Build_Volume demo_vol _ 1 (λ _, demo_files) dv_open dv_info _ _ _ _ _ _ _ _ _ _).
  - intros v name c [-> | ->]%demo_files_ok; (split; [|by vm_compute]).
    + repeat (constructor; [lia|]). constructor.
    + apply Forall_app. split; [repeat (constructor; [lia|]); constructor|]. apply Forall_replicate. lia.
  - intros v h name pos (q & _ & ->)%dv_open_Some. apply u64_range.
  - intros v h name pos c (q & Eq & _)%dv_open_Some Hc. unfold dv_info. rewrite Eq.
    change (default [] (fst <$> Some (name, q))) with name.
    unfold dv_size. rewrite Hc. cbn [default]. apply demo_files_ok in Hc. split; [by destruct Hc as [-> | ->]; vm_compute|]. intros m b.
    set (l := _ ++ _). assert (length l = 16%nat) as Hl by done. unfold rd64. cbn [rd]. rewrite <- !Z.add_assoc.
    rewrite !rd8_put_at by (rewrite Hl; lia). unfold l. by destruct Hc as [-> | ->]; vm_compute.
  - intros v name mode. unfold wp, fi_Open, demo_vol_ops, dv_Open. destruct (demo_files !! name); [|done].
    split_and!; try done; cbn [fst snd].
    + unfold dv_open. by rewrite lookup_fmap, dv_handle_fresh.
    + by apply dv_open_insert.
  - intros v h name pos c n Ho Hc Hn. unfold wp, fi_Read, demo_vol_ops, dv_Read. rewrite Ho, Hc. change (default [] (Some c)) with c.
    assert (0 <= pos) by (apply dv_open_Some in Ho as (q & _ & ->); apply u64_range).
    destruct (Z.leb_spec pos (Z.of_nat (length c))); case_decide; try lia; [|split_and!; [done|by vm_compute|done]]. split_and!; try done. apply dv_open_insert.
    rewrite length_take, length_drop. assert (Z.of_nat (length c) < 2 ^ 32) by (apply demo_files_ok in Hc as [-> | ->]; by vm_compute). lia.
  - intros v h name pos Ho. unfold wp, fi_GetPosition, demo_vol_ops. by rewrite Ho.
  - intros v h name pos c n Ho Hc Hn. unfold wp, fi_SetPosition, demo_vol_ops, dv_SetPosition. rewrite Ho. split_and!; try done.
    unfold dv_size. rewrite Hc. change (default [] (Some c)) with c. apply dv_open_insert. case_match; [|lia]. apply demo_files_ok in Hc as [-> | ->]; by vm_compute.
  - intros v h name pos Ho. unfold wp, fi_GetInfo, demo_vol_ops. unfold dv_info. rewrite length_app. done.
  - intros v h name pos Ho. unfold wp, fi_GetInfo, demo_vol_ops. rewrite Z.ltb_irrefl. done.
  - intros v h name pos Ho. unfold wp, fi_Close, demo_vol_ops. split; [done|]. unfold dv_open. apply fmap_delete.
Defined.

(** One stream, at byte 2 of the file, on a heap whose first block it is. *)
Definition demo_io : io demo_pool demo_vol :=
  Io (DemoPool (wr64 ∅ 4096 32) [(40, true)]) {[ 1 := (efi_name (cstr "/boot/k"), 2) ]} {[ 4104 := File 1 0 0 3 0 0 ]} ∅
    ([0; 1; 2; 4104] ++ replicate 1020 0) 4 1 0 0 0 0 0 0 0.
Definition demo_aio : aio := Aio demo_files {[ 4104 := AStream (efi_name (cstr "/boot/k")) 2 0 3 ]} 4.

Lemma demo_represents : represents demo_io demo_aio.
Proof.
  split; try done.
  - intros p x. change (a_streams demo_aio) with ({[ 4104 := AStream (efi_name (cstr "/boot/k")) 2 0 3 ]} : gmap Z astream).
    intros [<- <-]%lookup_singleton_Some. exists (File 1 0 0 3 0 0). split; [done|]. split; try done.
    exists 32. split_and!; try done; by vm_compute.
  - intros p. change (a_streams demo_aio) with ({[ 4104 := AStream (efi_name (cstr "/boot/k")) 2 0 3 ]} : gmap Z astream).
    change (streams demo_io) with ({[ 4104 := File 1 0 0 3 0 0 ]} : gmap Z FILE). intros Hp%lookup_singleton_None. by apply lookup_singleton_None.
  - intros p q f g. change (streams demo_io) with ({[ 4104 := File 1 0 0 3 0 0 ]} : gmap Z FILE).
    intros [<- _]%lookup_singleton_Some [<- _]%lookup_singleton_Some _. done.
Qed.

(** Names in a block of the pool; no streams yet. *)
Definition named_io : io demo_pool demo_vol :=
  Io (DemoPool (put_bytes (put_bytes (wr64 ∅ 4096 40) 4104 (cstr "/boot/f")) 4120 (cstr "r")) [(48, true)])
    ∅ ∅ ∅ ([0; 1; 2] ++ replicate 1021 0) 3 1 0 0 0 0 0 0 0.
Definition named_aio : aio := Aio demo_files ∅ 3.

Lemma named_represents : represents named_io named_aio.
Proof. by split. Qed.

Lemma named_at : name_at named_io 4104 (cstr "/boot/f").
Proof.
  split_and!; [by vm_compute| |by vm_compute]. intros i Hi. change (Z.of_nat (length (cstr "/boot/f"))) with 7 in Hi.
  exists 4096, 48. split; [by vm_compute|lia].
Qed.

(** Asking for nine bytes delivers the last five.*)
Lemma streams_simulate_witness :
  let read := Fread 0x10000 3 3 4104 in
  let open := Fopen 4104 4120 in
  wp_or_stop (may_stop 10 read demo_io) (exec (λ _ _ _ _ _, undef) 10 read) (λ r s', ∃ got a', astep demo_aio (CFread 3 3 4104) r got a' ∧
    represents s' a' ∧ in_buffer read got s') demo_io ∧
  wp_or_stop (may_stop 10 open named_io) (exec (λ _ _ _ _ _, undef) 10 open) (λ r s', ∃ got a',
    astep named_aio (CFopen (efi_name (cstr "/boot/f")) false) r got a' ∧ represents s' a' ∧ in_buffer open got s') named_io.
Proof.
  intros read open. split.
  - refine (streams_simulate (λ _ _ _ _ _, undef) 10 demo_io demo_aio read _ demo_represents _).
    constructor; try done. intros i Hi (b & k & Hb & _ & Hbk). unfold demo_io, po_block, demo_pool_laws, demo_block in Hb. cbn in Hb.
    destruct (Z.eqb_spec b 4096); [lia|done].
  - refine (streams_simulate (λ _ _ _ _ _, undef) 10 named_io named_aio open _ named_represents _).
    apply (asks_open _ _ _ _ _ _ false named_at); [by apply Nat.ltb_lt|done|]. intros _. vm_compute. discriminate.
Defined.
