(* ===== verification/EfiLoad.v ===== *)
(** * Loading files under UEFI

    src/efiloader/modules.c and load.c: [load_module], [load_file] and
    [load_kernel] over the streams of efilibc, its heap and the loader's
    allocator.  The firmware provides pool and pages in one memory
    ([BootServices]).  The values stored through the result pointers are
    options; the gzip streams of zlib are not opened here.  The text of
    [printf] messages is left out. *)

From stdpp Require Import base numbers list strings gmap.
From Stdlib Require Import Lia Sorted.
From S2P Require Import Prelude Mem PageTable EfiVMem LibcString EfiHeap EfiFile.
Open Scope Z_scope.

Definition EFI_ABORTED : Z := 2 ^ 63 + 21.

(** ** Pool and pages of one firmware *)
Class BootServices (F : Type) `{Pool F} `{Firmware F} := {
  bs_ram (s : F) : fw_ram s = po_mem s;
  bs_set m (s : F) : fw_set_ram m s = po_set_mem m s;
  (** Pages are no one's before and in use after; the pool stays as it is. *)
  bs_pages ty n s : 0 <= n →
    wp (fw_alloc_pages ty n) (λ r s',
      (∀ b k, po_block s' b k ↔ po_block s b k) ∧ (∀ a, po_used s a → po_used s' a) ∧
      (r.1 = EFI_SUCCESS → ∀ a, r.2 <= a < r.2 + 4096 * n → ¬ po_used s a ∧ po_used s' a)) s
}.

(** The streams, the region list and the length of the kernel file. *)
Record ml (F P : Type) := Ml { mio : io F P; regs : list vmem_map_entry; elf_kernel_len : Z }.
Arguments Ml {F P}. Arguments mio {F P}. Arguments regs {F P}. Arguments elf_kernel_len {F P}.

Section code.
Context {F P : Type} {PO : PoolOps F} {WO : FirmwareOps F} {FO : EfiFileOps P}.
Context (call_fread : Z → Z → Z → Z → Z → M (io F P) Z).
Context (malloc_ok : nat → bool).
#[local] Existing Instance malloc_heap_ops.

Definition on_io {A} (c : M (io F P) A) : M (ml F P) A := λ s,
  obind (c (mio s)) (λ p, Done (p.1, Ml p.2 (regs s) (elf_kernel_len s))).
Definition set_regs (rs : list vmem_map_entry) (s : ml F P) : ml F P := Ml (mio s) rs (elf_kernel_len s).
Definition set_kernel_len (n : Z) (s : ml F P) : ml F P := Ml (mio s) (regs s) n.

(** A chunk of a megabyte at a time. *)
Fixpoint load_loop (fuel : nat) (f flen paddr cur_offset : Z) : M (io F P) unit :=
  match fuel with
  | O => hang
  | S fuel =>
      if cur_offset <? flen then
        let to_read := if flen <? s32 (cur_offset + 0x100000) then s32 (flen - cur_offset) else 0x100000 in
        _ ← fread call_fread (u64 (paddr + cur_offset)) (u64 to_read) 1 f;
        load_loop fuel f flen paddr (s32 (cur_offset + 0x100000))
      else mret tt
  end.
Definition load_file (f flen paddr : Z) : M (io F P) Z :=
  load_loop (Z.to_nat (flen / 0x100000) + 2) f flen paddr 0 ;; mret EFI_SUCCESS.

(** Status, [*vaddr], [*length] and [*paddr_out]; [r] is the string ["r"]. *)
Definition load_module (fuel : nat) (r fname : Z) : M (ml F P) (Z * option Z * option Z * option Z) :=
  fmod ← on_io (fopen fuel fname r);
  if fmod =? 0 then mret (EFI_NOT_FOUND, Some 0, Some 0, Some 0)
  else
    _ ← on_io (fseek fmod 0 SEEK_END);
    flen ← on_io (ftell fmod);
    _ ← on_io (fseek fmod 0 SEEK_SET);
    let flen_align := if truth (Z.land flen 0xfff)
                      then s32 (Z.land (u64 (s32 (flen + 0x1000))) (u64 (Z.lnot 0xfff))) else flen in
    s ← get;
    a ← on_io (on_heap (allocate malloc_ok (u64 flen_align) (regs s)));
    let '(st, vaddr, paddr, rs) := a : Z * option Z * option Z * list vmem_map_entry in
    modify (set_regs rs) ;;
    if negb (st =? EFI_SUCCESS) then mret (st, vaddr, None, None)
    else
      match paddr with
      | None => undef
      | Some paddr =>
          _ ← on_io (load_file fmod flen paddr);
          _ ← on_io (fclose fmod);
          mret (EFI_SUCCESS, vaddr, Some (u64 flen), Some paddr)
      end.

(** The kinds of kernel file, with the stream. *)
Inductive kernel_file := KernelElf (stream : Z) | KernelGzip (fd : Z).

(** [magic] is the address of the local array. *)
Definition load_kernel (fuel : nat) (r magic fname : Z) : M (ml F P) (Z * option kernel_file) :=
  fkernel ← on_io (fopen fuel fname r);
  if fkernel =? 0 then mret (EFI_NOT_FOUND, None)
  else
    _ ← on_io (fseek fkernel 0 SEEK_END);
    flen ← on_io (ftell fkernel);
    modify (set_kernel_len (s32 flen)) ;;
    _ ← on_io (fseek fkernel 0 SEEK_SET);
    _ ← on_io (fread call_fread magic 1 4 fkernel);
    _ ← on_io (fseek fkernel 0 SEEK_SET);
    s ← get;
    let m := io_mem (mio s) in
    if (rd8 m magic =? 0x7f) && (rd8 m (magic + 1) =? 69) && (rd8 m (magic + 2) =? 76) && (rd8 m (magic + 3) =? 70) then
      mret (EFI_SUCCESS, Some (KernelElf fkernel))
    else if (rd8 m magic =? 0x1f) && (rd8 m (magic + 1) =? 0x8b) then
      fd ← on_io (fileno fkernel); mret (EFI_SUCCESS, Some (KernelGzip fd))
    else mret (EFI_ABORTED, None).
End code.

(** ** Seeking to the ends *)
Section seeks.
Context {H P : Type} {CO : CHeapOps H} {CH : CHeap H} {FO : EfiFileOps P} {VO : Volume P}.
Implicit Types (s : io H P) (a : aio).

Lemma fseek_end p x c s a : represents s a → a_streams a !! p = Some x → a_files a !! as_name x = Some c →
  Z.of_nat (List.length c) < 2 ^ 31 →
  wp (fseek p 0 SEEK_END) (λ _ s', represents s' (a_set p (AStream (as_name x) (Z.of_nat (List.length c)) 0 (as_fd x)) a)) s.
Proof.
  intros HR Hx Hc Hlen.
  eapply wp_mono; [by apply (fseek_spec p x c 0 SEEK_END s a); [..|lia]|]. cbv beta. intros r s' (a' & Hs & HR').
  inversion Hs as [| | | | | |? ? ? ? y d t Hy Hd Ht| ? ? ? ? Hw| | | |]; subst; [|unfold SEEK_END in Hw; lia].
  assert (y = x) as -> by congruence. assert (d = c) as -> by congruence.
  replace (if t =? 2 ^ 64 - 1 then _ else _) with (Z.of_nat (List.length c)) in HR'; [done|].
  inversion Ht; subst; [rewrite s32_small, Z.add_0_r, u64_small by lia|].
  - destruct (Z.eqb_spec (Z.of_nat (List.length c)) (2 ^ 64 - 1)); lia.
  - done.
Qed.

Lemma fseek_start p x c s a : represents s a → a_streams a !! p = Some x → a_files a !! as_name x = Some c →
  wp (fseek p 0 SEEK_SET) (λ _ s', represents s' (a_set p (AStream (as_name x) 0 0 (as_fd x)) a)) s.
Proof. intros HR Hx Hc. eapply wp_mono; [apply (seek_io 0 p x c s a); [done|done|done|lia]|]. cbv beta. by intros _ s' [_ ?]. Qed.

End seeks.

(** ** Loading *)
Section loading.
Context {F P : Type} {PO : PoolOps F} {PL : Pool F} {WO : FirmwareOps F} {FW : Firmware F} {BS : BootServices F}.
Context {FO : EfiFileOps P} {VO : Volume P}.
Context (call_fread : Z → Z → Z → Z → Z → M (io F P) Z) (malloc_ok : nat → bool).
#[local] Existing Instances malloc_heap_ops malloc_heap.
Implicit Types (s : io F P) (a : aio).

Lemma wp_on_io {A} (c : M (io F P) A) (Q : A → ml F P → Prop) x :
  wp c (λ r s, Q r (Ml s (regs x) (elf_kernel_len x))) (mio x) → wp (on_io c) Q x.
Proof. unfold wp, on_io, obind. by destruct (c (mio x)) as [[r s]| |]. Qed.

(** Bytes in use that are in no block of the pool. *)
Definition paged (h : F) (lo n : Z) : Prop :=
  0 < lo ∧ lo + n <= 2 ^ 52 ∧ ∀ b, lo <= b < lo + n → po_used h b ∧ ∀ q k, po_block h q k → ¬ (q <= b < q + k).

Lemma paged_set h m lo n : paged h lo n → paged (po_set_mem m h) lo n.
Proof.
  intros (H1 & H2 & H3). split_and!; [done|done|]. intros b Hb. destruct (H3 b Hb) as [U B]. split; [by apply po_used_set|].
  intros q k Hq. apply B. by apply (po_block_set m h).
Qed.

Lemma paged_not_private h lo n b : paged h lo n → lo <= b < lo + n → ¬ ch_private h b.
Proof. intros (_ & _ & H3) Hb (q & k & Hq & Hk & Hin). destruct (H3 b Hb) as [_ B]. apply (B q k Hq). lia. Qed.

(** What [load_loop] has done when it is at [k]. *)
Record loaded s a (h : F) (p pa k : Z) (x : astream) (c : list Z) : Prop := Loaded {
  ld_rep : represents s (a_set p x a);
  ld_stream : as_pos x = Z.min k (Z.of_nat (List.length c)) ∧ a_files a !! as_name x = Some c;
  ld_heap : heap s = po_set_mem (io_mem s) h;
  ld_bytes i b : Z.of_nat i < k → c !! i = Some b → rd8 (io_mem s) (pa + Z.of_nat i) = b
}.

Lemma load_loop_spec fuel s a h p pa k x c :
  paged h pa (Z.of_nat (List.length c)) → Z.of_nat (List.length c) <= 2 ^ 31 - 2 ^ 20 → loaded s a h p pa k x c → 0 <= k →
  (Z.to_nat ((Z.of_nat (List.length c) - k) / 0x100000 + 1) < fuel)%nat →
  wp (load_loop call_fread fuel p (Z.of_nat (List.length c)) pa k)
    (λ _ s', ∃ x' k', Z.of_nat (List.length c) <= k' ∧ as_name x' = as_name x ∧ as_fd x' = as_fd x ∧ loaded s' a h p pa k' x' c) s.
Proof.
  intros Hpg Hn. pose proof Hpg as (Hpa & Htop & _). set (n := Z.of_nat (List.length c)) in *.
  revert s k x. induction fuel as [|fuel IH]; intros s k x Hld Hk Hf; [lia|]. cbn [load_loop].
  destruct (Z.ltb_spec k n) as [Hlt|Hge]; [|wp_step; by exists x, k].
  pose proof Hld as [HR [Hpos Hc] Hh Hby]. set (t := Z.min 0x100000 (n - k)).
  assert ((if n <? s32 (k + 0x100000) then s32 (n - k) else 0x100000) = t) as ->.
  { rewrite s32_small by lia. destruct (Z.ltb_spec n (k + 0x100000)); [rewrite s32_small by lia|]; lia. }
  rewrite (s32_small (k + _)), (u64_small t), (u64_small (pa + k)) by lia. cbv zeta. wp_step.
  assert (∀ b, ch_private (heap s) b → ¬ (pa <= b < pa + n)) as Hnp.
  { rewrite Hh. intros b Hb Hin. apply (paged_not_private (po_set_mem (io_mem s) h) pa n b); [by apply paged_set|done|done]. }
  eapply wp_mono; [apply (fread_spec call_fread (pa + k) t 1 p x c s (a_set p x a))|].
  { done. } { apply a_set_get. } { done. } { lia. } { lia. } { lia. } { lia. }
  { intros i Hi Hpr. apply (Hnp _ Hpr). lia. }
  cbv beta zeta. rewrite Z.mul_1_r. intros r s' (_ & Hh' & HR'). rewrite a_set_set in HR'.
  rewrite Hpos, Z.min_l in Hh' by lia. set (got := delivered c k t) in *.
  assert (Z.of_nat (List.length got) = t) as Hgot by (unfold got; rewrite length_delivered by lia; fold n; lia).
  assert (io_mem s' = put_bytes (io_mem s) (pa + k) got) as Em by (unfold io_mem; rewrite Hh'; apply (ch_mem_set (H := F))).
  assert (after_read x c t = AStream (as_name x) (k + t) (as_eof x) (as_fd x)) as Eaft.
  { unfold after_read. rewrite Hpos, Z.min_l by lia. rewrite decide_True by (fold n; lia). fold got. by rewrite Hgot, Z.eqb_refl. }
  rewrite Eaft in HR'. eapply wp_mono; [apply (IH s' (k + 0x100000) (AStream (as_name x) (k + t) (as_eof x) (as_fd x)))|].
  - split; [done| | |].
    + cbn. split; [fold n; lia|done].
    + rewrite Em, Hh'. transitivity (po_set_mem (put_bytes (io_mem s) (pa + k) got) (po_set_mem (io_mem s) h)); [|apply po_set_set].
      by rewrite <- Hh.
    + intros i b Hi Hb. rewrite Em, rd8_put_bytes, Hgot. pose proof (lookup_lt_Some _ _ _ Hb) as Hlen.
      destruct (vo_file_ok (vol s) (as_name x) c) as [Hbytes _]; [by rewrite (re_files _ _ HR)|].
      case_decide as Hin.
      * replace (Z.to_nat (pa + Z.of_nat i - (pa + k))) with (i - Z.to_nat k)%nat by lia.
        assert (got !! (i - Z.to_nat k)%nat = Some b) as Hg.
        { unfold got, delivered. rewrite decide_True by (fold n; lia). rewrite lookup_take_lt by lia. rewrite lookup_drop.
          by replace (Z.to_nat k + (i - Z.to_nat k))%nat with i by lia. }
        rewrite (nth_lookup_Some _ _ _ _ Hg). rewrite Forall_lookup in Hbytes. apply u8_small. by apply (Hbytes i).
      * apply Hby; [lia|done].
  - lia.
  - assert ((n - k) / 0x100000 = (n - (k + 0x100000)) / 0x100000 + 1) as Ediv.
    { replace (n - k) with (n - (k + 0x100000) + 1 * 0x100000) by lia. by rewrite Z.div_add by lia. }
    destruct (decide (k + 0x100000 <= n)) as [|].
    + assert (0 <= (n - (k + 0x100000)) / 0x100000) by (apply Z.div_pos; lia). lia.
    + assert ((n - (k + 0x100000)) / 0x100000 = -1) as E1 by (symmetry; apply (Z.div_unique _ _ (-1) (n - k)); lia). lia.
  - cbv beta. intros _ s2 (x' & k' & H1 & H2 & H3 & H4). by exists x', k'.
Qed.

(** ** Room for the file *)
(** The status [allocate] gives, and what it has done if it is success. *)
Definition room (n : Z) (rs rs' : list vmem_map_entry) (st : Z) (va pa : option Z) (h : F) : Prop :=
  (st ≠ EFI_SUCCESS → rs' = rs) ∧
  (st = EFI_SUCCESS → ∃ v p, va = Some v ∧ pa = Some p ∧ rs' = rs ++ [Entry v n 0 p] ∧
    candidate n v rs ∧ (∀ w, candidate n w rs → v <= w) ∧ p mod 4096 = 0 ∧ paged h p n).

Lemma allocate_room n rs h : Forall region_ok rs → 0 < n <= 2 ^ 47 → n mod 4096 = 0 →
  wp (allocate malloc_ok n rs) (λ r h', let '(st, va, pa, rs') := r in
    blocks_kept h h' ∧ room n rs rs' st va pa h') h.
Proof.
  intros Hrs Hn Hal. unfold allocate. rewrite round_up_spec by lia. assert (round_page n = n) as -> by (unfold round_page; dlia).
  wp_step. unfold alloc_data. assert (0 <= n / 4096) as Hp by (apply Z.div_pos; lia).
  pose proof (wp_and _ _ _ _ (fw_alloc_spec EfiLoaderData (n / 4096) h Hp) (bs_pages EfiLoaderData (n / 4096) h Hp)) as Hboth.
  eapply wp_mono; [exact Hboth|]. cbv beta. clear Hboth. intros r h' [(Hram & _ & Ha) (Hb & Hu & Hpg)].
  assert (blocks_kept h h') as Hk.
  { intros p k (c & Hc & Hblk & Hsz). exists c. split_and!; try lia; [by apply Hb|]. rewrite <- Hsz. by rewrite <- !bs_ram, Hram. }
  destruct (Z.eqb_spec (r.1) EfiVMem.EFI_SUCCESS) as [Es|Hne]; cbn [negb].
  2: { wp_step. split; [done|]. split; [done|]. intros E. by destruct Hne. }
  destruct (allocate_any_spec malloc_ok n (r.2) rs Hrs) as (a & Ea & Hany); [lia|]. wp_step. eapply wp_lift; [exact Ea|].
  replace (4096 * (n / 4096)) with n in * by dlia. destruct (Ha Es) as (A1 & A2 & A3 & _).
  destruct Hany as [b Hcand Hfirst _|b _ _|_]; cbn [Z.eqb]; wp_step; (split; [done|]); split; try done.
  intros _. exists b, r.2. do 6 (split; [done|]). split; [lia|]. split; [lia|]. intros x Hx. destruct (Hpg Es x Hx) as [U1 U2]. split; [done|].
  intros q k Hq Hin. apply U1. apply Hb in Hq. by apply (po_block_used h q k).
Qed.

(** The length asked for, in the mixed widths of the code. *)
Lemma module_pages n : 0 < n <= 2 ^ 31 - 2 ^ 20 →
  u64 (if truth (Z.land n 0xfff) then s32 (Z.land (u64 (s32 (n + 0x1000))) (u64 (Z.lnot 0xfff))) else n) = round_page n.
Proof.
  intros Hn. assert (n <= round_page n <= n + 4095) as Hr by (unfold round_page; dlia).
  pose proof (round_up_spec n ltac:(lia)) as E. rewrite (s32_small (n + 0x1000)) by lia. destruct (truth (Z.land n 0xfff)).
  - rewrite E, s32_small by lia. apply u64_small. lia.
  - rewrite <- E. apply u64_small. lia.
Qed.

(** Closing leaves what is in no block. *)
Lemma fclose_keeps p x s a : represents s a → a_streams a !! p = Some x →
  wp (fclose p) (λ _ s', ∀ lo n b, paged (heap s) lo n → lo <= b < lo + n → rd8 (io_mem s') b = rd8 (io_mem s) b) s.
Proof.
  intros HR Hx. destruct (std_stream s a p x HR Hx) as (Hp8 & Es & E0 & _). destruct (re_stream _ _ HR p x Hx) as (f & Ef & [B Fd E O C]).
  unfold fclose. rewrite Es, E0. cbn [orb]. wp_step. eapply wp_strm; [done|]. wp_step. apply wp_on_vol.
  eapply wp_mono; [by apply (Close_spec (vol s) (file f) (as_name x) (as_pos x))|]. cbv beta. intros _ v _.
  wp_step. apply wp_map_set. { cbn. destruct HR as [_ M N _ _ _ _]. rewrite M. unfold MAX_FILENO in *. lia. }
  wp_step. wp_step. wp_step. apply wp_on_heap. cbn [heap with_streams with_map with_vol ch_free malloc_heap_ops]. unfold free.
  rewrite (proj2 (Z.eqb_neq p 0)) by lia. pose proof (ch_block_range _ _ _ B) as [_ Hmax]. destruct B as (k & Hk & Hblk & _).
  rewrite u64_small by (unfold sizeof_size_t, sizeof_FILE in *; lia). wp_step.
  eapply wp_mono; [apply (FreePool_spec (p - 8) (k + 8)); exact Hblk|]. cbv beta. intros _ h' [Hfree _]. wp_step. wp_step.
  intros lo n b (_ & _ & Hpg) Hb. destruct (Hpg b Hb) as [U Bl]. unfold io_mem. cbn. apply Hfree; [done|]. by apply Bl.
Qed.

(** C12. Modules reach memory whole.  For a file of 1 byte to 2047 MiB that
    [fopen] opens, on a volume without device errors, [load_module] returns,
    with the status of the allocator.  On success the region list has grown by
    one region of the file's pages at the lowest free page-aligned address
    [*vaddr], backed by page-aligned memory at [*paddr_out] that no one had;
    this memory holds the file byte for byte, also over the chunks of a
    megabyte it is read in, [*length] is its length, the stream is closed and all
    other streams are where they were. *)
Theorem load_module_loads fuel r fname l c x a :
  represents (mio x) a → name_at (mio x) fname l → (List.length l < fuel)%nat → r ≠ 0 →
  wp (fopen fuel fname r) (λ p _, p ≠ 0) (mio x) → a_files a !! efi_name l = Some c →
  0 < Z.of_nat (List.length c) <= 2 ^ 31 - 2 ^ 20 → Forall region_ok (regs x) →
  let n := round_page (Z.of_nat (List.length c)) in
  wp (load_module call_fread malloc_ok fuel r fname) (λ res x', let '(st, va, len, pa) := res in
    (∃ h h' pa', allocate malloc_ok n (regs x) h = Done ((st, va, pa', regs x'), h')) ∧
    (st = EFI_SUCCESS → ∃ v p, va = Some v ∧ pa = Some p ∧ len = Some (Z.of_nat (List.length c)) ∧
      regs x' = regs x ++ [Entry v n 0 p] ∧ candidate n v (regs x) ∧ (∀ w, candidate n w (regs x) → v <= w) ∧
      p mod 4096 = 0 ∧ (∀ i b, c !! i = Some b → rd8 (io_mem (mio x')) (p + Z.of_nat i) = b) ∧
      represents (mio x') (Aio (a_files a) (a_streams a) (a_next a + 1)))) x.
Proof.
  intros HR Hname Hf Hr Hopen Hc Hlen Hrs n. set (N := Z.of_nat (List.length c)) in *. unfold load_module. wp_step. apply wp_on_io.
  eapply wp_mono; [by apply (fopen_opens fuel fname r l _ a)|]. cbv beta. intros p s1 (Hp & Hnone & HR1). rewrite (proj2 (Z.eqb_neq p 0)) by done.
  set (x0 := AStream (efi_name l) 0 0 (a_next a)). set (a1 := opened p l a) in *.
  wp_step. apply wp_on_io. eapply wp_mono; [apply (fseek_end p x0 c s1 a1); [done|apply lookup_insert_eq|done|lia]|].
  cbv beta. cbn [mio]. intros _ s2 HR2. set (x2 := AStream (as_name x0) (Z.of_nat (List.length c)) 0 (as_fd x0)) in *.
  wp_step. apply wp_on_io. eapply wp_mono; [apply (ftell_spec p x2 s2 _ HR2), a_set_get|].
  cbv beta. intros t s2' [-> ->]. cbn [as_pos x2]. rewrite s32_small by (fold N; lia). fold N.
  wp_step. apply wp_on_io. eapply wp_mono; [apply (fseek_start p x2 c s2 _ HR2); [apply a_set_get|done]|].
  cbv beta. cbn [mio regs]. intros _ s3 HR3. rewrite a_set_set in HR3. change (represents s3 (a_set p x0 a1)) in HR3.
  rewrite module_pages by (fold N; lia). fold n. cbv zeta. wp_step. wp_step. wp_step. apply wp_on_io, wp_on_heap. cbn [regs mio].
  assert (N <= n <= N + 4095 ∧ n mod 4096 = 0) as [Hn1 Hn2] by (unfold n, round_page; dlia).
  pose proof (allocate_room n (regs x) (heap s3) Hrs ltac:(lia) Hn2) as Hal. apply wp_elim in Hal as ([[[st va] pa] rs'] & h4 & Eal & Hk & Hroom).
  eapply wp_intro; [exact Eal|]. cbv beta iota. wp_step. wp_step. cbn [regs set_regs].
  assert (∃ h h' pa', allocate malloc_ok n (regs x) h = Done ((st, va, pa', rs'), h')) as Hst by (by exists (heap s3), h4, pa).
  destruct (Z.eqb_spec st EFI_SUCCESS) as [->|Hne]; cbn [negb]; [|wp_step; split; [done|]; done].
  destruct (proj2 Hroom eq_refl) as (v & pa' & -> & -> & -> & Hcand & Hfirst & Hpm & Hpg). clear Hroom.
  set (s4 := with_heap (λ _, h4) s3). assert (represents s4 (a_set p x0 a1)) as HR4 by (apply represents_kept; done).
  assert (paged h4 pa' N) as HpgN.
  { destruct Hpg as (P1 & P2 & P3). split_and!; [done|lia|]. intros b Hb. apply P3. lia. }
  wp_step. apply wp_on_io. cbn [mio set_regs]. unfold load_file. wp_step. eapply wp_mono.
  { apply (load_loop_spec _ s4 a1 h4 p pa' 0 x0 c HpgN); [lia| |lia|].
    - split; [done|split; [cbn; lia|done]| |].
      + unfold s4, io_mem. cbn. symmetry. apply po_set_get.
      + intros i b Hi. lia.
    - rewrite Z.sub_0_r. fold N. assert (0 <= N / 0x100000) by (apply Z.div_pos; lia). lia. }
  cbv beta. intros _ s5 (x5 & k5 & Hk5 & En & Efd & [HR5 [Hpos5 _] Hh5 Hby5]). wp_step. wp_step. apply wp_on_io. cbn [mio].
  eapply wp_mono; [apply (wp_and _ _ _ _ (fclose_keeps p x5 s5 _ HR5 (a_set_get _ _ _)) (fclose_spec p x5 s5 _ HR5 (a_set_get _ _ _)))|].
  cbv beta. intros _ s6 [Hkeep [_ HR6]]. wp_step. cbn [mio regs]. split; [done|]. intros _. exists v, pa'. split_and!; try done.
  - f_equal. apply u64_small. lia.
  - intros i b Hb. pose proof (lookup_lt_Some _ _ _ Hb) as Hi. rewrite (Hkeep pa' N); [|rewrite Hh5; by apply paged_set|lia].
    apply Hby5; [lia|done].
  - cbn [a_set a_files a_streams a_next a1 opened] in HR6. rewrite insert_insert_eq, delete_insert_id in HR6; done.
Qed.

(** ** The kernel file *)
(** What the first bytes of a file say, for the stream [p] with descriptor [fd]. *)
Definition kernel_kind (c : list Z) (p fd : Z) : Z * option kernel_file :=
  if decide (take 4 c = [127; 69; 76; 70]) then (EFI_SUCCESS, Some (KernelElf p))
  else if decide (take 2 c = [31; 139]) then (EFI_SUCCESS, Some (KernelGzip fd))
  else (EFI_ABORTED, None).

Lemma kernel_kind_tests b0 b1 b2 b3 c p fd :
  kernel_kind (b0 :: b1 :: b2 :: b3 :: c) p fd =
  if (b0 =? 0x7f) && (b1 =? 69) && (b2 =? 76) && (b3 =? 70) then (EFI_SUCCESS, Some (KernelElf p))
  else if (b0 =? 0x1f) && (b1 =? 0x8b) then (EFI_SUCCESS, Some (KernelGzip fd)) else (EFI_ABORTED, None).
Proof.
  unfold kernel_kind. cbn [take].
  destruct (decide _) as [[= -> -> -> ->]|He]; [done|].
  destruct (Z.eqb_spec b0 127) as [->|H0]; cbn [andb]; [|destruct (decide _) as [[= -> ->]|Hg]; [done|]].
  - rewrite decide_False by done. destruct (Z.eqb_spec b1 69) as [->|]; [|done]. destruct (Z.eqb_spec b2 76) as [->|]; [|done].
    destruct (Z.eqb_spec b3 70) as [->|]; done.
  - destruct (Z.eqb_spec b0 31) as [->|]; [|done]. by destruct (Z.eqb_spec b1 139) as [->|].
Qed.

(** C27. The kernel file is told by its first bytes.  For a file of at least 4
    bytes (and at most 2047 MiB) that [fopen] opens, [load_kernel] returns, with a buffer for the
    first bytes outside the heap: an ELF file is left to the streams of
    efilibc, a gzip file to zlib under its descriptor, any other file is
    refused; the length of the file is recorded, and in all three cases the file
    stays open, at its start. *)
Theorem load_kernel_detects fuel r magic fname l c x a :
  represents (mio x) a → name_at (mio x) fname l → (List.length l < fuel)%nat → r ≠ 0 →
  wp (fopen fuel fname r) (λ p _, p ≠ 0) (mio x) → a_files a !! efi_name l = Some c →
  4 <= Z.of_nat (List.length c) <= 2 ^ 31 - 2 ^ 20 → magic ≠ 0 →
  (∀ (h : F) i, 0 <= i < 4 → ¬ ch_private h (magic + i)) →
  wp (load_kernel call_fread fuel r magic fname) (λ res x', ∃ p, a_streams a !! p = None ∧
    res = kernel_kind c p (a_next a) ∧ elf_kernel_len x' = Z.of_nat (List.length c) ∧ regs x' = regs x ∧
    represents (mio x') (opened p l a)) x.
Proof.
  intros HR Hname Hf Hr Hopen Hc Hlen Hm0 Hmagic. set (N := Z.of_nat (List.length c)) in *. unfold load_kernel. wp_step. apply wp_on_io.
  eapply wp_mono; [by apply (fopen_opens fuel fname r l _ a)|]. cbv beta. intros p s1 (Hp & Hnone & HR1). rewrite (proj2 (Z.eqb_neq p 0)) by done.
  set (x0 := AStream (efi_name l) 0 0 (a_next a)). set (a1 := opened p l a) in *.
  wp_step. apply wp_on_io. eapply wp_mono; [apply (fseek_end p x0 c s1 a1); [done|apply lookup_insert_eq|done|lia]|].
  cbv beta. cbn [mio]. intros _ s2 HR2. set (x2 := AStream (as_name x0) (Z.of_nat (List.length c)) 0 (as_fd x0)) in *.
  wp_step. apply wp_on_io. eapply wp_mono; [apply (ftell_spec p x2 s2 _ HR2), a_set_get|].
  cbv beta. intros t s2' [-> ->]. cbn [as_pos x2]. fold N. rewrite !(s32_small N) by lia. wp_step. wp_step. wp_step.
  apply wp_on_io. cbn [mio set_kernel_len]. eapply wp_mono; [apply (fseek_start p x2 c s2 _ HR2); [apply a_set_get|done]|].
  cbv beta. cbn [mio regs set_kernel_len elf_kernel_len]. intros _ s3 HR3. rewrite a_set_set in HR3. change (represents s3 (a_set p x0 a1)) in HR3.
  wp_step. apply wp_on_io. cbn [mio].
  eapply wp_mono; [apply (fread_spec call_fread magic 1 4 p x0 c s3 (a_set p x0 a1)); [done|apply a_set_get|done|done|lia|lia|lia|]|].
  { intros i Hi. apply Hmagic. lia. }
  cbv beta zeta. cbn [mio as_pos x0]. intros _ s4 (_ & Hh4 & HR4). rewrite a_set_set in HR4. change (1 * 4) with 4 in *.
  set (x4 := after_read x0 c 4) in *. wp_step. apply wp_on_io. cbn [mio].
  assert (as_name x4 = as_name x0 ∧ as_fd x4 = as_fd x0) as [En Ef] by (unfold x4, after_read; by case_decide).
  assert (a_files (a_set p x4 a1) !! as_name x4 = Some c) as Hc4 by (by rewrite En).
  eapply wp_mono; [apply (seek_io 0 p x4 c s4 _ HR4 (a_set_get _ _ _) Hc4); lia|]. cbv beta. cbn [mio]. intros _ s5 [Hh5 HR5]. rewrite a_set_set, En, Ef in HR5.
  assert (a_set p x0 a1 = a1) as Ea by (unfold a_set, a1, opened; cbn; by rewrite insert_insert_eq).
  change (represents s5 (a_set p x0 a1)) in HR5. rewrite Ea in HR5. wp_step. wp_step. cbn [mio].
  assert (∀ i b, c !! i = Some b → (i < 4)%nat → rd8 (io_mem s5) (magic + Z.of_nat i) = b) as Em.
  { intros i b Hb Hi. destruct (vo_file_ok (vol s5) (as_name x0) c) as [Hby _]; [by rewrite (re_files _ _ HR5)|].
    rewrite Forall_lookup in Hby. unfold io_mem. rewrite Hh5, Hh4, ch_mem_set. unfold delivered. rewrite decide_True by lia.
    rewrite rd8_put_at by (rewrite length_take, length_drop; lia). rewrite Nat2Z.id.
    rewrite (nth_lookup_Some _ _ _ b); [by apply u8_small, (Hby i)|]. by rewrite lookup_take_lt, lookup_drop by lia. }
  subst N. destruct c as [|b0 [|b1 [|b2 [|b3 c']]]]; try (cbn in Hlen; lia).
  pose proof (Em 0%nat b0 eq_refl ltac:(lia)) as E0. pose proof (Em 1%nat b1 eq_refl ltac:(lia)) as E1.
  pose proof (Em 2%nat b2 eq_refl ltac:(lia)) as E2. pose proof (Em 3%nat b3 eq_refl ltac:(lia)) as E3.
  rewrite Z.add_0_r in E0. change (Z.of_nat 1) with 1 in E1. change (Z.of_nat 2) with 2 in E2. change (Z.of_nat 3) with 3 in E3.
  rewrite E0, E1, E2, E3. clear E0 E1 E2 E3 Em. cbv zeta.
  destruct (re_stream _ _ HR5 p x0 (lookup_insert_eq _ _ _)) as (f & Ef' & Sf). destruct (so_fd _ _ _ _ Sf) as (_ & _ & Efd).
  pose proof (kernel_kind_tests b0 b1 b2 b3 c' p (a_next a)) as Ek. destruct (_ && _ && _ && _).
  - wp_step. exists p. by rewrite Ek.
  - destruct ((b0 =? 31) && (b1 =? 139)).
    + wp_step. apply wp_on_io. unfold fileno. wp_step. eapply wp_strm; [exact Ef'|]. wp_step. wp_step. exists p. rewrite Ek.
      rewrite <- Efd. done.
    + wp_step. exists p. by rewrite Ek.
Qed.
End loading.

(** ** A firmware with pool and pages *)
(** The pool below 2^40, pages in increasing order above. *)
Record demo_fw := DemoFw { df_pool : demo_pool; df_page : N }.
Definition df_base (s : demo_fw) : Z := 2 ^ 40 + 4096 * Z.of_N (df_page s).

Definition df_AllocatePool (n : Z) : M demo_fw (Z * Z) := λ s,
  if pool_top 4096 (dp_blocks (df_pool s)) + n <=? 2 ^ 40 then
    obind (demo_allocate n (df_pool s)) (λ p, Done (p.1, DemoFw p.2 (df_page s)))
  else Done ((2 ^ 63 + 9, 0), s).
Definition df_FreePool (b : Z) : M demo_fw Z := λ s, obind (demo_free b (df_pool s)) (λ p, Done (p.1, DemoFw p.2 (df_page s))).
Definition df_AllocatePages (ty : memtype) (n : Z) : M demo_fw (Z * Z) := λ s,
  if df_base s + 4096 * n <=? 2 ^ 52 then Done ((EFI_SUCCESS, df_base s), DemoFw (df_pool s) (df_page s + Z.to_N n))
  else Done ((2 ^ 63 + 9, 0), s).

#[export] Instance demo_fw_pool_ops : PoolOps demo_fw := {|
  po_mem s := dp_mem (df_pool s); po_set_mem m s := DemoFw (DemoPool m (dp_blocks (df_pool s))) (df_page s);
  AllocatePool := df_AllocatePool; FreePool := df_FreePool
|}.
#[export] Instance demo_fw_ops : FirmwareOps demo_fw := {|
  fw_ram s := dp_mem (df_pool s); fw_set_ram m s := DemoFw (DemoPool m (dp_blocks (df_pool s))) (df_page s);
  fw_alloc_pages := df_AllocatePages
|}.

(** Blocks that lie below the pages. *)
Definition df_block (s : demo_fw) (b n : Z) : Prop := demo_block (df_pool s) b n ∧ b + n <= 2 ^ 40.
Definition df_used (s : demo_fw) (a : Z) : Prop := (∃ b n, df_block s b n ∧ b <= a < b + n) ∨ 2 ^ 40 <= a < df_base s.

#[export] Instance demo_fw_pool : Pool demo_fw.
Proof.
  refine (Build_Pool demo_fw _ df_used df_block _ _ _ _ _ _ _ _ _ _ _); try done.
  - by intros [[] ?].
  - intros s b n [E _]. pose proof (find_block_range _ _ _ _ E). lia.
  - intros s b n a Hb Ha. left. by exists b, n.
  - unfold df_block, demo_block. intros s b n n' [E _] [E' _]. congruence.
  - intros s b n b' n' [E _] [E' _]. by apply (find_block_apart _ _ _ _ _ _ E E').
  - intros n s Hn. unfold wp, AllocatePool, demo_fw_pool_ops, df_AllocatePool.
    destruct (Z.leb_spec (pool_top 4096 (dp_blocks (df_pool s)) + n) (2 ^ 40)) as [Hle|]; [|split_and!; [done|done|by left]].
    unfold demo_allocate. destruct (Z.leb_spec (pool_top 4096 (dp_blocks (df_pool s)) + n) (2 ^ 63)); [|lia]. cbn [obind fst snd].
    set (s' := DemoFw _ _). set (l := dp_blocks (df_pool s)) in *.
    assert (∀ b k, df_block s b k → df_block s' b k) as Hold.
    { intros b k [E Hb]. split; [|done]. unfold demo_block, s'. cbn. fold l. unfold demo_block in E. fold l in E.
      rewrite find_block_snoc by lia. case_decide; [|done]. pose proof (find_block_range _ _ _ _ E). lia. }
    split_and!; [|done|right; split_and!; [|done|]].
    + intros a Ha. split; [|done]. destruct Ha as [(b & k & Hb & Ha)|Ha]; [left; exists b, k; split; [by apply Hold|done]|by right].
    + split; [|done]. unfold demo_block, s'. cbn. fold l. rewrite find_block_snoc by lia. by rewrite decide_True.
    + intros a Ha [(b & k & [Hb _] & Hab)|Hab]; [|lia]. unfold demo_block in Hb. fold l in Hb. pose proof (find_block_range _ _ _ _ Hb). lia.
  - intros b n s [Hb Hmax]. unfold wp, FreePool, demo_fw_pool_ops, df_FreePool, demo_free. cbn [obind fst snd]. unfold demo_block in Hb. split.
    + intros a Ha Hnot. split; [|done]. destruct Ha as [(b' & k & [Hb' Hm'] & Ha)|Ha]; [|by right]. left. exists b', k. split; [|done].
      split; [|done]. unfold demo_block in *. cbn. rewrite find_block_drop; [done|]. intros ->. assert (k = n) as -> by congruence. lia.
    + intros b' k Hne [E Hm']. split; [|done]. unfold demo_block. cbn. by rewrite find_block_drop.
Defined.

Definition df_fw_used (s : demo_fw) (a : Z) : Prop := a < df_base s.
#[export] Instance demo_fw_firmware : Firmware demo_fw.
Proof.
  refine (Build_Firmware demo_fw _ df_fw_used _ _ _); try done.
  intros ty n s Hn. unfold wp, fw_alloc_pages, demo_fw_ops, df_AllocatePages, df_fw_used.
  destruct (Z.leb_spec (df_base s + 4096 * n) (2 ^ 52)) as [Hle|]; [|done]. unfold df_base in *. cbn.
  split_and!; [done|intros a Ha; lia|]. intros _. split_and!; [lia|lia|dlia|]. intros i Hi. lia.
Defined.

#[export] Instance demo_boot_services : BootServices demo_fw.
Proof.
  refine (Build_BootServices demo_fw _ _ _ _ _ _ _); try done.
  intros ty n s Hn. unfold wp, fw_alloc_pages, demo_fw_ops, df_AllocatePages.
  destruct (Z.leb_spec (df_base s + 4096 * n) (2 ^ 52)) as [Hle|]; [|done]. unfold df_base in *.
  assert (2 ^ 40 + 4096 * Z.of_N (df_page s + Z.to_N n) = df_base s + 4096 * n) as Eb by (unfold df_base; lia).
  split_and!; [done| |].
  - intros a [Ha|Ha]; [by left|right]. unfold df_base in *. cbn [df_page]. lia.
  - intros _ a Ha. cbn [fst snd] in Ha. split.
    + intros [(b & k & [_ Hm] & Hb)|Hu]; unfold df_base in *; lia.
    + right. unfold df_base in *. cbn [df_page]. lia.
Defined.

(** The demo stream table on this firmware, with names in pool memory. *)
Definition demo_ml : ml demo_fw demo_vol :=
  Ml (Io (DemoFw (DemoPool (put_bytes (wr64 (put_bytes (wr64 ∅ 4096 32) 4160 (cstr "/boot/k")) 4152 16) 4180 (cstr "r"))
        [(40, true); (48, true)]) 0)
      ∅ ∅ ∅ ([0; 1; 2] ++ replicate 1021 0) 3 1 0 0 0 0 0 0 0) [] 0.

Definition demo_table : aio := Aio demo_files ∅ 3.

Lemma demo_ml_represents : represents (mio demo_ml) demo_table.
Proof. by split. Qed.

Lemma demo_ml_name : name_at (mio demo_ml) 4160 (cstr "/boot/k").
Proof.
  split_and!; [by vm_compute| |by vm_compute]. intros i Hi. left. exists 4152, 48. split; [split; by vm_compute|].
  change (Z.of_nat (List.length (cstr "/boot/k"))) with 7 in Hi. lia.
Qed.

Lemma load_module_loads_witness :
  let n := round_page (Z.of_nat (List.length demo_file)) in
  wp (load_module (λ _ _ _ _ _, undef) (λ _, true) 20 4180 4160) (λ res x', let '(st, va, len, pa) := res in
    (∃ h h' pa', allocate (λ _, true) n (regs demo_ml) h = Done ((st, va, pa', regs x'), h')) ∧
    (st = EFI_SUCCESS → ∃ v p, va = Some v ∧ pa = Some p ∧ len = Some (Z.of_nat (List.length demo_file)) ∧
      regs x' = regs demo_ml ++ [Entry v n 0 p] ∧ candidate n v (regs demo_ml) ∧ (∀ w, candidate n w (regs demo_ml) → v <= w) ∧
      p mod 4096 = 0 ∧ (∀ i b, demo_file !! i = Some b → rd8 (io_mem (mio x')) (p + Z.of_nat i) = b) ∧
      represents (mio x') (Aio (a_files demo_table) (a_streams demo_table) (a_next demo_table + 1)))) demo_ml.
Proof.
  apply (load_module_loads (λ _ _ _ _ _, undef) (λ _, true) 20 4180 4160 (cstr "/boot/k") demo_file demo_ml demo_table).
  - apply demo_ml_represents.
  - apply demo_ml_name.
  - cbn. lia.
  - done.
  - vm_compute. discriminate.
  - by vm_compute.
  - change (0 < 7 <= 2 ^ 31 - 2 ^ 20). lia.
  - constructor.
Defined.

(** It does load. *)
Example load_module_runs :
  match load_module (λ _ _ _ _ _, undef) (λ _, true) 20 4180 4160 demo_ml with
  | Done ((st, va, len, pa), x') => (st, va, len, pa, rd8 (io_mem (mio x')) (2 ^ 40 + 6)) | _ => (1, None, None, None, 0)
  end = (0, Some 0x10000000, Some 7, Some (2 ^ 40), 1).
Proof. by vm_compute. Qed.

Lemma low_not_private (h : demo_fw) i : 0 <= i < 4 → ¬ ch_private h (16 + i).
Proof. intros Hi (q & k & [Hq _] & Hk & Hin). pose proof (find_block_range _ _ _ _ Hq). lia. Qed.

Lemma load_kernel_detects_witness :
  wp (load_kernel (λ _ _ _ _ _, undef) 20 4180 16 4160) (λ res x', ∃ p, a_streams demo_table !! p = None ∧
    res = kernel_kind demo_file p (a_next demo_table) ∧ elf_kernel_len x' = Z.of_nat (List.length demo_file) ∧ regs x' = regs demo_ml ∧
    represents (mio x') (opened p (cstr "/boot/k") demo_table)) demo_ml.
Proof.
  apply (load_kernel_detects (λ _ _ _ _ _, undef) 20 4180 16 4160 (cstr "/boot/k") demo_file demo_ml demo_table).
  - apply demo_ml_represents.
  - apply demo_ml_name.
  - cbn. lia.
  - done.
  - vm_compute. discriminate.
  - by vm_compute.
  - change (4 <= 7 <= 2 ^ 31 - 2 ^ 20). lia.
  - done.
  - apply low_not_private.
Defined.

(** The demo file is an ELF file; the stream is a new block. *)
Example load_kernel_runs :
  match load_kernel (λ _ _ _ _ _, undef) 20 4180 16 4160 demo_ml with
  | Done ((st, Some (KernelElf p)), x') => (st, p, elf_kernel_len x') | _ => (1, 0, 0)
  end = (0, 4264, 7).
Proof. by vm_compute. Qed.
