(* ===== verification/EwScreen.v ===== *)
(** * The screen of the EFI boot menu

    src/tload/tloadefi/efiwindow/screen.c: alpha blending of pixels, computed
    in doubles, and the copy of the back buffer to the frame buffer.  A double
    is an IEEE 754 binary64 number of the library [SpecFloat].  [ew_set_mode]
    (a choice among the modes of the firmware) is left out. *)

From stdpp Require Import base numbers list gmap.
From Stdlib Require Import Lia SpecFloat.
From S2P Require Import Prelude Mem.
Open Scope Z_scope.

(** ** Doubles *)
Abbreviation double := spec_float.
Definition d_add : double → double → double := SFadd 53 1024.
Definition d_sub : double → double → double := SFsub 53 1024.
Definition d_mul : double → double → double := SFmul 53 1024.
Definition d_div : double → double → double := SFdiv 53 1024.
Definition d_gt (x y : double) : bool := SFltb y x.
(** [(double)z] *)
Definition d_of_int (z : Z) : double := binary_normalize 53 1024 z 0 false.
(** [(uint32_t)x], towards zero; what does not fit is undefined in C and
    wraps here. *)
Definition d_to_uint32 (x : double) : Z :=
  match x with
  | S754_finite sg m e =>
      let t := if 0 <=? e then Z.shiftl (Zpos m) e else Z.shiftr (Zpos m) (- e) in
      u32 (if sg then - t else t)
  | _ => 0
  end.

(** ** Blending *)
Definition EW_BLEND_ZERO : Z := 0.
Definition EW_BLEND_ONE : Z := 1.
Definition EW_BLEND_SRCCOLOR : Z := 2.
Definition EW_BLEND_DESTCOLOR : Z := 3.
Definition EW_BLEND_INVSRCCOLOR : Z := 4.
Definition EW_BLEND_INVDESTCOLOR : Z := 5.
Definition EW_BLEND_SRCALPHA : Z := 6.
Definition EW_BLEND_DESTALPHA : Z := 7.
Definition EW_BLEND_INVSRCALPHA : Z := 8.
Definition EW_BLEND_INVDESTALPHA : Z := 9.

(** The globals [blend_enable], [srcblend] and [destblend]. *)
Record blend_mode := BlendMode { blend_enable : Z; srcblend : Z; destblend : Z }.
Definition ew_set_blend_mode (enable src_blend dest_blend : Z) : blend_mode := BlendMode enable src_blend dest_blend.

Record double_pixel := DPixel { dp_r : double; dp_g : double; dp_b : double; dp_a : double }.

Definition extract_blue (src : Z) : Z := Z.land src 0xff.
Definition extract_green (src : Z) : Z := Z.land (Z.shiftr src 8) 0xff.
Definition extract_red (src : Z) : Z := Z.land (Z.shiftr src 16) 0xff.
Definition extract_alpha (src : Z) : Z := Z.land (Z.shiftr src 24) 0xff.

(** [incoming] times the factors of each channel. *)
Definition scale (p : double_pixel) (r g b a : double) : double_pixel :=
  DPixel (d_mul (dp_r p) r) (d_mul (dp_g p) g) (d_mul (dp_b p) b) (d_mul (dp_a p) a).
Definition inv (x : double) : double := d_sub (d_of_int 1) x.

Definition pixel_blend (incoming src dest : double_pixel) (mode : Z) : double_pixel :=
  if mode =? EW_BLEND_ZERO then DPixel (d_of_int 0) (d_of_int 0) (d_of_int 0) (d_of_int 0)
  else if mode =? EW_BLEND_SRCCOLOR then scale incoming (dp_r src) (dp_g src) (dp_b src) (dp_a src)
  else if mode =? EW_BLEND_INVSRCCOLOR then
    scale incoming (inv (dp_r src)) (inv (dp_g src)) (inv (dp_b src)) (inv (dp_a src))
  else if mode =? EW_BLEND_SRCALPHA then scale incoming (dp_a src) (dp_a src) (dp_a src) (dp_a src)
  else if mode =? EW_BLEND_INVSRCALPHA then
    scale incoming (inv (dp_a src)) (inv (dp_a src)) (inv (dp_a src)) (inv (dp_a src))
  else if mode =? EW_BLEND_DESTCOLOR then scale incoming (dp_r dest) (dp_g dest) (dp_b dest) (dp_a dest)
  else if mode =? EW_BLEND_INVDESTCOLOR then
    scale incoming (inv (dp_r dest)) (inv (dp_g dest)) (inv (dp_b dest)) (inv (dp_a dest))
  else if mode =? EW_BLEND_DESTALPHA then scale incoming (dp_a dest) (dp_a dest) (dp_a dest) (dp_a dest)
  else if mode =? EW_BLEND_INVDESTALPHA then
    scale incoming (inv (dp_a dest)) (inv (dp_a dest)) (inv (dp_a dest)) (inv (dp_a dest))
  else incoming.

Definition to_pixel (c : Z) : double_pixel :=
  let ch v := d_div (d_of_int v) (d_of_int 255) in
  DPixel (ch (extract_red c)) (ch (extract_green c)) (ch (extract_blue c)) (ch (extract_alpha c)).

(** [if(x > 1.0) x = 1.0;], then the conversion of [x * 255.0]. *)
Definition clamp (x : double) : double := if d_gt x (d_of_int 1) then d_of_int 1 else x.
Definition to_channel (x : double) : Z := d_to_uint32 (d_mul (clamp x) (d_of_int 255)).

Definition ew_blend (md : blend_mode) (src dest : Z) : Z :=
  if blend_enable md =? 0 then src
  else
    let srcp := to_pixel src in
    let destp := to_pixel dest in
    let out_s := pixel_blend srcp srcp destp (srcblend md) in
    let out_d := pixel_blend destp srcp destp (destblend md) in
    let ch f := to_channel (d_add (f out_s) (f out_d)) in
    Z.lor (Z.lor (Z.lor (ch dp_b) (u32 (Z.shiftl (ch dp_g) 8))) (u32 (Z.shiftl (ch dp_r) 16)))
      (u32 (Z.shiftl (ch dp_a) 24)).

(** ** Loops over a rectangle of pixels *)
(** [for(k = lo; k < hi; k++)] *)
Definition for_range {S} (lo hi : Z) (f : Z → S → S) (s : S) : S := for_up (Z.to_nat (hi - lo)) lo f s.
Definition for_rect {S} (x0 x1 y0 y1 : Z) (f : Z → Z → S → S) (s : S) : S :=
  for_range y0 y1 (λ j, for_range x0 x1 (λ i, f i j)) s.

(** ** The frame buffer *)
Inductive pixel_format := PixelRedGreenBlueReserved8BitPerColor | PixelBlueGreenRedReserved8BitPerColor | PixelOther.

(** A pixel of the back buffer has its bytes in the order blue, green, red. *)
Definition make_bgr_pixel (m : mem) (src : Z) : Z :=
  Z.lor (Z.lor (rd8 m src) (Z.shiftl (rd8 m (src + 1)) 8)) (Z.shiftl (rd8 m (src + 2)) 16).
Definition make_rgb_pixel (m : mem) (src : Z) : Z :=
  Z.lor (Z.lor (rd8 m (src + 2)) (Z.shiftl (rd8 m (src + 1)) 8)) (Z.shiftl (rd8 m src) 16).

(** The globals [fb], [fb_stride] and [fb_format]. *)
Record frame := Frame { fb : Z; fb_stride : Z; fb_format : pixel_format }.

Definition ew_blit (f : frame) (buf src_x src_y dest_x dest_y width height delta : Z) (m : mem) : mem :=
  for_rect 0 width 0 height (λ i j m,
    let src_pixel := u64 (buf + s32 ((i + src_x) * 4 + (j + src_y) * delta)) in
    let dest_pixel := u64 (fb f + s32 ((i + dest_x) * 4 + (j + dest_y) * fb_stride f * 4)) in
    match fb_format f with
    | PixelBlueGreenRedReserved8BitPerColor => wr32 m dest_pixel (make_bgr_pixel m src_pixel)
    | PixelRedGreenBlueReserved8BitPerColor => wr32 m dest_pixel (make_rgb_pixel m src_pixel)
    | PixelOther => m
    end) m.

(** ** What a loop over a rectangle does *)
Lemma for_range_ind {S} (P : Z → S → Prop) lo hi f s :
  P lo s → (∀ k s, lo <= k < hi → P k s → P (k + 1) (f k s)) → P (Z.max lo hi) (for_range lo hi f s).
Proof.
  intros H0 Hstep. unfold for_range. replace (Z.max lo hi) with (lo + Z.of_nat (Z.to_nat (hi - lo))) by lia.
  apply for_up_ind; [done|]. intros k s' Hk. apply Hstep. lia.
Qed.

Section rect_loop.
Context (x0 x1 y0 y1 : Z) (addr : Z → Z → Z) (G : Z → Z → Z → Z) (body : Z → Z → mem → mem) (m0 : mem).
Definition in_rect (i j : Z) : Prop := x0 <= i < x1 ∧ y0 <= j < y1.
(** Byte [k] is in none of the pixels. *)
Definition off_rect (k : Z) : Prop := ∀ i j, in_rect i j → k < addr i j ∨ addr i j + 4 <= k.
Hypothesis Hapart : ∀ i j i' j', in_rect i j → in_rect i' j' → i ≠ i' ∨ j ≠ j' →
  addr i j + 4 <= addr i' j' ∨ addr i' j' + 4 <= addr i j.
(** A step changes its own pixel, as [G] says. *)
Hypothesis Hbody : ∀ i j m, in_rect i j → (∀ k, off_rect k → rd8 m k = rd8 m0 k) →
  rd32 (body i j m) (addr i j) = G i j (rd32 m (addr i j)) ∧ same_outside (addr i j) 4 m (body i j m).

Definition rect_done (i j : Z) (m : mem) : Prop :=
  (∀ k, off_rect k → rd8 m k = rd8 m0 k) ∧
  ∀ i' j', in_rect i' j' → rd32 m (addr i' j') =
    if decide (j' < j ∨ j' = j ∧ i' < i) then G i' j' (rd32 m0 (addr i' j')) else rd32 m0 (addr i' j').

Lemma rect_done_step i j m : in_rect i j → rect_done i j m → rect_done (i + 1) j (body i j m).
Proof.
  intros Hij [Hk Hv]. destruct (Hbody i j m Hij Hk) as [Hnew Ho]. split.
  - intros k Hoff. rewrite Ho; [by apply Hk|]. by apply Hoff.
  - intros i' j' Hij'. destruct (decide (i' = i ∧ j' = j)) as [[-> ->]|Hne].
    + rewrite Hnew, (Hv i j Hij). rewrite decide_False by lia. by rewrite decide_True by lia.
    + unfold rd32 in *. rewrite (rd_same_outside 4 m _ _ (addr i j) 4 Ho); [|apply Hapart; [done|done|lia]].
      rewrite (Hv i' j' Hij'). do 2 case_decide; try done; lia.
Qed.

Lemma for_rect_spec :
  (∀ k, off_rect k → rd8 (for_rect x0 x1 y0 y1 body m0) k = rd8 m0 k) ∧
  ∀ i j, in_rect i j → rd32 (for_rect x0 x1 y0 y1 body m0) (addr i j) = G i j (rd32 m0 (addr i j)).
Proof.
  assert (rect_done x0 (Z.max y0 y1) (for_rect x0 x1 y0 y1 body m0)) as [H1 H2].
  { unfold for_rect. apply (for_range_ind (λ j m, rect_done x0 j m)).
    - split; [done|]. intros i j Hij. unfold in_rect in Hij. by rewrite decide_False by lia.
    - intros j m Hj Hm. pose proof (for_range_ind (λ i m, rect_done i j m) x0 x1 (λ i, body i j) m Hm) as Hrow.
      destruct Hrow as [R1 R2]; [intros i m' Hi; apply rect_done_step; by split|].
      split; [done|]. intros i' j' Hij. rewrite R2 by done. unfold in_rect in Hij. do 2 case_decide; try done; lia. }
  split; [done|]. intros i j Hij. rewrite H2 by done. unfold in_rect in Hij. by rewrite decide_True by lia.
Qed.
End rect_loop.

(** ** Surfaces *)
(** Pixel [x, y] of a surface at [base] with [w] pixels in a line. *)
Definition px (base w x y : Z) : Z := base + (x + y * w) * 4.

Lemma px_apart base w x y x' y' :
  0 <= x < w → 0 <= x' < w → x ≠ x' ∨ y ≠ y' → px base w x y + 4 <= px base w x' y' ∨ px base w x' y' + 4 <= px base w x y.
Proof.
  intros Hx Hx' Hne. unfold px. destruct (Z.lt_trichotomy y y') as [H|[->|H]]; [left|lia|right]; nia.
Qed.

Lemma px_inside base w h x y : 0 <= x < w → 0 <= y < h → base <= px base w x y ∧ px base w x y + 4 <= base + w * h * 4.
Proof. intros Hx Hy. unfold px. nia. Qed.

(** ** Blending *)
Definition bytes_256 : list Z := seqZ 0 256.
Lemma byte_check (P : Z → bool) : forallb P bytes_256 = true → ∀ v, 0 <= v < 256 → P v = true.
Proof.
  intros H v Hv. rewrite forallb_forall in H. apply H, list_elem_of_In, elem_of_seqZ. lia.
Qed.

Definition chan (v : Z) : double := d_div (d_of_int v) (d_of_int 255).
Definition zero : double := d_of_int 0.
Definition is_zero (x : double) : bool := match x with S754_zero false => true | _ => false end.
Lemma is_zero_eq x : is_zero x = true → x = zero.
Proof. by destruct x as [[]| | |]. Qed.

(** A factor of one, and of zero. *)
Lemma channel_one v : 0 <= v < 256 → to_channel (d_add (d_mul (chan v) (chan 255)) zero) = v.
Proof.
  intros Hv. apply Z.eqb_eq. apply (byte_check (λ v, to_channel (d_add (d_mul (chan v) (chan 255)) zero) =? v)); [|done].
  vm_compute. reflexivity.
Qed.
Lemma channel_one' v : 0 <= v < 256 → to_channel (d_add zero (d_mul (chan v) (inv (chan 0)))) = v.
Proof.
  intros Hv. apply Z.eqb_eq. apply (byte_check (λ v, to_channel (d_add zero (d_mul (chan v) (inv (chan 0)))) =? v)); [|done].
  vm_compute. reflexivity.
Qed.
Lemma channel_zero v : 0 <= v < 256 → d_mul (chan v) (inv (chan 255)) = zero.
Proof.
  intros Hv. apply is_zero_eq. apply (byte_check (λ v, is_zero (d_mul (chan v) (inv (chan 255))))); [|done].
  vm_compute. reflexivity.
Qed.
Lemma channel_zero' v : 0 <= v < 256 → d_mul (chan v) (chan 0) = zero.
Proof.
  intros Hv. apply is_zero_eq. apply (byte_check (λ v, is_zero (d_mul (chan v) (chan 0)))); [|done].
  vm_compute. reflexivity.
Qed.

Lemma land_byte x : 0 <= Z.land x 0xff < 256.
Proof. change 0xff with (Z.ones 8). rewrite Z.land_ones by lia. dlia. Qed.

(** The channels of a pixel put together again. *)
Lemma channels_join c : 0 <= c < 2 ^ 32 →
  Z.lor (Z.lor (Z.lor (extract_blue c) (u32 (Z.shiftl (extract_green c) 8))) (u32 (Z.shiftl (extract_red c) 16)))
    (u32 (Z.shiftl (extract_alpha c) 24)) = c.
Proof.
  intros Hc. unfold extract_blue, extract_green, extract_red, extract_alpha. change 0xff with (Z.ones 8).
  rewrite !Z.land_ones, !Z.shiftr_div_pow2, !Z.shiftl_mul_pow2 by lia.
  rewrite !u32_small by dlia.
  assert (∀ a b n, 0 <= n → 0 <= b < 2 ^ n → Z.lor b (a * 2 ^ n) = a * 2 ^ n + b) as Hl.
  { intros a b n Hn Hb. rewrite Z.lor_comm, <- Z.shiftl_mul_pow2 by done. rewrite lor_shiftl_small by done.
    by rewrite Z.shiftl_mul_pow2. }
  rewrite (Hl _ _ 8), (Hl _ _ 16), (Hl _ _ 24) by dlia. dlia.
Qed.

(** The mode the loader sets: [ew_set_blend_mode(1, EW_BLEND_SRCALPHA,
    EW_BLEND_INVSRCALPHA)]. *)
Definition alpha_mode : blend_mode := ew_set_blend_mode 1 EW_BLEND_SRCALPHA EW_BLEND_INVSRCALPHA.

Lemma blend_disabled md src dest : blend_enable md = 0 → ew_blend md src dest = src.
Proof. intros E. unfold ew_blend. by rewrite E. Qed.

Lemma blend_channels src dest :
  let a := chan (extract_alpha src) in
  let ch f := to_channel (d_add (d_mul (chan (f src)) a) (d_mul (chan (f dest)) (inv a))) in
  ew_blend alpha_mode src dest =
    Z.lor (Z.lor (Z.lor (ch extract_blue) (u32 (Z.shiftl (ch extract_green) 8))) (u32 (Z.shiftl (ch extract_red) 16)))
      (u32 (Z.shiftl (ch extract_alpha) 24)).
Proof. done. Qed.

Lemma extract_range c :
  0 <= extract_blue c < 256 ∧ 0 <= extract_green c < 256 ∧ 0 <= extract_red c < 256 ∧ 0 <= extract_alpha c < 256.
Proof. split_and!; apply land_byte. Qed.

#[local] Opaque to_channel d_add d_mul inv chan zero.

(** C31. Blending is exact where it decides what is seen: switched off it gives
    the source pixel; in the mode the loader sets, a source pixel with alpha 255
    replaces the pixel below it and one with alpha 0 leaves it as it was, in all
    four channels and without a rounding error of the conversion to doubles and
    back. *)
Theorem ew_blend_opaque_transparent md src dest :
  0 <= src < 2 ^ 32 → 0 <= dest < 2 ^ 32 →
  (blend_enable md = 0 → ew_blend md src dest = src) ∧
  (extract_alpha src = 255 → ew_blend alpha_mode src dest = src) ∧
  (extract_alpha src = 0 → ew_blend alpha_mode src dest = dest).
Proof.
  intros Hs Hd. destruct (extract_range src) as (S1 & S2 & S3 & S4). destruct (extract_range dest) as (D1 & D2 & D3 & D4).
  split_and!; [apply blend_disabled| |]; intros Ea; rewrite blend_channels; cbv zeta; rewrite Ea.
  - rewrite !channel_zero by done. rewrite !channel_one by done. rewrite <- Ea at 1. by apply channels_join.
  - rewrite !channel_zero' by done. rewrite !channel_one' by done. by apply channels_join.
Qed.

Lemma ew_blend_opaque_transparent_witness :
  ew_blend alpha_mode 0xff123456 0x80aabbcc = 0xff123456 ∧ ew_blend alpha_mode 0x00123456 0x80aabbcc = 0x80aabbcc.
Proof.
  split.
  - apply (ew_blend_opaque_transparent alpha_mode 0xff123456 0x80aabbcc); done.
  - apply (ew_blend_opaque_transparent alpha_mode 0x00123456 0x80aabbcc); done.
Defined.

(** ** The copy to the screen *)
(** What a pixel of the back buffer looks like in the frame buffer. *)
Definition shown (fmt : pixel_format) (c : Z) : Z :=
  match fmt with
  | PixelBlueGreenRedReserved8BitPerColor => extract_blue c + 256 * extract_green c + 65536 * extract_red c
  | PixelRedGreenBlueReserved8BitPerColor => extract_red c + 256 * extract_green c + 65536 * extract_blue c
  | PixelOther => c
  end.

Lemma extract_bytes m a : extract_blue (rd32 m a) = rd8 m a ∧ extract_green (rd32 m a) = rd8 m (a + 1) ∧
  extract_red (rd32 m a) = rd8 m (a + 2).
Proof.
  unfold extract_blue, extract_green, extract_red. change 0xff with (Z.ones 8).
  rewrite !Z.land_ones, !Z.shiftr_div_pow2 by lia. cbn [rd32 rd].
  replace (a + 1 + 1) with (a + 2) by lia. replace (a + 2 + 1) with (a + 3) by lia.
  pose proof (rd8_range m a). pose proof (rd8_range m (a + 1)). pose proof (rd8_range m (a + 2)). pose proof (rd8_range m (a + 3)).
  unfold rd32. cbn [rd]. replace (a + 1 + 1) with (a + 2) by lia. replace (a + 2 + 1) with (a + 3) by lia.
  change (2 ^ 8) with 256. change (2 ^ 16) with 65536. split_and!; dlia.
Qed.

Lemma join_bytes a b c : 0 <= a < 256 → 0 <= b < 256 → 0 <= c < 256 →
  Z.lor (Z.lor a (Z.shiftl b 8)) (Z.shiftl c 16) = a + 256 * b + 65536 * c.
Proof.
  intros Ha Hb Hc. rewrite (Z.lor_comm a), lor_shiftl_small, Z.lor_comm, lor_shiftl_small by lia. lia.
Qed.

Lemma make_pixel_shown m a :
  make_bgr_pixel m a = shown PixelBlueGreenRedReserved8BitPerColor (rd32 m a) ∧
  make_rgb_pixel m a = shown PixelRedGreenBlueReserved8BitPerColor (rd32 m a).
Proof.
  destruct (extract_bytes m a) as (E1 & E2 & E3). unfold make_bgr_pixel, make_rgb_pixel, shown. rewrite E1, E2, E3.
  split; apply join_bytes; apply rd8_range.
Qed.

Lemma shown_range fmt c : fmt ≠ PixelOther → 0 <= shown fmt c < 2 ^ 32.
Proof. destruct (extract_range c) as (?&?&?&?). destruct fmt; cbn [shown]; [lia|lia|done]. Qed.

(** A surface that fits in memory and into an [int]. *)
Definition surface (base w h : Z) : Prop :=
  0 < base ∧ 0 <= w ∧ 0 <= h ∧ w * h * 4 < 2 ^ 31 ∧ base + w * h * 4 <= 2 ^ 63.

(** Within the surface the arithmetic of the code does not wrap. *)
Lemma px_code base w h x y : surface base w h → 0 <= x < w → 0 <= y < h →
  u64 (base + s32 (x * 4 + y * (w * 4))) = px base w x y ∧ u64 (base + s32 (x * 4 + y * w * 4)) = px base w x y ∧
  u64 (base + u64 (s32 (x + y * w) * 4)) = px base w x y.
Proof.
  intros (B1 & B2 & B3 & B4 & B5) Hx Hy. pose proof (px_inside base w h x y Hx Hy) as [H1 H2]. unfold px in *.
  rewrite (s32_small (x + y * w)) by nia. rewrite !s32_small by nia. rewrite (u64_small ((x + y * w) * 4)) by nia.
  rewrite !u64_small by nia. split_and!; lia.
Qed.

Section blit.
Context (f : frame) (buf bbw bbh fh x y w h : Z).
Hypothesis Hfmt : fb_format f ≠ PixelOther.
Hypothesis Hbuf : surface buf bbw bbh.
Hypothesis Hfb : surface (fb f) (fb_stride f) fh.
Hypothesis Happ : buf + bbw * bbh * 4 <= fb f ∨ fb f + fb_stride f * fh * 4 <= buf.
Hypothesis Hx : 0 <= x ∧ x + w <= bbw ∧ x + w <= fb_stride f.
Hypothesis Hy : 0 <= y ∧ y + h <= bbh ∧ y + h <= fh.

(** The pixels of the rectangle appear at the same place of the screen. *)
Lemma ew_blit_spec m :
  let m' := ew_blit f buf x y x y w h (bbw * 4) m in
  (∀ i j, x <= i < x + w → y <= j < y + h →
    rd32 m' (px (fb f) (fb_stride f) i j) = shown (fb_format f) (rd32 m (px buf bbw i j))) ∧
  (∀ k, (∀ i j, x <= i < x + w → y <= j < y + h →
      k < px (fb f) (fb_stride f) i j ∨ px (fb f) (fb_stride f) i j + 4 <= k) → rd8 m' k = rd8 m k).
Proof.
  intros m'. pose (A i j := px (fb f) (fb_stride f) (x + i) (y + j)).
  pose (G i j (_ : Z) := shown (fb_format f) (rd32 m (px buf bbw (x + i) (y + j)))).
  unfold ew_blit in m'. set (body := λ i j m, _) in m'.
  destruct (for_rect_spec 0 w 0 h A G body m) as [H1 H2].
  - unfold A, in_rect. intros i j i' j' Hi Hi' Hne. apply px_apart; lia.
  - unfold in_rect, body, A, G. intros i j m1 Hij Hm1.
    destruct (px_code buf bbw bbh (x + i) (y + j) Hbuf) as (Es & _); [lia|lia|].
    destruct (px_code (fb f) (fb_stride f) fh (x + i) (y + j) Hfb) as (_ & Ed & _); [lia|lia|].
    replace (i + x) with (x + i) by lia. replace (j + y) with (y + j) by lia. rewrite Es, Ed.
    assert (rd32 m1 (px buf bbw (x + i) (y + j)) = rd32 m (px buf bbw (x + i) (y + j))) as Ep.
    { apply (rd_ext 4). intros k Hk. apply Hm1. intros i' j' Hij'. unfold in_rect in Hij'.
      pose proof (px_inside buf bbw bbh (x + i) (y + j) ltac:(lia) ltac:(lia)).
      pose proof (px_inside (fb f) (fb_stride f) fh (x + i') (y + j') ltac:(lia) ltac:(lia)). unfold A. lia. }
    destruct (make_pixel_shown m1 (px buf bbw (x + i) (y + j))) as [-> ->]. rewrite Ep.
    destruct (fb_format f) eqn:Ef; [| |done];
      (split; [unfold rd32, wr32; rewrite rd_wr_eq; change (256 ^ Z.of_nat 4) with (2 ^ 32);
         apply Z.mod_small; by apply shown_range|apply (wr_same_outside 4)]).
  - unfold A, G in *. split.
    + intros i j Hi Hj. specialize (H2 (i - x) (j - y) ltac:(unfold in_rect; lia)).
      replace (x + (i - x)) with i in H2 by lia. by replace (y + (j - y)) with j in H2 by lia.
    + intros k Hk. apply H1. intros i j Hij. unfold in_rect in Hij. apply Hk; lia.
Qed.
End blit.
