(* ===== verification/EwWindow.v ===== *)
(** * Windows of the EFI boot menu

    src/tload/tloadefi/efiwindow: windowlist.c, efiwindow.c (without [ew_init],
    which collects devices of the firmware) and ewrect.c.  Windows are records
    in a store with their pointers; their pixels, the back buffer and the frame
    buffer are in memory.  Paint functions of other widgets, resize callbacks,
    the mouse cursor (ewmouse.h, not in the repository) and the firmware's [Blt]
    are parameters.  Messages on [stderr] are left out. *)

From stdpp Require Import base numbers list gmap.
From Stdlib Require Import Lia.
From S2P Require Import Prelude Mem LibcString EfiHeap EwScreen.
Open Scope Z_scope.

Definition EFI_SUCCESS : Z := 0.
Definition EFI_INVALID_PARAMETER : Z := 2 ^ 63 + 2.
Definition EFI_BUFFER_TOO_SMALL : Z := 2 ^ 63 + 5.
Definition EFI_NOT_READY : Z := 2 ^ 63 + 6.
Definition EFI_OUT_OF_RESOURCES : Z := 2 ^ 63 + 9.

(** ** Data *)
Record RECT := Rect { rx : Z; ry : Z; rw : Z; rh : Z }.

(** Values of an [ew_paint_func]. *)
Inductive painter := NoPaint | PaintColor | PaintNull | PaintRect | PaintOther (f : Z).

Record WINDOW := Window {
  loc : RECT;
  show : Z;
  paint_data : Z;
  next : Z; prev : Z; parent : Z; first_child : Z; last_child : Z;
  paint : painter;
  resize : Z;
  buf : Z;
  data_size : Z
}.
Definition sizeof_WINDOW : Z := 104.

Definition set_loc (r : RECT) (w : WINDOW) : WINDOW := Window r (show w) (paint_data w) (next w) (prev w) (parent w)
  (first_child w) (last_child w) (paint w) (resize w) (buf w) (data_size w).
Definition set_show (v : Z) (w : WINDOW) : WINDOW := Window (loc w) v (paint_data w) (next w) (prev w) (parent w)
  (first_child w) (last_child w) (paint w) (resize w) (buf w) (data_size w).
Definition set_next (v : Z) (w : WINDOW) : WINDOW := Window (loc w) (show w) (paint_data w) v (prev w) (parent w)
  (first_child w) (last_child w) (paint w) (resize w) (buf w) (data_size w).
Definition set_prev (v : Z) (w : WINDOW) : WINDOW := Window (loc w) (show w) (paint_data w) (next w) v (parent w)
  (first_child w) (last_child w) (paint w) (resize w) (buf w) (data_size w).
Definition set_parent (v : Z) (w : WINDOW) : WINDOW := Window (loc w) (show w) (paint_data w) (next w) (prev w) v
  (first_child w) (last_child w) (paint w) (resize w) (buf w) (data_size w).
Definition set_children (fc lc : Z) (w : WINDOW) : WINDOW := Window (loc w) (show w) (paint_data w) (next w) (prev w)
  (parent w) fc lc (paint w) (resize w) (buf w) (data_size w).
Definition set_buf (v : Z) (w : WINDOW) : WINDOW := Window (loc w) (show w) (paint_data w) (next w) (prev w) (parent w)
  (first_child w) (last_child w) (paint w) (resize w) v (data_size w).

(** The heap, the windows and the globals of efiwindow.c and screen.c. *)
Record ew (H : Type) := Ew {
  heap : H;
  wins : gmap Z WINDOW;
  EW_DESKTOP : Z;
  bb : Z; bbw : Z; bbh : Z;
  screen : frame;
  blending : blend_mode;
  ew_can_blit : Z
}.
Arguments Ew {H}. Arguments heap {H}. Arguments wins {H}. Arguments EW_DESKTOP {H}.
Arguments bb {H}. Arguments bbw {H}. Arguments bbh {H}. Arguments screen {H}. Arguments blending {H}.
Arguments ew_can_blit {H}.

(** What [ew_update_bb] and the cursor are told. *)
Record update_bb_data := Ubbd { absolute_rect : RECT; u_bb : Z; u_bbw : Z; u_bbh : Z }.

Section code.
Context {H : Type} `{CHeapOps H}.

Definition with_heap (f : H → H) (s : ew H) : ew H :=
  Ew (f (heap s)) (wins s) (EW_DESKTOP s) (bb s) (bbw s) (bbh s) (screen s) (blending s) (ew_can_blit s).
Definition with_wins (f : gmap Z WINDOW → gmap Z WINDOW) (s : ew H) : ew H :=
  Ew (heap s) (f (wins s)) (EW_DESKTOP s) (bb s) (bbw s) (bbh s) (screen s) (blending s) (ew_can_blit s).
Definition with_can_blit (v : Z) (s : ew H) : ew H :=
  Ew (heap s) (wins s) (EW_DESKTOP s) (bb s) (bbw s) (bbh s) (screen s) (blending s) v.
Definition ew_mem (s : ew H) : mem := ch_mem (heap s).
Definition with_mem (f : mem → mem) (s : ew H) : ew H := with_heap (λ h, ch_set_mem (f (ch_mem h)) h) s.
Definition on_heap {A} (c : M H A) : M (ew H) A := λ s,
  obind (c (heap s)) (λ p, Done (p.1, with_heap (λ _, p.2) s)).

(** [*p] and [p->... = ...]. *)
Definition win (p : Z) : M (ew H) WINDOW :=
  s ← get; match wins s !! p with Some w => mret w | None => undef end.
Definition upd (p : Z) (f : WINDOW → WINDOW) : M (ew H) unit :=
  w ← win p; modify (with_wins (<[p := f w]>)).

(** ** windowlist.c *)
Definition ew_add_list (parent_ w : Z) : M (ew H) unit :=
  p ← win parent_;
  (if last_child p =? 0 then
     upd parent_ (set_children w w) ;;
     upd w (λ x, set_next 0 (set_prev 0 x))
   else
     upd w (set_prev (last_child p)) ;;
     upd w (set_next 0) ;;
     p ← win parent_;
     upd (last_child p) (set_next w) ;;
     upd parent_ (λ x, set_children (first_child x) w x)) ;;
  upd w (set_parent parent_).

Section traversal.
Context (func : Z → M (ew H) Z).
(** [ew_leftmost_traversal], and the loop over the children in it. *)
Fixpoint traverse (fuel : nat) (cur_w : Z) : M (ew H) unit :=
  match fuel with
  | O => hang
  | S fuel =>
      r ← func cur_w;
      if r =? 0 then mret tt
      else w ← win cur_w; children fuel (first_child w)
  end
with children (fuel : nat) (cur_child : Z) : M (ew H) unit :=
  match fuel with
  | O => hang
  | S fuel =>
      if cur_child =? 0 then mret tt
      else traverse fuel cur_child ;; c ← win cur_child; children fuel (next c)
  end.
Definition ew_leftmost_traversal (cur_w : Z) : M (ew H) unit :=
  s ← get; traverse (2 * S (size (wins s))) cur_w.
End traversal.

(** ** efiwindow.c *)
Definition ew_intersect_rect (a b : RECT) : RECT :=
  let a_right := s32 (rx a + rw a) in
  let b_right := s32 (rx b + rw b) in
  let a_bottom := s32 (ry a + rh a) in
  let b_bottom := s32 (ry b + rh b) in
  let none := Rect (-1) (-1) (-1) (-1) in
  let '(x, out_right) :=
    if ((rx a <? b_right) && (rx b <? a_right)) || ((rx b <? a_right) && (rx a <? b_right))
    then (Z.max (rx a) (rx b), Z.min a_right b_right) else (-1, -1) in
  let '(y, out_bottom) :=
    if ((ry a <? b_bottom) && (ry b <? a_bottom)) || ((ry b <? a_bottom) && (ry a <? b_bottom))
    then (Z.max (ry a) (ry b), Z.min a_bottom b_bottom) else (-1, -1) in
  let o := Rect x y (-1) (-1) in
  let o := if negb (out_right =? -1) && negb (rx o =? -1) then Rect (rx o) (ry o) (s32 (out_right - rx o)) (rh o) else none in
  if negb (out_bottom =? -1) && negb (ry o =? -1) then Rect (rx o) (ry o) (rw o) (s32 (out_bottom - ry o)) else none.

(** The loops up to the desktop; a chain longer than the number of windows
    never ends. *)
Fixpoint abs_loop (fuel : nat) (cur_window : Z) (out : RECT) : M (ew H) RECT :=
  match fuel with
  | O => hang
  | S fuel =>
      s ← get;
      if cur_window =? EW_DESKTOP s then mret out
      else
        c ← win cur_window;
        abs_loop fuel (parent c) (Rect (s32 (rx out + rx (loc c))) (s32 (ry out + ry (loc c))) (rw out) (rh out))
  end.
Definition ew_get_absolute_rect (w : Z) (r : RECT) : M (ew H) RECT :=
  s ← get; abs_loop (S (size (wins s))) w r.

Fixpoint show_loop (fuel : nat) (cur_window : Z) : M (ew H) Z :=
  match fuel with
  | O => hang
  | S fuel =>
      s ← get;
      c ← win cur_window;
      if cur_window =? EW_DESKTOP s then mret (show c)
      else if show c =? 0 then mret 0 else show_loop fuel (parent c)
  end.
Definition ew_get_absolute_show (w : Z) : M (ew H) Z :=
  s ← get; show_loop (S (size (wins s))) w.

(** One line: [n] pixels, both pointers moving on. *)
Fixpoint blend_line (md : blend_mode) (n : nat) (src_line dest_line : Z) (m : mem) : mem :=
  match n with
  | O => m
  | S n =>
      blend_line md n (u64 (src_line + 4)) (u64 (dest_line + 4))
        (wr32 m dest_line (ew_blend md (rd32 m src_line) (rd32 m dest_line)))
  end.

(** The address of pixel [n], an [int], of the buffer at [base]. *)
Definition pixel_at (base n : Z) : Z := u64 (base + u64 (s32 n * 4)).

Definition ew_update_bb (d : update_bb_data) (w : Z) : M (ew H) Z :=
  c ← win w;
  if show c =? 0 then mret 0
  else
    w_abs_rect ← ew_get_absolute_rect w (Rect 0 0 (rw (loc c)) (rh (loc c)));
    let o := ew_intersect_rect (absolute_rect d) w_abs_rect in
    s ← get;
    modify (with_mem (for_range (ry o) (s32 (ry o + rh o)) (λ j m,
      let w_x := s32 (rx o - rx w_abs_rect) in
      let w_y := s32 (j - ry w_abs_rect) in
      blend_line (blending s) (Z.to_nat (s32 (rx o + rw o) - rx o))
        (pixel_at (buf c) (w_x + w_y * rw (loc c))) (pixel_at (u_bb d) (rx o + j * u_bbw d)) m))) ;;
    mret 1.

(** *** Callbacks *)
Context (other_paint : Z → Z → RECT → M (ew H) Z) (other_resize : Z → Z → M (ew H) Z).
Context (ew_display_mouse_cursor : update_bb_data → M (ew H) unit).
(** [GOP->Blt] with its source, position and size. *)
Context (GOP_Blt : Z → Z → Z → Z → Z → Z → M (ew H) Z).

Definition do_blit (buf_ : Z) (abs_rect : RECT) (w h bbw_ : Z) : M (ew H) Z :=
  s ← get;
  if truth (ew_can_blit s) then GOP_Blt buf_ (rx abs_rect) (ry abs_rect) w h (s32 (bbw_ * 4))
  else
    modify (with_mem (ew_blit (screen s) buf_ (rx abs_rect) (ry abs_rect) (rx abs_rect) (ry abs_rect) w h (s32 (bbw_ * 4)))) ;;
    mret EFI_SUCCESS.

Definition ew_set_can_blit (can_blit : Z) : M (ew H) Z :=
  if negb (can_blit =? 0) && negb (can_blit =? 1) then mret EFI_INVALID_PARAMETER
  else modify (with_can_blit can_blit) ;; mret EFI_SUCCESS.

(** The whole window for a null [r]. *)
Definition rect_or_window (w : Z) (r : option RECT) : M (ew H) RECT :=
  match r with
  | Some r => mret r
  | None => c ← win w; mret (Rect 0 0 (rw (loc c)) (rh (loc c)))
  end.

Definition clear_backbuffer (a : RECT) (buf_ bbw_ bbh_ : Z) (m : mem) : mem :=
  for_rect (rx a) (s32 (rx a + rw a)) (ry a) (s32 (ry a + rh a)) (λ i j m,
    if (0 <=? i) && (i <? bbw_) && (0 <=? j) && (j <? bbh_) then wr32 m (pixel_at buf_ (i + j * bbw_)) 0 else m) m.

Definition ew_invalidate_rect (w : Z) (r : option RECT) : M (ew H) Z :=
  if w =? 0 then mret EFI_INVALID_PARAMETER
  else
    r ← rect_or_window w r;
    abs_rect ← ew_get_absolute_rect w r;
    s ← get;
    let ubbd := Ubbd abs_rect (bb s) (bbw s) (bbh s) in
    modify (with_mem (clear_backbuffer abs_rect (bb s) (bbw s) (bbh s))) ;;
    ew_leftmost_traversal (ew_update_bb ubbd) (EW_DESKTOP s) ;;
    ew_display_mouse_cursor ubbd ;;
    do_blit (bb s) abs_rect (rw r) (rh r) (bbw s).

(** *** Paint functions *)
Definition ew_paint_color (w : Z) (update : RECT) : M (ew H) Z :=
  c ← win w;
  modify (with_mem (for_rect (rx update) (s32 (rx update + rw update)) (ry update) (s32 (ry update + rh update))
    (λ i j m, wr32 m (u64 (buf c + s32 (j * rw (loc c) + i) * 4)) (u32 (paint_data c))))) ;;
  mret EFI_SUCCESS.
Definition ew_paint_null (w : Z) (update : RECT) : M (ew H) Z := mret EFI_SUCCESS.

(** EW_RECT: color, linecolor, linewidth. *)
Definition er_color (m : mem) (r : Z) : Z := rd32 m r.
Definition er_linecolor (m : mem) (r : Z) : Z := rd32 m (r + 4).
Definition er_linewidth (m : mem) (r : Z) : Z := s32 (rd32 m (r + 8)).
Definition sizeof_EW_RECT : Z := 12.

Definition rect_paint (w : Z) (update : RECT) : M (ew H) Z :=
  c ← win w;
  let r := paint_data c in
  modify (with_mem (for_rect (rx update) (s32 (rx update + rw update)) (ry update) (s32 (ry update + rh update))
    (λ i j m,
      let lw := er_linewidth m r in
      let col := if (lw <=? i) && (lw <=? j) && (i <? s32 (rw (loc c) - lw)) && (j <? s32 (rh (loc c) - lw))
                 then er_color m r else er_linecolor m r in
      wr32 m (pixel_at (buf c) (i + j * rw (loc c))) col))) ;;
  mret EFI_SUCCESS.

Definition call_paint (p : painter) (w : Z) (r : RECT) : M (ew H) Z :=
  match p with
  | NoPaint => mret EFI_SUCCESS
  | PaintColor => ew_paint_color w r
  | PaintNull => ew_paint_null w r
  | PaintRect => rect_paint w r
  | PaintOther f => other_paint f w r
  end.

Definition ew_repaint_rect (w : Z) (r : option RECT) : M (ew H) Z :=
  if w =? 0 then mret EFI_INVALID_PARAMETER
  else
    r ← rect_or_window w r;
    c ← win w;
    call_paint (paint c) w r ;;
    v ← ew_get_absolute_show w;
    if truth v then ew_invalidate_rect w (Some r) else mret EFI_SUCCESS.

(** A failed [assert] stops the program. *)
Definition ew_resize_window (w : Z) (loc_ : option RECT) : M (ew H) Z :=
  match loc_ with
  | None => mret EFI_INVALID_PARAMETER
  | Some r =>
      if w =? 0 then mret EFI_INVALID_PARAMETER
      else
        upd w (set_loc r) ;;
        c ← win w;
        let buf_size := u64 (s32 (rw r * rh r) * 4) in
        b ← on_heap (ch_realloc (buf c) buf_size);
        upd w (set_buf b) ;;
        if (b =? 0) && negb (buf_size =? 0) then hang
        else
          c ← win w;
          (if truth (resize c) then _ ← other_resize (resize c) w; mret tt else mret tt) ;;
          ew_repaint_rect w None ;;
          mret EFI_SUCCESS
  end.

(** The status, and the window, which [out] stores. *)
Definition ew_create_window_int (out : Z → ew H → ew H) (loc_ : RECT) (parent_ : Z) (paint_func : painter)
    (data data_size_ : Z) (add : bool) : M (ew H) (Z * Z) :=
  s ← get;
  if (EW_DESKTOP s =? 0) && negb (parent_ =? 0) then mret (EFI_NOT_READY, 0)
  else if negb (EW_DESKTOP s =? 0) && (parent_ =? 0) then mret (EFI_INVALID_PARAMETER, 0)
  else
    ret ← on_heap (ch_malloc sizeof_WINDOW);
    if ret =? 0 then hang
    else
      let p := match paint_func with NoPaint => PaintColor | _ => paint_func end in
      modify (with_wins (<[ret := Window (Rect 0 0 0 0) 0 data 0 0 0 0 0 p 0 0 data_size_]>)) ;;
      (if negb (parent_ =? 0) && add then ew_add_list parent_ ret else upd ret (set_parent parent_)) ;;
      modify (out ret) ;;
      ew_resize_window ret (Some loc_) ;;
      mret (EFI_SUCCESS, ret).
Definition ew_create_window (out : Z → ew H → ew H) (loc_ : RECT) (parent_ : Z) (paint_func : painter)
    (data data_size_ : Z) : M (ew H) (Z * Z) :=
  ew_create_window_int out loc_ parent_ paint_func data data_size_ true.

Definition ew_show (w : Z) : M (ew H) Z :=
  c ← win w;
  upd w (set_show 1) ;;
  ew_invalidate_rect w (Some (Rect 0 0 (rw (loc c)) (rh (loc c)))) ;;
  mret EFI_SUCCESS.

Definition ew_hide (w : Z) : M (ew H) Z :=
  c ← win w;
  upd w (set_show 0) ;;
  ew_invalidate_rect (parent c) (Some (loc c)) ;;
  mret EFI_SUCCESS.

(** The status and the new [*bufsize]. *)
Definition ew_get_data (w buf_ bufsize : Z) : M (ew H) (Z * Z) :=
  if w =? 0 then mret (EFI_INVALID_PARAMETER, bufsize)
  else
    c ← win w;
    if buf_ =? 0 then mret (EFI_BUFFER_TOO_SMALL, data_size c)
    else
      modify (with_mem (λ m, memcpy m buf_ (paint_data c) bufsize)) ;;
      if bufsize <? data_size c then mret (EFI_BUFFER_TOO_SMALL, data_size c) else mret (EFI_SUCCESS, bufsize).

(** ** ewrect.c *)
Definition ew_create_rect (out : Z → ew H → ew H) (loc_ : RECT) (parent_ info : Z) : M (ew H) (Z * Z) :=
  if (parent_ =? 0) || (info =? 0) then mret (EFI_INVALID_PARAMETER, 0)
  else
    desc ← on_heap (ch_malloc sizeof_EW_RECT);
    if desc =? 0 then mret (EFI_OUT_OF_RESOURCES, 0)
    else
      modify (with_mem (λ m, memcpy m desc info sizeof_EW_RECT)) ;;
      ew_create_window out loc_ parent_ PaintRect desc sizeof_EW_RECT.

Definition ew_set_rect_info (w desc : Z) : M (ew H) Z :=
  if (w =? 0) || (desc =? 0) then mret EFI_INVALID_PARAMETER
  else
    c ← win w;
    modify (with_mem (λ m, memcpy m (paint_data c) desc sizeof_EW_RECT)) ;;
    ew_invalidate_rect w None ;;
    mret EFI_SUCCESS.

Definition ew_get_rect_info (w desc : Z) : M (ew H) Z :=
  if (w =? 0) || (desc =? 0) then mret EFI_INVALID_PARAMETER
  else
    c ← win w;
    modify (with_mem (λ m, memcpy m desc (paint_data c) sizeof_EW_RECT)) ;;
    mret EFI_SUCCESS.
End code.
