(* ===== verification/EwTree.v ===== *)
(** * The tree of windows

    The pointers of src/tload/tloadefi/efiwindow/windowlist.c as trees: what
    [ew_add_list] does to them, and what [ew_leftmost_traversal] visits. *)

From stdpp Require Import base numbers list gmap.
From Stdlib Require Import Lia.
From S2P Require Import Prelude Mem EfiHeap EwScreen EwWindow.
Open Scope Z_scope.

#[warnings="-register-all"]
Inductive wtree := WT (p : Z) (ks : list wtree).
Definition root (t : wtree) : Z := match t with WT p _ => p end.
Definition kids (t : wtree) : list wtree := match t with WT _ ks => ks end.
Fixpoint nodes (t : wtree) : list Z := match t with WT p ks => p :: flat_map nodes ks end.

Fixpoint wtree_rect' (P : wtree → Prop) (Hwt : ∀ p ks, Forall P ks → P (WT p ks)) (t : wtree) : P t :=
  match t with
  | WT p ks => Hwt p ks ((fix go ks : Forall P ks :=
      match ks with [] => Forall_nil_2 _ | k :: ks => Forall_cons_2 _ _ _ (wtree_rect' P Hwt k) (go ks) end) ks)
  end.

(** The children of a window, from [c] on: [pv] is the one before, [lc] the
    last one. *)
Section siblings.
Context (ws : gmap Z WINDOW) (T : wtree → Prop).
Fixpoint siblings (pv c lc : Z) (ks : list wtree) : Prop :=
  match ks with
  | [] => c = 0 ∧ lc = pv
  | k :: ks => c = root k ∧ T k ∧ ∃ w, ws !! root k = Some w ∧ prev w = pv ∧ siblings (root k) (next w) lc ks
  end.
End siblings.

(** The window [root t] with parent [par], and all below it. *)
Fixpoint tree_at (ws : gmap Z WINDOW) (par : Z) (t : wtree) : Prop :=
  match t with
  | WT p ks => p ≠ 0 ∧ ∃ w, ws !! p = Some w ∧ parent w = par ∧
      siblings ws (tree_at ws p) 0 (first_child w) (last_child w) ks
  end.

Lemma siblings_forall ws T pv c lc ks : siblings ws T pv c lc ks → Forall T ks.
Proof.
  revert pv c. induction ks as [|k ks IH]; intros pv c Hs; [done|]. destruct Hs as (_ & Hk & w & _ & _ & Hs).
  constructor; [done|by eapply IH].
Qed.

Lemma tree_nonzero ws par t : tree_at ws par t → root t ≠ 0 ∧ ∃ w, ws !! root t = Some w ∧ parent w = par.
Proof. destruct t as [p ks]. intros (H0 & w & Hw & Hp & _). split; [done|by exists w]. Qed.

Lemma tree_lookup ws t : ∀ par p, tree_at ws par t → p ∈ nodes t → ∃ w, ws !! p = Some w.
Proof.
  induction t as [q ks IH] using wtree_rect'. intros par p (_ & y & Hy & _ & Hs) Hin. cbn [nodes] in Hin.
  apply elem_of_cons in Hin as [->|Hin]; [by exists y|]. apply list_elem_of_In, in_flat_map in Hin as (k & Hk & Hin).
  apply list_elem_of_In in Hk, Hin. apply siblings_forall in Hs. rewrite Forall_forall in IH, Hs. by apply (IH k Hk q p (Hs k Hk)).
Qed.

(** ** Nothing else changes *)
(** The pointers of the windows [l] are as before. *)
Definition same_links (w w' : WINDOW) : Prop :=
  next w' = next w ∧ prev w' = prev w ∧ parent w' = parent w ∧ first_child w' = first_child w ∧ last_child w' = last_child w.
Definition links_kept (ws ws' : gmap Z WINDOW) (l : list Z) : Prop :=
  ∀ p w, p ∈ l → ws !! p = Some w → ∃ w', ws' !! p = Some w' ∧ same_links w w'.

Lemma links_kept_sub ws ws' l l' : (∀ p, p ∈ l' → p ∈ l) → links_kept ws ws' l → links_kept ws ws' l'.
Proof. intros Hsub Hk p w Hp. apply Hk, Hsub, Hp. Qed.

Lemma siblings_map ws ws' (T T' : wtree → Prop) f pv c lc ks :
  (∀ k, root (f k) = root k) →
  (∀ p w, p ∈ root <$> ks → ws !! p = Some w → ∃ w', ws' !! p = Some w' ∧ prev w' = prev w ∧ next w' = next w) →
  Forall (λ k, T k → T' (f k)) ks → siblings ws T pv c lc ks → siblings ws' T' pv c lc (f <$> ks).
Proof.
  intros Hf Hk HT. revert pv c. induction ks as [|k ks IH]; intros pv c Hs; [done|].
  apply Forall_cons in HT as [HT HTs]. destruct Hs as (-> & Hk0 & w & Hw & Hp & Hs). rewrite fmap_cons. cbn [siblings].
  destruct (Hk (root k) w) as (w' & Hw' & L1 & L2); [by left|done|]. rewrite Hf.
  split_and!; [done|by apply HT|]. exists w'. split_and!; [done|congruence|]. rewrite L2. apply IH; [|done|done].
  intros p w0 Hin. apply Hk. by right.
Qed.

Lemma siblings_kept ws ws' (T T' : wtree → Prop) pv c lc ks :
  links_kept ws ws' (root <$> ks) → Forall (λ k, T k → T' k) ks → siblings ws T pv c lc ks → siblings ws' T' pv c lc ks.
Proof.
  intros Hk HT Hs. rewrite <- (list_fmap_id ks). apply (siblings_map ws ws' T T' id); [done| |done|done].
  intros p w Hp Hw. destruct (Hk p w Hp Hw) as (w' & ? & ? & ? & _). by exists w'.
Qed.

Lemma root_node t : root t ∈ nodes t.
Proof. destruct t as [p ks]. by left. Qed.

Lemma kid_nodes k ks p : k ∈ ks → p ∈ nodes k → p ∈ flat_map nodes ks.
Proof. intros Hk Hp. apply list_elem_of_In, in_flat_map. exists k. split; by apply list_elem_of_In. Qed.

Lemma nodup_kid k ks : NoDup (flat_map nodes ks) → k ∈ ks → NoDup (nodes k).
Proof.
  induction ks as [|k' ks IH]; intros Hnd Hk; [by apply not_elem_of_nil in Hk|]. cbn [flat_map] in Hnd.
  apply NoDup_app in Hnd as (H1 & _ & H2). apply elem_of_cons in Hk as [->|Hk]; [done|by apply IH].
Qed.

Lemma nodup_roots ks : NoDup (flat_map nodes ks) → NoDup (root <$> ks).
Proof.
  induction ks as [|k ks IH]; intros Hnd; [constructor|]. cbn [flat_map] in Hnd. apply NoDup_app in Hnd as (H1 & H2 & H3).
  rewrite fmap_cons. constructor; [|by apply IH]. intros Hin. apply list_elem_of_fmap in Hin as (k' & E & Hk').
  apply (H2 (root k)); [apply root_node|]. rewrite E. eapply kid_nodes; [done|apply root_node].
Qed.

Lemma tree_kept ws ws' t : ∀ par, links_kept ws ws' (nodes t) → tree_at ws par t → tree_at ws' par t.
Proof.
  induction t as [p ks IH] using wtree_rect'. intros par Hk (H0 & w & Hw & Hp & Hs). cbn [tree_at]. split; [done|].
  destruct (Hk p w) as (w' & Hw' & L1 & L2 & L3 & L4 & L5); [by left|done|]. exists w'. rewrite L3, L4, L5.
  split_and!; [done|done|]. eapply siblings_kept; [| |exact Hs].
  - eapply links_kept_sub; [|exact Hk]. intros q Hq. right. apply list_elem_of_fmap in Hq as (k & -> & Hin).
    eapply kid_nodes; [exact Hin|apply root_node].
  - rewrite Forall_forall in IH |- *. intros k Hin. apply (IH k Hin). eapply links_kept_sub; [|exact Hk].
    intros q Hq. right. by eapply kid_nodes.
Qed.

(** ** Appending a child *)
(** The tree with [t'] as the last child of the window [p]. *)
Fixpoint add_child (p : Z) (t' : wtree) (t : wtree) : wtree :=
  match t with
  | WT q ks => WT q (if decide (q = p) then ks ++ [t'] else add_child p t' <$> ks)
  end.

(** The children as a chain: where it ends. *)
Lemma siblings_last ws T pv c lc ks : siblings ws T pv c lc ks →
  lc = match last ks with Some k => root k | None => pv end ∧ c = match ks with k :: _ => root k | [] => 0 end.
Proof.
  revert pv c. induction ks as [|k ks IH]; intros pv c Hs; [destruct Hs; done|].
  destruct Hs as (-> & _ & w & _ & _ & Hs). split; [|done]. apply IH in Hs as [-> _]. rewrite last_cons. by destruct (last ks).
Qed.

Lemma siblings_snoc ws ws' (T T' : wtree → Prop) pv c lc ks k w' :
  Forall (λ k, T k → T' k) ks → NoDup (root <$> ks) →
  (∀ p w, p ∈ root <$> ks → ws !! p = Some w → ∃ w2, ws' !! p = Some w2 ∧ prev w2 = prev w ∧
     next w2 = if decide (p = lc) then root k else next w) →
  root k ∉ root <$> ks → T' k → ws' !! root k = Some w' → prev w' = lc → next w' = 0 →
  siblings ws T pv c lc ks → siblings ws' T' pv (if decide (ks = []) then root k else c) (root k) (ks ++ [k]).
Proof.
  intros HT Hnd Hk Hfresh HTk Hw' Hprev Hnext. revert pv c. induction ks as [|k1 ks IH]; intros pv c Hs.
  { destruct Hs as [-> ->]. cbn. split_and!; [done|done|]. exists w'. done. }
  destruct Hs as (-> & HT1 & w & Hw & Hp & Hs). apply Forall_cons in HT as [HTk1 HTks].
  rewrite fmap_cons, NoDup_cons in Hnd. destruct Hnd as [Hnin Hnd]. destruct (Hk (root k1) w) as (w2 & Hw2 & Hp2 & Hn2); [by left|done|].
  rewrite decide_False by done. cbn [siblings app]. split_and!; [done|by apply HTk1|]. exists w2. split_and!; [done|congruence|].
  assert (next w2 = if decide (ks = []) then root k else next w) as ->.
  { rewrite Hn2. destruct (siblings_last _ _ _ _ _ _ Hs) as [El _]. destruct ks as [|k2 ks].
    - cbn in El. rewrite !decide_True by done. done.
    - rewrite (decide_False (P := k2 :: ks = [])) by done. rewrite decide_False; [done|].
      intros E. apply Hnin. rewrite E, El. destruct (last (k2 :: ks)) as [k3|] eqn:E3.
      + apply list_elem_of_fmap. exists k3. split; [done|]. apply last_Some in E3 as (l' & ->). apply elem_of_app. right. by left.
      + by apply last_None in E3. }
  apply IH; [done|done| | |done].
  - intros p w0 Hin. apply Hk. by right.
  - intros Hin. apply Hfresh. by right.
Qed.

Lemma add_child_root p t' t : root (add_child p t' t) = root t.
Proof. by destruct t. Qed.

Lemma add_child_id p t' t : p ∉ nodes t → add_child p t' t = t.
Proof.
  induction t as [q ks IH] using wtree_rect'. intros Hp. cbn [add_child]. rewrite decide_False.
  2: { intros ->. apply Hp. by left. }
  f_equal. rewrite <- (list_fmap_id ks) at 2. apply list_fmap_ext. intros i k Hk. apply list_elem_of_lookup_2 in Hk.
  rewrite Forall_forall in IH. apply IH; [done|]. intros Hin. apply Hp. right. by eapply kid_nodes.
Qed.

(** What [ew_add_list] leaves in the store. *)
Record added (ws ws' : gmap Z WINDOW) (p w : Z) (pw x : WINDOW) : Prop := Added {
  ad_parent : ws' !! p = Some (set_children (if last_child pw =? 0 then w else first_child pw) w pw);
  ad_new : ws' !! w = Some (set_parent p (set_next 0 (set_prev (last_child pw) x)));
  ad_last y : last_child pw ≠ 0 → ws !! last_child pw = Some y → ws' !! last_child pw = Some (set_next w y);
  ad_other q : q ≠ p → q ≠ w → (last_child pw ≠ 0 → q ≠ last_child pw) → ws' !! q = ws !! q
}.

Section appended.
Context (ws ws' : gmap Z WINDOW) (p w : Z) (pw x : WINDOW).
Hypothesis Ha : added ws ws' p w pw x.
Hypothesis Hp : ws !! p = Some pw.
Hypothesis Hx : first_child x = 0 ∧ last_child x = 0.
Hypothesis Hw : w ≠ 0.
(** The last child is a child. *)
Hypothesis Hl : last_child pw ≠ 0 → last_child pw ≠ p ∧ ∃ y, ws !! last_child pw = Some y ∧ parent y = p.

(** The pointers of the old windows, except for [next] of the last child and
    the children of [p]. *)
Lemma added_old q y : q ≠ w → ws !! q = Some y → ∃ y', ws' !! q = Some y' ∧ prev y' = prev y ∧ parent y' = parent y ∧
  next y' = (if decide (last_child pw ≠ 0 ∧ q = last_child pw) then w else next y) ∧
  (q ≠ p → first_child y' = first_child y ∧ last_child y' = last_child y).
Proof.
  intros Hq Hy. destruct (decide (q = p)) as [->|Hqp].
  - assert (y = pw) as -> by congruence. eexists. split; [apply Ha|]. split_and!; try done.
    rewrite decide_False; [done|]. intros [? ?]. by apply Hl in H as [? _].
  - destruct (decide (last_child pw ≠ 0 ∧ q = last_child pw)) as [[Hn ->]|Hnl].
    + exists (set_next w y). split; [by apply (ad_last _ _ _ _ _ _ Ha)|done].
    + exists y. split; [|done]. rewrite (ad_other _ _ _ _ _ _ Ha); [done|done|done|]. intros Hn E. by apply Hnl.
Qed.

Lemma added_tree t : ∀ par, NoDup (nodes t) → w ∉ nodes t → tree_at ws par t → tree_at ws' par (add_child p (WT w []) t).
Proof.
  induction t as [q ks IH] using wtree_rect'. intros par Hnd Hnin (H0 & y & Hy & Hpar & Hs).
  cbn [nodes] in Hnd, Hnin. apply NoDup_cons in Hnd as [Hqn Hnd]. apply not_elem_of_cons in Hnin as [Hwq Hnin].
  destruct (added_old q y (not_eq_sym Hwq) Hy) as (y' & Hy' & _ & Hpar' & _ & Hch). cbn [add_child tree_at].
  split; [done|]. exists y'. split_and!; [done|congruence|].
  assert (Forall (λ k, tree_at ws q k → tree_at ws' q (add_child p (WT w []) k)) ks) as IHk.
  { rewrite Forall_forall in IH |- *. intros k Hk. apply IH; [done| |].
    - by eapply nodup_kid.
    - intros Hin. apply Hnin. by eapply kid_nodes. }
  assert (∀ r z, r ∈ root <$> ks → ws !! r = Some z → r ≠ w ∧ r ∈ flat_map nodes ks ∧ parent z = q) as Hroots.
  { intros r z Hr Hz. apply list_elem_of_fmap in Hr as (k & -> & Hk). pose proof (kid_nodes k ks _ Hk (root_node k)) as Hin.
    split_and!; [by intros E; apply Hnin; rewrite <- E|done|]. apply siblings_forall in Hs. rewrite Forall_forall in Hs.
    destruct (tree_nonzero _ _ _ (Hs k Hk)) as (_ & z' & Hz' & Hpz). congruence. }
  destruct (decide (q = p)) as [->|Hqp].
  - assert (y = pw) as -> by congruence. assert (y' = set_children (if last_child pw =? 0 then w else first_child pw) w pw) as ->
      by (rewrite (ad_parent _ _ _ _ _ _ Ha) in Hy'; congruence).
    cbn [first_child last_child set_children]. destruct (siblings_last _ _ _ _ _ _ Hs) as [El Ef].
    replace (if last_child pw =? 0 then w else first_child pw) with (if decide (ks = []) then w else first_child pw).
    2: { destruct ks as [|k ks]; [by rewrite El|]. rewrite decide_False by done. destruct (Z.eqb_spec (last_child pw) 0) as [E|]; [|done].
         exfalso. rewrite E in El. destruct (last (k :: ks)) as [k'|] eqn:E'; [|by apply last_None in E'].
         apply last_Some in E' as (l' & E'). apply siblings_forall in Hs. rewrite E' in Hs. apply Forall_app in Hs as [_ Hs].
         apply Forall_cons in Hs as [Hk' _]. by apply tree_nonzero in Hk' as [? _]. }
    apply (siblings_snoc ws ws' (tree_at ws p) (tree_at ws' p) 0 (first_child pw) (last_child pw) ks (WT w [])
      (set_parent p (set_next 0 (set_prev (last_child pw) x)))); try done.
    + rewrite Forall_forall in IHk |- *. intros k Hk Ht. rewrite <- (add_child_id p (WT w []) k); [by apply IHk|].
      intros Hin. apply Hqn. by eapply kid_nodes.
    + by apply nodup_roots.
    + intros r z Hr Hz. destruct (Hroots r z Hr Hz) as (H1 & H2 & _). destruct (added_old r z H1 Hz) as (z' & Hz' & Hp' & _ & Hn & _).
      exists z'. split_and!; [done|done|]. rewrite Hn. destruct (decide (r = last_child pw)) as [->|Hne].
      * rewrite decide_True; [done|]. split; [|done]. apply list_elem_of_fmap in Hr as (k & E & Hk). rewrite E.
        apply siblings_forall in Hs. rewrite Forall_forall in Hs. by destruct (tree_nonzero _ _ _ (Hs k Hk)).
      * rewrite decide_False; [done|tauto].
    + intros Hr. apply list_elem_of_fmap in Hr as (k & E & Hk). cbn in E. apply Hnin. rewrite E.
      eapply kid_nodes; [done|apply root_node].
    + cbn. split; [done|]. eexists. split; [apply Ha|]. split; [done|]. cbn. by destruct Hx as [-> ->].
    + apply Ha.
  - destruct (Hch Hqp) as [-> ->]. apply (siblings_map ws ws' (tree_at ws q)); [apply add_child_root| |done|done].
    intros r z Hr Hz. destruct (Hroots r z Hr Hz) as (H1 & H2 & H3). destruct (added_old r z H1 Hz) as (z' & Hz' & Hp' & _ & Hn & _).
    exists z'. split_and!; [done|done|]. rewrite Hn, decide_False; [done|]. intros [Hn0 E].
    destruct (Hl Hn0) as [_ (z2 & Hz2 & Hpz)]. rewrite <- E in Hz2. congruence.
Qed.
End appended.

Lemma tree_last ws t : ∀ par p pw, tree_at ws par t → NoDup (nodes t) → p ∈ nodes t → ws !! p = Some pw → last_child pw ≠ 0 →
  last_child pw ≠ p ∧ last_child pw ∈ nodes t ∧ ∃ y, ws !! last_child pw = Some y ∧ parent y = p.
Proof.
  induction t as [q ks IH] using wtree_rect'. intros par p pw (H0 & y & Hy & Hpar & Hs) Hnd Hin Hpw Hl. cbn [nodes] in *.
  apply NoDup_cons in Hnd as [Hqn Hnd]. pose proof (siblings_forall _ _ _ _ _ _ Hs) as Hks. rewrite Forall_forall in IH, Hks.
  apply elem_of_cons in Hin as [->|Hin].
  - assert (y = pw) as -> by congruence. destruct (siblings_last _ _ _ _ _ _ Hs) as [El _].
    destruct (last ks) as [k|] eqn:Ek; [|done]. apply last_Some in Ek as (l' & ->).
    assert (k ∈ l' ++ [k]) as Hk by (apply elem_of_app; right; by left).
    destruct (tree_nonzero _ _ _ (Hks k Hk)) as (_ & z & Hz & Hpz). rewrite El.
    pose proof (kid_nodes k _ _ Hk (root_node k)) as Hr. split_and!; [by intros E; apply Hqn; rewrite <- E|by right|by exists z].
  - apply list_elem_of_In, in_flat_map in Hin as (k & Hk & Hin). apply list_elem_of_In in Hk, Hin.
    destruct (IH k Hk q p pw (Hks k Hk) (nodup_kid k ks Hnd Hk) Hin Hpw Hl) as (G1 & G2 & G3).
    split_and!; [done| |done]. right. by eapply kid_nodes.
Qed.

Section run.
Context {H : Type} `{CHeapOps H}.
Implicit Types (s : ew H).

Lemma wp_win p w (Q : WINDOW → ew H → Prop) s : wins s !! p = Some w → Q w s → wp (win p) Q s.
Proof. intros E HQ. unfold win. wp_step. wp_step. rewrite E. by wp_step. Qed.

Lemma wp_upd p w f (Q : unit → ew H → Prop) s :
  wins s !! p = Some w → Q tt (with_wins (<[p := f w]>) s) → wp (upd p f) Q s.
Proof. intros E HQ. unfold upd. wp_step. eapply wp_win; [done|]. by wp_step. Qed.

(** The new window becomes the last child, all others keep their places. *)
Lemma ew_add_list_spec t par p w x s :
  tree_at (wins s) par t → NoDup (nodes t) → p ∈ nodes t → w ∉ nodes t → w ≠ 0 →
  wins s !! w = Some x → first_child x = 0 ∧ last_child x = 0 →
  wp (ew_add_list p w) (λ _ s', ∃ ws' pw, s' = with_wins (λ _, ws') s ∧ wins s !! p = Some pw ∧
    added (wins s) ws' p w pw x ∧ tree_at ws' par (add_child p (WT w []) t)) s.
Proof.
  intros Ht Hnd Hp Hnin Hw Hx Hxc.
  assert (∃ pw, wins s !! p = Some pw) as [pw Hpw] by (by apply (tree_lookup _ t par)).
  assert (p ≠ w) as Hpw' by (by intros ->).
  pose proof (tree_last _ _ par p pw Ht Hnd Hp Hpw) as Hl.
  assert (∀ ws', added (wins s) ws' p w pw x → tree_at ws' par (add_child p (WT w []) t)) as Htree.
  { intros ws' Ha. apply (added_tree (wins s) ws' p w pw x); try done. intros Hn. destruct (Hl Hn) as (? & _ & ?). done. }
  unfold ew_add_list. wp_step. eapply wp_win; [done|]. wp_step. destruct (Z.eqb_spec (last_child pw) 0) as [E|Hn].
  - wp_step. eapply wp_upd; [done|]. eapply wp_upd; [cbn; by rewrite lookup_insert_ne|].
    eapply wp_upd; [cbn; apply lookup_insert_eq|]. match goal with |- ∃ ws' pw, ?s' = _ ∧ _ => set (ws' := wins s'); exists ws', pw end.
    assert (added (wins s) ws' p w pw x) as Ha; [|split_and!; [reflexivity|done|done|by apply Htree]].
    unfold ws'. cbn [wins with_wins]. split; rewrite ?E; cbn [Z.eqb].
    + by rewrite !lookup_insert_ne, lookup_insert_eq by done.
    + by rewrite lookup_insert_eq.
    + done.
    + intros q H1 H2 _. by rewrite !lookup_insert_ne by done.
  - destruct (Hl Hn) as (L1 & L2 & y & Hy & _). assert (last_child pw ≠ w) as L3 by (intros E; apply Hnin; by rewrite <- E).
    wp_step. eapply wp_upd; [done|]. wp_step. eapply wp_upd; [cbn; apply lookup_insert_eq|]. wp_step.
    eapply wp_win; [cbn; by rewrite !lookup_insert_ne by done|]. wp_step.
    eapply wp_upd; [cbn; by rewrite !lookup_insert_ne by done|].
    eapply wp_upd; [cbn; by rewrite !lookup_insert_ne by done|].
    eapply wp_upd; [cbn; rewrite !lookup_insert_ne by done; apply lookup_insert_eq|]. match goal with |- ∃ ws' pw, ?s' = _ ∧ _ => set (ws' := wins s'); exists ws', pw end.
    assert (added (wins s) ws' p w pw x) as Ha; [|split_and!; [reflexivity|done|done|by apply Htree]].
    unfold ws'. cbn [wins with_wins]. split.
    + rewrite lookup_insert_ne, lookup_insert_eq by done. by destruct (Z.eqb_spec (last_child pw) 0).
    + by rewrite lookup_insert_eq.
    + intros y' _ Hy'. rewrite !lookup_insert_ne, lookup_insert_eq by done. congruence.
    + intros q H1 H2 H3. rewrite !lookup_insert_ne; try done. intros E. by apply H3.
Qed.
End run.

(** The windows of the tree with a new one. *)
Lemma add_child_nodes p w t : NoDup (nodes t) → p ∈ nodes t → nodes (add_child p (WT w []) t) ≡ₚ w :: nodes t.
Proof.
  induction t as [q ks IH] using wtree_rect'. intros Hnd Hp. cbn [nodes add_child] in *. apply NoDup_cons in Hnd as [Hq Hnd].
  destruct (decide (q = p)) as [->|Hqp].
  { rewrite flat_map_app. cbn [flat_map nodes app]. rewrite (Permutation_app_comm _ [w]). cbn. apply perm_swap. }
  apply elem_of_cons in Hp as [->|Hp]; [done|]. rewrite (perm_swap q w). constructor. clear Hq Hqp q.
  induction ks as [|k ks IHks]; [by apply not_elem_of_nil in Hp|]. apply Forall_cons in IH as [IHk IH].
  cbn [flat_map] in *. apply NoDup_app in Hnd as (N1 & N2 & N3). rewrite fmap_cons. cbn [flat_map].
  assert (p ∉ flat_map nodes ks → add_child p (WT w []) <$> ks = ks) as Hid.
  { intros Hn. rewrite <- (list_fmap_id ks) at 2. apply list_fmap_ext. intros i k' Hk'. apply list_elem_of_lookup_2 in Hk'.
    apply add_child_id. intros Hin. apply Hn. by eapply kid_nodes. }
  apply elem_of_app in Hp as [Hp|Hp].
  - rewrite Hid by (by apply N2). rewrite (IHk N1 Hp). done.
  - rewrite add_child_id by (intros Hin; by apply (N2 p Hin)). rewrite (IHks IH N3 Hp). by rewrite Permutation_middle.
Qed.

(** Everything but the pointers of the tree. *)
Definition same_data (w w' : WINDOW) : Prop :=
  loc w' = loc w ∧ show w' = show w ∧ paint_data w' = paint_data w ∧ paint w' = paint w ∧ resize w' = resize w ∧
  buf w' = buf w ∧ data_size w' = data_size w.

Lemma added_data ws ws' p w pw x q y :
  added ws ws' p w pw x → ws !! p = Some pw → ws !! w = Some x → ws !! q = Some y → ∃ y', ws' !! q = Some y' ∧ same_data y y'.
Proof.
  intros Ha Hp Hw Hq. destruct (decide (q = w)) as [->|Hqw].
  { eexists. split; [apply Ha|]. assert (y = x) as -> by congruence. done. }
  destruct (decide (q = p)) as [->|Hqp].
  { eexists. split; [apply Ha|]. assert (y = pw) as -> by congruence. done. }
  destruct (decide (last_child pw ≠ 0 ∧ q = last_child pw)) as [[Hn ->]|Hl].
  - exists (set_next w y). split; [by apply (ad_last _ _ _ _ _ _ Ha)|done].
  - exists y. split; [|done]. rewrite (ad_other _ _ _ _ _ _ Ha); [done|done|done|]. intros Hn E. by apply Hl.
Qed.

(** C26. [ew_add_list] keeps the windows a tree.  Whatever the parent's place
    in the tree and however many children it has, the new window becomes its
    last child with consistent pointers in both directions; the tree has the
    same windows in the same order and the new one; nothing but pointers of the
    tree changes in any window. *)
Theorem ew_add_list_appends {H : Type} (t : wtree) (par p w : Z) (x : WINDOW) (s : ew H) :
  tree_at (wins s) par t → NoDup (nodes t) → p ∈ nodes t → w ∉ nodes t → w ≠ 0 →
  wins s !! w = Some x → first_child x = 0 ∧ last_child x = 0 →
  wp (ew_add_list p w) (λ _ s', ∃ ws', s' = with_wins (λ _, ws') s ∧
    tree_at ws' par (add_child p (WT w []) t) ∧ nodes (add_child p (WT w []) t) ≡ₚ w :: nodes t ∧
    ∀ q y, wins s !! q = Some y → ∃ y', ws' !! q = Some y' ∧ same_data y y') s.
Proof.
  intros Ht Hnd Hp Hnin Hw Hx Hc. eapply wp_mono; [by apply (ew_add_list_spec t par p w x)|]. cbv beta.
  intros [] s' (ws' & pw & -> & Hpw & Ha & Ht'). exists ws'. split_and!; [done|done|by apply add_child_nodes|].
  intros q y. by apply (added_data (wins s) ws' p w pw x).
Qed.

Lemma ew_add_list_appends_witness :
  let v := Window (Rect 0 0 1 1) 0 0 0 0 0 0 0 PaintNull 0 0 0 in
  let s := Ew tt {[ 1 := set_children 2 2 v; 2 := set_parent 1 v; 3 := v ]} 1 0 0 0 (Frame 0 0 PixelOther) (BlendMode 0 0 0) 0 in
  wp (ew_add_list 1 3) (λ _ s', ∃ ws', s' = with_wins (λ _, ws') s ∧
    tree_at ws' 0 (WT 1 [WT 2 []; WT 3 []]) ∧ nodes (WT 1 [WT 2 []; WT 3 []]) ≡ₚ [3; 1; 2] ∧
    ∀ q y, wins s !! q = Some y → ∃ y', ws' !! q = Some y' ∧ same_data y y') s.
Proof.
  intros v s. apply (ew_add_list_appends (WT 1 [WT 2 []]) 0 1 3 v s); try done.
  - cbn. split; [done|]. eexists. split; [reflexivity|]. split; [done|]. split; [done|]. split; [|by eexists].
    split; [done|]. eexists. split; [reflexivity|]. done.
  - apply (bool_decide_unpack _). by vm_compute.
  - by left.
  - apply (bool_decide_unpack _). by vm_compute.
Defined.
