(* ===== verification/EwCompose.v ===== *)
(** * What the boot menu shows

    [ew_invalidate_rect] of src/tload/tloadefi/efiwindow/efiwindow.c: the
    rectangle on the screen becomes the visible windows painted over each other
    in the order of the tree. *)

From stdpp Require Import base numbers list gmap.
From Stdlib Require Import Lia.
From S2P Require Import Prelude Mem EfiHeap EwScreen EwWindow EwTree.
Open Scope Z_scope.

(** ** The picture *)
(** The windows that are shown, parents before children, with their absolute
    positions; [ox] and [oy] are the position of the parent. *)
Fixpoint visible (ws : gmap Z WINDOW) (ox oy : Z) (t : wtree) : list (Z * Z * Z) :=
  match t with
  | WT p ks =>
      match ws !! p with
      | Some w =>
          if show w =? 0 then []
          else (p, ox + rx (loc w), oy + ry (loc w)) :: flat_map (visible ws (ox + rx (loc w)) (oy + ry (loc w))) ks
      | None => []
      end
  end.

Section picture.
Context {H : Type} `{CHeapOps H}.
Implicit Types (s : ew H).

(** Pixel [x, y] after a window is painted over [acc]. *)
Definition layer s (x y acc : Z) (e : Z * Z * Z) : Z :=
  let '(p, ax, ay) := e in
  match wins s !! p with
  | Some w =>
      if bool_decide (ax <= x < ax + rw (loc w) ∧ ay <= y < ay + rh (loc w))
      then u32 (ew_blend (blending s) (rd32 (ew_mem s) (px (buf w) (rw (loc w)) (x - ax) (y - ay))) acc)
      else acc
  | None => acc
  end.
Definition picture s (l : list (Z * Z * Z)) (x y acc : Z) : Z := fold_left (layer s x y) l acc.

(** A window that can be painted: sensible numbers, its pixels apart from the
    back buffer. *)
Definition window_ok s (e : Z * Z * Z) : Prop :=
  let '(p, ax, ay) := e in
  ∃ w, wins s !! p = Some w ∧ - 2 ^ 29 <= ax <= 2 ^ 29 ∧ - 2 ^ 29 <= ay <= 2 ^ 29 ∧
    0 <= rw (loc w) <= 2 ^ 29 ∧ 0 <= rh (loc w) <= 2 ^ 29 ∧
    (0 < rw (loc w) * rh (loc w) → surface (buf w) (rw (loc w)) (rh (loc w)) ∧
      apart (buf w) (rw (loc w) * rh (loc w) * 4) (bb s) (bbw s * bbh s * 4)).
End picture.

(** ** Positions *)
(** [p] is [n] steps below the desktop [d], at this position. *)
Inductive located (ws : gmap Z WINDOW) (d : Z) : Z → Z → Z → nat → Prop :=
| located_desktop : located ws d d 0 0 0
| located_child p w ax ay n : p ≠ d → ws !! p = Some w → located ws d (parent w) ax ay n →
    located ws d p (ax + rx (loc w)) (ay + ry (loc w)) (S n).

Lemma located_depth ws d p ax ay n ax' ay' n' : located ws d p ax ay n → located ws d p ax' ay' n' → n = n'.
Proof.
  intros Hl. revert ax' ay' n'. induction Hl as [|p w ax ay n Hp Hw Hl IH]; intros ax' ay' n' Hl'.
  - by inversion Hl'.
  - inversion Hl' as [|p' w' bx by' m Hp' Hw' Hm]; subst; [done|]. f_equal. rewrite Hw in Hw'. injection Hw' as <-. by eapply IH.
Qed.

Lemma nodes_size (ws : gmap Z WINDOW) (l : list Z) : NoDup l → (∀ q, q ∈ l → is_Some (ws !! q)) → (length l <= size ws)%nat.
Proof.
  intros Hnd Hin. rewrite <- length_map_to_list, <- (length_fmap fst). apply submseteq_length, NoDup_submseteq; [done|].
  intros q Hq. destruct (Hin q Hq) as [w Hw]. apply list_elem_of_fmap. exists (q, w). split; [done|]. by apply elem_of_map_to_list.
Qed.

Lemma located_bound ws d p ax ay n : located ws d p ax ay n → (n <= size ws)%nat.
Proof.
  intros Hl. assert (∃ l, length l = n ∧ NoDup l ∧ ∀ q, q ∈ l → is_Some (ws !! q) ∧ ∃ bx by' k, (k <= n)%nat ∧ located ws d q bx by' k)
    as (l & <- & Hnd & Hin).
  { induction Hl as [|p w ax ay n Hp Hw Hl (l & El & Hnd & IH)]; [exists []; split_and!; [done|constructor|by intros q Hq%not_elem_of_nil]|].
    exists (p :: l). split_and!; [cbn; lia| |].
    - constructor; [|done]. intros Hin. destruct (IH p Hin) as (_ & bx & by' & k & Hk & Hlk).
      pose proof (located_depth _ _ _ _ _ _ _ _ _ Hlk (located_child _ _ p w ax ay n Hp Hw Hl)). lia.
    - intros q [->|Hq]%elem_of_cons.
      + split; [by exists w|]. eexists _, _, (S n). split; [done|]. by econstructor.
      + destruct (IH q Hq) as (? & bx & by' & k & Hk & Hlk). split; [done|]. exists bx, by', k. split; [lia|done]. }
  apply nodes_size; [done|]. intros q Hq. by apply Hin.
Qed.

Lemma s32_add a b : s32 (s32 a + b) = s32 (a + b).
Proof. mlia. Qed.

Lemma s32_idem a : s32 (s32 a) = s32 a.
Proof. mlia. Qed.

Section run.
Context {H : Type} `{HC : CHeap H}.
Implicit Types (s : ew H).

Lemma abs_loop_spec fuel p ax ay n out s :
  located (wins s) (EW_DESKTOP s) p ax ay n → (n < fuel)%nat → s32 (rx out) = rx out → s32 (ry out) = ry out →
  wp (abs_loop fuel p out) (λ r s', s' = s ∧ r = Rect (s32 (rx out + ax)) (s32 (ry out + ay)) (rw out) (rh out)) s.
Proof.
  intros Hl. revert fuel out. induction Hl as [|p w ax ay n Hp Hw Hl IH]; intros [|fuel] out Hf Ex Ey; try lia; cbn [abs_loop];
    wp_step; wp_step.
  - rewrite Z.eqb_refl. wp_step. split; [done|]. rewrite !Z.add_0_r, Ex, Ey. by destruct out.
  - destruct (Z.eqb_spec p (EW_DESKTOP s)); [done|]. wp_step. eapply wp_win; [done|].
    eapply wp_mono; [apply IH; [lia|..]; apply s32_idem|].
    cbv beta. intros r s' [-> ->]. cbn [rx ry rw rh]. rewrite !s32_add. split; [done|]. f_equal; f_equal; lia.
Qed.

Lemma absolute_rect_spec p ax ay n r s :
  located (wins s) (EW_DESKTOP s) p ax ay n → s32 (rx r) = rx r → s32 (ry r) = ry r →
  wp (ew_get_absolute_rect p r) (λ a s', s' = s ∧ a = Rect (s32 (rx r + ax)) (s32 (ry r + ay)) (rw r) (rh r)) s.
Proof.
  intros Hl Ex Ey. unfold ew_get_absolute_rect. wp_step. wp_step. eapply abs_loop_spec; [done| |done|done].
  apply located_bound in Hl. lia.
Qed.
End run.

(** ** Rectangles *)
Definition inside (r : RECT) (x y : Z) : Prop := rx r <= x < rx r + rw r ∧ ry r <= y < ry r + rh r.
Definition small_rect (r : RECT) : Prop :=
  - 2 ^ 29 <= rx r <= 2 ^ 29 ∧ - 2 ^ 29 <= ry r <= 2 ^ 29 ∧ 0 <= rw r <= 2 ^ 29 ∧ 0 <= rh r <= 2 ^ 29.

(** The intersection of a rectangle of the screen with another. *)
Lemma intersect_spec a b : small_rect a → small_rect b → 0 <= rx a → 0 <= ry a →
  let o := ew_intersect_rect a b in
  s32 (rx o + rw o) = rx o + rw o ∧ s32 (ry o + rh o) = ry o + rh o ∧ ∀ x y, inside o x y ↔ inside a x y ∧ inside b x y.
Proof.
  intros (A1 & A2 & A3 & A4) (B1 & B2 & B3 & B4) Ax Ay. unfold ew_intersect_rect.
  rewrite (s32_small (rx a + rw a)), (s32_small (rx b + rw b)), (s32_small (ry a + rh a)), (s32_small (ry b + rh b)) by lia. set (X := (_ && _) || _). set (Y := (_ && _) || _).
  assert (X = bool_decide (rx a < rx b + rw b ∧ rx b < rx a + rw a)) as ->.
  { unfold X. destruct (Z.ltb_spec (rx a) (rx b + rw b)), (Z.ltb_spec (rx b) (rx a + rw a)); cbn; symmetry;
      (apply bool_decide_eq_true_2 || apply bool_decide_eq_false_2); lia. }
  assert (Y = bool_decide (ry a < ry b + rh b ∧ ry b < ry a + rh a)) as ->.
  { unfold Y. destruct (Z.ltb_spec (ry a) (ry b + rh b)), (Z.ltb_spec (ry b) (ry a + rh a)); cbn; symmetry;
      (apply bool_decide_eq_true_2 || apply bool_decide_eq_false_2); lia. }
  unfold inside. case_bool_decide as Hx; cbv iota beta zeta; cbn [rx ry rw rh].
  2: { case_bool_decide; cbn; rewrite ?andb_false_r; (split_and!; [done|done|intros x y; cbn; lia]). }
  destruct (Z.eqb_spec (Z.min (rx a + rw a) (rx b + rw b)) (-1)); [lia|].
  destruct (Z.eqb_spec (Z.max (rx a) (rx b)) (-1)); [lia|]. cbn [negb andb rx ry rw rh].
  case_bool_decide as Hy; cbv iota beta zeta; cbn [rx ry rw rh negb andb].
  2: { cbn. split_and!; [done|done|]. intros x y. lia. }
  destruct (Z.eqb_spec (Z.min (ry a + rh a) (ry b + rh b)) (-1)); [lia|].
  destruct (Z.eqb_spec (Z.max (ry a) (ry b)) (-1)); [lia|]. cbn [negb andb rx ry rw rh].
  rewrite (s32_small (Z.min (rx a + rw a) _ - _)), (s32_small (Z.min (ry a + rh a) _ - _)) by lia.
  split_and!; [apply s32_small; lia..|]. intros x y. lia.
Qed.

(** ** One window *)
Lemma for_up_ext {S} (f g : Z → S → S) n i s :
  (∀ k s, i <= k < i + Z.of_nat n → f k s = g k s) → for_up n i f s = for_up n i g s.
Proof.
  revert i s. induction n as [|n IH]; intros i s Hfg; [done|]. cbn [for_up]. rewrite Hfg by lia. apply IH.
  intros k s' Hk. apply Hfg. lia.
Qed.

(** The two pointers run over pixels [i, i + n) of a line. *)
Lemma blend_line_for md (src dst : Z → Z) n i m :
  (∀ k, i <= k < i + Z.of_nat n → u64 (src k + 4) = src (k + 1) ∧ u64 (dst k + 4) = dst (k + 1)) →
  blend_line md n (src i) (dst i) m =
    for_up n i (λ k m, wr32 m (dst k) (ew_blend md (rd32 m (src k)) (rd32 m (dst k)))) m.
Proof.
  revert i m. induction n as [|n IH]; intros i m Hk; [done|]. cbn [blend_line for_up].
  destruct (Hk i ltac:(lia)) as [-> ->]. apply IH. intros k Hk'. apply Hk. lia.
Qed.

Section window.
Context {H : Type} `{HC : CHeap H}.
Implicit Types (s : ew H).

Lemma with_mem_eq f m s : f (ew_mem s) = m → with_mem f s = with_mem (λ _, m) s.
Proof. by intros <-. Qed.

(** [a] is a rectangle of the screen. *)
Definition on_screen s (a : RECT) : Prop :=
  small_rect a ∧ 0 <= rx a ∧ rx a + rw a <= bbw s ∧ 0 <= ry a ∧ ry a + rh a <= bbh s.

(** The pixels of [a] in the back buffer are painted over with [l], all other
    memory is as before. *)
Definition drawn (a : RECT) s s' (l : list (Z * Z * Z)) : Prop :=
  ∃ m', s' = with_mem (λ _, m') s ∧
    (∀ k, (∀ x y, inside a x y → k < px (bb s) (bbw s) x y ∨ px (bb s) (bbw s) x y + 4 <= k) → rd8 m' k = rd8 (ew_mem s) k) ∧
    ∀ x y, inside a x y →
      rd32 m' (px (bb s) (bbw s) x y) = picture s l x y (rd32 (ew_mem s) (px (bb s) (bbw s) x y)).

(** Line [j] of window [w] at [ax, ay], from pixel [x0] of the screen on. *)
Lemma line_spec s w ax ay x0 x1 j m :
  surface (bb s) (bbw s) (bbh s) → surface (buf w) (rw (loc w)) (rh (loc w)) →
  small_rect (Rect ax ay (rw (loc w)) (rh (loc w))) →
  ax <= x0 → x1 <= ax + rw (loc w) → 0 <= x0 → x1 <= bbw s → ay <= j < ay + rh (loc w) → 0 <= j < bbh s →
  blend_line (blending s) (Z.to_nat (x1 - x0))
    (pixel_at (buf w) (s32 (x0 - ax) + s32 (j - ay) * rw (loc w))) (pixel_at (bb s) (x0 + j * bbw s)) m =
  for_range x0 x1 (λ i m, wr32 m (px (bb s) (bbw s) i j)
    (ew_blend (blending s) (rd32 m (px (buf w) (rw (loc w)) (i - ax) (j - ay))) (rd32 m (px (bb s) (bbw s) i j)))) m.
Proof.
  intros Hbb Hbuf (R1 & R2 & R3 & R4) H1 H2 H3 H4 H5 H6. cbn [rx ry rw rh] in *. unfold for_range.
  destruct (Z.le_gt_cases x1 x0) as [Hle|Hgt]; [by replace (Z.to_nat (x1 - x0)) with 0%nat by lia|].
  rewrite (s32_small (x0 - ax)), (s32_small (j - ay)) by (pose proof (proj1 (proj2 Hbb)); destruct Hbb; lia).
  pose (src k := px (buf w) (rw (loc w)) (k - ax) (j - ay)). pose (dst k := px (bb s) (bbw s) k j).
  replace (pixel_at (buf w) (x0 - ax + (j - ay) * rw (loc w))) with (src x0)
    by (symmetry; apply (px_code (buf w) (rw (loc w)) (rh (loc w))); [done|lia|lia]).
  replace (pixel_at (bb s) (x0 + j * bbw s)) with (dst x0) by (symmetry; apply (px_code (bb s) (bbw s) (bbh s)); [done|lia|lia]).
  apply (blend_line_for (blending s) src dst). intros k Hk.
  destruct (px_inside (buf w) (rw (loc w)) (rh (loc w)) (k - ax) (j - ay)) as [I1 I2]; [lia|lia|].
  destruct (px_inside (bb s) (bbw s) (bbh s) k j) as [J1 J2]; [lia|lia|].
  destruct Hbb as (B1 & _ & _ & _ & B5), Hbuf as (C1 & _ & _ & _ & C5). unfold src, dst, px in *.
  rewrite !u64_small by lia. lia.
Qed.

(** What painting a window does to a pixel. *)
Definition paint_pixel s w (ax ay i j : Z) (m : mem) : mem :=
  wr32 m (px (bb s) (bbw s) i j) (ew_blend (blending s)
    (rd32 m (px (buf w) (rw (loc w)) (i - ax) (j - ay))) (rd32 m (px (bb s) (bbw s) i j))).

Section paint.
Context s (a : RECT) (w : WINDOW) (ax ay : Z).
Hypothesis Hbb : surface (bb s) (bbw s) (bbh s).
Hypothesis Ha : on_screen s a.
Let b := Rect ax ay (rw (loc w)) (rh (loc w)).
Hypothesis Hb : small_rect b.
Hypothesis Hw : 0 < rw (loc w) * rh (loc w) → surface (buf w) (rw (loc w)) (rh (loc w)) ∧
  apart (buf w) (rw (loc w) * rh (loc w) * 4) (bb s) (bbw s * bbh s * 4).
Let o := ew_intersect_rect a b.

Lemma intersect_here : s32 (rx o + rw o) = rx o + rw o ∧ s32 (ry o + rh o) = ry o + rh o ∧
  ∀ x y, inside o x y ↔ inside a x y ∧ inside b x y.
Proof. destruct Ha as (A1 & A2 & _ & A3 & _). by apply intersect_spec. Qed.

Lemma overlap_surface x y : inside o x y →
  0 <= x < bbw s ∧ 0 <= y < bbh s ∧ 0 <= x - ax < rw (loc w) ∧ 0 <= y - ay < rh (loc w) ∧
  surface (buf w) (rw (loc w)) (rh (loc w)) ∧ apart (buf w) (rw (loc w) * rh (loc w) * 4) (bb s) (bbw s * bbh s * 4).
Proof.
  intros Ho. destruct Ha as (_ & A1 & A2 & A3 & A4). apply intersect_here in Ho as [[X1 Y1] [X2 Y2]]. unfold b in *. cbn [rx ry rw rh] in *.
  destruct Hw as [W1 W2]; [nia|]. split_and!; lia || done.
Qed.

Lemma lines_rect m :
  for_range (ry o) (ry o + rh o) (λ j, blend_line (blending s) (Z.to_nat (rx o + rw o - rx o))
    (pixel_at (buf w) (s32 (rx o - ax) + s32 (j - ay) * rw (loc w))) (pixel_at (bb s) (rx o + j * bbw s))) m =
  for_rect (rx o) (rx o + rw o) (ry o) (ry o + rh o) (paint_pixel s w ax ay) m.
Proof.
  unfold for_rect. unfold for_range at 1 2. apply for_up_ext. intros j m' Hj.
  destruct (Z.le_gt_cases (rw o) 0) as [Hle|Hgt].
  { unfold for_range. by replace (Z.to_nat (rx o + rw o - rx o)) with 0%nat by lia. }
  destruct (overlap_surface (rx o) j) as (X1 & Y1 & X2 & Y2 & S1 & _); [unfold inside; lia|].
  destruct (overlap_surface (rx o + rw o - 1) j) as (X3 & _ & X4 & _); [unfold inside; lia|].
  apply (line_spec s w ax ay (rx o) (rx o + rw o)); try done; lia.
Qed.

Lemma paint_rect_spec m :
  let m' := for_rect (rx o) (rx o + rw o) (ry o) (ry o + rh o) (paint_pixel s w ax ay) m in
  (∀ k, (∀ x y, inside a x y → k < px (bb s) (bbw s) x y ∨ px (bb s) (bbw s) x y + 4 <= k) → rd8 m' k = rd8 m k) ∧
  ∀ x y, inside a x y → rd32 m' (px (bb s) (bbw s) x y) =
    if bool_decide (ax <= x < ax + rw (loc w) ∧ ay <= y < ay + rh (loc w))
    then u32 (ew_blend (blending s) (rd32 m (px (buf w) (rw (loc w)) (x - ax) (y - ay))) (rd32 m (px (bb s) (bbw s) x y)))
    else rd32 m (px (bb s) (bbw s) x y).
Proof.
  intros m'. destruct intersect_here as (_ & _ & Ho).
  pose (G i j old := u32 (ew_blend (blending s) (rd32 m (px (buf w) (rw (loc w)) (i - ax) (j - ay))) old)).
  destruct (for_rect_spec (rx o) (rx o + rw o) (ry o) (ry o + rh o) (px (bb s) (bbw s)) G (paint_pixel s w ax ay) m) as [H1 H2].
  - intros i j i' j' Hi Hi' Hne. destruct (overlap_surface i j Hi) as (? & _). destruct (overlap_surface i' j' Hi') as (? & _).
    by apply px_apart.
  - intros i j m1 Hij Hm1. destruct (overlap_surface i j Hij) as (X1 & Y1 & X2 & Y2 & S1 & S2).
    unfold paint_pixel, G. replace (rd32 m1 (px (buf w) _ _ _)) with (rd32 m (px (buf w) (rw (loc w)) (i - ax) (j - ay))).
    + split; [apply (rd_wr_eq 4)|apply (wr_same_outside 4)].
    + apply (rd_ext 4). intros k Hk. symmetry. apply Hm1. intros i' j' Hij'. destruct (overlap_surface i' j' Hij') as (X3 & Y3 & _).
      pose proof (px_inside (bb s) (bbw s) (bbh s) i' j' X3 Y3). pose proof (px_inside (buf w) (rw (loc w)) (rh (loc w)) _ _ X2 Y2).
      unfold apart in S2. lia.
  - fold m' in H1, H2. split.
    + intros k Hk. apply H1. intros i j Hij. apply Hk. by apply Ho in Hij as [? _].
    + intros x y Hxy. case_bool_decide as Hin; [apply H2, Ho; split; [done|exact Hin]|].
      apply (rd_ext 4). intros k Hk. apply H1. intros i j Hij. destruct Ha as (_ & A1 & A2 & A3 & A4).
      destruct (overlap_surface i j Hij) as (X1 & Y1 & _). unfold inside in Hxy.
      assert (i ≠ x ∨ j ≠ y) as Hne.
      { destruct (decide (i = x)) as [->|]; [|by left]. destruct (decide (j = y)) as [->|]; [|by right].
        exfalso. apply Hin. apply Ho in Hij as [_ Hb']. exact Hb'. }
      destruct (px_apart (bb s) (bbw s) i j x y X1 ltac:(lia) Hne); lia.
Qed.
End paint.

Lemma update_bb_spec s a p ax ay n :
  surface (bb s) (bbw s) (bbh s) → on_screen s a → window_ok s (p, ax, ay) →
  located (wins s) (EW_DESKTOP s) p ax ay n → (∃ w, wins s !! p = Some w ∧ show w ≠ 0) →
  wp (ew_update_bb (Ubbd a (bb s) (bbw s) (bbh s)) p) (λ r s', r = 1 ∧ drawn a s s' [(p, ax, ay)]) s.
Proof.
  intros Hbb Ha (w & Hw & W1 & W2 & W3 & W4 & W5) Hl (w' & Hw' & Hs).
  assert (w' = w) as -> by congruence. unfold ew_update_bb. wp_step. eapply wp_win; [done|].
  destruct (Z.eqb_spec (show w) 0); [done|]. wp_step.
  eapply wp_mono; [by apply (absolute_rect_spec p ax ay n)|]. cbv beta. intros ar s1 [-> ->]. cbn [rx ry rw rh absolute_rect u_bb u_bbw].
  rewrite !Z.add_0_l, (s32_small ax), (s32_small ay) by lia. wp_step. wp_step. wp_step. wp_step. wp_step. split; [done|].
  assert (small_rect (Rect ax ay (rw (loc w)) (rh (loc w)))) as Hb by (unfold small_rect; cbn; lia).
  destruct (intersect_here s a w ax ay Ha Hb) as (-> & -> & _).
  eexists. split; [apply with_mem_eq; exact (lines_rect s a w ax ay Hbb Ha Hb W5 (ew_mem s))|].
  destruct (paint_rect_spec s a w ax ay Ha Hb W5 (ew_mem s)) as [P1 P2]. split; [exact P1|]. intros x y Hxy.
  rewrite (P2 x y Hxy). unfold picture. cbn [fold_left layer]. by rewrite Hw.
Qed.
End window.

(** ** The whole tree *)
Section tree.
Context {H : Type} `{HC : CHeap H}.
Implicit Types (s : ew H).

Lemma ew_mem_with m s : ew_mem (with_mem (λ _, m) s) = m.
Proof. apply ch_mem_set. Qed.
Lemma with_mem_with m m' s : with_mem (λ _, m') (with_mem (λ _, m) s) = with_mem (λ _, m') s.
Proof. unfold with_mem, with_heap. cbn. by rewrite ch_set_set. Qed.
Lemma with_mem_same s : with_mem (λ _, ew_mem s) s = s.
Proof. destruct s. unfold with_mem, with_heap, ew_mem. cbn. by rewrite ch_set_get. Qed.

Lemma drawn_nil a s : drawn a s s [].
Proof. exists (ew_mem s). split_and!; [by rewrite with_mem_same|done|done]. Qed.

Lemma layer_same a s m e x y acc :
  on_screen s a → window_ok s e →
  (∀ k, (∀ x y, inside a x y → k < px (bb s) (bbw s) x y ∨ px (bb s) (bbw s) x y + 4 <= k) → rd8 m k = rd8 (ew_mem s) k) →
  layer (with_mem (λ _, m) s) x y acc e = layer s x y acc e.
Proof.
  destruct e as [[p ax] ay]. intros (_ & A1 & A2 & A3 & A4) (w & Hw & _ & _ & W3 & W4 & W5) Hm. unfold layer. cbn [wins with_mem with_heap].
  rewrite Hw, ew_mem_with. case_bool_decide as Hin; [|done].
  apply (f_equal (λ c, u32 (ew_blend (blending s) c acc))). apply (rd_ext 4). intros k Hk. apply Hm. intros i j [Hi Hj].
  destruct W5 as [S1 S2]; [nia|]. pose proof (px_inside (buf w) (rw (loc w)) (rh (loc w)) (x - ax) (y - ay) ltac:(lia) ltac:(lia)).
  pose proof (px_inside (bb s) (bbw s) (bbh s) i j ltac:(lia) ltac:(lia)). unfold apart in S2. lia.
Qed.

Lemma drawn_app a s s1 s2 l1 l2 :
  on_screen s a → Forall (window_ok s) l2 → drawn a s s1 l1 → drawn a s1 s2 l2 → drawn a s s2 (l1 ++ l2).
Proof.
  intros Ha Hok (m1 & -> & O1 & P1) (m2 & -> & O2 & P2). exists m2. split; [by rewrite with_mem_with|].
  rewrite ew_mem_with in O2, P2. cbn [bb bbw with_mem with_heap] in O2, P2. split.
  - intros k Hk. rewrite O2 by done. by apply O1.
  - intros x y Hxy. rewrite P2, P1 by done. unfold picture. rewrite fold_left_app. generalize (fold_left (layer s x y) l1
      (rd32 (ew_mem s) (px (bb s) (bbw s) x y))). clear -Ha Hok O1 HC. induction Hok as [|e l2 He Hok IH]; intros acc; cbn [fold_left]; [reflexivity|].
    rewrite (layer_same a s m1 e x y acc Ha He O1). apply IH.
Qed.

(** What stays when the back buffer changes. *)
Definition same_but_mem s s' : Prop := ∃ m, s' = with_mem (λ _, m) s.

Lemma drawn_same a s s' l : drawn a s s' l → same_but_mem s s'.
Proof. intros (m & -> & _). by exists m. Qed.

Lemma same_window_ok s s' e : same_but_mem s s' → window_ok s e → window_ok s' e.
Proof. intros (m & ->). by destruct e as [[p ax] ay]. Qed.

Section walk.
Context (a : RECT) (ws : gmap Z WINDOW) (desk bb_ bbw_ bbh_ : Z).
Let d := Ubbd a bb_ bbw_ bbh_.
(** The parts of the state the walk depends on. *)
Record walking s : Prop := Walking {
  wk_wins : wins s = ws; wk_desk : EW_DESKTOP s = desk;
  wk_bb : bb s = bb_ ∧ bbw s = bbw_ ∧ bbh s = bbh_;
  wk_surface : surface bb_ bbw_ bbh_; wk_screen : on_screen s a
}.

Lemma walking_same s s' : same_but_mem s s' → walking s → walking s'.
Proof. intros (m & ->) [W1 W2 W3 W4 W5]. by split. Qed.

Definition walk_ok (t : wtree) : Prop := ∀ par ox oy n w fuel s,
  walking s → tree_at ws par t → ws !! root t = Some w → located ws desk (root t) (ox + rx (loc w)) (oy + ry (loc w)) n →
  desk ∉ flat_map nodes (kids t) → Forall (window_ok s) (visible ws ox oy t) → (2 * length (nodes t) <= fuel)%nat →
  wp (traverse (ew_update_bb d) fuel (root t)) (λ _ s', drawn a s s' (visible ws ox oy t)) s.

Lemma walk_kids ks : Forall walk_ok ks → ∀ p px_ py n pv c lc fuel s,
  walking s → siblings ws (tree_at ws p) pv c lc ks → located ws desk p px_ py n →
  desk ∉ flat_map nodes ks → Forall (window_ok s) (flat_map (visible ws px_ py) ks) →
  (2 * length (flat_map nodes ks) + 1 <= fuel)%nat →
  wp (children (ew_update_bb d) fuel c) (λ _ s', drawn a s s' (flat_map (visible ws px_ py) ks)) s.
Proof.
  induction ks as [|k ks IH]; intros HF p px_ py n pv c lc [|fuel] s Hk Hs Hl Hd Hok Hf; try lia; cbn [children].
  { destruct Hs as [-> _]. cbn [Z.eqb]. wp_step. apply drawn_nil. }
  apply Forall_cons in HF as [HFk HF]. destruct Hs as (-> & Ht & w & Hw & _ & Hs). cbn [flat_map] in *.
  rewrite length_app in Hf. apply not_elem_of_app in Hd as [Hdk Hd]. apply Forall_app in Hok as [Hok1 Hok2].
  destruct (tree_nonzero _ _ _ Ht) as (Hk0 & w' & Hw' & Hp). assert (w' = w) as -> by congruence.
  destruct (Z.eqb_spec (root k) 0); [done|]. wp_step.
  assert (0 < length (nodes k))%nat as Hpos by (destruct k; cbn; lia).
  eapply wp_mono; [eapply (HFk p px_ py (S n) w fuel s); try done|].
  - constructor; [|done|by rewrite Hp]. intros E. apply Hdk. rewrite <- E. apply root_node.
  - intros Hin. apply Hdk. destruct k. by right.
  - lia.
  - cbv beta. intros [] s1 D1. pose proof (drawn_same _ _ _ _ D1) as Hsame. wp_step.
    pose proof (walking_same _ _ Hsame Hk) as Hk1. eapply wp_win; [by rewrite (wk_wins _ Hk1)|].
    eapply wp_mono; [eapply (IH HF p px_ py n); try done|].
    + eapply Forall_impl; [exact Hok2|]. intros e. by apply same_window_ok.
    + lia.
    + cbv beta. intros [] s2 D2. eapply drawn_app; [apply Hk|exact Hok2|exact D1|exact D2].
Qed.

Lemma walk_tree t : walk_ok t.
Proof.
  induction t as [p ks IH] using wtree_rect'. intros par ox oy n w [|fuel] s Hk Ht Hw Hl Hd Hok Hf; [cbn in Hf; lia|].
  cbn [root kids] in *. cbn [visible traverse nodes length] in *. rewrite Hw in *. destruct Ht as (_ & w' & Hw' & _ & Hs).
  assert (w' = w) as -> by congruence. pose proof Hk as [K1 K2 (K3 & K4 & K5) K6 K7]. wp_step.
  destruct (Z.eqb_spec (show w) 0) as [E|Hshow].
  { unfold ew_update_bb. wp_step. eapply wp_win; [by rewrite K1|]. rewrite E. cbn [Z.eqb]. wp_step. cbn [Z.eqb]. wp_step. apply drawn_nil. }
  apply Forall_cons in Hok as [Hok1 Hok2].
  eapply wp_mono; [unfold d; rewrite <- K3, <- K4, <- K5; eapply (update_bb_spec s a p _ _ n); try done|].
  - by rewrite K3, K4, K5.
  - by rewrite K1, K2.
  - exists w. by rewrite K1.
  - cbv beta. intros r s1 [-> D1]. cbn [Z.eqb]. pose proof (drawn_same _ _ _ _ D1) as Hsame. wp_step.
    pose proof (walking_same _ _ Hsame Hk) as Hk1. eapply wp_win; [by rewrite (wk_wins _ Hk1)|].
    eapply wp_mono; [eapply (walk_kids ks IH p _ _ n); try done|].
    + eapply Forall_impl; [exact Hok2|]. intros e. by apply same_window_ok.
    + lia.
    + cbv beta. intros [] s2 D2. eapply (drawn_app a s s1 s2 [_]); [done|exact Hok2|exact D1|exact D2].
Qed.
End walk.
End tree.

(** ** The screen *)
Section show.
Context {H : Type} `{HC : CHeap H}.
Implicit Types (s : ew H).

(** The desktop at the origin, and the visible windows of the tree [t] below
    it, can be painted. *)
Record scene s (t : wtree) : Prop := Scene {
  sc_tree : tree_at (wins s) 0 t;
  sc_root : root t = EW_DESKTOP s;
  sc_nodup : NoDup (nodes t);
  sc_origin d : wins s !! EW_DESKTOP s = Some d → rx (loc d) = 0 ∧ ry (loc d) = 0;
  sc_surface : surface (bb s) (bbw s) (bbh s);
  sc_windows : Forall (window_ok s) (visible (wins s) 0 0 t)
}.

(** The frame buffer has [fh] lines and room for the back buffer. *)
Definition frame_ok s (fh : Z) : Prop :=
  let f := screen s in
  fb_format f ≠ PixelOther ∧ surface (fb f) (fb_stride f) fh ∧ bbw s <= fb_stride f < 2 ^ 29 ∧ bbh s <= fh ∧
  apart (bb s) (bbw s * bbh s * 4) (fb f) (fb_stride f * fh * 4).

(** Bytes of no pixel of [a] on the surface at [base]. *)
Definition off_pixels (base w : Z) (a : RECT) (k : Z) : Prop :=
  ∀ x y, inside a x y → k < px base w x y ∨ px base w x y + 4 <= k.

(** The cursor changes the pixels of the rectangle it is told, as [overlay]
    says, and nothing else. *)
Definition cursor_ok (cursor : update_bb_data → M (ew H) unit) (overlay : Z → Z → Z → Z) : Prop :=
  ∀ s a, surface (bb s) (bbw s) (bbh s) → on_screen s a →
  wp (cursor (Ubbd a (bb s) (bbw s) (bbh s))) (λ _ s', ∃ m', s' = with_mem (λ _, m') s ∧
    (∀ k, off_pixels (bb s) (bbw s) a k → rd8 m' k = rd8 (ew_mem s) k) ∧
    ∀ x y, inside a x y → rd32 m' (px (bb s) (bbw s) x y) = overlay x y (rd32 (ew_mem s) (px (bb s) (bbw s) x y))) s.

Lemma clear_spec s a m : surface (bb s) (bbw s) (bbh s) → on_screen s a →
  let m' := clear_backbuffer a (bb s) (bbw s) (bbh s) m in
  (∀ k, off_pixels (bb s) (bbw s) a k → rd8 m' k = rd8 m k) ∧ ∀ x y, inside a x y → rd32 m' (px (bb s) (bbw s) x y) = 0.
Proof.
  intros Hbb (Ha & A1 & A2 & A3 & A4). cbv zeta. unfold clear_backbuffer. unfold small_rect in Ha.
  rewrite (s32_small (rx a + rw a)), (s32_small (ry a + rh a)) by lia. set (body := λ i j m, _).
  apply (for_rect_spec (rx a) (rx a + rw a) (ry a) (ry a + rh a) (px (bb s) (bbw s)) (λ _ _ _, 0) body m).
  - unfold in_rect. intros i j i' j' Hi Hi'. apply px_apart; lia.
  - unfold in_rect, body. intros i j m1 Hij _.
    rewrite (proj2 (Z.leb_le 0 i)), (proj2 (Z.ltb_lt i (bbw s))), (proj2 (Z.leb_le 0 j)), (proj2 (Z.ltb_lt j (bbh s))) by lia.
    cbn [andb]. unfold pixel_at. rewrite (proj2 (proj2 (px_code (bb s) (bbw s) (bbh s) i j Hbb ltac:(lia) ltac:(lia)))).
    split; [apply (rd_wr_eq 4)|apply (wr_same_outside 4)].
Qed.

Context (cursor : update_bb_data → M (ew H) unit) (overlay : Z → Z → Z → Z) (GOP_Blt : Z → Z → Z → Z → Z → Z → M (ew H) Z).
Hypothesis Hcursor : cursor_ok cursor overlay.

(** The colour of a pixel: the visible windows one over the other on black,
    then the cursor. *)
Definition colour s t (x y : Z) : Z := overlay x y (picture s (visible (wins s) 0 0 t) x y 0).

(** The rectangle [a] of the screen shows the windows, nothing else changed. *)
Definition displayed (a : RECT) t s s' : Prop :=
  ∃ m', s' = with_mem (λ _, m') s ∧
    (∀ x y, inside a x y → rd32 m' (px (bb s) (bbw s) x y) = colour s t x y ∧
      rd32 m' (px (fb (screen s)) (fb_stride (screen s)) x y) = shown (fb_format (screen s)) (colour s t x y)) ∧
    ∀ k, off_pixels (bb s) (bbw s) a k → off_pixels (fb (screen s)) (fb_stride (screen s)) a k → rd8 m' k = rd8 (ew_mem s) k.

Lemma traversal_spec s t a :
  scene s t → on_screen s a →
  wp (ew_leftmost_traversal (ew_update_bb (Ubbd a (bb s) (bbw s) (bbh s))) (EW_DESKTOP s))
     (λ _ s', drawn a s s' (visible (wins s) 0 0 t)) s.
Proof.
  intros [T1 T2 T3 T4 T5 T6] Ha. unfold ew_leftmost_traversal. wp_step. wp_step. rewrite <- T2.
  destruct (tree_nonzero _ _ _ T1) as (_ & w & Hw & _). pose proof Hw as Hd. rewrite T2 in Hd. destruct (T4 w Hd) as [X Y].
  eapply (walk_tree a (wins s) (EW_DESKTOP s) (bb s) (bbw s) (bbh s) t 0 0 0 0%nat w).
  - by split.
  - done.
  - done.
  - rewrite X, Y, T2. constructor.
  - destruct t as [p ks]. cbn in *. apply NoDup_cons in T3 as [T3 _]. by rewrite <- T2.
  - done.
  - assert (length (nodes t) <= size (wins s))%nat; [|lia]. apply nodes_size; [done|]. intros q Hq.
    destruct (tree_lookup _ t 0 q T1 Hq) as [x Hx]. by exists x.
Qed.
(** The parts of the picture do not depend on the back buffer. *)
Lemma picture_same s a m l x y acc :
  on_screen s a → Forall (window_ok s) l → (∀ k, off_pixels (bb s) (bbw s) a k → rd8 m k = rd8 (ew_mem s) k) →
  picture (with_mem (λ _, m) s) l x y acc = picture s l x y acc.
Proof.
  intros Ha Hl Hm. unfold picture. revert acc. induction Hl as [|e l He Hl IH]; intros acc; cbn [fold_left]; [reflexivity|].
  rewrite (layer_same a s m e x y acc Ha He Hm). apply IH.
Qed.

Lemma scene_mem s t m : scene s t → scene (with_mem (λ _, m) s) t.
Proof.
  intros [T1 T2 T3 T4 T5 T6]. split; [exact T1|exact T2|exact T3|exact T4|exact T5|exact T6].
Qed.

Lemma invalidate_spec s t w c wx wy n r fh :
  scene s t → frame_ok s fh → ew_can_blit s = 0 → w ≠ 0 → wins s !! w = Some c →
  located (wins s) (EW_DESKTOP s) w wx wy n →
  let r' := default (Rect 0 0 (rw (loc c)) (rh (loc c))) r in
  let a := Rect (rx r' + wx) (ry r' + wy) (rw r') (rh r') in
  s32 (rx r') = rx r' → s32 (ry r') = ry r' → on_screen s a →
  wp (ew_invalidate_rect cursor GOP_Blt w r) (λ st s', st = EFI_SUCCESS ∧ displayed a t s s') s.
Proof.
  intros Hsc (F1 & F2 & F3 & F4 & F5) Hcb Hw Hc Hl r' a Ex Ey Ha. unfold ew_invalidate_rect.
  destruct (Z.eqb_spec w 0); [done|]. wp_step.
  eapply (wp_mono _ (λ x s', x = r' ∧ s' = s)).
  { destruct r as [r|]; cbn [rect_or_window]; [by wp_step|]. wp_step. eapply wp_win; [done|]. by wp_step. }
  cbv beta. intros x s0 [-> ->]. wp_step. eapply wp_mono; [by apply (absolute_rect_spec w wx wy n)|]. cbv beta. intros ar s0 [-> ->].
  pose proof Ha as (Hsm & A1 & A2 & A3 & A4). unfold small_rect in Hsm. rewrite !s32_small by (cbn in *; lia). fold a.
  wp_step. wp_step. cbv zeta. wp_step. wp_step.
  pose proof (sc_surface _ _ Hsc) as Hbb. destruct (clear_spec s a (ew_mem s) Hbb Ha) as [C1 C2].
  rewrite (with_mem_eq _ _ _ eq_refl). set (m1 := clear_backbuffer _ _ _ _ _) in *. set (s1 := with_mem (λ _, m1) s).
  wp_step. eapply wp_mono; [exact (traversal_spec s1 t a (scene_mem s t m1 Hsc) Ha)|]. cbv beta.
  intros [] s2 (m2 & -> & D1 & D2). unfold s1 in *. rewrite with_mem_with, ew_mem_with in *. cbn [bb bbw wins with_mem with_heap] in D1, D2.
  set (s2 := with_mem (λ _, m2) s). wp_step. eapply wp_mono; [exact (Hcursor s2 a Hbb Ha)|]. cbv beta.
  intros [] s3 (m3 & -> & E1 & E2). unfold s2 in *. rewrite with_mem_with, ew_mem_with in *. cbn [bb bbw with_mem with_heap] in E1, E2.
  unfold do_blit. wp_step. wp_step. cbn [ew_can_blit with_mem with_heap]. rewrite Hcb. cbn [truth Z.eqb negb]. wp_step. wp_step. wp_step.
  split; [done|]. rewrite (with_mem_eq _ _ _ eq_refl), with_mem_with, ew_mem_with. cbn [screen with_mem with_heap].
  assert (0 <= bbw s) as Hbw by (destruct Hbb as (_ & ? & _); done). rewrite (s32_small (bbw s * 4)) by lia.
  destruct (ew_blit_spec (screen s) (bb s) (bbw s) (bbh s) fh (rx a) (ry a) (rw r') (rh r') F1 Hbb F2 F5) with (m := m3) as [B1 B2];
    [unfold a in *; cbn in *; lia|unfold a in *; cbn in *; lia|].
  eexists. split; [reflexivity|]. set (m4 := ew_blit _ _ _ _ _ _ _ _ _ _) in *.
  assert (∀ x y, inside a x y → rd32 m3 (px (bb s) (bbw s) x y) = colour s t x y) as Hcol.
  { intros x y Hxy. rewrite E2, D2, C2 by done. unfold colour. rewrite (picture_same s a m1 _ x y 0 Ha (sc_windows _ _ Hsc) C1). reflexivity. }
  assert (∀ x y k, inside a x y → px (bb s) (bbw s) x y <= k < px (bb s) (bbw s) x y + 4 →
    off_pixels (fb (screen s)) (fb_stride (screen s)) a k) as Hoff.
  { intros x y k [Hx Hy] Hk i j [Hi Hj]. pose proof (px_inside (bb s) (bbw s) (bbh s) x y ltac:(lia) ltac:(lia)).
    pose proof (px_inside (fb (screen s)) (fb_stride (screen s)) fh i j ltac:(lia) ltac:(lia)). unfold apart in F5. lia. }
  split.
  - intros x y Hxy. split.
    + rewrite <- (Hcol x y Hxy). apply (rd_ext 4). intros k Hk. apply B2. intros i j Hi Hj. by apply (Hoff x y k Hxy Hk).
    + destruct Hxy as [Hx Hy]. rewrite (B1 x y Hx Hy). by rewrite Hcol.
  - intros k K1 K2. unfold m4. rewrite B2 by (intros i j Hi Hj; by apply K2). rewrite E1, D1, C1 by done. done.
Qed.
End show.

(** C9. What is on the screen.  Let the windows form a tree below the desktop
    ([scene]: pointers consistent, the visible windows of sensible size with
    pixels of their own) and let the rectangle [a], which is [r] of the window
    [w] in absolute coordinates, lie on the screen.  Then [ew_invalidate_rect]
    terminates with success, and every pixel of [a] is, in the back buffer and
    in the frame buffer's format on the screen, what one gets by painting the
    visible windows over each other, each parent before its children and
    siblings from first to last, hidden windows with all their children left
    out, and then the cursor; no other byte of memory changes, and no window. *)
Theorem ew_invalidate_rect_shows {H : Type} `{HC : CHeap H} cursor overlay GOP_Blt (s : ew H) t w c wx wy n r fh :
  cursor_ok cursor overlay → scene s t → frame_ok s fh → ew_can_blit s = 0 → w ≠ 0 → wins s !! w = Some c →
  located (wins s) (EW_DESKTOP s) w wx wy n →
  let r' := default (Rect 0 0 (rw (loc c)) (rh (loc c))) r in
  let a := Rect (rx r' + wx) (ry r' + wy) (rw r') (rh r') in
  s32 (rx r') = rx r' → s32 (ry r') = ry r' → on_screen s a →
  wp (ew_invalidate_rect cursor GOP_Blt w r) (λ st s', st = EFI_SUCCESS ∧ displayed overlay a t s s') s.
Proof. intros Hcu Hsc Hf Hcb Hw Hc Hl r' a Ex Ey Ha. by apply (invalidate_spec cursor overlay GOP_Blt Hcu s t w c wx wy n r fh). Qed.

(** ** A screen with two windows *)
Definition menu_window (r : RECT) (p fc b : Z) : WINDOW := Window r 1 0 0 0 p fc fc PaintNull 0 b 0.
Definition menu_state : ew demo_pool :=
  Ew (DemoPool ∅ []) {[ 1000 := menu_window (Rect 0 0 8 4) 0 2000 0x10000; 2000 := menu_window (Rect 2 1 4 2) 1000 0 0x20000 ]}
    1000 0x30000 8 4 (Frame 0x40000 10 PixelBlueGreenRedReserved8BitPerColor) alpha_mode 0.
Definition menu_tree : wtree := WT 1000 [WT 2000 []].
Definition no_cursor (d : update_bb_data) : M (ew demo_pool) unit := mret tt.

Lemma menu_scene : scene menu_state menu_tree.
Proof.
  split.
  - cbn. split; [done|]. eexists. split; [reflexivity|]. split; [done|]. split; [done|]. split; [|by eexists].
    split; [done|]. eexists. split; [reflexivity|]. done.
  - done.
  - apply (bool_decide_unpack _). by vm_compute.
  - intros d Hd. injection Hd as <-. done.
  - repeat split; vm_compute; congruence.
  - cbn. repeat constructor; (eexists; split; [reflexivity|]); cbn; split_and!; try lia; intros _; (split; [repeat split; cbn; lia|left; cbn; lia]).
Qed.

Lemma ew_invalidate_rect_shows_witness :
  wp (ew_invalidate_rect no_cursor (λ _ _ _ _ _ _, mret 0) 2000 None)
     (λ st s', st = EFI_SUCCESS ∧ displayed (λ _ _ c, c) (Rect 2 1 4 2) menu_tree menu_state s') menu_state.
Proof.
  apply (ew_invalidate_rect_shows no_cursor (λ _ _ c, c) (λ _ _ _ _ _ _, mret 0) menu_state menu_tree 2000
    (menu_window (Rect 2 1 4 2) 1000 0 0x20000) 2 1 1 None 4); try done.
  - intros s a _ _. unfold no_cursor. wp_step. exists (ew_mem s). rewrite with_mem_same. done.
  - exact menu_scene.
  - unfold frame_ok. cbn. split_and!; try done; left; lia.
  - apply (located_child _ _ 2000 (menu_window (Rect 2 1 4 2) 1000 0 0x20000) 0 0 0); [done|done|]. apply located_desktop.
Defined.
