(* ===== verification/EwText.v ===== *)
(** * Text of the EFI boot menu

    src/tload/tloadefi/efiwindow: the text buffer of textbox.c and the glyphs
    of psffont.c.  A text box is a window, so writing to it ends with
    [ew_invalidate_rect] of EwWindow, which redraws the screen.  [resize_tb] and
    [ew_create_textbox], which fit a box to a window, are left out; EwFont loads
    the fonts. *)

From stdpp Require Import base numbers list gmap.
From Stdlib Require Import Lia.
From S2P Require Import Prelude Mem LibcString EfiHeap EwScreen EwWindow EwTree EwCompose.
Open Scope Z_scope.

Definition EW_TEXTBOX_WHOLE_STRING : Z := 2 ^ 64 - 1.
Definition EW_TEXTBOX_ALIGN_TOP : Z := 0.
Definition EW_TEXTBOX_ALIGN_VCENTER : Z := 1.
Definition EW_TEXTBOX_ALIGN_BOTTOM : Z := 2.
Definition EW_TEXTBOX_ALIGN_LEFT : Z := 0.
Definition EW_TEXTBOX_ALIGN_CENTER : Z := 0x10.
Definition EW_TEXTBOX_ALIGN_RIGHT : Z := 0x20.
Definition EW_TEXTBOX_ALIGN_VERT_MASK : Z := 0xf.
Definition EW_TEXTBOX_ALIGN_HORIZ_MASK : Z := 0xf0.

(** struct console_data, with the members of its EW_TEXTBOX that are used;
    [c_win] is its window [w]. *)
Record console_data := ConsoleData {
  cols : Z; rows : Z; forecolor : Z; backcolor : Z; align : Z;
  c_w : Z; c_h : Z;
  cur_x : Z; cur_y : Z;
  text_buf : Z;
  c_win : Z;
  dirty_x : Z; dirty_y : Z;
  x_offset : Z; y_offset : Z; ta_w : Z; ta_h : Z
}.

(** What the bytes of a call of [ew_textbox_fwrite] work on: the box, memory and
    the local [fwrite_invalidate]. *)
Record tb := TB { cd : console_data; tmem : mem; inval : RECT }.

Definition with_cursor (x y : Z) (c : console_data) : console_data :=
  ConsoleData (cols c) (rows c) (forecolor c) (backcolor c) (align c) (c_w c) (c_h c) x y (text_buf c) (c_win c) (dirty_x c) (dirty_y c)
    (x_offset c) (y_offset c) (ta_w c) (ta_h c).
Definition with_dirty (x y : Z) (c : console_data) : console_data :=
  ConsoleData (cols c) (rows c) (forecolor c) (backcolor c) (align c) (c_w c) (c_h c) (cur_x c) (cur_y c) (text_buf c) (c_win c) x y
    (x_offset c) (y_offset c) (ta_w c) (ta_h c).
Definition set_cd (f : console_data → console_data) (s : tb) : tb := TB (f (cd s)) (tmem s) (inval s).
Definition set_tmem (f : mem → mem) (s : tb) : tb := TB (cd s) (f (tmem s)) (inval s).
Definition set_inval (f : RECT → RECT) (s : tb) : tb := TB (cd s) (tmem s) (f (inval s)).

Definition invalidate_loc (x y : Z) (s : tb) : tb :=
  let c := cd s in
  let p_x := s32 (x * c_w c + x_offset c) in
  let p_y := s32 (y * c_h c + y_offset c) in
  set_inval (λ r,
    let r := if rx r =? -1 then Rect p_x (ry r) (rw r) (rh r) else r in
    let r := if ry r =? -1 then Rect (rx r) p_y (rw r) (rh r) else r in
    let r := if p_x <? rx r then Rect p_x (ry r) (rw r) (rh r) else r in
    let r := if p_y <? ry r then Rect (rx r) p_y (rw r) (rh r) else r in
    let r := if s32 (rx r + rw r) <? s32 (p_x + c_w c) then Rect (rx r) (ry r) (s32 (p_x + c_w c - rx r)) (rh r) else r in
    if s32 (ry r + rh r) <? s32 (p_y + c_h c) then Rect (rx r) (ry r) (rw r) (s32 (p_y + c_h c - ry r)) else r) s.

Definition scr_up (s : tb) : tb :=
  let c := cd s in
  let line j := u64 (text_buf c + s32 (j * cols c)) in
  set_inval (λ _, Rect 0 0 (s32 (cols c * c_w c)) (s32 (rows c * c_h c)))
    (set_tmem (for_range 0 (rows c) (λ j m,
      if j =? rows c - 1 then memset m (line j) 32 (cols c) else memcpy m (line j) (line (j + 1)) (cols c))) s).

Definition newline (s : tb) : tb :=
  let s := set_cd (λ c, with_cursor 0 (s32 (cur_y c + 1)) c) s in
  if cur_y (cd s) =? rows (cd s) then set_cd (λ c, with_cursor (cur_x c) (rows c - 1) c) (scr_up s) else s.

(** One byte of [ew_textbox_fwrite]. *)
Definition fwrite_char (ch : Z) (s : tb) : tb :=
  let s :=
    if truth (isprint ch) then
      let s := if cur_x (cd s) =? cols (cd s) then newline s else s in
      let c := cd s in
      let s := set_tmem (λ m, wr8 m (u64 (text_buf c + s32 (cur_x c + cur_y c * cols c))) ch) s in
      let s := invalidate_loc (cur_x c) (cur_y c) s in
      let s := set_cd (λ c, with_cursor (s32 (cur_x c + 1)) (cur_y c) c) s in
      if dirty_x (cd s) <? cur_x (cd s) then set_cd (λ c, with_dirty (cur_x c) (dirty_y c) c) s else s
    else if ch =? 10 then newline s else s in
  if dirty_y (cd s) <? cur_y (cd s) then set_cd (λ c, with_dirty (dirty_x c) (cur_y c) c) s else s.

(** The loop of [ew_textbox_fwrite]. *)
Definition type_bytes (ptr bytes : Z) (s : tb) : tb :=
  for_range 0 bytes (λ i s, fwrite_char (s8 (rd8 (tmem s) (ptr + i))) s) s.

(** Where the text starts. *)
Definition align_cursor (nchars : Z) (c : console_data) : console_data :=
  let ha := Z.land (align c) EW_TEXTBOX_ALIGN_HORIZ_MASK in
  let va := Z.land (align c) EW_TEXTBOX_ALIGN_VERT_MASK in
  let x := if ha =? EW_TEXTBOX_ALIGN_LEFT then 0
           else if ha =? EW_TEXTBOX_ALIGN_CENTER then s32 (u64 (cols c - nchars) / 2)
           else if ha =? EW_TEXTBOX_ALIGN_RIGHT then s32 (u64 (cols c - nchars)) else cur_x c in
  let y := if va =? EW_TEXTBOX_ALIGN_TOP then 0
           else if va =? EW_TEXTBOX_ALIGN_VCENTER then Z.quot (cols c - 1) 2
           else if va =? EW_TEXTBOX_ALIGN_BOTTOM then cols c - 1 else cur_y c in
  with_cursor x y c.

(** The box that is called, and the windows and memory. *)
Record tbox (H : Type) := TBox { box : console_data; t_ew : ew H }.
Arguments TBox {H}. Arguments box {H}. Arguments t_ew {H}.

Section code.
Context {H : Type} `{CHeapOps H}.

Definition box_mem (s : tbox H) : mem := ew_mem (t_ew s).
Definition set_box (f : console_data → console_data) (s : tbox H) : tbox H := TBox (f (box s)) (t_ew s).
Definition set_box_mem (f : mem → mem) (s : tbox H) : tbox H := TBox (box s) (with_mem f (t_ew s)).
Definition on_ew {A} (c : M (ew H) A) : M (tbox H) A := λ s,
  obind (c (t_ew s)) (λ p, Done (p.1, TBox (box s) p.2)).

(** Before and after the loop. *)
Definition view (s : tbox H) : tb := TB (box s) (box_mem s) (Rect (-1) (-1) 0 0).
Definition put_tb (b : tb) (s : tbox H) : tbox H := TBox (cd b) (with_mem (λ _, tmem b) (t_ew s)).

(** The cursor and [GOP->Blt], for [ew_invalidate_rect]. *)
Context (ew_display_mouse_cursor : update_bb_data → M (ew H) unit).
Context (GOP_Blt : Z → Z → Z → Z → Z → Z → M (ew H) Z).

Definition redraw (w : Z) (r : RECT) : M (tbox H) Z :=
  on_ew (ew_invalidate_rect ew_display_mouse_cursor GOP_Blt w (Some r)).

Definition ew_textbox_fwrite (ptr size nmemb : Z) : M (tbox H) Z :=
  s ← get;
  let b := type_bytes ptr (s32 (size * nmemb)) (view s) in
  modify (put_tb b) ;;
  (if negb (rx (inval b) =? -1) && negb (ry (inval b) =? -1)
   then redraw (c_win (cd b)) (inval b) ;; mret tt else mret tt) ;;
  mret nmemb.

(** [w->paint_data] is the box. *)
Definition ew_set_textbox_text (fuel : nat) (w buf_ nchars : Z) : M (tbox H) Z :=
  if (w =? 0) || (buf_ =? 0) then mret EFI_INVALID_PARAMETER
  else
    s ← get;
    let c := box s in
    modify (set_box_mem (λ m, memset m (text_buf c) 32 (u64 (s32 (dirty_y c * cols c + dirty_x c))))) ;;
    redraw w (Rect 0 0 (s32 (dirty_x c * c_w c)) (s32 (dirty_y c * c_h c))) ;;
    s ← get;
    nchars ← (if nchars =? EW_TEXTBOX_WHOLE_STRING then lift (strlen fuel (box_mem s) buf_) else mret nchars);
    modify (set_box (align_cursor nchars)) ;;
    ew_textbox_fwrite buf_ 1 nchars ;;
    mret EFI_SUCCESS.

Definition ew_get_textbox_text (w buf_ nchars : Z) : M (tbox H) Z :=
  if (w =? 0) || (buf_ =? 0) then mret EFI_INVALID_PARAMETER
  else if nchars =? EW_TEXTBOX_WHOLE_STRING then mret EFI_INVALID_PARAMETER
  else
    s ← get;
    let c := box s in
    let buf_len := strnlen (box_mem s) (text_buf c) (u64 (s32 (cols c * rows c))) in
    let to_copy := if buf_len <? nchars then buf_len else nchars in
    modify (set_box_mem (λ m, memcpy m buf_ (text_buf c) to_copy)) ;;
    (if to_copy <? nchars then modify (set_box_mem (λ m, wr8 m (buf_ + to_copy) 0)) else mret tt) ;;
    mret EFI_SUCCESS.

Definition ew_get_textbox_length (w nchars : Z) : M (tbox H) Z :=
  if (w =? 0) || (nchars =? 0) then mret EFI_INVALID_PARAMETER
  else
    s ← get;
    let c := box s in
    modify (set_box_mem (λ m, wr64 m nchars (strnlen m (text_buf c) (u64 (s32 (cols c * rows c)))))) ;;
    mret EFI_SUCCESS.
End code.

(** ** psffont.c *)
(** struct _psffont: the bitmaps and the size of a character. *)
Record psffont := PsfFont { fbuf : Z; pf_w : Z; pf_h : Z; charsize : Z; pf_length : Z }.

(** [while(s_bit > 8) { s_bit -= 8; src++; }] *)
Fixpoint bit_loop (fuel : nat) (s_bit src : Z) : outcome (Z * Z) :=
  match fuel with
  | O => Hang
  | S fuel => if 8 <? s_bit then bit_loop fuel (s_bit - 8) (src + 1) else Done (s_bit, src)
  end.

(** Shifting by a negative amount is undefined. *)
Definition shift_right (x n : Z) : outcome Z := if n <? 0 then Undef else Done (Z.shiftr x n).

(** One pixel of a glyph. *)
Definition glyph_pixel (pf : psffont) (w : WINDOW) (c x y cell_w cell_h forecolor backcolor d_x d_y : Z) (m : mem) : outcome mem :=
  let scr_x := s32 (x + d_x) in
  let scr_y := s32 (y + d_y) in
  let s_x := Z.quot (d_x * pf_w pf) cell_w in
  let s_y := Z.quot (d_y * pf_h pf) cell_h in
  obind (bit_loop (Z.to_nat (s_y * pf_w pf + s_x) + 1) (s_y * pf_w pf + s_x) (fbuf pf + c * charsize pf)) (λ p,
  obind (shift_right (rd8 m p.2) (7 - p.1)) (λ v,
  Done (wr32 m (pixel_at (buf w) (scr_x + scr_y * rw (loc w))) (if truth (Z.land v 1) then forecolor else backcolor)))).

(** [n] turns of a loop whose body can be undefined. *)
Fixpoint for_o (n : nat) (f : Z → mem → outcome mem) (d_x : Z) (m : mem) : outcome mem :=
  match n with
  | O => Done m
  | S n => obind (f d_x m) (for_o n f (d_x + 1))
  end.

Definition psf_draw_glyph (pf : psffont) (w : WINDOW) (c x y cell_w cell_h forecolor backcolor : Z) (m : mem) : outcome mem :=
  let c := if pf_length pf <? c then 32 else c in
  for_o (Z.to_nat cell_h) (λ d_y, for_o (Z.to_nat cell_w) (λ d_x,
    glyph_pixel pf w c x y cell_w cell_h forecolor backcolor d_x d_y) 0) 0 m.

(** [textbox_paint]: glyphs at their origins, the border in the background. *)
Definition paint_point (pf : psffont) (cdp : console_data) (w : WINDOW) (i j : Z) (m : mem) : outcome mem :=
  if (x_offset cdp <=? i) && (i <? s32 (x_offset cdp + ta_w cdp)) && (y_offset cdp <=? j) && (j <? s32 (y_offset cdp + ta_h cdp)) then
    let ta_x := i - x_offset cdp in
    let ta_y := j - y_offset cdp in
    if c_w cdp =? 0 then Undef
    else if negb (Z.rem ta_x (c_w cdp) =? 0) then Done m
    else if c_h cdp =? 0 then Undef
    else if Z.rem ta_y (c_h cdp) =? 0 then
      let char_x := Z.quot ta_x (c_w cdp) in
      let char_y := Z.quot ta_y (c_h cdp) in
      psf_draw_glyph pf w (u16 (s8 (rd8 m (u64 (text_buf cdp + s32 (char_x + char_y * cols cdp)))))) i j
        (c_w cdp) (c_h cdp) (forecolor cdp) (backcolor cdp) m
    else Done m
  else Done (wr32 m (pixel_at (buf w) (i + j * rw (loc w))) (backcolor cdp)).

Definition textbox_paint (pf : psffont) (cdp : console_data) (w : WINDOW) (update : RECT) (m : mem) : outcome mem :=
  for_o (Z.to_nat (s32 (ry update + rh update) - ry update)) (λ j, for_o (Z.to_nat (s32 (rx update + rw update) - rx update))
    (λ i, paint_point pf cdp w i j) (rx update)) (ry update) m.

(** ** Glyphs *)
Lemma bit_loop_done fuel s_bit src : 0 <= s_bit → s_bit < 8 * Z.of_nat fuel →
  ∃ b a, bit_loop fuel s_bit src = Done (b, a) ∧ (0 < s_bit → s_bit mod 8 = 0 → b = 8).
Proof.
  revert s_bit src. induction fuel as [|fuel IH]; intros s_bit src H0 Hf; [lia|]. cbn [bit_loop].
  destruct (Z.ltb_spec 8 s_bit) as [Hgt|Hle].
  - destruct (IH (s_bit - 8) (src + 1)) as (b & a & E & Hb); [lia|lia|]. exists b, a. split; [done|].
    intros _ Hm. apply Hb; [lia|]. dlia.
  - exists s_bit, src. split; [done|]. intros H1 Hm. dlia.
Qed.

(** A loop stops at a turn that is undefined. *)
Lemma for_o_undef n f lo d m :
  (∀ i m, lo <= i < lo + Z.of_nat n → f i m ≠ Hang) → lo <= d < lo + Z.of_nat n → (∀ m, f d m = Undef) →
  for_o n f lo m = Undef.
Proof.
  intros Hh Hd Hu. revert lo m Hh Hd. induction n as [|n IH]; intros lo m Hh Hd; [lia|]. cbn [for_o].
  destruct (decide (d = lo)) as [->|Hne]; [by rewrite Hu|]. destruct (f lo m) as [m'| |] eqn:E; [|by destruct (Hh lo m); [lia|]|done].
  cbn [obind]. apply IH; [|lia]. intros i m'' Hi. apply Hh. lia.
Qed.

Lemma for_o_not_hang n f lo m :
  (∀ i m, lo <= i < lo + Z.of_nat n → f i m ≠ Hang) → for_o n f lo m ≠ Hang.
Proof.
  revert lo m. induction n as [|n IH]; intros lo m Hh; [done|]. cbn [for_o].
  destruct (f lo m) as [m'| |] eqn:E; [|by destruct (Hh lo m); [lia|]|done]. cbn [obind]. apply IH. intros i m'' Hi. apply Hh. lia.
Qed.

Lemma glyph_pixel_cases pf w c x y cell_w cell_h fc bc d_x d_y m :
  0 <= pf_w pf → 0 <= pf_h pf → 0 < cell_w → 0 < cell_h → 0 <= d_x → 0 <= d_y →
  let s_bit := Z.quot (d_y * pf_h pf) cell_h * pf_w pf + Z.quot (d_x * pf_w pf) cell_w in
  glyph_pixel pf w c x y cell_w cell_h fc bc d_x d_y m ≠ Hang ∧
  (0 < s_bit → s_bit mod 8 = 0 → glyph_pixel pf w c x y cell_w cell_h fc bc d_x d_y m = Undef).
Proof.
  intros H1 H2 H3 H4 H5 H6 s_bit. assert (0 <= s_bit) as Hs.
  { unfold s_bit. assert (0 <= Z.quot (d_y * pf_h pf) cell_h) by (apply Z.quot_pos; nia).
    assert (0 <= Z.quot (d_x * pf_w pf) cell_w) by (apply Z.quot_pos; nia). nia. }
  unfold glyph_pixel. fold s_bit. destruct (bit_loop_done (Z.to_nat s_bit + 1) s_bit (fbuf pf + c * charsize pf)) as (b & a & E & Hb); [lia|lia|].
  rewrite E. cbn [obind fst snd]. unfold shift_right. split.
  - by destruct (7 - b <? 0).
  - intros G1 G2. rewrite (Hb G1 G2). done.
Qed.

(** A line of the cell that shows the second line of the glyph. *)
Lemma second_line h cell_h : 2 <= h <= cell_h → ∃ d, 0 <= d < cell_h ∧ Z.quot (d * h) cell_h = 1.
Proof.
  intros Hh. exists ((cell_h + h - 1) / h). assert (cell_h + h - 1 = h * ((cell_h + h - 1) / h) + (cell_h + h - 1) mod h) as E
    by (apply Z.div_mod; lia). pose proof (Z.mod_pos_bound (cell_h + h - 1) h ltac:(lia)) as Hm.
  set (d := (cell_h + h - 1) / h) in *. split; [nia|]. rewrite Z.quot_div_nonneg by nia.
  symmetry. apply (Z.div_unique _ _ 1 (d * h - cell_h)); nia.
Qed.

(** Every font whose characters are a multiple of eight pixels wide and at least
    two lines high makes [psf_draw_glyph] shift by a negative amount: the loop
    that finds the byte of a pixel stops at bit 8 instead of going on to bit 0
    of the next byte. *)
Lemma psf_draw_glyph_undef pf w c x y cell_w cell_h fc bc m :
  0 < pf_w pf → pf_w pf mod 8 = 0 → 2 <= pf_h pf <= cell_h → 0 < cell_w →
  psf_draw_glyph pf w c x y cell_w cell_h fc bc m = Undef.
Proof.
  intros Hw H8 Hh Hcw. unfold psf_draw_glyph. set (c' := if _ <? _ then _ else _).
  destruct (second_line (pf_h pf) cell_h Hh) as (d & Hd & Hq). apply (for_o_undef _ _ 0 d).
  - intros i m' Hi. apply for_o_not_hang. intros j m'' Hj. apply glyph_pixel_cases; lia.
  - lia.
  - intros m'. apply (for_o_undef _ _ 0 0); [|lia|].
    + intros j m'' Hj. apply glyph_pixel_cases; lia.
    + intros m''. apply glyph_pixel_cases; [lia..| |]; rewrite Hq, Z.mul_0_l, Z.quot_0_l, Z.add_0_r, Z.mul_1_l by lia; lia.
Qed.

(** A point of the text is a glyph, which is undefined, or nothing. *)
Lemma paint_point_cases pf c w i j m :
  0 < pf_w pf → pf_w pf mod 8 = 0 → 2 <= pf_h pf <= c_h c → 0 < c_w c →
  paint_point pf c w i j m ≠ Hang ∧
  (x_offset c <= i < s32 (x_offset c + ta_w c) → y_offset c <= j < s32 (y_offset c + ta_h c) →
   Z.rem (i - x_offset c) (c_w c) = 0 → Z.rem (j - y_offset c) (c_h c) = 0 → paint_point pf c w i j m = Undef).
Proof.
  intros Hw H8 Hh Hcw. unfold paint_point. cbv zeta. rewrite psf_draw_glyph_undef by done.
  rewrite (proj2 (Z.eqb_neq (c_w c) 0)), (proj2 (Z.eqb_neq (c_h c) 0)) by lia. split.
  - by repeat (match goal with |- context [if ?b then _ else _] => destruct b end).
  - intros Hi Hj Ri Rj. rewrite Ri, Rj.
    rewrite !(proj2 (Z.leb_le _ _)), !(proj2 (Z.ltb_lt _ _)) by lia. done.
Qed.

(** C40. Text cannot be painted with the fonts the boot menu loads.  For every
    font whose characters are a multiple of eight pixels wide and at least two
    lines high (all PSF1 fonts are 8 wide) and every text box with cells at
    least as high, [textbox_paint] of any update that holds the origin of a
    cell is undefined, whatever the box holds: the loop of [psf_draw_glyph] that
    finds the byte of a pixel stops at bit 8 instead of going on to bit 0 of the
    next byte, and then shifts by -1. *)
Theorem textbox_paint_undefined pf c w update i j m :
  0 < pf_w pf → pf_w pf mod 8 = 0 → 2 <= pf_h pf <= c_h c → 0 < c_w c →
  rx update <= i < s32 (rx update + rw update) → ry update <= j < s32 (ry update + rh update) →
  x_offset c <= i < s32 (x_offset c + ta_w c) → y_offset c <= j < s32 (y_offset c + ta_h c) →
  Z.rem (i - x_offset c) (c_w c) = 0 → Z.rem (j - y_offset c) (c_h c) = 0 →
  textbox_paint pf c w update m = Undef.
Proof.
  intros Hw H8 Hh Hcw Hi Hj Ti Tj Ri Rj. unfold textbox_paint. apply (for_o_undef _ _ _ j); [|lia|].
  - intros j' m' _. apply for_o_not_hang. intros i' m'' _. by apply paint_point_cases.
  - intros m'. apply (for_o_undef _ _ _ i); [|lia|].
    + intros i' m'' _. by apply paint_point_cases.
    + intros m''. by apply paint_point_cases.
Qed.

Lemma textbox_paint_undefined_witness :
  textbox_paint (PsfFont 0x8000 8 16 16 256) (ConsoleData 4 2 0xffffff 0 0 8 16 0 0 0x1000 0x5000 0 0 1 2 32 32)
    (Window (Rect 0 0 34 36) 1 0 0 0 0 0 0 PaintNull 0 0x20000 0) (Rect 0 0 34 36) ∅ = Undef.
Proof.
  apply (textbox_paint_undefined (PsfFont 0x8000 8 16 16 256) (ConsoleData 4 2 0xffffff 0 0 8 16 0 0 0x1000 0x5000 0 0 1 2 32 32)
    (Window (Rect 0 0 34 36) 1 0 0 0 0 0 0 PaintNull 0 0x20000 0) (Rect 0 0 34 36) 9 18); done.
Defined.

(** ** Text *)
(** Cell [i] of the box, line by line. *)
Definition cell (s : tb) (i : Z) : Z := rd8 (tmem s) (text_buf (cd s) + i).
Definition cells (c : console_data) : Z := cols c * rows c.
(** Addresses that are not the box's. *)
Definition off_box (c : console_data) (a : Z) : Prop := a < text_buf c ∨ text_buf c + cells c <= a.

(** A box: what lies behind the dirty part is blank. *)
Record tb_ok (s : tb) : Prop := TbOk {
  bx_size : 0 < cols (cd s) ∧ 0 < rows (cd s) ∧ cells (cd s) < 2 ^ 31;
  bx_place : 0 <= text_buf (cd s) ∧ text_buf (cd s) + cells (cd s) <= 2 ^ 63;
  bx_dirty : 0 <= dirty_x (cd s) <= cols (cd s) ∧ 0 <= dirty_y (cd s) < rows (cd s);
  bx_blank i : dirty_y (cd s) * cols (cd s) + dirty_x (cd s) <= i < cells (cd s) → cell s i = 32
}.

(** Everything but the cursor and the dirty mark. *)
Definition shape (c : console_data) :=
  (forecolor c, backcolor c, align c, c_w c, c_h c, c_win c, x_offset c, y_offset c, ta_w c, ta_h c).
Definition same_box (c c' : console_data) : Prop :=
  cols c' = cols c ∧ rows c' = rows c ∧ text_buf c' = text_buf c ∧ shape c' = shape c.

(** Cell [j] when the text [l] fills the box from the start. *)
Definition letter (l : list Z) (j : Z) : Z := nth (Z.to_nat j) l 32.
Definition printable (c : Z) : Prop := 32 <= c <= 126.

Section typing.
Context (c0 : console_data) (m0 : mem) (l : list Z).
Hypothesis Hsize : 0 < cols c0 ∧ 0 < rows c0 ∧ cells c0 < 2 ^ 31.
Hypothesis Hplace : 0 <= text_buf c0 ∧ text_buf c0 + cells c0 <= 2 ^ 63.
Hypothesis Hl : Forall printable l ∧ Z.of_nat (length l) <= cells c0.

(** The first [i] letters are in the box, the cursor behind them. *)
Record typed (i : Z) (s : tb) : Prop := Typed {
  ty_box : same_box c0 (cd s);
  ty_at : cur_y (cd s) * cols c0 + cur_x (cd s) = i;
  ty_cursor : 0 <= cur_x (cd s) <= cols c0 ∧ 0 <= cur_y (cd s) < rows c0;
  ty_dirty : cur_x (cd s) <= dirty_x (cd s) <= cols c0 ∧ cur_y (cd s) <= dirty_y (cd s) < rows c0;
  ty_cells j : 0 <= j < cells c0 → cell s j = if decide (j < i) then letter l j else 32;
  ty_rest a : off_box c0 a → rd8 (tmem s) a = rd8 m0 a
}.

Lemma letter_printable i : 0 <= i < Z.of_nat (length l) → printable (letter l i).
Proof.
  intros Hi. destruct Hl as [Hp _]. rewrite Forall_forall in Hp. apply Hp. unfold letter. apply list_elem_of_In, nth_In. lia.
Qed.

(** At the end of a line the cursor goes to the next. *)
Lemma typed_newline i s : typed i s → i < cells c0 →
  let s' := if cur_x (cd s) =? cols (cd s) then newline s else s in
  same_box c0 (cd s') ∧ cur_y (cd s') * cols c0 + cur_x (cd s') = i ∧ 0 <= cur_x (cd s') < cols c0 ∧
  0 <= cur_y (cd s') < rows c0 ∧ dirty_x (cd s') = dirty_x (cd s) ∧ dirty_y (cd s') = dirty_y (cd s) ∧ tmem s' = tmem s.
Proof.
  intros [(B1 & B2 & B3 & B4) At Cu Di _ _] Hi. unfold cells in *. rewrite B1. destruct (Z.eqb_spec (cur_x (cd s)) (cols c0)) as [E|Hne].
  - assert (cur_y (cd s) + 1 < rows c0) as Hy by nia. unfold newline. cbv zeta. cbn [cd set_cd cur_y with_cursor rows].
    rewrite s32_small by nia. rewrite B2. destruct (Z.eqb_spec (cur_y (cd s) + 1) (rows c0)); [lia|].
    cbn [cd set_cd with_cursor cur_x cur_y dirty_x dirty_y tmem]. rewrite (s32_small (cur_y (cd s) + 1)) by nia.
    split_and!; try done; nia.
  - split_and!; try done; lia.
Qed.

Lemma typed_step i s : typed i s → 0 <= i < Z.of_nat (length l) → typed (i + 1) (fwrite_char (letter l i) s).
Proof.
  intros Ht Hi. pose proof (letter_printable i Hi) as Hp. unfold printable in Hp. pose proof (proj2 Hl) as Hlen.
  destruct (typed_newline i s Ht ltac:(lia)) as (B & At & Cx & Cy & Dx & Dy & Em). pose proof Ht as [_ _ _ Di Ce Re].
  unfold fwrite_char. replace (truth (isprint (letter l i))) with true.
  2: { unfold isprint, flag, between. destruct (Z.leb_spec 32 (letter l i)), (Z.leb_spec (letter l i) 126); try lia; done. }
  set (s1 := if cur_x (cd s) =? cols (cd s) then newline s else s) in *. pose proof B as (B1 & B2 & B3 & B4).
  unfold cells in *. cbv zeta. cbn [cd set_cd set_tmem invalidate_loc set_inval].
  assert (cur_x (cd s1) + cur_y (cd s1) * cols c0 = i ∧ cols c0 < 2 ^ 31) as [Ei Hcols] by nia.
  rewrite B1, B3, Ei, (s32_small i), (u64_small (text_buf c0 + i)) by lia.
  cbn [cd set_cd with_cursor cur_x cur_y dirty_x dirty_y]. assert (s32 (cur_x (cd s1) + 1) = cur_x (cd s1) + 1) as Es by (apply s32_small; lia).
  pose (m' := wr8 (tmem s1) (text_buf c0 + i) (letter l i)).
  assert (∀ a, rd8 m' a = if decide (a = text_buf c0 + i) then letter l i else rd8 (tmem s) a) as Hm.
  { intros a. unfold m'. rewrite rd8_wr8, Em.
    do 2 case_decide; try lia; try done. by rewrite u8_small by lia. }
  assert (∀ s', tmem s' = m' → text_buf (cd s') = text_buf c0 →
    (∀ j, 0 <= j < cols c0 * rows c0 → cell s' j = if decide (j < i + 1) then letter l j else 32) ∧
    (∀ a, off_box c0 a → rd8 (tmem s') a = rd8 m0 a)) as Hcells.
  { intros s' E1 E2. unfold cell. rewrite E1, E2. split.
    - intros j Hj. rewrite Hm. pose proof (Ce j Hj) as Cj. unfold cell in Cj. rewrite (proj1 (proj2 (proj2 (ty_box _ _ Ht)))) in Cj.
      destruct (decide (text_buf c0 + j = text_buf c0 + i)) as [E|Hne].
      + replace j with i by lia. by rewrite decide_True by lia.
      + rewrite Cj. do 2 case_decide; try done; lia.
    - intros a Ha. rewrite Hm, decide_False; [by apply Re|]. unfold off_box, cells in Ha. lia. }
  repeat (match goal with |- context [if ?a <? ?b then _ else _] => destruct (Z.ltb_spec a b) end;
    cbn [cd set_cd with_dirty with_cursor cur_x cur_y dirty_x dirty_y] in * );
    (match goal with |- typed _ ?s' => destruct (Hcells s' eq_refl B3) as [G1 G2] end;
     split; [exact B|cbn; rewrite ?Es; lia|cbn; rewrite ?Es; lia|cbn in *; rewrite ?Es in *; lia|exact G1|exact G2]).
Qed.
End typing.

(** ** Any output *)
(** A box with the cursor in it; behind the last column it waits for the next
    character. *)
Record tb_inv (s : tb) : Prop := TbInv {
  ti_ok : tb_ok s;
  ti_cursor : 0 <= cur_x (cd s) <= cols (cd s) ∧ 0 <= cur_y (cd s) < rows (cd s)
}.
Definition keeps (s s' : tb) : Prop :=
  same_box (cd s) (cd s') ∧ ∀ a, off_box (cd s) a → rd8 (tmem s') a = rd8 (tmem s) a.

Lemma box_keeps_refl s : keeps s s.
Proof. by split. Qed.
Lemma box_keeps_trans s1 s2 s3 : keeps s1 s2 → keeps s2 s3 → keeps s1 s3.
Proof.
  intros [(B1 & B2 & B3 & B4) K1] [(C1 & C2 & C3 & C4) K2]. split; [unfold same_box; split_and!; congruence|].
  intros a Ha. rewrite K2; [by apply K1|]. unfold off_box, cells in *. by rewrite B1, B2, B3.
Qed.

(** Scrolling moves every line up and blanks the last. *)
Lemma scr_up_cells s : tb_ok s →
  (∀ i, 0 <= i < cells (cd s) → cell (scr_up s) i = if decide (i < (rows (cd s) - 1) * cols (cd s)) then cell s (i + cols (cd s)) else 32) ∧
  (∀ a, off_box (cd s) a → rd8 (tmem (scr_up s)) a = rd8 (tmem s) a).
Proof.
  intros [Hsz Hpl _ _]. unfold cell, off_box, scr_up. cbn [cd tmem set_inval set_tmem]. set (c := cd s) in *.
  set (n := cols c) in *. set (t := text_buf c) in *. set (R := rows c) in *. unfold cells in *. fold n t R in Hsz, Hpl |- *.
  pose (line_done := λ j m, ∀ a, rd8 m a =
    if decide (t <= a < t + j * n) then (if decide (a < t + (R - 1) * n) then rd8 (tmem s) (a + n) else 32) else rd8 (tmem s) a).
  assert (line_done R (for_range 0 R (λ j m, if j =? R - 1 then memset m (u64 (t + s32 (j * n))) 32 n
    else memcpy m (u64 (t + s32 (j * n))) (u64 (t + s32 ((j + 1) * n))) n) (tmem s))) as Hd.
  { pose proof (for_range_ind line_done 0 R (λ j m, if j =? R - 1 then memset m (u64 (t + s32 (j * n))) 32 n
      else memcpy m (u64 (t + s32 (j * n))) (u64 (t + s32 ((j + 1) * n))) n) (tmem s)) as Hind.
    rewrite Z.max_r in Hind by lia. apply Hind; [intros a; by rewrite decide_False by lia|].
    intros j m Hj Hm a. assert (0 <= j * n ∧ (j + 1) * n <= R * n ∧ (j + 1) * n = j * n + n) as Hjn by nia.
    assert ((R - 1) * n = R * n - n ∧ n * R = R * n) as Hrn by lia. unfold line_done in Hm.
    rewrite (s32_small (j * n)), (u64_small (t + j * n)) by lia. destruct (Z.eqb_spec j (R - 1)) as [->|Hne].
    - unfold memset. rewrite memset_loop_fill, rd8_fill, Z2Nat.id, Hm by lia. repeat case_decide; done || lia.
    - assert (j * n <= (R - 1) * n - n) as Hjr by nia.
      rewrite (s32_small ((j + 1) * n)), (u64_small (t + (j + 1) * n)) by lia. unfold memcpy.
      rewrite memcpy_loop_spec, Z2Nat.id by lia. rewrite !Hm. repeat case_decide; try done; try lia. f_equal. lia. }
  split.
  - intros i Hi. rewrite (Hd (t + i)), decide_True by lia. do 2 case_decide; try done; try lia. f_equal. lia.
  - intros a Ha. by rewrite (Hd a), decide_False by lia.
Qed.

Lemma newline_inv s : tb_inv s → let s' := newline s in tb_ok s' ∧ keeps s s' ∧ cur_x (cd s') = 0 ∧ 0 <= cur_y (cd s') < rows (cd s).
Proof.
  intros [Ho Hc]. destruct (scr_up_cells s Ho) as [Hu1 Hu2]. destruct Ho as [Hsz Hpl Hdi Hbl]. unfold cells in *. unfold newline. cbv zeta.
  cbn [cd set_cd cur_y with_cursor rows]. rewrite s32_small by nia. destruct (Z.eqb_spec (cur_y (cd s) + 1) (rows (cd s))) as [E|Hne].
  - cbn [cd set_cd with_cursor cur_x cur_y rows scr_up set_inval set_tmem]. split_and!; [|by split|done|lia|lia].
    split; try done. intros i Hi. cbn in Hi. unfold cells in Hi. cbn in Hi. assert (0 <= i) by nia.
    change (cell (scr_up s) i = 32). rewrite Hu1 by (unfold cells; lia). case_decide; [|done]. apply Hbl. nia.
  - cbn [cd set_cd with_cursor cur_x cur_y rows]. rewrite s32_small by nia. split_and!; [by split|by split|done|lia|lia].
Qed.

Lemma invalidate_mem x y s : cd (invalidate_loc x y s) = cd s ∧ tmem (invalidate_loc x y s) = tmem s.
Proof. done. Qed.

(** The cursor after a character, and the dirty mark. *)
Lemma moved_fields s :
  let s1 := set_cd (λ c, with_cursor (s32 (cur_x c + 1)) (cur_y c) c) s in
  let s2 := if dirty_x (cd s1) <? cur_x (cd s1) then set_cd (λ c, with_dirty (cur_x c) (dirty_y c) c) s1 else s1 in
  let s3 := if dirty_y (cd s2) <? cur_y (cd s2) then set_cd (λ c, with_dirty (dirty_x c) (cur_y c) c) s2 else s2 in
  tmem s3 = tmem s ∧ same_box (cd s) (cd s3) ∧ s32 (cur_x (cd s) + 1) = cur_x (cd s3) ∧ cur_y (cd s3) = cur_y (cd s) ∧
  dirty_x (cd s3) = Z.max (dirty_x (cd s)) (cur_x (cd s3)) ∧ dirty_y (cd s3) = Z.max (dirty_y (cd s)) (cur_y (cd s)).
Proof.
  destruct s as [[] m r]. cbv zeta. cbn [cd set_cd with_cursor cur_x cur_y dirty_x dirty_y].
  destruct (Z.ltb_spec dirty_x0 (s32 (cur_x0 + 1))); cbn [cd set_cd with_dirty with_cursor cur_x cur_y dirty_x dirty_y];
    destruct (Z.ltb_spec dirty_y0 cur_y0); cbn [cd set_cd with_dirty with_cursor cur_x cur_y dirty_x dirty_y tmem];
    split_and!; try done; lia.
Qed.

(** A character is stored under the cursor, which moves on, inside the box. *)
Lemma put_char_inv ch s : tb_ok s → 0 <= cur_x (cd s) < cols (cd s) → 0 <= cur_y (cd s) < rows (cd s) →
  let c := cd s in
  let m := wr8 (tmem s) (u64 (text_buf c + s32 (cur_x c + cur_y c * cols c))) ch in
  ∀ s', tmem s' = m → same_box c (cd s') → s32 (cur_x c + 1) = cur_x (cd s') → cur_y (cd s') = cur_y c →
  dirty_x (cd s') = Z.max (dirty_x c) (cur_x (cd s')) → dirty_y (cd s') = Z.max (dirty_y c) (cur_y c) →
  tb_inv s' ∧ keeps s s'.
Proof.
  intros [Hsz Hpl Hdi Hbl] Hx Hy c m s' Em B Ex Ey Dx Dy. fold c in Hsz, Hpl, Hdi, Hbl, Hx, Hy. unfold cells in *.
  rewrite s32_small in Ex by nia. assert (0 <= cur_x c + cur_y c * cols c < cols c * rows c) as Hi by nia.
  assert (∀ a, a ≠ text_buf c + (cur_x c + cur_y c * cols c) → rd8 (tmem s') a = rd8 (tmem s) a) as Hm.
  { intros a Ha. rewrite Em. unfold m. by rewrite s32_small, u64_small, rd8_wr8, decide_False by lia. }
  pose proof B as (B1 & B2 & B3 & B4). split; [split|split; [done|]].
  - split; unfold cells; rewrite ?B1, ?B2, ?B3; [done|done|lia|]. intros i Hi'. unfold cell. rewrite B3.
    assert (dirty_y c * cols c <= dirty_y (cd s') * cols c ∧ cur_y c * cols c <= dirty_y (cd s') * cols c) as Hmul by nia.
    rewrite Hm by lia. apply Hbl. fold c. lia.
  - rewrite B1, B2. lia.
  - intros a Ha. apply Hm. unfold off_box, cells in Ha. fold c in Ha. lia.
Qed.

Lemma fwrite_char_inv ch s : tb_inv s → tb_inv (fwrite_char ch s) ∧ keeps s (fwrite_char ch s).
Proof.
  intros Hs. pose proof Hs as [Ho Hc]. destruct (newline_inv s Hs) as (No & Nk & Nx & Ny). unfold fwrite_char.
  destruct (truth (isprint ch)).
  - set (s1 := if cur_x (cd s) =? cols (cd s) then newline s else s). assert (tb_ok s1 ∧ keeps s s1 ∧
      0 <= cur_x (cd s1) < cols (cd s1) ∧ 0 <= cur_y (cd s1) < rows (cd s1)) as (H1 & K1 & X1 & Y1).
    { unfold s1. destruct (Z.eqb_spec (cur_x (cd s)) (cols (cd s))).
      - pose proof (proj1 Nk) as (B1 & B2 & _). destruct Ho as [Hsz _ _ _]. rewrite B1, B2, Nx. split_and!; try done; lia.
      - split_and!; try done; lia || apply box_keeps_refl. }
    set (c := cd s1). pose (m := wr8 (tmem s1) (u64 (text_buf c + s32 (cur_x c + cur_y c * cols c))) ch).
    destruct (invalidate_mem (cur_x c) (cur_y c) (set_tmem (λ m, wr8 m (u64 (text_buf c + s32 (cur_x c + cur_y c * cols c))) ch) s1)) as [Ec Em].
    cbv zeta. set (s2 := invalidate_loc _ _ _) in *. change (cd s2 = c) in Ec. change (tmem s2 = m) in Em. clearbody s2.
    destruct (moved_fields s2) as (F1 & F2 & F3 & F4 & F5 & F6). set (s3 := if dirty_y _ <? _ then _ else _) in *.
    rewrite Ec in F2, F3, F4, F5, F6. destruct (put_char_inv ch s1 H1 X1 Y1 s3) as [I3 K3]; [by rewrite F1, Em|done..|].
    split; [done|]. by eapply box_keeps_trans.
  - assert (∀ s', tb_ok s' → keeps s s' → 0 <= cur_x (cd s') <= cols (cd s') → 0 <= cur_y (cd s') < rows (cd s') →
      let s2 := if dirty_y (cd s') <? cur_y (cd s') then set_cd (λ c, with_dirty (dirty_x c) (cur_y c) c) s' else s' in
      tb_inv s2 ∧ keeps s s2) as Hd.
    { intros s' [Hsz Hpl Hdi Hbl] K X Y. cbv zeta. destruct (Z.ltb_spec (dirty_y (cd s')) (cur_y (cd s'))); [|done].
      split; [|done]. split; [|done]. split; cbn; unfold cells in *; cbn; [done|done|lia|]. intros i Hi. apply Hbl. nia. }
    pose proof (proj1 Nk) as (B1 & B2 & _). destruct (ch =? 10).
    + apply Hd; [done|done|rewrite Nx, B1; lia|rewrite B2; lia].
    + apply Hd; [done|apply box_keeps_refl|apply Hc|apply Hc].
Qed.

Lemma align_top_left n c : align c = 0 → align_cursor n c = with_cursor 0 0 c.
Proof. intros E. unfold align_cursor. by rewrite E. Qed.

Lemma cstring_nth m p l i : cstring m p l → 0 <= i < Z.of_nat (length l) → rd8 m (p + i) = letter l i.
Proof.
  revert p i. induction l as [|c l IH]; intros p i Hc Hi; [cbn in Hi; lia|]. cbn [cstring length] in *. destruct Hc as (<- & _ & Hc).
  unfold letter. destruct (decide (i = 0)) as [->|Hne]; [by rewrite Z.add_0_r|].
  replace (Z.to_nat i) with (S (Z.to_nat (i - 1))) by lia. cbn [nth]. replace (p + i) with (p + 1 + (i - 1)) by lia. apply IH; [done|lia].
Qed.

Lemma strnlen_full m a n ret : (∀ i, 0 <= i < Z.of_nat n → rd8 m (a + i) ≠ 0) → 0 <= ret → ret + Z.of_nat n < 2 ^ 64 →
  strnlen_loop n m a ret = ret + Z.of_nat n.
Proof.
  revert a ret. induction n as [|n IH]; intros a ret Hz H0 H1; cbn [strnlen_loop].
  - rewrite Z.add_0_r. by destruct (rd8 m a =? 0).
  - destruct (Z.eqb_spec (rd8 m a) 0) as [E|_]; [exfalso; apply (Hz 0); [lia|by rewrite Z.add_0_r]|].
    rewrite u64_small by lia. rewrite IH; [lia| |lia|lia]. intros i Hi. replace (a + 1 + i) with (a + (i + 1)) by lia. apply Hz. lia.
Qed.

Lemma letter_nonzero l j : Forall printable l → letter l j ≠ 0.
Proof.
  intros Hl. unfold letter. destruct (nth_in_or_default (Z.to_nat j) l 32) as [Hin| ->]; [|done].
  rewrite Forall_forall in Hl. apply list_elem_of_In, Hl in Hin. unfold printable in Hin. lia.
Qed.

Lemma letter_behind l j : Z.of_nat (length l) <= j → letter l j = 32.
Proof. intros Hj. unfold letter. apply nth_overflow. lia. Qed.

(** The letters of [l1], and of [l2] from the first cell on when [l1] has filled
    a box of one line. *)
Definition typed_over (c0 : console_data) (m0 : mem) (l1 l2 : list Z) (i : Z) (s : tb) : Prop :=
  if decide (i <= Z.of_nat (length l1)) then typed c0 m0 l1 i s else typed c0 m0 l2 (i - Z.of_nat (length l1)) s.

Lemma typed_blank c0 m0 l l' s : typed c0 m0 l 0 s → typed c0 m0 l' 0 s.
Proof. intros [B A C D E F]. split; try done. intros j Hj. rewrite E by done. by rewrite !decide_False by lia. Qed.

(** Behind the last cell of a box of one line the box starts over. *)
Lemma typed_restart c0 m0 l1 l2 s :
  0 < cols c0 ∧ rows c0 = 1 ∧ cells c0 < 2 ^ 31 → 0 <= text_buf c0 ∧ text_buf c0 + cells c0 <= 2 ^ 63 →
  Z.of_nat (length l1) = cells c0 → typed c0 m0 l1 (Z.of_nat (length l1)) s →
  cur_x (cd s) = cols (cd s) ∧ typed c0 m0 l2 0 (newline s) ∧ cur_x (cd (newline s)) ≠ cols (cd (newline s)).
Proof.
  intros Hsz Hpl Hl [(B1 & B2 & B3 & B4) At Cu Di Ce Re]. unfold cells in *. assert (cur_y (cd s) = 0) as Ey by lia.
  rewrite Ey in *. assert (cur_x (cd s) = cols (cd s)) as Ex by lia. split; [done|].
  assert (tb_ok s) as Ho. { split; unfold cells; rewrite ?B1, ?B2, ?B3; [lia|lia|lia|]. intros i Hi. nia. }
  destruct (scr_up_cells s Ho) as [Hu1 Hu2]. unfold newline. cbv zeta. cbn [cd set_cd cur_y with_cursor rows].
  rewrite Ey, B2, (proj1 (proj2 Hsz)). cbn [Z.add Z.eqb Pos.eqb s32]. replace (s32 1 =? 1) with true by done.
  split; [|change (0 ≠ cols (cd s)); lia]. split.
  - done.
  - change ((rows (cd s) - 1) * cols c0 + 0 = 0). lia.
  - change (0 <= 0 <= cols c0 ∧ 0 <= rows (cd s) - 1 < rows c0). lia.
  - change (0 <= dirty_x (cd s) <= cols c0 ∧ rows (cd s) - 1 <= dirty_y (cd s) < rows c0). lia.
  - intros j Hj. rewrite decide_False by lia. change (cell (scr_up s) j = 32). rewrite Hu1 by (unfold cells; rewrite B1, B2; done).
    by rewrite decide_False by nia.
  - intros a Ha. rewrite <- Re by done. apply Hu2. unfold off_box, cells in *. by rewrite B1, B2, B3.
Qed.

(** [fwrite_char] at the end of a line starts a new one itself. *)
Lemma fwrite_char_newline ch s : printable ch → cur_x (cd s) = cols (cd s) → cur_x (cd (newline s)) ≠ cols (cd (newline s)) →
  fwrite_char ch s = fwrite_char ch (newline s).
Proof.
  intros Hp E1 E2. unfold fwrite_char. replace (truth (isprint ch)) with true.
  2: { unfold isprint, flag, between, printable in *. destruct (Z.leb_spec 32 ch), (Z.leb_spec ch 126); try lia; done. }
  by rewrite (proj2 (Z.eqb_eq (cur_x (cd s)) _) E1), (proj2 (Z.eqb_neq (cur_x (cd (newline s))) _) E2).
Qed.

Section fwrite.
Context (c0 : console_data) (m0 : mem) (l1 l2 : list Z) (p : Z).
Hypothesis Hsz : 0 < cols c0 ∧ 0 < rows c0 ∧ cells c0 < 2 ^ 31.
Hypothesis Hpl : 0 <= text_buf c0 ∧ text_buf c0 + cells c0 <= 2 ^ 63.
Hypothesis Hl1 : Forall printable l1 ∧ Z.of_nat (length l1) <= cells c0.
Hypothesis Hl2 : Forall printable l2 ∧ Z.of_nat (length l2) <= cells c0.
Hypothesis Hover : l2 ≠ [] → rows c0 = 1 ∧ Z.of_nat (length l1) = cells c0.
Hypothesis Hp : ∀ i, 0 <= i < Z.of_nat (length (l1 ++ l2)) → rd8 m0 (p + i) = letter (l1 ++ l2) i ∧ off_box c0 (p + i).

Lemma typed_over_step i s : 0 <= i < Z.of_nat (length (l1 ++ l2)) → typed_over c0 m0 l1 l2 i s →
  typed_over c0 m0 l1 l2 (i + 1) (fwrite_char (s8 (rd8 (tmem s) (p + i))) s).
Proof.
  intros Hi Ht. destruct (Hp i Hi) as [Ei Oi]. rewrite length_app in Hi.
  assert (rd8 (tmem s) (p + i) = letter (l1 ++ l2) i) as ->.
  { rewrite <- Ei. unfold typed_over in Ht. case_decide; by apply (ty_rest _ _ _ _ _ Ht). }
  assert (printable (letter (l1 ++ l2) i)) as Hpr.
  { unfold letter. assert (Forall printable (l1 ++ l2)) as Hf by (apply Forall_app; tauto). rewrite Forall_forall in Hf.
    apply Hf, list_elem_of_In, nth_In. rewrite length_app. lia. }
  replace (s8 (letter (l1 ++ l2) i)) with (letter (l1 ++ l2) i) by (unfold printable in Hpr; unfold s8; dlia).
  unfold typed_over in *. destruct (decide (i < Z.of_nat (length l1))) as [Hlt|Hge].
  - rewrite decide_True in Ht by lia. rewrite decide_True by lia.
    replace (letter (l1 ++ l2) i) with (letter l1 i) by (unfold letter; rewrite app_nth1; [done|lia]).
    apply typed_step; try done. lia.
  - rewrite (decide_False (P := i + 1 <= _)) by lia. set (k := i - Z.of_nat (length l1)).
    replace (letter (l1 ++ l2) i) with (letter l2 k) in *.
    2: { unfold letter. rewrite app_nth2 by lia. f_equal. lia. }
    replace (i + 1 - Z.of_nat (length l1)) with (k + 1) by lia. case_decide as Hc.
    + assert (l2 ≠ []) as Hne by (intros ->; cbn in Hi; lia). destruct (Hover Hne) as [Hr Hl].
      replace i with (Z.of_nat (length l1)) in Ht by lia. replace k with 0 in * by lia.
      destruct (typed_restart c0 m0 l1 l2 s) as (E1 & T1 & E2); try done; [lia|].
      rewrite (fwrite_char_newline _ s) by done. apply typed_step; try done. lia.
    + apply typed_step; try done. lia.
Qed.

Lemma type_bytes_over s : typed c0 m0 l1 0 s →
  typed_over c0 m0 l1 l2 (Z.of_nat (length (l1 ++ l2))) (type_bytes p (Z.of_nat (length (l1 ++ l2))) s).
Proof.
  intros Ht. unfold type_bytes. set (n := Z.of_nat (length (l1 ++ l2))) in *.
  pose proof (for_range_ind (typed_over c0 m0 l1 l2) 0 n (λ i s, fwrite_char (s8 (rd8 (tmem s) (p + i))) s) s) as Hind.
  rewrite Z.max_r in Hind by lia. apply Hind; [|intros i s' Hi Hs'; by apply typed_over_step].
  unfold typed_over. by rewrite decide_True by lia.
Qed.
End fwrite.

(** When all is typed the box holds the text and blanks. *)
Lemma typed_all l c0 m0 s : Forall printable l → 0 < cols c0 ∧ 0 < rows c0 ∧ cells c0 < 2 ^ 31 →
  0 <= text_buf c0 ∧ text_buf c0 + cells c0 <= 2 ^ 63 → typed c0 m0 l (Z.of_nat (length l)) s →
  tb_ok s ∧ same_box c0 (cd s) ∧ (∀ j, 0 <= j < cells c0 → cell s j = letter l j) ∧
  ∀ a, off_box c0 a → rd8 (tmem s) a = rd8 m0 a.
Proof.
  intros Hl Hsz Hpl [B At Cu Di Ce Re]. pose proof B as (B1 & B2 & B3 & B4). split_and!; [|done| |done].
  - split; unfold cells; rewrite ?B1, ?B2, ?B3; [done|done|lia|]. intros i Hi. unfold cells in *.
    assert (cur_y (cd s) * cols c0 <= dirty_y (cd s) * cols c0) as Hy by (apply Z.mul_le_mono_nonneg_r; lia).
    rewrite Ce by lia. rewrite decide_False by lia. done.
  - intros j Hj. rewrite Ce by done. case_decide; [done|]. symmetry. apply letter_behind. lia.
Qed.

(** ** The rectangle that is redrawn *)
(** The cells and what is left and above of them, in the window. *)
Definition area_w (c : console_data) : Z := x_offset c + cols c * c_w c.
Definition area_h (c : console_data) : Z := y_offset c + rows c * c_h c.
Definition within_area (c : console_data) (r : RECT) : Prop :=
  0 <= rx r ∧ 0 <= ry r ∧ 0 <= rw r ∧ 0 <= rh r ∧ rx r + rw r <= area_w c ∧ ry r + rh r <= area_h c.
Definition area_ok (c : console_data) : Prop :=
  0 < c_w c ∧ 0 < c_h c ∧ 0 <= x_offset c ∧ 0 <= y_offset c ∧ area_w c <= 2 ^ 29 ∧ area_h c <= 2 ^ 29.
(** Nothing to redraw yet, or a part of the area. *)
Definition inval_ok (s : tb) : Prop := inval s = Rect (-1) (-1) 0 0 ∨ within_area (cd s) (inval s).

Lemma same_box_area c c' : same_box c c' → area_w c' = area_w c ∧ area_h c' = area_h c ∧ (area_ok c → area_ok c') ∧
  c_win c' = c_win c ∧ ∀ r, within_area c r → within_area c' r.
Proof.
  intros (B1 & B2 & _ & B4). unfold shape in B4. injection B4 as _ _ _ E1 E2 E3 E4 E5 _ _.
  assert (area_w c' = area_w c ∧ area_h c' = area_h c) as [A1 A2] by (unfold area_w, area_h; split; congruence).
  split_and!; try done; unfold area_ok, within_area; rewrite ?A1, ?A2, ?E1, ?E2, ?E4, ?E5; tauto.
Qed.

(** A cell is added to the rectangle: each direction on its own. *)
Definition join_start (r a : Z) : Z := let r := if r =? -1 then a else r in if a <? r then a else r.
Definition join_size (r d a n : Z) : Z :=
  if s32 (join_start r a + d) <? s32 (a + n) then s32 (a + n - join_start r a) else d.

Lemma join_bounds r d a n N : 0 <= r ∧ 0 <= d ∧ r + d <= N ∨ r = -1 ∧ d = 0 → 0 <= a → 0 < n → a + n <= N → N <= 2 ^ 29 →
  0 <= join_start r a ∧ 0 <= join_size r d a n ∧ join_start r a + join_size r d a n <= N.
Proof.
  intros Hr Ha Hn HN HM. assert (0 <= join_start r a <= a ∧ 0 <= d ∧ join_start r a + d <= N) as Hs.
  { unfold join_start. destruct (Z.eqb_spec r (-1)); match goal with |- context [a <? ?v] => destruct (Z.ltb_spec a v) end; lia. }
  unfold join_size. rewrite !s32_small by lia. destruct (Z.ltb_spec (join_start r a + d) (a + n)); lia.
Qed.

Lemma invalidate_loc_join x y s :
  let c := cd s in
  let r := inval s in
  let a := s32 (x * c_w c + x_offset c) in
  let b := s32 (y * c_h c + y_offset c) in
  inval (invalidate_loc x y s) =
  Rect (join_start (rx r) a) (join_start (ry r) b) (join_size (rx r) (rw r) a (c_w c)) (join_size (ry r) (rh r) b (c_h c)).
Proof.
  cbv zeta. unfold invalidate_loc, join_size, join_start. cbn [inval set_inval]. set (a := s32 (x * _ + _)). set (b := s32 (y * _ + _)).
  destruct (inval s) as [r1 r2 r3 r4]. cbn [rx ry rw rh].
  destruct (r1 =? -1); cbn [rx ry rw rh]; destruct (r2 =? -1); cbn [rx ry rw rh];
    (match goal with |- context [a <? ?v] => destruct (a <? v) end); cbn [rx ry rw rh];
    (match goal with |- context [b <? ?v] => destruct (b <? v) end); cbn [rx ry rw rh];
    (match goal with |- context [?u <? s32 (a + c_w (cd s))] => destruct (u <? s32 (a + c_w (cd s))) end); cbn [rx ry rw rh];
    (match goal with |- context [?u <? s32 (b + c_h (cd s))] => destruct (u <? s32 (b + c_h (cd s))) end); reflexivity.
Qed.

Lemma invalidate_loc_ok x y s : area_ok (cd s) → 0 <= x < cols (cd s) → 0 <= y < rows (cd s) → inval_ok s →
  within_area (cd s) (inval (invalidate_loc x y s)).
Proof.
  intros (A1 & A2 & A3 & A4 & A5 & A6) Hx Hy Hi. rewrite invalidate_loc_join. unfold area_w, area_h in *.
  assert (0 <= x * c_w (cd s) ∧ (x + 1) * c_w (cd s) <= cols (cd s) * c_w (cd s)) as [P1 P2] by nia.
  assert (0 <= y * c_h (cd s) ∧ (y + 1) * c_h (cd s) <= rows (cd s) * c_h (cd s)) as [P3 P4] by nia.
  rewrite !s32_small by lia. unfold within_area, area_w, area_h. cbn [rx ry rw rh].
  unfold inval_ok, within_area, area_w, area_h in Hi.
  destruct (join_bounds (rx (inval s)) (rw (inval s)) (x * c_w (cd s) + x_offset (cd s)) (c_w (cd s))
    (x_offset (cd s) + cols (cd s) * c_w (cd s))) as (X1 & X2 & X3); try lia.
  { destruct Hi as [->|Hi]; [by right|left; lia]. }
  destruct (join_bounds (ry (inval s)) (rh (inval s)) (y * c_h (cd s) + y_offset (cd s)) (c_h (cd s))
    (y_offset (cd s) + rows (cd s) * c_h (cd s))) as (Y1 & Y2 & Y3); try lia.
  { destruct Hi as [->|Hi]; [by right|left; lia]. }
Qed.

Lemma scr_up_area s : area_ok (cd s) → tb_ok s → within_area (cd s) (inval (scr_up s)).
Proof.
  intros (A1 & A2 & A3 & A4 & A5 & A6) [Hsz _ _ _]. unfold within_area, area_w, area_h, scr_up in *. cbn [inval set_inval rx ry rw rh].
  assert (0 <= cols (cd s) * c_w (cd s) ∧ 0 <= rows (cd s) * c_h (cd s)) as [? ?] by nia. rewrite !s32_small by lia. lia.
Qed.

Lemma newline_inval s : area_ok (cd s) → tb_inv s → inval_ok s → inval_ok (newline s).
Proof.
  intros Ha [Ho _] Hi. unfold newline. cbv zeta. cbn [cd set_cd cur_y with_cursor rows].
  destruct (_ =? _); [|exact Hi]. right. exact (scr_up_area s Ha Ho).
Qed.

(** A character is stored and its cell added. *)
Lemma stored_inval f s : area_ok (cd s) → 0 <= cur_x (cd s) < cols (cd s) → 0 <= cur_y (cd s) < rows (cd s) → inval_ok s →
  within_area (cd s) (inval (invalidate_loc (cur_x (cd s)) (cur_y (cd s)) (set_tmem f s))).
Proof. intros. by apply (invalidate_loc_ok _ _ (set_tmem f s)). Qed.
Lemma inval_set_cd f s : inval (set_cd f s) = inval s.
Proof. done. Qed.

Lemma fwrite_char_inval ch s : area_ok (cd s) → tb_inv s → inval_ok s → inval_ok (fwrite_char ch s).
Proof.
  intros Ha Hs Hi. destruct (newline_inv s Hs) as (No & [Nb _] & Nx & Ny). pose proof (newline_inval s Ha Hs Hi) as Hn.
  destruct (fwrite_char_inv ch s Hs) as [_ [B _]]. destruct (same_box_area _ _ B) as (_ & _ & _ & _ & Hw).
  assert (inval (fwrite_char ch s) = Rect (-1) (-1) 0 0 ∨ within_area (cd s) (inval (fwrite_char ch s))) as [E|E];
    [|by left|right; by apply Hw].
  clear B Hw. destruct (same_box_area _ _ Nb) as (A1 & A2 & Ha' & _ & Hw).
  assert (∀ r, within_area (cd (newline s)) r → within_area (cd s) r) as Hback by (unfold within_area; by rewrite A1, A2).
  assert (∀ s', inval (if dirty_y (cd s') <? cur_y (cd s') then set_cd (λ c, with_dirty (dirty_x c) (cur_y c) c) s' else s') = inval s') as D1
    by (intros s'; by destruct (_ <? _)).
  assert (∀ s', inval (if dirty_x (cd s') <? cur_x (cd s') then set_cd (λ c, with_dirty (cur_x c) (dirty_y c) c) s' else s') = inval s') as D2
    by (intros s'; by destruct (_ <? _)).
  unfold fwrite_char. destruct (truth (isprint ch)).
  - right. destruct Hs as [Ho [Hx Hy]]. set (s1 := if cur_x (cd s) =? cols (cd s) then newline s else s).
    assert (area_ok (cd s1) ∧ 0 <= cur_x (cd s1) < cols (cd s1) ∧ 0 <= cur_y (cd s1) < rows (cd s1) ∧ inval_ok s1 ∧
      ∀ r, within_area (cd s1) r → within_area (cd s) r) as (F1 & F2 & F3 & F4 & F5).
    { unfold s1. destruct Nb as (B1 & B2 & _). destruct Ho as [Hsz _ _ _].
      destruct (Z.eqb_spec (cur_x (cd s)) (cols (cd s))) as [E|E]; split_and!; try done; try lia. by apply Ha'. }
    clearbody s1. cbv zeta. rewrite D1, D2, inval_set_cd. by apply F5, stored_inval.
  - rewrite D1. destruct (ch =? 10); [|exact Hi]. destruct Hn as [Hn|Hn]; [by left|right; by apply Hback].
Qed.

(** The whole loop. *)
Lemma type_bytes_ok ptr n s : area_ok (cd s) → tb_inv s → inval_ok s →
  let s' := type_bytes ptr n s in tb_inv s' ∧ keeps s s' ∧ inval_ok s'.
Proof.
  intros Ha Hs Hi. unfold type_bytes. apply (for_range_ind (λ _ s', tb_inv s' ∧ keeps s s' ∧ inval_ok s')).
  - split_and!; [done|apply box_keeps_refl|done].
  - intros k s' _ (I & K & R). destruct (fwrite_char_inv (s8 (rd8 (tmem s') (ptr + k))) s' I) as [I2 K2].
    split_and!; [done|by eapply box_keeps_trans|]. apply fwrite_char_inval; [|done|done]. by apply (same_box_area _ _ (proj1 K)).
Qed.

(** ** A box on the screen *)
Section screen_box.
Context {H : Type} `{HC : CHeap H}.
Context (cursor : update_bb_data → M (ew H) unit) (overlay : Z → Z → Z → Z) (GOP_Blt : Z → Z → Z → Z → Z → Z → M (ew H) Z).
Hypothesis Hcursor : cursor_ok cursor overlay.
(** The tree of the windows, the lines of the frame buffer, and where the box's
    window is. *)
Context (t : wtree) (fh wx wy : Z).
Implicit Types (s : tbox H).

(** The part of the screen a box redraws. *)
Definition text_area s : RECT := Rect wx wy (area_w (box s)) (area_h (box s)).
Definition on_window s (r : RECT) : RECT := Rect (rx r + wx) (ry r + wy) (rw r) (rh r).

(** The windows can be redrawn, the area is on the screen and the text apart from
    the back buffer and the frame buffer. *)
Record box_placed s : Prop := BoxPlaced {
  pl_scene : scene (t_ew s) t;
  pl_frame : frame_ok (t_ew s) fh;
  pl_blit : ew_can_blit (t_ew s) = 0;
  pl_window : c_win (box s) ≠ 0 ∧ is_Some (wins (t_ew s) !! c_win (box s)) ∧
    ∃ n, located (wins (t_ew s)) (EW_DESKTOP (t_ew s)) (c_win (box s)) wx wy n;
  pl_area : area_ok (box s) ∧ on_screen (t_ew s) (text_area s) ∧ bbh (t_ew s) <= 2 ^ 29;
  pl_text : apart (text_buf (box s)) (cells (box s)) (bb (t_ew s)) (bbw (t_ew s) * bbh (t_ew s) * 4) ∧
    apart (text_buf (box s)) (cells (box s)) (fb (screen (t_ew s))) (fb_stride (screen (t_ew s)) * fh * 4)
}.

(** Bytes that are no pixel of the area, in the back buffer or on the screen. *)
Definition off_area s (a : Z) : Prop :=
  off_pixels (bb (t_ew s)) (bbw (t_ew s)) (text_area s) a ∧
  off_pixels (fb (screen (t_ew s))) (fb_stride (screen (t_ew s))) (text_area s) a.

(** The windows and the screen's data are as before, the same box is on them. *)
Definition alike s s' : Prop := same_box (box s) (box s') ∧ same_but_mem (t_ew s) (t_ew s').

Lemma alike_refl s : alike s s.
Proof. split; [done|]. exists (ew_mem (t_ew s)). by rewrite with_mem_same. Qed.
Lemma same_box_trans c1 c2 c3 : same_box c1 c2 → same_box c2 c3 → same_box c1 c3.
Proof. intros (? & ? & ? & ?) (? & ? & ? & ?). unfold same_box. split_and!; congruence. Qed.
Lemma alike_trans s1 s2 s3 : alike s1 s2 → alike s2 s3 → alike s1 s3.
Proof.
  intros [B1 (m1 & E1)] [B2 (m2 & E2)]. split; [by eapply same_box_trans|]. exists m2. by rewrite E2, E1, with_mem_with.
Qed.
Lemma alike_put b s : same_box (box s) (cd b) → alike s (put_tb b s).
Proof. intros B. split; [exact B|]. by exists (tmem b). Qed.
Lemma alike_mem m s : alike s (set_box_mem (λ _, m) s).
Proof. split; [done|]. by exists m. Qed.

Lemma alike_area s s' : alike s s' → text_area s' = text_area s ∧ (∀ a, off_area s' a ↔ off_area s a).
Proof.
  intros [B (m & E)]. destruct (same_box_area _ _ B) as (A1 & A2 & _). assert (text_area s' = text_area s) as Et.
  { unfold text_area. by rewrite A1, A2. }
  split; [done|]. intros a. unfold off_area. rewrite Et, E. done.
Qed.

Lemma alike_placed s s' : alike s s' → box_placed s → box_placed s'.
Proof.
  intros Hal [P1 P2 P3 P4 [P5 P6] P7]. destruct (alike_area s s' Hal) as [Et _]. destruct Hal as [B (m & E)].
  destruct (same_box_area _ _ B) as (_ & _ & Hok & Hw & _). destruct B as (B1 & B2 & B3 & _). split; rewrite ?E, ?Hw, ?Et.
  - by apply scene_mem.
  - exact P2.
  - exact P3.
  - exact P4.
  - split; [by apply Hok|exact P6].
  - unfold cells. rewrite B1, B2, B3. exact P7.
Qed.

(** The text is not redrawn. *)
Lemma text_off_area s a : box_placed s → ¬ off_box (box s) a → off_area s a.
Proof.
  intros [P1 (F1 & F2 & F3 & F4 & F5) _ _ (_ & (_ & A1 & A2 & A3 & A4) & _) [T1 T2]] Ha. unfold off_box, apart in *. cbn [rx ry rw rh text_area] in *.
  clear P1. split; intros x y [Hx Hy]; cbn [rx ry rw rh text_area] in *.
  - pose proof (px_inside (bb (t_ew s)) (bbw (t_ew s)) (bbh (t_ew s)) x y ltac:(lia) ltac:(lia)). lia.
  - pose proof (px_inside (fb (screen (t_ew s))) (fb_stride (screen (t_ew s))) fh x y ltac:(lia) ltac:(lia)). lia.
Qed.

Lemma wp_on_ew {A} (c : M (ew H) A) (Q : A → tbox H → Prop) s :
  wp c (λ x e, Q x (TBox (box s) e)) (t_ew s) → wp (on_ew c) Q s.
Proof. unfold wp, on_ew. by destruct (c (t_ew s)) as [[x e]| |]. Qed.

(** Redrawing a part of the area. *)
Lemma redraw_spec r s : box_placed s → within_area (box s) r →
  wp (redraw cursor GOP_Blt (c_win (box s)) r) (λ _ s', box s' = box s ∧ alike s s' ∧
    displayed overlay (on_window s r) t (t_ew s) (t_ew s') ∧
    ∀ a, off_area s a → rd8 (box_mem s') a = rd8 (box_mem s) a) s.
Proof.
  intros [P1 P2 P3 (P4 & [c Hc] & n & Hl) (P5 & P6 & P8) P7] (R1 & R2 & R3 & R4 & R5 & R6). destruct P6 as (S1 & S2 & S3 & S4 & S5).
  unfold small_rect in S1. cbn [rx ry rw rh text_area] in *. assert (on_screen (t_ew s) (on_window s r)) as Hon.
  { destruct P2 as (_ & _ & F3 & _). unfold on_screen, small_rect. cbn [rx ry rw rh on_window]. lia. }
  pose proof (invalidate_spec cursor overlay GOP_Blt Hcursor (t_ew s) t (c_win (box s)) c wx wy n (Some r) fh P1 P2 P3 P4 Hc Hl) as Hw.
  cbv zeta in Hw. cbn [from_option id] in Hw. specialize (Hw (s32_small (rx r) ltac:(lia)) (s32_small (ry r) ltac:(lia)) Hon).
  unfold redraw. apply wp_on_ew. eapply wp_mono; [exact Hw|]. cbv beta. intros st e [_ Hd]. cbn [box t_ew].
  pose proof Hd as (m & E & _ & Hm). split_and!; [done| |done|].
  - split; [done|]. by exists m.
  - intros a [H1 H2]. unfold box_mem. cbn [t_ew]. rewrite E, ew_mem_with. apply Hm; intros x y [Hx Hy]; cbn [rx ry rw rh on_window] in *;
      [apply H1|apply H2]; unfold inside, text_area; cbn [rx ry rw rh]; lia.
Qed.

(** ** Writing *)
Definition box_ok s : Prop := tb_ok (view s).
Definition box_inv s : Prop := tb_inv (view s).

Lemma put_mem b s : box_mem (put_tb b s) = tmem b.
Proof. apply ew_mem_with. Qed.

(** Only the bytes of the text matter. *)
Lemma tb_ok_ext b b' : cd b' = cd b → (∀ a, ¬ off_box (cd b) a → rd8 (tmem b') a = rd8 (tmem b) a) → tb_ok b → tb_ok b'.
Proof.
  intros Ec Hm [Hsz Hpl Hdi Hbl]. split; rewrite ?Ec; try done. intros i Hi. unfold cell. rewrite Ec, Hm; [by apply Hbl|].
  unfold off_box. nia.
Qed.
Lemma tb_inv_ext b b' : cd b' = cd b → (∀ a, ¬ off_box (cd b) a → rd8 (tmem b') a = rd8 (tmem b) a) → tb_inv b → tb_inv b'.
Proof. intros Ec Hm [Ho Hc]. split; [by apply (tb_ok_ext b)|by rewrite Ec]. Qed.

(** What a call leaves: the box after its bytes, and the redrawn rectangle if
    there is one. *)
Definition written ptr n s s' : Prop :=
  let b := type_bytes ptr n (view s) in
  box s' = cd b ∧
  (inval b = Rect (-1) (-1) 0 0 ∧ box_mem s' = tmem b ∨
   within_area (box s) (inval b) ∧ displayed overlay (on_window s (inval b)) t (t_ew (put_tb b s)) (t_ew s')).

Lemma fwrite_run ptr size nmemb s : box_placed s → box_inv s →
  wp (ew_textbox_fwrite cursor GOP_Blt ptr size nmemb) (λ r s', r = nmemb ∧ alike s s' ∧ written ptr (s32 (size * nmemb)) s s' ∧
    ∀ a, off_area s a → rd8 (box_mem s') a = rd8 (tmem (type_bytes ptr (s32 (size * nmemb)) (view s))) a) s.
Proof.
  intros Hp Hs. unfold ew_textbox_fwrite, written. cbv zeta. set (n := s32 _).
  destruct (type_bytes_ok ptr n (view s) (proj1 (pl_area _ Hp)) Hs (or_introl eq_refl)) as (_ & [B _] & Hr).
  wp_step. wp_step. wp_step. wp_step. wp_step. set (b := type_bytes ptr n (view s)) in *. clearbody b.
  assert (alike s (put_tb b s)) as Hal by by apply alike_put. pose proof (alike_placed _ _ Hal Hp) as Hp1.
  destruct (alike_area _ _ Hal) as [Et Ho]. destruct Hr as [Er|Hr].
  - rewrite Er. cbn [rx ry Z.eqb Pos.eqb negb andb]. wp_step. wp_step. split_and!; [done|done|done|left; by rewrite put_mem|by rewrite put_mem].
  - unfold within_area in Hr. rewrite (proj2 (Z.eqb_neq _ _)), (proj2 (Z.eqb_neq _ _)) by lia. cbn [negb andb]. wp_step.
    eapply wp_mono; [exact (redraw_spec (inval b) (put_tb b s) Hp1 Hr)|]. cbv beta. intros _ s2 (Eb & A2 & D2 & M2). wp_step. wp_step.
    split_and!; [done|by eapply alike_trans|done|right; split; [|exact D2]|].
    + unfold within_area. destruct (same_box_area _ _ B) as (A1 & A3 & _). by rewrite A1, A3 in Hr.
    + intros a Ha. rewrite M2, put_mem by (by apply Ho). done.
Qed.

Lemma fwrite_spec ptr size nmemb s : box_placed s → box_inv s →
  wp (ew_textbox_fwrite cursor GOP_Blt ptr size nmemb) (λ r s', r = nmemb ∧ box_inv s' ∧ box_placed s' ∧ alike s s' ∧
    (∀ a, off_box (box s) a → off_area s a → rd8 (box_mem s') a = rd8 (box_mem s) a) ∧
    written ptr (s32 (size * nmemb)) s s') s.
Proof.
  intros Hp Hs. eapply wp_mono; [by apply fwrite_run|]. cbv beta. intros r s' (-> & A & W & M).
  destruct (type_bytes_ok ptr (s32 (size * nmemb)) (view s) (proj1 (pl_area _ Hp)) Hs (or_introl eq_refl)) as (I & [B K] & _).
  set (b := type_bytes _ _ _) in *. split_and!; [done| |by eapply alike_placed|done| |done].
  - apply (tb_inv_ext b); [exact (proj1 W)| |exact I]. intros a Ha. cbn [tmem view]. apply M, text_off_area; [done|].
    destruct B as (B1 & B2 & B3 & _). intros Ho. apply Ha. unfold off_box, cells in *. rewrite B1, B2, B3. exact Ho.
  - intros a H1 H2. rewrite M by done. exact (K a H1).
Qed.

(** ** Setting and getting the text *)
Lemma set_box_mem_eq f s : set_box_mem f s = set_box_mem (λ _, f (box_mem s)) s.
Proof. done. Qed.
Lemma wp_set_mem f (Q : unit → tbox H → Prop) s : Q tt (set_box_mem (λ _, f (box_mem s)) s) → wp (modify (set_box_mem f)) Q s.
Proof. done. Qed.
Lemma box_mem_set m s : box_mem (set_box_mem (λ _, m) s) = m.
Proof. apply ew_mem_with. Qed.

Lemma alike_box f s : same_box (box s) (f (box s)) → alike s (set_box f s).
Proof. intros B. split; [exact B|]. exists (ew_mem (t_ew s)). by rewrite with_mem_same. Qed.

(** Bytes that the box and its area on the screen leave alone. *)
Definition untouched s (a : Z) : Prop := off_box (box s) a ∧ off_area s a.

(** [ew_set_textbox_text] blanks the box, redraws, and writes the text from the
    first cell on. *)
Lemma set_text_run fuel w p n l (Q : Z → tbox H → Prop) s :
  box_placed s → box_ok s → align (box s) = 0 → w = c_win (box s) → p ≠ 0 → cstring (box_mem s) p l → Z.of_nat (length l) < 2 ^ 31 →
  (∀ i, 0 <= i <= Z.of_nat (length l) → untouched s (p + i)) →
  n = Z.of_nat (length l) ∨ n = EW_TEXTBOX_WHOLE_STRING ∧ (length l < fuel)%nat →
  (∀ s2, alike s s2 → typed (box s) (box_mem s2) [] 0 (view s2) → (∀ a, untouched s a → rd8 (box_mem s2) a = rd8 (box_mem s) a) →
    wp (ew_textbox_fwrite cursor GOP_Blt p 1 (Z.of_nat (length l))) (λ _ s', Q EFI_SUCCESS s') s2) →
  wp (ew_set_textbox_text cursor GOP_Blt fuel w p n) Q s.
Proof.
  intros Hpl [Hsz Hpc Hdi Hbl] Hal -> Hp Hcs Hlen Hoff Hn HQ. pose proof (proj1 (pl_window _ Hpl)) as Hw. unfold ew_set_textbox_text.
  rewrite (proj2 (Z.eqb_neq _ 0) Hw), (proj2 (Z.eqb_neq p 0) Hp). cbn [orb]. wp_step. wp_step. cbv zeta. wp_step. wp_step. wp_step.
  cbn [cd tmem view] in Hsz, Hpc, Hdi, Hbl. set (c := box s) in *. set (d := dirty_y c * cols c + dirty_x c) in *. unfold cells in *.
  assert (0 <= d <= cols c * rows c) as Hd by (unfold d; nia). rewrite (s32_small d), (u64_small d) by lia. rewrite set_box_mem_eq.
  set (m1 := memset (box_mem s) (text_buf c) 32 d). set (s1 := set_box_mem _ s).
  assert (∀ a, rd8 m1 a = if decide (text_buf c <= a < text_buf c + d) then 32 else rd8 (box_mem s) a) as Hm1.
  { intros a. unfold m1, memset. rewrite memset_loop_fill, rd8_fill, Z2Nat.id by lia. done. }
  assert (alike s s1) as A1 by apply alike_mem. pose proof (alike_placed _ _ A1 Hpl) as Hpl1.
  pose proof (pl_area _ Hpl) as ((W1 & W2 & W3 & W4 & W5 & W6) & _ & _). fold c in W1, W2, W3, W4, W5, W6. unfold area_w, area_h in W5, W6.
  assert (0 <= dirty_x c * c_w c <= cols c * c_w c ∧ 0 <= dirty_y c * c_h c <= rows c * c_h c) as [X1 X2] by nia.
  rewrite (s32_small (dirty_x c * c_w c)), (s32_small (dirty_y c * c_h c)) by lia.
  eapply wp_mono; [apply (redraw_spec (Rect 0 0 (dirty_x c * c_w c) (dirty_y c * c_h c)) s1 Hpl1)|].
  { unfold within_area, area_w, area_h. cbn [rx ry rw rh]. change (box s1) with c. lia. }
  cbv beta. intros _ s2 (Eb & A2 & _ & M2). change (box s1) with c in Eb. unfold s1 in M2 at 2. rewrite box_mem_set in M2.
  assert (∀ a, off_area s a → rd8 (box_mem s2) a = rd8 m1 a) as M by (intros a Ha; apply M2; by apply (alike_area _ _ A1)).
  assert (∀ a, untouched s a → rd8 (box_mem s2) a = rd8 (box_mem s) a) as Hrest.
  { intros a [U1 U2]. rewrite M, Hm1, decide_False; [done| |done]. unfold off_box, cells in U1. fold c in U1. lia. }
  wp_step. wp_step. wp_step. eapply (wp_mono _ (λ k s', k = Z.of_nat (length l) ∧ s' = s2)).
  { destruct Hn as [->|[-> Hf]].
    - destruct (Z.eqb_spec (Z.of_nat (length l)) EW_TEXTBOX_WHOLE_STRING); [unfold EW_TEXTBOX_WHOLE_STRING in *; lia|]. by wp_step.
    - rewrite Z.eqb_refl. eapply wp_lift; [apply (strlen_loop_spec l); [|done|lia|lia]|done].
      eapply cstring_agree; [|exact Hcs]. intros a Ha. symmetry. apply Hrest. replace a with (p + (a - p)) by lia. apply Hoff. lia. }
  cbv beta. intros k s' [-> ->]. wp_step. wp_step. wp_step.
  eapply wp_mono; [apply HQ|cbv beta; intros r s' HQ'; by wp_step].
  - apply (alike_trans s s1); [done|]. apply (alike_trans s1 s2); [done|]. apply alike_box. by rewrite Eb, align_top_left.
  - split; cbn [cd view box set_box]; rewrite ?Eb, ?align_top_left by done; cbn [cur_x cur_y dirty_x dirty_y with_cursor]; try done; try lia.
    intros j Hj. unfold cell, cells in *. cbn [tmem cd view box set_box text_buf]. rewrite Eb, align_top_left by done.
    cbn [text_buf with_cursor]. change (box_mem (set_box _ s2)) with (box_mem s2).
    rewrite decide_False, M, Hm1; [|apply text_off_area; [done|]; unfold off_box, cells; fold c; lia|lia].
    case_decide; [done|]. apply Hbl. lia.
  - exact Hrest.
Qed.

(** [s'] is [s] with the text [l] in the box, blanks behind it; nothing else has
    changed but pixels of the area. *)
Record shows_text (l : list Z) s s' : Prop := ShowsText {
  st_ok : box_ok s';
  st_placed : box_placed s';
  st_alike : alike s s';
  st_cells j : 0 <= j < cells (box s) → cell (view s') j = letter l j;
  st_rest a : untouched s a → rd8 (box_mem s') a = rd8 (box_mem s) a
}.

(** The text that is shown: [l1], or what follows it when [l1] has filled a box
    of one line. *)
Lemma set_text_over fuel w p n l1 l2 s :
  box_placed s → box_ok s → align (box s) = 0 → w = c_win (box s) → p ≠ 0 → Forall printable (l1 ++ l2) →
  Z.of_nat (length l1) <= cells (box s) → Z.of_nat (length l2) <= cells (box s) → Z.of_nat (length (l1 ++ l2)) < 2 ^ 31 →
  (l2 ≠ [] → rows (box s) = 1 ∧ Z.of_nat (length l1) = cells (box s)) →
  cstring (box_mem s) p (l1 ++ l2) → (∀ i, 0 <= i <= Z.of_nat (length (l1 ++ l2)) → untouched s (p + i)) →
  n = Z.of_nat (length (l1 ++ l2)) ∨ n = EW_TEXTBOX_WHOLE_STRING ∧ (length (l1 ++ l2) < fuel)%nat →
  wp (ew_set_textbox_text cursor GOP_Blt fuel w p n) (λ st s', st = EFI_SUCCESS ∧ shows_text (if decide (l2 = []) then l1 else l2) s s') s.
Proof.
  intros Hpd Hok Hal Hw Hp Hpr Hl1 Hl2 Hlen Hover Hcs Hoff Hn. pose proof Hok as [Hsz Hpl _ _]. pose proof Hpr as [Hp1 Hp2]%Forall_app.
  apply (set_text_run fuel w p n (l1 ++ l2)); try done. intros s2 A2 T2 R2. pose proof (alike_placed _ _ A2 Hpd) as Hpd2.
  destruct (typed_all [] (box s) (box_mem s2) (view s2)) as (O2 & _); [done|done|done|done|].
  assert (box_inv s2) as I2. { split; [exact O2|]. destruct T2 as [(B1 & B2 & _) _ Cu _ _ _]. by rewrite B1, B2. }
  set (l := if decide (l2 = []) then l1 else l2). set (b := type_bytes p (Z.of_nat (length (l1 ++ l2))) (view s2)).
  assert (Forall printable l ∧ typed (box s) (box_mem s2) l (Z.of_nat (length l)) b) as [Hl Tb].
  { pose proof (type_bytes_over (box s) (box_mem s2) l1 l2 p Hsz Hpl (conj Hp1 Hl1) (conj Hp2 Hl2) Hover) as Hf.
    assert (cstring (box_mem s2) p (l1 ++ l2)) as Hcs2.
    { eapply cstring_agree; [|exact Hcs]. intros a Ha. symmetry. apply R2. replace a with (p + (a - p)) by lia. apply Hoff. lia. }
    specialize (Hf ltac:(intros i Hi; split; [by apply (cstring_nth _ _ _ _ Hcs2)|apply Hoff; lia]) (view s2) (typed_blank _ _ _ _ _ T2)).
    fold b in Hf. unfold typed_over, l in *. rewrite length_app in Hf. destruct (decide (l2 = [])) as [->|Hne].
    - cbn [length] in Hf. rewrite Nat.add_0_r in Hf. by rewrite decide_True in Hf by lia.
    - assert (0 < Z.of_nat (length l2)) as Hlt by (destruct l2; [done|cbn [length]; lia]). rewrite decide_False in Hf by lia. split; [done|].
      by replace (Z.of_nat (length l2)) with (Z.of_nat (length l1 + length l2) - Z.of_nat (length l1)) by lia. }
  destruct (typed_all l (box s) (box_mem s2) b Hl Hsz Hpl Tb) as (Ob & Bb & Cb & Rb).
  eapply wp_mono; [apply (fwrite_run p 1 (Z.of_nat (length (l1 ++ l2))) s2 Hpd2 I2)|]. cbv beta. rewrite Z.mul_1_l, s32_small by lia. fold b.
  intros r s' (_ & A3 & [W _] & M3). fold b in W. assert (alike s s') as A by by eapply alike_trans.
  assert (∀ a, off_area s a → rd8 (box_mem s') a = rd8 (tmem b) a) as M by (intros a Ha; apply M3; by apply (alike_area _ _ A2)).
  assert (∀ a, ¬ off_box (box s) a → rd8 (box_mem s') a = rd8 (tmem b) a) as Mb by (intros a Ha; apply M; by apply text_off_area).
  pose proof Bb as (B1 & B2 & B3 & _). split; [done|]. split; [|by eapply alike_placed|done| |].
  - apply (tb_ok_ext b); [exact W| |exact Ob]. intros a Ha. apply Mb. intros Ho. apply Ha. unfold off_box, cells in *. by rewrite B1, B2, B3.
  - intros j Hj. rewrite <- (Cb j Hj). unfold cell. cbn [tmem cd view]. rewrite W, B3. apply Mb. unfold off_box. lia.
  - intros a [U1 U2]. rewrite M, Rb by done. by apply R2.
Qed.

Lemma get_text_spec l w q k s s0 :
  shows_text l s0 s → Forall printable l → w ≠ 0 → q ≠ 0 → 0 <= k < EW_TEXTBOX_WHOLE_STRING →
  q + Z.min k (cells (box s)) <= text_buf (box s) ∨ text_buf (box s) + cells (box s) <= q →
  wp (ew_get_textbox_text w q k) (λ st s', st = EFI_SUCCESS ∧ alike s s' ∧
    (∀ j, 0 <= j < Z.min k (cells (box s)) → rd8 (box_mem s') (q + j) = letter l j) ∧
    (cells (box s) < k → rd8 (box_mem s') (q + cells (box s)) = 0) ∧
    ∀ a, a < q ∨ q + k <= a → rd8 (box_mem s') a = rd8 (box_mem s) a) s.
Proof.
  intros [[Hsz Hpl Hdi _] _ [(B1 & B2 & B3 & B4) _] Hce _] Hl Hw Hq Hk Hoff. unfold ew_get_textbox_text. destruct (Z.eqb_spec w 0), (Z.eqb_spec q 0); try done. cbn [orb].
  destruct (Z.eqb_spec k EW_TEXTBOX_WHOLE_STRING); [lia|]. wp_step. wp_step. cbn [cd view] in Hsz, Hpl, Hdi. unfold cells in *. cbv zeta.
  rewrite s32_small, u64_small by nia. clear n. set (n := cols (box s) * rows (box s)) in *.
  assert (strnlen (box_mem s) (text_buf (box s)) n = n) as ->.
  { unfold strnlen. rewrite (strnlen_full _ _ (Z.to_nat n) 0); [lia| |lia|lia]. intros i Hi.
    change (cell (view s) i ≠ 0). rewrite Hce by (rewrite <- B1, <- B2; lia). by apply letter_nonzero. }
  assert (∀ c, 0 <= c <= n → let m := memcpy (box_mem s) q (text_buf (box s)) c in q + c <= text_buf (box s) ∨ text_buf (box s) + n <= q →
    (∀ j, 0 <= j < c → rd8 m (q + j) = letter l j) ∧ ∀ a, a < q ∨ q + c <= a → rd8 m a = rd8 (box_mem s) a) as Hcopy.
  { intros c Hc m Ho. unfold m, memcpy. split; intros j Hj; rewrite memcpy_loop_spec by lia.
    - rewrite decide_True by lia. rewrite <- Hce by (rewrite <- B1, <- B2; lia). unfold cell. cbn [cd tmem view]. f_equal. lia.
    - by rewrite decide_False by lia. }
  destruct (Z.ltb_spec n k) as [Hlt|Hge].
  - rewrite Z.min_r in * by lia. destruct (Hcopy n ltac:(lia) Hoff) as [C1 C2]. wp_step. apply wp_set_mem. set (s1 := set_box_mem _ s).
    rewrite (proj2 (Z.ltb_lt n k)) by done. wp_step. apply wp_set_mem. unfold s1 at 1. rewrite box_mem_set. wp_step. rewrite box_mem_set.
    split; [done|]. split; [eapply alike_trans; apply alike_mem|]. split_and!.
    + intros j Hj. rewrite rd8_wr8, decide_False by lia. by apply C1.
    + intros _. by rewrite rd8_wr8, decide_True.
    + intros a Ha. rewrite rd8_wr8, decide_False by lia. apply C2. lia.
  - rewrite Z.min_l in * by lia. destruct (Hcopy k ltac:(lia) Hoff) as [C1 C2]. wp_step. apply wp_set_mem. rewrite (proj2 (Z.ltb_ge k k)) by lia.
    wp_step. wp_step. wp_step. rewrite box_mem_set. split; [done|]. split; [apply alike_mem|]. split_and!; [exact C1|lia|exact C2].
Qed.

(** C29. Whatever is written to a text box, it stays a text box.  Let the box be
    on the screen: its window is in a tree of windows that can be redrawn, its
    cells lie on the screen, and its text is apart from the back buffer and the
    frame buffer.  Then for any number of arbitrary bytes from anywhere
    [ew_textbox_fwrite] returns the number of members and keeps the cursor and
    the dirty mark inside the box, the text behind the dirty mark blank, and the
    size, place, colours and alignment of the box, also where it scrolls.  If it
    has a rectangle to redraw, that is a part of the area of the text, and
    [ew_invalidate_rect] makes it show the windows as they are; beside the text
    and the pixels of that area, in the back buffer and in the frame buffer, no
    memory changes, and no window does. *)
Theorem fwrite_keeps_textbox ptr size nmemb s : box_placed s → box_inv s →
  wp (ew_textbox_fwrite cursor GOP_Blt ptr size nmemb) (λ r s', r = nmemb ∧ box_inv s' ∧ box_placed s' ∧ alike s s' ∧
    (∀ a, untouched s a → rd8 (box_mem s') a = rd8 (box_mem s) a) ∧ written ptr (s32 (size * nmemb)) s s') s.
Proof.
  intros Hp Hs. eapply wp_mono; [by apply fwrite_spec|]. cbv beta. intros r s' (-> & H2 & H3 & H4 & H5 & H6).
  split; [done|]. split; [exact H2|]. split; [exact H3|]. split; [exact H4|]. split; [|exact H6]. intros a [U1 U2]. by apply H5.
Qed.

(** C30. Text boxes give back what they are given.  Put any printable text that
    fits, by its length or up to its terminator, into a box on the screen whose
    text is aligned to the top left, whatever it showed before:
    [ew_set_textbox_text] succeeds, the box holds the text from its first cell
    on, wrapped at the ends of lines, with blanks behind it, it is a well-formed
    box again, and beside the text and the pixels of its area no memory changes,
    nor any window.  [ew_get_textbox_text] then copies the text, blanks included,
    as far as its buffer goes, terminates it if the buffer is larger, and writes
    nothing else.  The alignment is a condition: with the other vertical ones
    ew_set_textbox_text takes the line from the number of columns (textbox.c, line
    280) and writes behind the text of a box with more columns than lines. *)
Theorem textbox_roundtrip fuel w p n l q k s :
  box_placed s → box_ok s → align (box s) = Z.lor EW_TEXTBOX_ALIGN_TOP EW_TEXTBOX_ALIGN_LEFT →
  w = c_win (box s) → p ≠ 0 → q ≠ 0 →
  Forall printable l → Z.of_nat (length l) <= cells (box s) → cstring (box_mem s) p l →
  (∀ i, 0 <= i <= Z.of_nat (length l) → untouched s (p + i)) →
  n = Z.of_nat (length l) ∨ n = EW_TEXTBOX_WHOLE_STRING ∧ (length l < fuel)%nat →
  0 <= k < EW_TEXTBOX_WHOLE_STRING →
  q + Z.min k (cells (box s)) <= text_buf (box s) ∨ text_buf (box s) + cells (box s) <= q →
  wp (ew_set_textbox_text cursor GOP_Blt fuel w p n) (λ st s1, st = EFI_SUCCESS ∧ shows_text l s s1 ∧
    wp (ew_get_textbox_text w q k) (λ st s2, st = EFI_SUCCESS ∧ alike s1 s2 ∧
      (∀ j, 0 <= j < Z.min k (cells (box s)) → rd8 (box_mem s2) (q + j) = letter l j) ∧
      (cells (box s) < k → rd8 (box_mem s2) (q + cells (box s)) = 0) ∧
      ∀ a, a < q ∨ q + k <= a → rd8 (box_mem s2) a = rd8 (box_mem s1) a) s1) s.
Proof.
  intros Hpd Hok Hal Hw Hp Hq Hl Hlen Hcs Hoff Hn Hk Hqo. pose proof (bx_size _ Hok) as Hsz. cbn [cd view] in Hsz.
  pose proof (set_text_over fuel w p n l [] s Hpd Hok Hal Hw Hp) as Hset. rewrite app_nil_r in Hset.
  eapply wp_mono; [apply Hset; try done; cbn [length]; lia|]. cbv beta. rewrite decide_True by done.
  intros st s1 [-> Hs]. split; [done|]. split; [exact Hs|].
  destruct (st_alike _ _ _ Hs) as [(B1 & B2 & B3 & _) _].
  assert (cells (box s1) = cells (box s)) as Ec by (unfold cells; congruence). rewrite <- Ec. rewrite <- Ec, <- B3 in Hqo.
  apply (get_text_spec l w q k s1 s); try done. rewrite Hw. apply (pl_window _ Hpd).
Qed.
End screen_box.

(** ** A box on a screen *)
(** Four columns and two lines with cells of one pixel, in the upper window of
    the two of EwCompose. *)
Definition demo_console (x y dx dy : Z) : console_data :=
  ConsoleData 4 2 0xffffff 0 0 1 1 x y 0x1000 2000 dx dy 0 0 4 2.
Definition demo_tbox (x y dx dy : Z) (m : mem) : tbox demo_pool := TBox (demo_console x y dx dy) (with_mem (λ _, m) menu_state).

Lemma no_cursor_ok : cursor_ok no_cursor (λ _ _ c, c).
Proof. intros s a _ _. unfold no_cursor. wp_step. exists (ew_mem s). rewrite with_mem_same. done. Qed.

Lemma demo_placed x y dx dy m : box_placed menu_tree 4 2 1 (demo_tbox x y dx dy m).
Proof.
  split.
  - apply scene_mem, menu_scene.
  - unfold frame_ok. cbn. split_and!; try done; left; lia.
  - done.
  - split_and!; [done|by eexists|]. exists 1%nat.
    apply (located_child _ _ 2000 (menu_window (Rect 2 1 4 2) 1000 0 0x20000) 0 0 0); [done|done|]. apply located_desktop.
  - by split_and!.
  - split; left; unfold cells; cbn; lia.
Qed.

(** Every byte below the back buffer and behind the text is left alone. *)
Lemma demo_untouched x y dx dy m a : 0x1008 <= a < 0x20000 → untouched 2 1 (demo_tbox x y dx dy m) a.
Proof.
  intros Ha. split; [right; unfold cells; cbn; lia|]. split; intros i j [Hi Hj]; cbn in *; unfold px; left; lia.
Qed.

(** Seven characters and a new line: they wrap and scroll. *)
Lemma fwrite_keeps_textbox_witness :
  let s := demo_tbox 3 1 4 1 (put_bytes (fill 8 ∅ 0x1000 32) 0x2000 [97; 98; 10; 99; 255; 101; 102; 103]) in
  wp (ew_textbox_fwrite no_cursor (λ _ _ _ _ _ _, mret 0) 0x2000 1 8) (λ r s', r = 8 ∧ box_inv s' ∧ box_placed menu_tree 4 2 1 s' ∧ alike s s' ∧
    (∀ a, untouched 2 1 s a → rd8 (box_mem s') a = rd8 (box_mem s) a) ∧ written (λ _ _ c, c) menu_tree 2 1 0x2000 8 s s') s.
Proof.
  intros s. apply (fwrite_keeps_textbox no_cursor (λ _ _ c, c) (λ _ _ _ _ _ _, mret 0) no_cursor_ok menu_tree 4 2 1 0x2000 1 8 s);
    [apply demo_placed|]. split; [|by vm_compute]. split; [by vm_compute..|].
  intros i Hi. change (1 * 4 + 4 <= i < 8) in Hi. lia.
Defined.

Lemma textbox_roundtrip_witness :
  let s := demo_tbox 3 1 0 0 (put_bytes (fill 8 ∅ 0x1000 32) 0x2000 [97; 98; 99; 100; 101; 0]) in
  wp (ew_set_textbox_text no_cursor (λ _ _ _ _ _ _, mret 0) 10 2000 0x2000 EW_TEXTBOX_WHOLE_STRING) (λ st s1, st = EFI_SUCCESS ∧
    shows_text menu_tree 4 2 1 [97; 98; 99; 100; 101] s s1 ∧
    wp (ew_get_textbox_text 2000 0x3000 20) (λ st s2, st = EFI_SUCCESS ∧ alike s1 s2 ∧
      (∀ j, 0 <= j < Z.min 20 8 → rd8 (box_mem s2) (0x3000 + j) = letter [97; 98; 99; 100; 101] j) ∧
      (8 < 20 → rd8 (box_mem s2) (0x3000 + 8) = 0) ∧
      ∀ a, a < 0x3000 ∨ 0x3000 + 20 <= a → rd8 (box_mem s2) a = rd8 (box_mem s1) a) s1) s.
Proof.
  intros s. apply (textbox_roundtrip no_cursor (λ _ _ c, c) (λ _ _ _ _ _ _, mret 0) no_cursor_ok menu_tree 4 2 1
    10 2000 0x2000 EW_TEXTBOX_WHOLE_STRING [97; 98; 99; 100; 101] 0x3000 20 s); try done.
  - apply demo_placed.
  - split; [by vm_compute|by vm_compute|by vm_compute|]. intros i Hi. change (0 <= i < 8) in Hi.
    assert (i = 0 ∨ i = 1 ∨ i = 2 ∨ i = 3 ∨ i = 4 ∨ i = 5 ∨ i = 6 ∨ i = 7) as Hc by lia.
    repeat (destruct Hc as [->|Hc]; [by vm_compute|]). subst i. by vm_compute.
  - repeat (constructor; [unfold printable; lia|]). constructor.
  - intros i Hi. apply demo_untouched. cbn in Hi. lia.
  - right. split; [done|]. cbn. lia.
  - right. unfold cells. cbn. lia.
Defined.
