(* ===== verification/EwFont.v ===== *)
(** * Font files of the EFI boot menu

    src/tload/tloadefi/efiwindow/psffont.c: [ew_load_psf_font], which reads a
    PC screen font through the streams of efilibc into two blocks of its heap.
    The font that is stored through the result pointer is an option; messages
    on [stderr] are left out. *)

From stdpp Require Import base numbers list strings gmap.
From Stdlib Require Import Lia.
From S2P Require Import Prelude Mem LibcString EwScreen EwWindow EwText EfiHeap EfiFile.
Open Scope Z_scope.

Definition PSF1_MAGIC0 : Z := 0x36.
Definition PSF1_MAGIC1 : Z := 0x04.
Definition PSF1_MODE512 : Z := 0x01.
Definition PSF2_MAGIC0 : Z := 0x72.
Definition PSF2_MAGIC1 : Z := 0xb5.
Definition PSF2_MAGIC2 : Z := 0x4a.
Definition PSF2_MAGIC3 : Z := 0x86.
Definition EFI_ABORTED : Z := 2 ^ 63 + 21.

(** struct psf1_header, struct psf2_header and struct _psffont in memory. *)
Definition sizeof_psf1_header : Z := 4.
Definition sizeof_psf2_header : Z := 32.
Definition sizeof_psffont : Z := 40.
Definition font_at (m : mem) (f : Z) : psffont :=
  PsfFont (rd64 m (f + 16)) (s32 (rd32 m (f + 24))) (s32 (rd32 m (f + 28))) (s32 (rd32 m (f + 32))) (s32 (rd32 m (f + 36))).

(** The type of the header at [hdr], 0 if it is none. *)
Definition psf_type (m : mem) (hdr : Z) : Z :=
  if (rd8 m hdr =? PSF1_MAGIC0) && (rd8 m (hdr + 1) =? PSF1_MAGIC1) then 1
  else if (rd8 m hdr =? PSF2_MAGIC0) && (rd8 m (hdr + 1) =? PSF2_MAGIC1) &&
          (rd8 m (hdr + 2) =? PSF2_MAGIC2) && (rd8 m (hdr + 3) =? PSF2_MAGIC3) then 2
  else 0.

(** The switch on the type: width, height, size and number of the characters,
    and where the file has them. *)
Definition psf_fields (m : mem) (hdr type : Z) : Z * Z * Z * Z * Z :=
  if type =? 1 then
    (8, rd8 m (hdr + 3), rd8 m (hdr + 3), (if truth (Z.land (rd8 m (hdr + 2)) PSF1_MODE512) then 512 else 256), sizeof_psf1_header)
  else (s32 (rd32 m (hdr + 28)), s32 (rd32 m (hdr + 24)), s32 (rd32 m (hdr + 20)), s32 (rd32 m (hdr + 16)), s32 (rd32 m (hdr + 8))).

Definition set_fields (f w h charsize length : Z) (m : mem) : mem :=
  wr32 (wr32 (wr32 (wr32 m (f + 32) charsize) (f + 24) w) (f + 28) h) (f + 36) length.

(** The FONT at the start of the structure. *)
Definition set_font (f w h psf_draw_glyph : Z) (m : mem) : mem := wr32 (wr32 (wr64 m (f + 8) psf_draw_glyph) f w) (f + 4) h.

Section code.
Context {H P : Type} {CO : CHeapOps H} {FO : EfiFileOps P}.
Context (call_fread : Z → Z → Z → Z → Z → M (io H P) Z).

(** Give up, with the header freed. *)
Definition give_back (hdr st : Z) : M (io H P) (Z * option Z) := on_heap (ch_free hdr) ;; mret (st, None).

(** When the bitmaps are there. *)
Definition finish_font (psf_draw_glyph fd f hdr w h : Z) : M (io H P) (Z * option Z) :=
  _ ← fclose fd;
  modify (with_mem (set_font f w h psf_draw_glyph)) ;;
  on_heap (ch_free hdr) ;;
  mret (EFI_SUCCESS, Some f).

(** The bitmaps, from where the stream is. *)
Definition load_bitmaps (psf_draw_glyph fd f hdr w h charsize length : Z) : M (io H P) (Z * option Z) :=
  let to_read := u64 (s32 (length * charsize)) in
  fbuf ← on_heap (ch_malloc to_read);
  modify (with_mem (λ m, wr64 m (f + 16) fbuf)) ;;
  if fbuf =? 0 then give_back hdr EFI_OUT_OF_RESOURCES
  else
    read ← fread call_fread fbuf 1 to_read fd;
    if negb (read =? to_read) then give_back hdr EFI_ABORTED
    else finish_font psf_draw_glyph fd f hdr w h.

(** From the header in memory on. *)
Definition load_glyphs (psf_draw_glyph fd f hdr : Z) : M (io H P) (Z * option Z) :=
  s ← get;
  let type := psf_type (io_mem s) hdr in
  if type =? 0 then give_back hdr EFI_ABORTED
  else
    let '(w, h, charsize, length, pos) := psf_fields (io_mem s) hdr type in
    modify (with_mem (set_fields f w h charsize length)) ;;
    _ ← fseek fd pos SEEK_SET;
    load_bitmaps psf_draw_glyph fd f hdr w h charsize length.

Definition ew_load_psf_font (fuel : nat) (psf_draw_glyph r font fname : Z) : M (io H P) (Z * option Z) :=
  if (font =? 0) || (fname =? 0) then mret (EFI_INVALID_PARAMETER, None)
  else
    fd ← fopen fuel fname r;
    if fd =? 0 then mret (EFI_INVALID_PARAMETER, None)
    else
      f ← on_heap (ch_malloc sizeof_psffont);
      if f =? 0 then mret (EFI_OUT_OF_RESOURCES, None)
      else
        hdr ← on_heap (ch_malloc sizeof_psf2_header);
        if hdr =? 0 then mret (EFI_OUT_OF_RESOURCES, None)
        else
          n ← fread call_fread hdr 1 sizeof_psf2_header fd;
          if negb (n =? sizeof_psf2_header) then give_back hdr EFI_ABORTED
          else load_glyphs psf_draw_glyph fd f hdr.
End code.

(** ** What a font file says *)
Record psf_info := PsfInfo { psf_start : Z; psf_w : Z; psf_h : Z; psf_size : Z; psf_count : Z }.
Definition le32 (c : list Z) (i : nat) : Z :=
  nth i c 0 + 256 * (nth (i + 1) c 0 + 256 * (nth (i + 2) c 0 + 256 * nth (i + 3) c 0)).

(** PSF1: a 4-byte header, 8 pixels wide; PSF2: sizes in the header.  A start
    of 2^31 and above is extended with its sign on the way to the file. *)
Definition psf_header (c : list Z) : option psf_info :=
  if decide (take 2 c = [0x36; 0x04]) then
    Some (PsfInfo 4 8 (nth 3 c 0) (nth 3 c 0) (if Z.odd (nth 2 c 0) then 512 else 256))
  else if decide (take 4 c = [0x72; 0xb5; 0x4a; 0x86]) then
    Some (PsfInfo (u64 (s32 (le32 c 8))) (s32 (le32 c 28)) (s32 (le32 c 24)) (s32 (le32 c 20)) (s32 (le32 c 16)))
  else None.

Lemma truth_land_1 x : truth (Z.land x 1) = Z.odd x.
Proof. change (Z.land x 1) with (Z.land x (Z.ones 1)). rewrite Z.land_ones by lia. change (2 ^ 1) with 2. rewrite Zmod_odd. by destruct (Z.odd x). Qed.

Lemma rd32_list m hdr c i : (∀ j, (j < 32)%nat → rd8 m (hdr + Z.of_nat j) = nth j c 0) → (i + 3 < 32)%nat →
  rd32 m (hdr + Z.of_nat i) = le32 c i.
Proof.
  intros Hm Hi. unfold rd32, le32. cbn [rd]. rewrite <- !Z.add_assoc. rewrite <- !Hm by lia. rewrite !Nat2Z.inj_add, !Z.add_assoc.
  change (Z.of_nat 1) with 1. change (Z.of_nat 2) with (1 + 1). change (Z.of_nat 3) with (1 + 1 + 1).
  rewrite !Z.add_assoc. lia.
Qed.

(** The bytes of the bitmaps: the product of their number and size, computed in
    32 bits. *)
Definition psf_bytes (i : psf_info) : Z := s32 (psf_count i * psf_size i).

Lemma psf_bytes_small i : 0 <= psf_count i * psf_size i < 2 ^ 31 → psf_bytes i = psf_count i * psf_size i.
Proof. intros Hi. apply s32_small. lia. Qed.

(** The sizes are values of [int], the start is a position of a file. *)
Definition is_int (z : Z) : Prop := - 2 ^ 31 <= z < 2 ^ 31.
Definition psf_ranged (i : psf_info) : Prop :=
  0 <= psf_start i < 2 ^ 64 ∧ is_int (psf_w i) ∧ is_int (psf_h i) ∧ is_int (psf_size i) ∧ is_int (psf_count i).

Lemma s32_int z : is_int (s32 z).
Proof. exact (s32_range z). Qed.

Lemma psf_header_read m hdr c : (∀ j, (j < 32)%nat → rd8 m (hdr + Z.of_nat j) = nth j c 0) → (32 <= length c)%nat →
  match psf_header c with
  | None => psf_type m hdr = 0
  | Some i => psf_type m hdr ≠ 0 ∧
      ∃ pos, psf_fields m hdr (psf_type m hdr) = (psf_w i, psf_h i, psf_size i, psf_count i, pos) ∧ psf_start i = u64 pos ∧ psf_ranged i
  end.
Proof.
  intros Hm Hlen. pose proof (Hm 0%nat ltac:(lia)) as E0. pose proof (Hm 1%nat ltac:(lia)) as E1.
  pose proof (Hm 2%nat ltac:(lia)) as E2. pose proof (Hm 3%nat ltac:(lia)) as E3. rewrite Z.add_0_r in E0.
  pose proof (rd32_list m hdr c 8 Hm ltac:(lia)) as F1. pose proof (rd32_list m hdr c 16 Hm ltac:(lia)) as F2.
  pose proof (rd32_list m hdr c 20 Hm ltac:(lia)) as F3. pose proof (rd32_list m hdr c 24 Hm ltac:(lia)) as F4.
  pose proof (rd32_list m hdr c 28 Hm ltac:(lia)) as F5. cbv [Z.of_nat Pos.of_succ_nat Pos.succ] in E1, E2, E3, F1, F2, F3, F4, F5.
  unfold psf_header, psf_type, psf_fields. rewrite E0, E1, E2, E3, F1, F2, F3, F4, F5. clear -Hlen E3.
  destruct c as [|b0 [|b1 [|b2 [|b3 c]]]]; try (cbn in Hlen; lia). cbn [take nth] in *.
  unfold PSF1_MAGIC0, PSF1_MAGIC1, PSF1_MODE512, PSF2_MAGIC0, PSF2_MAGIC1, PSF2_MAGIC2, PSF2_MAGIC3.
  destruct (decide _) as [[= -> ->]|H1].
  { cbn [Z.eqb Pos.eqb andb]. rewrite truth_land_1. split; [done|]. eexists. split; [reflexivity|]. split; [done|].
    unfold psf_ranged, is_int. pose proof (rd8_range m (hdr + 3)) as Hb. rewrite E3 in Hb. cbn in Hb |- *. destruct (Z.odd b2); lia. }
  replace ((b0 =? 54) && (b1 =? 4)) with false by (symmetry; apply andb_false_iff; rewrite !Z.eqb_neq; destruct (decide (b0 = 54)); [right; congruence|by left]).
  destruct (decide _) as [[= -> -> -> ->]|H2].
  { split; [done|]. eexists. split; [reflexivity|]. split; [done|]. cbn [psf_start psf_w psf_h psf_size psf_count].
    split_and!; [apply u64_range|apply u64_range|apply s32_int..]. }
  destruct (Z.eqb_spec b0 114) as [->|]; [|done]. destruct (Z.eqb_spec b1 181) as [->|]; [|done].
  destruct (Z.eqb_spec b2 74) as [->|]; [|done]. by destruct (Z.eqb_spec b3 134) as [->|].
Qed.

(** ** The font in memory *)
(** The fields of the font at [f] that come from the header. *)
Definition font_has (m : mem) (f : Z) (i : psf_info) : Prop :=
  s32 (rd32 m (f + 24)) = psf_w i ∧ s32 (rd32 m (f + 28)) = psf_h i ∧
  s32 (rd32 m (f + 32)) = psf_size i ∧ s32 (rd32 m (f + 36)) = psf_count i.
(** The FONT it starts with. *)
Definition font_draws (m : mem) (f glyph : Z) (i : psf_info) : Prop :=
  s32 (rd32 m f) = psf_w i ∧ s32 (rd32 m (f + 4)) = psf_h i ∧ rd64 m (f + 8) = glyph.

Lemma rd_range_same n m m' lo hi a : (∀ x, lo <= x < hi → rd8 m' x = rd8 m x) → lo <= a → a + Z.of_nat n <= hi → rd n m' a = rd n m a.
Proof. intros Hm Hl Hh. apply rd_ext. intros x Hx. apply Hm. lia. Qed.

Lemma font_has_ext m m' f i : (∀ x, f + 24 <= x < f + 40 → rd8 m' x = rd8 m x) → font_has m f i → font_has m' f i.
Proof.
  intros Hm. unfold font_has, rd32. by rewrite !(rd_range_same 4 m m' (f + 24) (f + 40)) by (done || lia).
Qed.
Lemma font_draws_ext m m' f g i : (∀ x, f <= x < f + 40 → rd8 m' x = rd8 m x) → font_draws m f g i → font_draws m' f g i.
Proof.
  intros Hm. unfold font_draws, rd32, rd64. by rewrite !(rd_range_same 4 m m' f (f + 40)), (rd_range_same 8 m m' f (f + 40)) by (done || lia).
Qed.

Lemma rd32_wr32_eq m a v : is_int v → s32 (rd32 (wr32 m a v) a) = v.
Proof.
  intros Hv. unfold rd32, wr32. rewrite (rd_wr_eq 4). change (256 ^ Z.of_nat 4) with (2 ^ 32). unfold is_int in Hv.
  change (2 ^ 31) with 2147483648 in Hv. change (2 ^ 32) with 4294967296. unfold s32. dlia.
Qed.
Lemma rd32_wr32_ne m a b v : b + 4 <= a ∨ a + 4 <= b → rd32 (wr32 m a v) b = rd32 m b.
Proof. intros Hd. apply (rd_wr_ne 4 4). lia. Qed.

Lemma set_fields_has m f i : psf_ranged i → font_has (set_fields f (psf_w i) (psf_h i) (psf_size i) (psf_count i) m) f i.
Proof.
  intros (_ & ? & ? & ? & ?). unfold set_fields, font_has. rewrite rd32_wr32_eq by done. split_and!; [..|done].
  - rewrite !(rd32_wr32_ne _ (f + 36)), (rd32_wr32_ne _ (f + 28)), rd32_wr32_eq by (done || lia). done.
  - rewrite !(rd32_wr32_ne _ (f + 36)), rd32_wr32_eq by (done || lia). done.
  - rewrite !(rd32_wr32_ne _ (f + 36)), (rd32_wr32_ne _ (f + 28)), (rd32_wr32_ne _ (f + 24)), rd32_wr32_eq by (done || lia). done.
Qed.
Lemma set_fields_outside f w h cs n m x : x < f + 24 ∨ f + 40 <= x → rd8 (set_fields f w h cs n m) x = rd8 m x.
Proof. intros Hx. unfold set_fields, wr32. by rewrite !rd8_wr_outside by lia. Qed.

Lemma set_font_outside f w h g m x : x < f ∨ f + 16 <= x → rd8 (set_font f w h g m) x = rd8 m x.
Proof. intros Hx. unfold set_font, wr32, wr64. by rewrite !rd8_wr_outside by lia. Qed.
Lemma set_font_draws m f g i : psf_ranged i → 0 <= g < 2 ^ 64 → font_draws (set_font f (psf_w i) (psf_h i) g m) f g i.
Proof.
  intros (_ & ? & ? & _) Hg. unfold font_draws, set_font. rewrite rd32_wr32_eq by done. split_and!; [|done|].
  - by rewrite rd32_wr32_ne, rd32_wr32_eq by (done || lia).
  - unfold rd64, wr32, wr64. rewrite !(rd_wr_ne 8 4) by lia. rewrite (rd_wr_eq 8). apply Z.mod_small. done.
Qed.

Section loading.
Context {H P : Type} {CO : CHeapOps H} {CH : CHeap H} {FO : EfiFileOps P} {VO : Volume P}.
Context (call_fread : Z → Z → Z → Z → Z → M (io H P) Z) (glyph : Z).
Hypothesis Hglyph : 0 <= glyph < 2 ^ 64.
Implicit Types (s : io H P) (a : aio).

(** What [ew_load_psf_font] gives for a file with the bytes [c]: the font with
    its bitmaps, or why there is none. *)
Definition font_result (c : list Z) a (r : Z * option Z) s' : Prop :=
  match r with
  | (st, Some f) => st = EFI_SUCCESS ∧ ∃ i fb, psf_header c = Some i ∧
      ch_block (heap s') f sizeof_psffont ∧ ch_block (heap s') fb (psf_bytes i) ∧ f ≠ fb ∧
      font_at (io_mem s') f = PsfFont fb (psf_w i) (psf_h i) (psf_size i) (psf_count i) ∧ font_draws (io_mem s') f glyph i ∧
      (∀ k, 0 <= k < psf_bytes i → c !! Z.to_nat (psf_start i + k) = Some (rd8 (io_mem s') (fb + k))) ∧
      represents s' a
  | (st, None) => st = EFI_OUT_OF_RESOURCES ∨ st = EFI_ABORTED ∧
      (Z.of_nat (length c) < 32 ∨ psf_header c = None ∨ ∃ i, psf_header c = Some i ∧ Z.of_nat (length c) < psf_start i + psf_bytes i)
  end.

Lemma give_back_spec hdr n st c s a a' : represents s a → ch_block (heap s) hdr n → a_streams a !! hdr = None →
  (∀ s', font_result c a' (st, None) s') → wp (give_back hdr st) (font_result c a') s.
Proof.
  intros HR Hb Hn Hres. unfold give_back. wp_step. eapply wp_mono; [by apply (free_io hdr n s a)|]. cbv beta. intros [] s' _. wp_step. apply Hres.
Qed.

(** The font without its FONT, the header and the bitmaps of [c]. *)
Record font_loaded (c : list Z) s a (fd f hdr fb : Z) (i : psf_info) : Prop := FontLoaded {
  fl_blocks : ch_block (heap s) f sizeof_psffont ∧ ch_block (heap s) hdr sizeof_psf2_header ∧
    ch_block (heap s) fb (psf_bytes i);
  fl_apart : f ≠ hdr ∧ f ≠ fb ∧ hdr ≠ fb ∧ f ≠ fd ∧ hdr ≠ fd ∧ fb ≠ fd;
  fl_table : a_streams a !! hdr = None;
  fl_fields : font_has (io_mem s) f i ∧ rd64 (io_mem s) (f + 16) = fb;
  fl_bits k : 0 <= k < psf_bytes i → c !! Z.to_nat (psf_start i + k) = Some (rd8 (io_mem s) (fb + k))
}.

Lemma finish_font_spec fd f hdr fb x i c s a : represents s a → a_streams a !! fd = Some x → psf_header c = Some i → psf_ranged i →
  font_loaded c s a fd f hdr fb i →
  wp (finish_font glyph fd f hdr (psf_w i) (psf_h i)) (font_result c (Aio (a_files a) (base.delete fd (a_streams a)) (a_next a))) s.
Proof.
  intros HR Hx Hi Hfit [(Bf & Bh & Bb) (D1 & D2 & D3 & D4 & D5 & D6) Sh [Hhas Hp] Hbits]. unfold finish_font.
  wp_step. eapply wp_mono; [by apply (close_io fd x s a)|]. cbv beta. intros _ s6 [HR6 K6]. set (a6 := Aio _ _ _) in *.
  destruct (K6 f _ ltac:(done) Bf) as [Bf6 C6]. destruct (K6 fb _ ltac:(done) Bb) as [Bb6 Cb6]. destruct (K6 hdr _ ltac:(done) Bh) as [Bh6 _].
  wp_step. wp_step. set (g7 := set_font f (psf_w i) (psf_h i) glyph).
  destruct (write_io g7 f sizeof_psffont s6 a6 HR6 Bf6) as (HR7 & Bf7 & K7).
  { intros m y Hy. apply set_font_outside. unfold sizeof_psffont in Hy. lia. }
  assert (io_mem (with_mem g7 s6) = g7 (io_mem s6)) as E7 by apply (ch_mem_set (H := H)). set (s7 := with_mem g7 s6) in *. clearbody s7.
  destruct (K7 fb _ ltac:(done) Bb6) as [Bb7 Cb7]. destruct (K7 hdr _ ltac:(done) Bh6) as [Bh7 _].
  assert (a_streams a6 !! hdr = None) as Sh6 by (unfold a6; cbn; by rewrite lookup_delete_ne).
  wp_step. eapply wp_mono; [by apply (free_io hdr sizeof_psf2_header s7 a6)|]. cbv beta. intros [] s8 [HR8 K8].
  destruct (K8 f _ ltac:(done) Bf7) as [Bf8 C8]. destruct (K8 fb _ ltac:(done) Bb7) as [Bb8 Cb8]. wp_step. split; [done|].
  unfold sizeof_psffont in *. fold (io_mem s8) in *. fold (io_mem s7) in *. fold (io_mem s6) in *. fold (io_mem s) in *.
  assert (∀ y, f + 16 <= y < f + 40 → rd8 (io_mem s8) y = rd8 (io_mem s) y) as Hkeep.
  { intros y Hy. rewrite C8, E7 by lia. unfold g7. rewrite set_font_outside by lia. by apply C6; lia. }
  exists i, fb. split_and!; try done.
  - destruct (font_has_ext (io_mem s) (io_mem s8) f i ltac:(intros y Hy; apply Hkeep; lia) Hhas) as (Q1 & Q2 & Q3 & Q4). unfold font_at.
    rewrite Q1, Q2, Q3, Q4. f_equal. unfold rd64. rewrite (rd_range_same 8 (io_mem s) _ (f + 16) (f + 40)) by (done || lia). exact Hp.
  - eapply font_draws_ext; [exact C8|]. rewrite E7. by apply set_font_draws.
  - intros k Hk. rewrite Cb8, Cb7, Cb6 by lia. by apply Hbits.
Qed.

(** At and past the end nothing is delivered. *)
Lemma delivered_end c start n : 0 <= start < 2 ^ 64 → Z.of_nat (length c) < 2 ^ 63 →
  delivered c (end_or c start) n = delivered c start n.
Proof.
  intros Hs Hc. unfold end_or. destruct (Z.eqb_spec start (2 ^ 64 - 1)) as [->|]; [|done].
  unfold delivered. rewrite decide_True, decide_False by lia. rewrite drop_ge by lia. by destruct (Z.to_nat n).
Qed.

Lemma load_bitmaps_spec fd f hdr x i c s a : represents s a → a_streams a !! fd = Some x → a_files a !! as_name x = Some c →
  as_pos x = end_or c (psf_start i) → psf_header c = Some i → psf_ranged i → 0 <= psf_bytes i →
  ch_block (heap s) f sizeof_psffont → ch_block (heap s) hdr sizeof_psf2_header → f ≠ hdr →
  a_streams a !! f = None → a_streams a !! hdr = None → font_has (io_mem s) f i →
  wp (load_bitmaps call_fread glyph fd f hdr (psf_w i) (psf_h i) (psf_size i) (psf_count i))
    (font_result c (Aio (a_files a) (base.delete fd (a_streams a)) (a_next a))) s.
Proof.
  intros HR Hx Hc Hpos Hi Hfit HN Bf Bh Hfh Sf Sh Hhas. pose proof Hfit as (Fs & _). unfold load_bitmaps. fold (psf_bytes i).
  pose proof (s32_int (psf_count i * psf_size i)) as Hint. fold (psf_bytes i) in Hint. unfold is_int in Hint.
  set (N := psf_bytes i) in *. rewrite u64_small by lia.
  wp_step. eapply wp_mono; [apply (malloc_io N s a HR); lia|]. cbv beta. intros fb s3 (HR3 & K3 & Hfb).
  wp_step. wp_step. assert (f ≠ fd ∧ hdr ≠ fd) as [Hffd Hhfd] by (split; congruence).
  destruct (K3 f _ I Bf) as [Bf3 C3]. destruct (K3 hdr _ I Bh) as [Bh3 _].
  destruct (write_io (λ m, wr64 m (f + 16) fb) f sizeof_psffont s3 a HR3 Bf3) as (HR4 & Bf4 & K4).
  { intros m y Hy. unfold wr64. apply rd8_wr_outside. unfold sizeof_psffont in Hy. lia. }
  assert (io_mem (with_mem (λ m, wr64 m (f + 16) fb) s3) = wr64 (io_mem s3) (f + 16) fb) as E4 by apply (ch_mem_set (H := H)).
  set (s4 := with_mem _ s3) in *. clearbody s4. destruct (K4 hdr _ ltac:(done) Bh3) as [Bh4 _].
  destruct (Z.eqb_spec fb 0) as [->|Hnz].
  { apply (give_back_spec hdr sizeof_psf2_header _ _ _ a); [done|done|done|]. intros s'. by left. }
  destruct Hfb as [?|(Bb3 & Hfresh & Sb)]; [done|]. assert (f ≠ fb) as Hffb by (intros ->; by apply (Hfresh sizeof_psffont)).
  assert (hdr ≠ fb) as Hhfb by (intros ->; by apply (Hfresh sizeof_psf2_header)). destruct (K4 fb _ ltac:(done) Bb3) as [Bb4 _].
  wp_step. eapply wp_mono; [apply (read_io call_fread fb N fd x c s4 a HR4 Hx Hc Bb4 HN)|]. cbv beta zeta.
  destruct (vo_file_ok (vol s) (as_name x) c) as [_ Hlen]; [by rewrite (re_files _ _ HR)|]. rewrite Hpos, delivered_end by (done || lia).
  intros r s5 (-> & HR5 & Bb5 & K5 & Hgot). pose proof (length_delivered c (psf_start i) N ltac:(lia) HN) as Hdel.
  destruct (K5 hdr _ ltac:(done) Bh4) as [Bh5 _]. destruct (K5 f _ ltac:(done) Bf4) as [Bf5 C5]. set (x5 := after_read x c N) in *.
  assert (a_streams (a_set fd x5 a) !! hdr = None) as Sh5 by (cbn; by rewrite lookup_insert_ne).
  destruct (Z.eqb_spec (Z.of_nat (length (delivered c (psf_start i) N))) N) as [EN|NN]; cbn [negb].
  2: { apply (give_back_spec hdr sizeof_psf2_header _ _ _ (a_set fd x5 a)); [done|done|done|]. intros s'. right. split; [done|].
       right. right. exists i. split; [done|]. fold N. lia. }
  replace (base.delete fd (a_streams a)) with (base.delete fd (a_streams (a_set fd x5 a))) by apply delete_insert_eq.
  apply (finish_font_spec fd f hdr fb x5 i c s5 (a_set fd x5 a)); [done|apply lookup_insert_eq|done|done|].
  unfold sizeof_psffont in C3, C5. split; [done|split_and!; congruence|done| |].
  - assert (∀ y, f <= y < f + 40 → rd8 (io_mem s5) y = rd8 (wr64 (io_mem s3) (f + 16) fb) y) as C by (rewrite <- E4; exact C5). split.
    + eapply font_has_ext; [|exact Hhas]. intros y Hy. rewrite C by lia. unfold wr64. rewrite rd8_wr_outside by lia. apply C3. lia.
    + unfold rd64. rewrite (rd_range_same 8 _ _ f (f + 40) (f + 16) C) by lia. transitivity (u64 fb); [apply rd64_wr64_eq|].
      apply u64_small. pose proof (ch_block_range _ _ _ Bb5). lia.
  - intros k Hk. fold N in Hk. destruct (lookup_lt_is_Some_2 (delivered c (psf_start i) N) (Z.to_nat k)) as [b Hb]; [lia|].
    pose proof (Hgot _ _ Hb) as Eb. rewrite Z2Nat.id in Eb by lia. rewrite Eb.
    unfold delivered in Hb. case_decide; [|done]. apply lookup_take_Some in Hb as [Hb _].
    rewrite lookup_drop in Hb. rewrite <- Hb. f_equal. lia.
Qed.

Lemma load_glyphs_spec fd f hdr x c s a : represents s a → a_streams a !! fd = Some x → a_files a !! as_name x = Some c →
  ch_block (heap s) f sizeof_psffont → ch_block (heap s) hdr sizeof_psf2_header → f ≠ hdr →
  a_streams a !! f = None → a_streams a !! hdr = None → (32 <= length c)%nat →
  (∀ j, (j < 32)%nat → rd8 (io_mem s) (hdr + Z.of_nat j) = nth j c 0) → (∀ i, psf_header c = Some i → 0 <= psf_bytes i) →
  wp (load_glyphs call_fread glyph fd f hdr) (font_result c (Aio (a_files a) (base.delete fd (a_streams a)) (a_next a))) s.
Proof.
  intros HR Hx Hc Bf Bh Hfh Sf Sh Hlen Hm Hfit. unfold load_glyphs. wp_step. wp_step.
  pose proof (psf_header_read _ _ _ Hm Hlen) as Hhd. destruct (psf_header c) as [i|] eqn:Ei.
  2: { rewrite Hhd. cbn [Z.eqb]. apply (give_back_spec hdr sizeof_psf2_header _ _ _ a); [done|done|done|]. intros s'. right. split; [done|]. by right; left. }
  destruct Hhd as (Hty & pos & Hfd & Hst & Hrg). rewrite (proj2 (Z.eqb_neq _ 0)) by done. rewrite Hfd. clear Hfd Hty Hm. specialize (Hfit i eq_refl).
  wp_step. wp_step. set (g1 := set_fields f (psf_w i) (psf_h i) (psf_size i) (psf_count i)).
  destruct (write_io g1 f sizeof_psffont s a HR Bf) as (HR1 & Bf1 & K1).
  { intros m y Hy. apply set_fields_outside. unfold sizeof_psffont in Hy. lia. }
  assert (font_has (io_mem (with_mem g1 s)) f i) as Hhas1 by (unfold io_mem, with_mem, with_heap; cbn [heap]; rewrite ch_mem_set; by apply set_fields_has).
  destruct (K1 hdr _ ltac:(done) Bh) as [Bh1 _]. set (s1 := with_mem g1 s) in *. clearbody s1. wp_step.
  eapply wp_mono; [apply (seek_end_io pos fd x c s1 a); done|]. cbv beta. rewrite <- Hst. intros _ s2 [Eh HR2].
  set (x2 := AStream _ _ _ _) in *. replace (base.delete fd (a_streams a)) with (base.delete fd (a_streams (a_set fd x2 a))) by apply delete_insert_eq.
  unfold io_mem in Hhas1. rewrite <- Eh in Hhas1, Bf1, Bh1.
  apply (load_bitmaps_spec fd f hdr x2 i c s2 (a_set fd x2 a)); try done; cbn [a_set a_streams].
  - apply lookup_insert_eq.
  - rewrite lookup_insert_ne; [done|congruence].
  - rewrite lookup_insert_ne; [done|congruence].
Qed.

(** C28. A font is loaded as its file has it.  For a file that [fopen] opens, in
    the PSF1 or PSF2 format or not, [ew_load_psf_font] returns.  It gives a font
    only for a file with the header of one of the formats that is long enough
    for its bitmaps; the font then says what the header says (width 8 and the
    height for PSF1, both for PSF2), its natural size is that size, and its
    bitmaps, in a block of their own, are those of the file; the file is closed
    and all other streams are as they were.  Otherwise it was short of memory,
    or the file is too short or of another format.  The bitmaps are [psf_bytes]
    bytes: the product of the number and the size of the characters in 32 bits,
    as psffont.c computes it, which is the product itself below 2^31
    ([psf_bytes_small]).  The theorem asks that this number is not negative,
    which every PSF1 file meets; and where the product of a PSF2 header wraps
    around, the block and the part of the file that are checked and read are
    smaller than the characters the font then claims to have. *)
Theorem ew_load_psf_font_loads fuel r font fname l c s a :
  represents s a → name_at s fname l → (length l < fuel)%nat → r ≠ 0 → font ≠ 0 → fname ≠ 0 →
  wp (fopen fuel fname r) (λ p _, p ≠ 0) s → a_files a !! efi_name l = Some c →
  (∀ i, psf_header c = Some i → 0 <= psf_bytes i) →
  wp (ew_load_psf_font call_fread fuel glyph r font fname)
    (font_result c (Aio (a_files a) (a_streams a) (a_next a + 1))) s.
Proof.
  intros HR Hname Hf Hr Hfont Hfn Hopen Hc Hfit. unfold ew_load_psf_font.
  rewrite (proj2 (Z.eqb_neq font 0)), (proj2 (Z.eqb_neq fname 0)) by done. cbn [orb]. wp_step.
  eapply wp_mono; [by apply (fopen_opens fuel fname r l s a)|]. cbv beta. intros fd s1 (Hfd & Hnone & HR1). rewrite (proj2 (Z.eqb_neq fd 0)) by done.
  set (x := AStream (efi_name l) 0 0 (a_next a)). set (a1 := opened fd l a) in *. assert (a_streams a1 !! fd = Some x) as Hx by apply lookup_insert_eq.
  wp_step. eapply wp_mono; [apply (malloc_io sizeof_psffont s1 a1 HR1); done|]. cbv beta. intros f s2 (HR2 & K2 & Bf).
  destruct (Z.eqb_spec f 0) as [->|Hf0]; [wp_step; by left|]. destruct Bf as [?|(Bf & _ & Sf)]; [done|].
  wp_step. eapply wp_mono; [apply (malloc_io sizeof_psf2_header s2 a1 HR2); done|]. cbv beta. intros hdr s3 (HR3 & K3 & Bh).
  destruct (Z.eqb_spec hdr 0) as [->|Hh0]; [wp_step; by left|]. destruct Bh as [?|(Bh & Hfresh & Sh)]; [done|].
  destruct (K3 f _ I Bf) as [Bf3 _]. assert (f ≠ hdr) as Hfh by (intros ->; by apply (Hfresh sizeof_psffont)).
  wp_step. eapply wp_mono; [apply (read_io call_fread hdr sizeof_psf2_header fd x c s3 a1 HR3 Hx Hc Bh); done|]. cbv beta zeta. cbn [as_pos x].
  intros n s4 (-> & HR4 & Bh4 & K4 & Hgot). set (x4 := after_read x c sizeof_psf2_header) in *. unfold sizeof_psf2_header in *.
  pose proof (length_delivered c 0 32 ltac:(lia) ltac:(lia)) as Hdel. destruct (K4 f _ ltac:(done) Bf3) as [Bf4 _].
  assert (∀ p, p ≠ fd → a_streams a1 !! p = None → a_streams (a_set fd x4 a1) !! p = None) as Sa.
  { intros p Hp Hn. cbn [a_set a_streams]. by rewrite lookup_insert_ne. }
  assert (f ≠ fd ∧ hdr ≠ fd) as [Df Dh] by (split; congruence).
  destruct (Z.eqb_spec (Z.of_nat (length (delivered c 0 32))) 32) as [E32|N32]; cbn [negb].
  2: { apply (give_back_spec hdr 32 _ _ _ (a_set fd x4 a1)); [done|done|by apply Sa|]. intros s'. right. split; [done|]. left. lia. }
  replace (Aio (a_files a) (a_streams a) (a_next a + 1)) with
    (Aio (a_files (a_set fd x4 a1)) (base.delete fd (a_streams (a_set fd x4 a1))) (a_next (a_set fd x4 a1))).
  2: { cbn. f_equal. rewrite !delete_insert_eq. by apply delete_id. }
  apply (load_glyphs_spec fd f hdr x4 c s4); try done.
  - apply lookup_insert_eq.
  - unfold x4, after_read. by case_decide.
  - by apply Sa.
  - by apply Sa.
  - lia.
  - intros j Hj. destruct (lookup_lt_is_Some_2 c j) as [b Hb]; [lia|]. rewrite (nth_lookup_Some _ _ _ _ Hb). apply Hgot.
    unfold delivered. rewrite decide_True by lia. by rewrite lookup_take_lt, lookup_drop by lia.
Qed.
End loading.

(** ** A font on the demo volume *)
Lemma ew_load_psf_font_loads_witness :
  wp (ew_load_psf_font (λ _ _ _ _ _, undef) 20 0x1000 4120 8 4104) (font_result 0x1000 demo_font (Aio demo_files ∅ (3 + 1))) named_io.
Proof.
  apply (ew_load_psf_font_loads (λ _ _ _ _ _, undef) 0x1000 ltac:(lia) 20 4120 8 4104 (cstr "/boot/f") demo_font named_io named_aio).
  - apply named_represents.
  - apply named_at.
  - cbn. lia.
  - done.
  - done.
  - done.
  - vm_compute. discriminate.
  - by vm_compute.
  - intros i Hi. vm_compute in Hi. injection Hi as <-. vm_compute. discriminate.
Defined.

(** The font is given, with characters of 8 by 1. *)
Example load_font_runs :
  match ew_load_psf_font (λ _ _ _ _ _, undef) 20 0x1000 4120 8 4104 named_io with
  | Done ((st, Some f), s) => (st, pf_w (font_at (io_mem s) f), pf_h (font_at (io_mem s) f), rd8 (io_mem s) (fbuf (font_at (io_mem s) f) + 255))
  | _ => (1, 0, 0, 0)
  end = (0, 8, 1, 24).
Proof. by vm_compute. Qed.
