(* ===== verification/EwProgress.v ===== *)
(** * Progress bars of the EFI boot menu

    src/tload/tloadefi/efiwindow/progress.c: where the bar and its caption go,
    and the text of the caption, which joins [sprintf] of efilibc and the text
    box.  The windows a bar is made of are left out. *)

From stdpp Require Import base numbers list strings gmap.
From Stdlib Require Import Lia.
From S2P Require Import Prelude Mem LibcString Printf EfiHeap EwScreen EwWindow EwTree EwCompose EwText.
Open Scope Z_scope.

Definition EW_PROGRESS_LEFTRIGHT : Z := 0.
Definition EW_PROGRESS_RIGHTLEFT : Z := 1.
Definition EW_PROGRESS_TOPBOTTOM : Z := 2.
Definition EW_PROGRESS_BOTTOMTOP : Z := 3.

(** EW_PROGRESS with the natural size of the caption's font, if it has one. *)
Record EW_PROGRESS := EwProgress {
  linewidth : Z; progress : Z; direction : Z;
  caption_font : option (Z * Z);
  caption_font_max_w : Z; caption_font_max_h : Z
}.

Definition set_outer_bar_rect (progress_loc : RECT) : RECT := Rect 0 0 (rw progress_loc) (rh progress_loc).

Definition set_inner_bar_rect (progress_loc inner_rect : RECT) (v dir : Z) : RECT :=
  let w := rw progress_loc in
  let h := rh progress_loc in
  if dir =? EW_PROGRESS_LEFTRIGHT then Rect 0 0 (Z.quot (s32 (w * v)) 100) h
  else if dir =? EW_PROGRESS_RIGHTLEFT then
    let x := Z.quot (s32 (w * s32 (100 - v))) 100 in Rect x 0 (s32 (w - x)) h
  else if dir =? EW_PROGRESS_TOPBOTTOM then Rect 0 0 w (Z.quot (s32 (h * v)) 100)
  else if dir =? EW_PROGRESS_BOTTOMTOP then
    let y := Z.quot (s32 (h * s32 (100 - v))) 100 in Rect 0 y w (s32 (h - y))
  else inner_rect.

(** Division by a font of no size is undefined. *)
Definition set_caption_rect (progress_loc : RECT) (pi : EW_PROGRESS) (capt_rect : RECT) : outcome RECT :=
  match caption_font pi with
  | None => Done capt_rect
  | Some (natural_w, natural_h) =>
      if (natural_w =? 0) || (natural_h =? 0) then Undef
      else
        let box_w := s32 (rw progress_loc - linewidth pi * 2 - 4) in
        let box_h := s32 (rh progress_loc - linewidth pi * 2 - 4) in
        let x_scale := Z.quot box_w natural_w in
        let y_scale := Z.quot box_h natural_h in
        let x_scale := if x_scale =? 0 then 1 else x_scale in
        let y_scale := if y_scale =? 0 then 1 else y_scale in
        let f_scale := Z.min x_scale y_scale in
        let f_scale := if caption_font_max_w pi =? 0 then f_scale
                       else Z.min f_scale (Z.quot (caption_font_max_w pi) natural_w) in
        let f_scale := if caption_font_max_h pi =? 0 then f_scale
                       else Z.min f_scale (Z.quot (caption_font_max_h pi) natural_h) in
        let w := s32 (4 * f_scale * natural_w) in
        let h := s32 (1 * f_scale * natural_h) in
        Done (Rect (Z.quot (s32 (rw progress_loc - w)) 2) (Z.quot (s32 (rh progress_loc - h)) 2) w h)
  end.

(** The caption in [ew_set_progress_info]; [tbuf] is on the stack. *)
Definition set_progress_caption {H} `{CHeapOps H} (cursor : update_bb_data → M (ew H) unit)
    (GOP_Blt : Z → Z → Z → Z → Z → Z → M (ew H) Z) (fuel : nat) (caption tbuf v : Z) : M (tbox H) Z :=
  s ← get;
  r ← lift (sprintf (Some (cstr "%3i%%")) [VInt v] (box_mem s) tbuf);
  modify (set_box_mem (λ _, r.1)) ;;
  ew_set_textbox_text cursor GOP_Blt fuel caption tbuf EW_TEXTBOX_WHOLE_STRING.

(** ** The bar *)
(** [r] lies in a window of the size of [o]. *)
Definition rect_within (r o : RECT) : Prop :=
  0 <= rx r ∧ 0 <= ry r ∧ 0 <= rw r ∧ 0 <= rh r ∧ rx r + rw r <= rw o ∧ ry r + rh r <= rh o.

(** [v] percent of [n] pixels, rounded down and up. *)
Definition percent_down (n v : Z) : Z := n * v / 100.
Definition percent_up (n v : Z) : Z := - (- (n * v) / 100).

(** The bar, from the side it grows from. *)
Definition bar (o : RECT) (dir v : Z) : RECT :=
  if dir =? EW_PROGRESS_LEFTRIGHT then Rect 0 0 (percent_down (rw o) v) (rh o)
  else if dir =? EW_PROGRESS_RIGHTLEFT then Rect (rw o - percent_up (rw o) v) 0 (percent_up (rw o) v) (rh o)
  else if dir =? EW_PROGRESS_TOPBOTTOM then Rect 0 0 (rw o) (percent_down (rh o) v)
  else Rect 0 (rh o - percent_up (rh o) v) (rw o) (percent_up (rh o) v).

Definition sub_rect (r r' : RECT) : Prop :=
  rx r' <= rx r ∧ ry r' <= ry r ∧ rx r + rw r <= rx r' + rw r' ∧ ry r + rh r <= ry r' + rh r'.

Lemma down_quot n v : 0 <= v <= 100 → 0 <= n <= 21474836 → Z.quot (s32 (n * v)) 100 = percent_down n v.
Proof. intros Hv Hn. rewrite s32_small by nia. apply Z.quot_div_nonneg; nia. Qed.

Lemma up_quot n v : 0 <= v <= 100 → 0 <= n <= 21474836 →
  Z.quot (s32 (n * s32 (100 - v))) 100 = n - percent_up n v ∧ s32 (n - (n - percent_up n v)) = percent_up n v.
Proof.
  intros Hv Hn. rewrite (s32_small (100 - v)), s32_small by nia. rewrite Z.quot_div_nonneg by nia. unfold percent_up.
  replace (n * (100 - v)) with (- (n * v) + n * 100) by lia. rewrite Z.div_add by lia.
  assert (0 <= n * v <= n * 100) as Hb by nia. split; [lia|]. rewrite s32_small by dlia. lia.
Qed.

Lemma percent_bounds n v : 0 <= v <= 100 → 0 <= n →
  0 <= percent_down n v <= n ∧ 0 <= percent_up n v <= n ∧ percent_down n 0 = 0 ∧ percent_up n 0 = 0 ∧
  percent_down n 100 = n ∧ percent_up n 100 = n.
Proof.
  intros Hv Hn. unfold percent_down, percent_up. assert (0 <= n * v <= n * 100) as Hb by nia. rewrite !Z.mul_0_r. dlia.
Qed.

Lemma percent_mono n v v' : 0 <= n → v <= v' → percent_down n v <= percent_down n v' ∧ percent_up n v <= percent_up n v'.
Proof. intros Hn Hv. unfold percent_down, percent_up. assert (n * v <= n * v') as Hb by nia. dlia. Qed.

(** The bar of a progress bar shows the progress: in each of the four
    directions, for every size of window up to 21474836 pixels and every value
    from 0 to 100, [set_inner_bar_rect] gives the rectangle of exactly that
    percentage of the window (rounded down, or up where the bar grows from the
    right or the bottom) at the side the bar grows from.  It lies in the window,
    is empty at 0 and the whole window at 100, and only grows with the value. *)
Lemma progress_bar_exact o r0 v dir :
  0 <= v <= 100 → 0 <= dir <= 3 → 0 <= rw o <= 21474836 → 0 <= rh o <= 21474836 →
  let r := set_inner_bar_rect o r0 v dir in
  r = bar o dir v ∧ rect_within r (set_outer_bar_rect o) ∧
  (v = 0 → rw r = 0 ∨ rh r = 0) ∧ (v = 100 → r = set_outer_bar_rect o) ∧
  (∀ v', v <= v' <= 100 → sub_rect r (set_inner_bar_rect o r0 v' dir)).
Proof.
  intros Hv Hdir Hw Hh r. assert (∀ v, 0 <= v <= 100 → set_inner_bar_rect o r0 v dir = bar o dir v) as Hbar.
  { intros v' Hv'. unfold set_inner_bar_rect, bar. destruct (up_quot (rw o) v' Hv' Hw) as [E1 E2], (up_quot (rh o) v' Hv' Hh) as [E3 E4].
    cbv zeta. rewrite E1, E2, E3, E4, (down_quot (rw o)), (down_quot (rh o)) by done. destruct (Z.eqb_spec dir EW_PROGRESS_LEFTRIGHT); [done|].
    destruct (Z.eqb_spec dir EW_PROGRESS_RIGHTLEFT); [done|]. destruct (Z.eqb_spec dir EW_PROGRESS_TOPBOTTOM); [done|].
    rewrite (proj2 (Z.eqb_eq dir EW_PROGRESS_BOTTOMTOP)); [done|].
    unfold EW_PROGRESS_LEFTRIGHT, EW_PROGRESS_RIGHTLEFT, EW_PROGRESS_TOPBOTTOM, EW_PROGRESS_BOTTOMTOP in *. lia. }
  pose proof (percent_bounds (rw o) v Hv (proj1 Hw)) as Pw. pose proof (percent_bounds (rh o) v Hv (proj1 Hh)) as Ph.
  unfold r. rewrite (Hbar v Hv). split; [done|]. unfold rect_within, set_outer_bar_rect. split_and!.
  1-6: unfold bar; repeat case_match; cbn; lia.
  - intros ->. unfold bar; repeat case_match; cbn; lia.
  - intros ->. unfold bar; repeat case_match; f_equal; lia.
  - intros v' Hv'. rewrite Hbar by lia. pose proof (percent_mono (rw o) v v' (proj1 Hw) (proj1 Hv')) as Mw.
    pose proof (percent_mono (rh o) v v' (proj1 Hh) (proj1 Hv')) as Mh. unfold sub_rect, bar; repeat case_match; cbn; lia.
Qed.

Lemma progress_bar_exact_witness :
  let r := set_inner_bar_rect (Rect 10 10 333 20) (Rect 0 0 0 0) 50 EW_PROGRESS_RIGHTLEFT in
  r = bar (Rect 10 10 333 20) EW_PROGRESS_RIGHTLEFT 50 ∧ rect_within r (set_outer_bar_rect (Rect 10 10 333 20)) ∧
  (50 = 0 → rw r = 0 ∨ rh r = 0) ∧ (50 = 100 → r = set_outer_bar_rect (Rect 10 10 333 20)) ∧
  (∀ v', 50 <= v' <= 100 → sub_rect r (set_inner_bar_rect (Rect 10 10 333 20) (Rect 0 0 0 0) v' EW_PROGRESS_RIGHTLEFT)).
Proof. apply (progress_bar_exact (Rect 10 10 333 20) (Rect 0 0 0 0) 50 EW_PROGRESS_RIGHTLEFT); done. Defined.

(** Half of 333 pixels, from the right. *)
Example right_half : set_inner_bar_rect (Rect 10 10 333 20) (Rect 0 0 0 0) 50 EW_PROGRESS_RIGHTLEFT = Rect 166 0 167 20.
Proof. reflexivity. Qed.

(** ** The caption *)
(** The four characters of the caption are scaled as one: in a square bar the
    caption is wider than the bar. *)
Example caption_wider_than_bar :
  set_caption_rect (Rect 0 0 100 100) (EwProgress 1 50 0 (Some (8, 16)) 0 0) (Rect 0 0 0 0) = Done (Rect (-30) 10 160 80).
Proof. reflexivity. Qed.

(** [%3i%%] of a value. *)
Definition percent_text (v : Z) : list Z :=
  [(if v <? 100 then 32 else 48 + v / 100); (if v <? 10 then 32 else 48 + v / 10 mod 10); 48 + v mod 10; 37].

Lemma percent_printed v : 0 <= v <= 100 → kvprintf (Some (cstr "%3i%%")) 10 [VInt v] = Done (Pst (percent_text v) [] []).
Proof.
  intros Hv. assert (forallb (λ n, let v := Z.of_nat n in
    match kvprintf (Some (cstr "%3i%%")) 10 [VInt v] with
    | Done (Pst o [] []) => bool_decide (o = percent_text v) | _ => false end) (seq 0 101) = true) as Hall by (vm_compute; reflexivity).
  rewrite forallb_forall in Hall. specialize (Hall (Z.to_nat v) ltac:(apply in_seq; lia)). cbv zeta in Hall.
  rewrite Z2Nat.id in Hall by lia. destruct (kvprintf _ _ _) as [[o [] []]| |]; try done. apply bool_decide_eq_true in Hall. by subst o.
Qed.

Lemma percent_text_printable v : 0 <= v <= 100 → Forall printable (percent_text v).
Proof.
  intros Hv. unfold percent_text, printable. assert (0 <= v / 100 <= 1 ∧ 0 <= v / 10 mod 10 <= 9 ∧ 0 <= v mod 10 <= 9) by dlia.
  repeat (apply Forall_cons; split); try apply Forall_nil; try done; try case_match; lia.
Qed.

(** What is printed, then what was there. *)
Lemma cstring_put_bytes m p l g : Forall (λ c, 0 < c < 256) l → cstring m (p + Z.of_nat (length l)) g → cstring (put_bytes m p l) p (l ++ g).
Proof.
  intros Hl Hg. apply cstring_app. split.
  - intros i c Hi. pose proof (lookup_lt_Some _ _ _ Hi) as Hlt. pose proof (proj1 (Forall_lookup _ _) Hl _ _ Hi) as Hc. cbn in Hc.
    split; [|done]. rewrite rd8_put_bytes, decide_True by lia. replace (Z.to_nat (p + Z.of_nat i - p)) with i by lia.
    rewrite (nth_lookup_Some _ _ _ _ Hi). apply u8_small. lia.
  - eapply cstring_agree; [|exact Hg]. intros k Hk. by rewrite rd8_put_bytes, decide_False by lia.
Qed.

Section caption.
Context {H : Type} `{HC : CHeap H}.
Context (cursor : update_bb_data → M (ew H) unit) (overlay : Z → Z → Z → Z) (GOP_Blt : Z → Z → Z → Z → Z → Z → M (ew H) Z).
Hypothesis Hcursor : cursor_ok cursor overlay.
Context (t : wtree) (fh wx wy : Z).
Implicit Types (s : tbox H).

(** The state after [sprintf]. *)
Definition printed s tbuf (l : list Z) : tbox H := set_box_mem (λ _, put_bytes (box_mem s) tbuf l) s.

(** Output to memory behind the box leaves the box. *)
Lemma printed_ok s p l : box_ok s → (∀ i, 0 <= i < Z.of_nat (length l) → off_box (box s) (p + i)) → box_ok (printed s p l).
Proof.
  intros Hok Hoff. apply (tb_ok_ext (view s)); [done| |done]. cbn [cd tmem view]. intros a Ha. unfold printed.
  rewrite box_mem_set, rd8_put_bytes. case_decide as Hd; [|done]. destruct Ha. replace a with (p + (a - p)) by lia. apply Hoff. lia.
Qed.

(** The caption of a progress bar depends on a byte nobody writes.
    [sprintf] prints the value from 0 to 100 right-aligned with a percent sign
    into a buffer on the stack and does not terminate it; [ew_set_textbox_text]
    then reads up to the first zero it finds.  Let [g] be the printable bytes
    that happen to follow the buffer.  If there are none, the caption shows the
    value.  If there are one to four, it shows them and not the value: the text
    box of four columns and one line scrolls the value away. *)
Lemma progress_caption_unterminated fuel caption tbuf v g s :
  0 <= v <= 100 → box_placed t fh wx wy s → box_ok s → align (box s) = Z.lor EW_TEXTBOX_ALIGN_TOP EW_TEXTBOX_ALIGN_LEFT →
  cols (box s) = 4 → rows (box s) = 1 → caption = c_win (box s) → tbuf ≠ 0 →
  cstring (box_mem s) (tbuf + 4) g → Forall printable g → (length g <= 4)%nat → (4 + length g < fuel)%nat →
  (∀ i, 0 <= i <= 4 + Z.of_nat (length g) → untouched wx wy s (tbuf + i)) →
  wp (set_progress_caption cursor GOP_Blt fuel caption tbuf v) (λ st s', st = EFI_SUCCESS ∧
    shows_text t fh wx wy (if decide (g = []) then percent_text v else g) (printed s tbuf (percent_text v)) s') s.
Proof.
  intros Hv Hpd Hok Hal Hc Hr Hcap Htb Hg Hpg Hlen Hf Hoff. unfold set_progress_caption. wp_step. wp_step. wp_step.
  eapply wp_lift; [unfold sprintf, to_buffer; rewrite (percent_printed v Hv); cbn [obind]; reflexivity|]. cbn [fst]. wp_step. wp_step.
  change (set_box_mem _ s) with (printed s tbuf (percent_text v)). set (s1 := printed s tbuf (percent_text v)).
  assert (alike s s1) as A by apply alike_mem. assert (cells (box s) = 4) as Hcells by (unfold cells; lia).
  assert (length (percent_text v) = 4%nat) as Hl4 by done. pose proof (percent_text_printable v Hv) as Hpt.
  apply (set_text_over cursor overlay GOP_Blt Hcursor t fh wx wy fuel caption tbuf _ (percent_text v) g s1); try done.
  - by apply (alike_placed _ _ _ _ _ _ A).
  - apply printed_ok; [done|]. intros i Hi. apply Hoff. rewrite Hl4 in Hi. lia.
  - by apply Forall_app.
  - change (cells (box s1)) with (cells (box s)). rewrite Hl4. lia.
  - change (cells (box s1)) with (cells (box s)). lia.
  - rewrite length_app, Hl4. lia.
  - unfold s1, printed. rewrite box_mem_set. apply cstring_put_bytes; [|by rewrite Hl4].
    eapply Forall_impl; [exact Hpt|]. unfold printable. intros c Hc'. lia.
  - intros i Hi. apply Hoff. rewrite length_app, Hl4 in Hi. lia.
  - right. split; [done|]. rewrite length_app, Hl4. lia.
Qed.
End caption.

(** Two letters behind the buffer: the caption of 50 percent is ["ok"]. *)
Lemma progress_caption_unterminated_witness :
  let s := TBox (ConsoleData 4 1 0xffffff 0 0 1 2 0 0 0x1000 2000 0 0 0 0 4 2)
    (with_mem (λ _, put_bytes (fill 4 ∅ 0x1000 32) 0x2004 (cstr "ok")) menu_state) in
  wp (set_progress_caption no_cursor (λ _ _ _ _ _ _, mret 0) 10 2000 0x2000 50) (λ st s', st = EFI_SUCCESS ∧
    shows_text menu_tree 4 2 1 (if decide (cstr "ok" = []) then percent_text 50 else cstr "ok")
      (printed s 0x2000 (percent_text 50)) s') s.
Proof.
  intros s. apply (progress_caption_unterminated no_cursor (λ _ _ c, c) (λ _ _ _ _ _ _, mret 0) no_cursor_ok menu_tree 4 2 1
    10 2000 0x2000 50 (cstr "ok") s); try done.
  - destruct (demo_placed 0 0 0 0 (put_bytes (fill 4 ∅ 0x1000 32) 0x2004 (cstr "ok"))) as [P1 P2 P3 P4 _ _].
    split; [exact P1|exact P2|exact P3|exact P4|by split_and!|]. split; left; unfold cells; cbn; lia.
  - split; [by vm_compute..|]. intros i Hi. change (0 <= i < 4) in Hi.
    assert (i = 0 ∨ i = 1 ∨ i = 2 ∨ i = 3) as Hc by lia. repeat (destruct Hc as [->|Hc]; [by vm_compute|]). subst i. by vm_compute.
  - by repeat (apply Forall_cons; split).
  - cbn. lia.
  - cbn. lia.
  - intros i Hi. cbn in Hi. split; [right; unfold cells; cbn; lia|]. split; intros x y [Hx Hy]; cbn in *; unfold px; left; lia.
Defined.
